(* ===== verification/_CoqProject ===== *)
-Q . S2P
Prelude.v
Errors.v
Crypto.v
Transaction.v
Wasm.v
Block.v
Commit.v
Ledger.v
LedgerFacts.v
Replay.v
Merkle.v
Reference.v
Fixtures.v
ProtocolSpec.v
ConsensusTypes.v
Engine.v
EngineFacts.v
EngineRules.v
Agreement.v
Simulation.v
ConsensusReference.v
ConsensusSpec.v
EngineSpec.v
SimulationSpec.v
Sqlite.v
Store.v
StoreFacts.v
StoreSpec.v
NodeTypes.v
Config.v
Schema.v
Projection.v
Recovery.v
NodeState.v
Node.v
Api.v
Cli.v
CliDatabase.v
NodeCommands.v
Network.v
NodeSteps.v
NodeChain.v
NodeStart.v
NodeBudget.v
NodeReference.v
NodeAgreement.v
NodeMempool.v
NodeExplorer.v
NodeReindex.v
ApiFacts.v
NodeCommit.v
NodeSync.v
NodeMain.v
ApiPages.v
ApiLeaderboard.v
ApiReference.v
NodeSpec.v
ApiSpec.v
ExplorerSpec.v
CliSpec.v
CliDatabaseSpec.v
NetworkSpec.v
NodeMainSpec.v
NodeSyncSpec.v
