(* ===== verification/Prelude.v ===== *)
(** * KCoin: a verification development

    KCoin is a small proof-of-authority coin in Rust. Four crates make it up:
    [kcoin-protocol] (transactions, blocks, certificates, the ledger),
    [kcoin-consensus] (a Tendermint-like engine as a pure state machine),
    [kcoin-node] (an actor that owns a ledger, an engine and an SQLite store, and
    talks to peers and to explorers) and [kcoin-cli] (a wallet). This development
    models the first two in full; of the third the configuration, the store and
    the opening of its file, the actor, its start and its recovery, the handlers
    of the HTTP API, the network task and the binary that puts them together;
    and of the fourth the wallet files, the submission of transactions, the
    database commands and the benchmark. The paths below are under [src/crates/].

    ** How code is represented

    A Rust [u64], [u32] or [i64] is a [Z] with its range and its checked, wrapping
    or saturating operations written out ([checked_add u64_max], reduction modulo [2 ^ 64],
    [saturating_add]); a [String] is the list of its Unicode scalar values; bytes
    are [list byte]; a byte array of length N is [array N]; [BTreeMap] and [HashMap] are [gmap],
    iterated through [btree_entries] where the code iterates in key order. A
    function that returns [Result] is a [result]; a method on [&mut self] that
    returns one is a [stE S E A], whose state is kept on the error path because
    Rust keeps the mutations made before a [?]. Where the code works on a clone and
    installs it at the end, so does the model.

    ** Files, parts and their correspondence

    - This file: results, the state and error monad and its [preserves] rules,
      arrays, integers, ordered maps, and the generic lemmas.
    - [Errors], [Crypto]: [kcoin-protocol/src/error.rs], [lib.rs], [crypto.rs].
      BLAKE3, Ed25519, Bech32m and Borsh are classes of operations; their
      documented laws ([BorshLaws], [Ed25519Laws], [Bech32Laws]) are separate
      classes that only the theorems that need them assume. No law says that a
      hash is injective: collisions appear in the conclusions instead.
    - [Transaction], [Block], [Commit], [Ledger]: the files of the same names.
      A method keeps its name, qualified where two types share it.
    - [Wasm]: the exports of [kcoin-protocol/src/wasm.rs] for the browser.
    - [LedgerFacts], [Replay], [Merkle]: what a valid transaction, block and chain
      do ([tx_post], [block_post], [blocks_post]), the ledger invariant [ledger_ok].
      [ProtocolSpec]: the theorems about the protocol crate.
    - [ConsensusTypes], [Engine]: [kcoin-consensus/src/types.rs], [engine.rs]. The
      checks the embedding node supplies are the class [MessageValidator].
      [EngineFacts], [EngineRules]: the engine's invariants and its step as rules.
      [Agreement]: a network of honest engines and Byzantine validators, crashes
      and recoveries as a step relation. [ConsensusSpec], [EngineSpec]: theorems.
    - [Simulation], [SimulationSpec]: the virtual network of [simulation.rs].
    - [Sqlite], [Store]: [kcoin-node/src/storage.rs]. [Sqlite] states what the code
      relies on of SQLite: statements are atomic, a transaction becomes durable at
      its commit and only there, dropping one rolls it back, any statement can
      fail (a script of failures is part of the connection's state), a poisoned
      lock stays poisoned. The tables of [SCHEMA] are maps with their uniqueness
      constraints. [StoreFacts]: each operation as one [effect] on the durable
      database. [StoreSpec]: theorems.
    - [Schema]: [Store::open]: a database file is its tables with their columns,
      its indexes and its rows ([DiskFile]); [SCHEMA], the columns added later and
      the pragmas are statements that can fail one by one. [upgraded] is what a
      file of an earlier version stands for.
    - [Config]: [kcoin-node/src/config.rs]; what the file system answers is a
      [Filesystem].
    - [NodeTypes], [Projection], [Recovery], [NodeState], [Node], [NodeCommands]:
      [kcoin-node/src/runtime.rs], split as the file is: wire types and helpers,
      projections and replay, [initialize_consensus_recovery], the actor's fields,
      the handlers, the command loop and [start_node]. Clocks and network answers
      are scripts in the actor's state ([Environment]); what the actor sends,
      publishes or schedules is the list [na_outbox].
    - [NodeSteps]: every handler as a sequence of [actor_step]s, the rules by which
      an actor changes. [NodeChain], [NodeStart], [NodeBudget]: what the disk
      holds, what a start yields, how long the event loop runs. [NodeSpec]:
      theorems about the node. [NodeMempool]: the mempool and block production.
      [NodeAgreement]: the ledgers of two nodes.
    - [Api]: the handlers of [kcoin-node/src/api.rs]. The node goes on between two
      calls of a handler: its later states are a list ([ApiState]). [Cli]:
      [kcoin-cli/src/main.rs], with files, responses, clocks and fresh keys as
      scripts ([CliState]). [CliDatabase]: its database commands, from the file
      they open to their report. [Network]: [kcoin-node/src/network.rs] and the bridge
      of [runtime.rs]; what the libp2p swarm answers to a call comes with the
      input that causes it ([SwarmAnswers]).
    - [NodeExplorer]: the specification of the explorer's tables ([mirrors]) and
      that the actor keeps it; [NodeReindex]: that re-indexing restores it.
      [ApiFacts], [ApiPages], [ApiLeaderboard]: the reads of the API on a node
      that goes on ([api_serving]), its pages and its ranking. [ApiSpec]: theorems
      on submission, from the wallet or the browser to the mempool.
      [ExplorerSpec]: theorems on the explorer. [CliSpec], [CliDatabaseSpec],
      [NetworkSpec]: theorems on the command line, its database commands and the
      network task.
    - [NodeCommit]: on a disk that works, committing a block the ledger accepts
      succeeds ([holds], [commit_finalized_succeeds]). [NodeSync]: a node that
      answers ([server]) and one that is behind ([client]), exchanging status and
      blocks ([deliver], [exchange], [catching_up]). [NodeMain]:
      [kcoin-node/src/main.rs] and [spawn_network], with the answers of the
      environment in [MainAnswers]. [NodeMainSpec], [NodeSyncSpec]: theorems.
    - [Reference], [Fixtures], [ConsensusReference], [NodeReference],
      [ApiReference]: toy instances of the third-party interfaces and concrete
      data for the witnesses. No definition or theorem but the witnesses depends
      on them.

    ** What the theorems show

    - Ledger: [apply_transaction] and [apply_block] accept exactly the valid
      inputs, with exactly the specified effect, and change nothing on an error;
      supply is conserved, follows the issuance schedule and its cap; no
      transaction executes twice; only the signer of an account spends from it; a
      built block applies unless it is larger than a block may be, which
      [build_block] does not check; roots and tips bind histories up to hash collisions;
      every operation keeps the ledger well typed.
    - Certificates: [CommitCertificate::verify] accepts exactly the certificates of
      its specification; conflicting ones expose more than a third of the
      validators; engine and protocol certificates convert into each other.
    - Consensus: agreement below one third of dishonest validators, one vote per
      round and kind, over crashes and recoveries once it is stored, locks are
      respected, a finalization has a certificate that verifies (within the
      protocol's size), messages are broadcast only after they are stored, memory is bounded, evidence is
      sound, timeouts drive rounds, the virtual network finalizes.
    - Store: finality is permanent, a signer slot is decided once, finalizing is
      atomic, the explorer's reads return what was projected.
    - Node: over any sequence of lives a node never signs two messages for one
      slot; its disk replays to its ledger and a restart resumes with it; what a
      restart rebuilds is the recovery of the agreement theorem; the event loop
      terminates; a conflicting certificate halts the node, and a halted node
      changes nothing and announces nothing, but answers synchronization requests
      with what it has; the mempool always executes in order, so the next block is never
      refused for one of its transactions; two nodes' ledgers agree unless more
      than a third of the validators signed both sides of a fork.
    - Synchronization: a node without a key that is behind a peer ends with the
      peer's ledger and blocks after at most as many answers as blocks were
      missing; the proof goes through both handlers, the peer's disk, the wire
      format and the importing node's disk.
    - Binary: opening a database file never changes what it stands for, whatever
      statement fails, and a failed opening is completed by the next; a node that
      comes up has the configuration of its arguments, its key, its network and
      the ledger of its disk, and one
      without a key comes up when its environment works; a validator whose
      safety row predates the height column refuses to start.
    - Explorer: after any run the tables hold exactly the finalized transactions,
      the accounts of the ledger and its summary; re-indexing restores them from
      the canonical bytes and, wherever it stops, loses no certified block; the
      verify command accepts exactly the intact databases, of this or an earlier
      version;
      every finalized block and transaction is served and nothing else, pages
      lose none, the leaderboard is the ledger's ranking within its bounds.
    - Wallet: what the browser or the command line signs is what the API reads,
      and it reaches the mempool exactly when it is valid; a wallet file gives its
      key back; the wait for finality ends; the percentiles are nearest ranks.
    - Network: gossip arrives as exactly its command on its own chain; every
      request is answered at most once; redialing is bounded and starves nobody.

    ** Bounds and fuel

    The Rust loops over collections are structural recursions. Four loops need a
    bound. [merkle_loop] runs on the length of its level, which at least halves
    ([merkle_loop_singleton], [merkle_loop_more_fuel]). The virtual network runs
    a bounded number of deliveries, as its code does. The driver's event loop
    runs at most [EVENT_BUDGET] = 8 iterations: [NodeBudget] shows that 5 suffice
    for every external event and [NodeSpec.consensus_event_terminates] that the
    bounded loop is the unbounded one. The wait for finality takes a response in
    each turn, so one turn more than there are responses is enough
    ([CliSpec.wait_for_finality_exact]). [walk_blocks], the client that follows
    cursors, is part of the specification: one page more than there are blocks
    is enough ([ExplorerSpec.explorer_pages_complete]).

    ** Not modelled

    Input and output around the functions modelled here, and third-party event
    loops: the axum router, CORS, the rendering of responses as JSON and the
    event stream of [api.rs]; the parameters of the libp2p protocols that
    [spawn_network] builds ([spawn_network] itself is modelled by what it asks of
    libp2p); task spawning, channels ([NodeHandle]), logging and signals; the
    parsing of arguments by clap, the printing of reports and the git commit of
    the benchmark of [kcoin-cli]; the TypeScript explorer. The command loop takes
    its commands as a list, in any order; a timer or a peer is whoever sends
    them. The synchronization theorem is about one peer and one node that
    answer each other in turn: no other command comes between, and every
    request and response is delivered. *)

From stdpp Require Export base tactics option list numbers strings gmap fin_maps.
From stdpp Require sorting.
From Stdlib Require Export Strings.Byte.
From Stdlib Require Export Sorting.Sorted.
From Stdlib Require Import Lia Eqdep_dec.

Open Scope Z_scope.

Declare Scope kcoin_scope.
Delimit Scope kcoin_scope with kcoin.
Open Scope kcoin_scope.

Create HintDb kcoin discriminated.

(** ** Results and stateful, fallible code

    [result E A] is Rust's [Result<A, E>]. A method taking [&mut self] and
    returning a [Result] is a [stE S E A]: the state reached is returned on the
    error path too, because Rust keeps the mutations made before a [?]. *)

Inductive result (E A : Type) : Type :=
| Ok (a : A)
| Err (e : E).
Arguments Ok {E A} a.
Arguments Err {E A} e.

#[export] Instance result_ret {E} : MRet (result E) := fun _ a => Ok a.
#[export] Instance result_bind {E} : MBind (result E) :=
  fun _ _ f m => match m with Ok a => f a | Err e => Err e end.
#[export] Instance result_fmap {E} : FMap (result E) :=
  fun _ _ f m => match m with Ok a => Ok (f a) | Err e => Err e end.
#[export] Instance result_eq_dec {E A} `{EqDecision E, EqDecision A} :
  EqDecision (result E A).
Proof. solve_decision. Defined.

(** [Result::map_err], [Option::ok_or] and the test [is_ok]. *)
Definition map_err {E F A} (f : E -> F) (m : result E A) : result F A :=
  match m with Ok a => Ok a | Err e => Err (f e) end.

Definition ok_or {E A} (o : option A) (e : E) : result E A :=
  match o with Some a => Ok a | None => Err e end.

Definition is_ok {E A} (m : result E A) : bool :=
  match m with Ok _ => true | Err _ => false end.

(** A [for x in l { f(x)?; }] loop of pure checks: the first error wins. *)
Fixpoint try_for_each {E A} (f : A -> result E ()) (l : list A) : result E () :=
  match l with
  | [] => Ok ()
  | x :: l => _ ← f x; try_for_each f l
  end.

(** [iter().map(f).collect::<Result<Vec<_>, _>>()]. *)
Fixpoint try_collect {E A B} (f : A -> result E B) (l : list A) : result E (list B) :=
  match l with
  | [] => Ok []
  | x :: l => y ← f x; ys ← try_collect f l; Ok (y :: ys)
  end.

Definition stE (S E A : Type) : Type := S -> S * result E A.

#[export] Instance stE_ret {S E} : MRet (stE S E) := fun _ a s => (s, Ok a).
#[export] Instance stE_bind {S E} : MBind (stE S E) :=
  fun _ _ f m s => match m s with
                   | (s', Ok a) => f a s'
                   | (s', Err e) => (s', Err e)
                   end.

Definition get {S E} : stE S E S := fun s => (s, Ok s).
Definition put {S E} (s : S) : stE S E () := fun _ => (s, Ok ()).
Definition modify {S E} (f : S -> S) : stE S E () := fun s => (f s, Ok ()).
Definition throw {S E A} (e : E) : stE S E A := fun s => (s, Err e).
Definition lift {S E A} (m : result E A) : stE S E A := fun s => (s, m).

(** Inversion of a run of [bind]: the two ways it can end. *)
Section stE_inversion.
Context {S E A B : Type}.
Implicit Types (m : stE S E A) (f : A -> stE S E B).

Lemma bind_Ok_inv m f s s' b :
  (m ≫= f) s = (s', Ok b) -> exists s1 a, m s = (s1, Ok a) /\ f a s1 = (s', Ok b).
Proof. unfold mbind, stE_bind. destruct (m s) as [s1 [a|e]]; naive_solver. Qed.

Lemma bind_Err_inv m f s s' e :
  (m ≫= f) s = (s', Err e) ->
  m s = (s', Err e) \/ exists s1 a, m s = (s1, Ok a) /\ f a s1 = (s', Err e).
Proof. unfold mbind, stE_bind. destruct (m s) as [s1 [a|e']]; naive_solver. Qed.

Lemma bind_run_Ok m f s s1 a : m s = (s1, Ok a) -> (m ≫= f) s = f a s1.
Proof. intros H. unfold mbind, stE_bind. by rewrite H. Qed.

Lemma bind_run_Err m f s s1 e : m s = (s1, Err e) -> (m ≫= f) s = (s1, Err e).
Proof. intros H. unfold mbind, stE_bind. by rewrite H. Qed.
End stE_inversion.

(** A computation started in [s] that can only move the state along the
    preorder [R], on every path, errors included. *)
Section preserves.
Context {S E : Type} (R : S -> S -> Prop) `{!PreOrder R}.

Definition preserves {A} (s : S) (m : stE S E A) : Prop := forall s' r, m s = (s', r) -> R s s'.

Lemma preserves_ret {A} s (a : A) : preserves s (mret a).
Proof. by intros s' r [= <- _]. Qed.

Lemma preserves_throw {A} s e : preserves (A := A) s (throw e).
Proof. by intros s' r [= <- _]. Qed.

Lemma preserves_lift {A} s (x : result E A) : preserves s (lift x).
Proof. by intros s' r [= <- _]. Qed.

Lemma preserves_modify s f : R s (f s) -> preserves s (modify f).
Proof. by intros Hf s' r [= <- _]. Qed.

Lemma preserves_bind {A B} s (m : stE S E A) (f : A -> stE S E B) :
  preserves s m -> (forall s1 a, m s = (s1, Ok a) -> preserves s1 (f a)) -> preserves s (m ≫= f).
Proof.
  intros Hm Hf s' r Hr. unfold mbind, stE_bind in Hr. destruct (m s) as [s1 [a|e]] eqn:E1.
  - transitivity s1; [by eapply Hm|by eapply Hf].
  - injection Hr as <- _. by eapply Hm.
Qed.

Lemma preserves_get {B} s (f : S -> stE S E B) : preserves s (f s) -> preserves s (get ≫= f).
Proof. intros Hf. by apply preserves_bind; [apply preserves_lift|intros s1 a [= <- <-]]. Qed.

Lemma preserves_check {A B} s (x : result E A) (f : A -> stE S E B) :
  (forall a, x = Ok a -> preserves s (f a)) -> preserves s (lift x ≫= f).
Proof. intros Hf. apply preserves_bind; [apply preserves_lift|]. intros s1 a [= <- Hx]. by apply Hf. Qed.

Lemma preserves_modify_then {B} s g (f : () -> stE S E B) :
  R s (g s) -> preserves (g s) (f ()) -> preserves s (modify g ≫= f).
Proof. intros Hg Hf. by apply preserves_bind; [apply preserves_modify|intros s1 [] [= <-]]. Qed.
End preserves.

Lemma preserves_mono {S E A} (R R' : S -> S -> Prop) s (m : stE S E A) :
  (forall s s', R s s' -> R' s s') -> preserves R s m -> preserves R' s m.
Proof. intros HR Hm s' r Hr. eauto. Qed.

(** One step of the walk through a computation. *)
Ltac walk_step :=
  match goal with
  | |- preserves _ _ (get ≫= _) => apply (preserves_get _)
  | |- preserves _ _ (lift _ ≫= _) => apply (preserves_check _); intros ? ?
  | |- preserves _ _ (lift _) => apply (preserves_lift _)
  | |- preserves _ _ (mret _) => apply (preserves_ret _)
  | |- preserves _ _ (throw _) => apply (preserves_throw _)
  | |- preserves _ _ ((if ?b then _ else _) ≫= _) => apply (preserves_bind _); [|intros ? ? _]
  | |- preserves _ _ (if ?b then _ else _) => destruct b eqn:?
  | |- preserves _ _ (match ?o with _ => _ end) => destruct o eqn:?
  end; cbv zeta.

Ltac walk_bind :=
  match goal with
  | |- preserves _ _ (_ ≫= _) => apply (preserves_bind _); [|intros ? ? _]
  end.

(** Evaluate the monad operations of a run. *)
Ltac run_get H := unfold mbind, stE_bind, get, modify, throw, lift, mret, stE_ret in H; cbn beta iota in H.

Section result_lemmas.
Context {E A B : Type}.

Lemma result_bind_Ok_inv (m : result E A) (f : A -> result E B) b :
  (m ≫= f) = Ok b -> exists a, m = Ok a /\ f a = Ok b.
Proof. destruct m; naive_solver. Qed.

Lemma result_bind_Err_inv (m : result E A) (f : A -> result E B) e :
  (m ≫= f) = Err e -> m = Err e \/ exists a, m = Ok a /\ f a = Err e.
Proof. destruct m; naive_solver. Qed.

Lemma ok_or_Ok_inv (o : option A) (e : E) a : ok_or o e = Ok a -> o = Some a.
Proof. destruct o; naive_solver. Qed.

Lemma map_err_Ok_inv {F} (f : E -> F) (m : result E A) a : map_err f m = Ok a -> m = Ok a.
Proof. destruct m; naive_solver. Qed.

End result_lemmas.

Section try_lemmas.
Context {E A B : Type}.

Lemma try_for_each_Ok (f : A -> result E ()) l :
  try_for_each f l = Ok () <-> Forall (fun x => f x = Ok ()) l.
Proof.
  induction l as [|x l IH]; simpl; [by split; auto|].
  rewrite Forall_cons, <- IH. clear IH. unfold mbind, result_bind.
  destruct (f x) as [[]|e]; split; [by auto|by intros [_ ?]|done|by intros [[=] _]].
Qed.

Lemma try_collect_Ok (f : A -> result E B) l ys :
  try_collect f l = Ok ys <-> Forall2 (fun x y => f x = Ok y) l ys.
Proof.
  revert ys. induction l as [|x l IH]; intros ys; simpl.
  - split; [intros [= <-]; constructor | intros H; by inversion H].
  - split.
    + intros (y & Hy & (ys' & Hys & [= <-])%result_bind_Ok_inv)%result_bind_Ok_inv.
      constructor; [done|]. by apply IH.
    + intros H. inversion H as [|? y ? ys' Hy Hys]; subst.
      apply IH in Hys. rewrite Hy; simpl. by rewrite Hys.
Qed.
End try_lemmas.

(** Split the innermost tested value of a hypothesis, and close the branches
    that contradict what is known. *)
Ltac match_in H :=
  match type of H with
  | context [match ?x with _ => _ end] =>
      lazymatch x with context [match _ with _ => _ end] => fail | _ => destruct x eqn:? end
  end.
Ltac invert_checks H := repeat (match_in H; simplify_eq/=; try done).

(** Rewrite with the value of a test that a given tactic can settle. *)
Ltac settle_tests tac :=
  repeat match goal with
  | |- context [@bool_decide ?P ?d] =>
      first [rewrite (@bool_decide_eq_true_2 P d) by tac
            |rewrite (@bool_decide_eq_false_2 P d) by tac]
  | |- context [Z.ltb ?a ?b] =>
      first [rewrite (proj2 (Z.ltb_lt a b)) by tac | rewrite (proj2 (Z.ltb_ge a b)) by tac]
  | |- context [Z.leb ?a ?b] =>
      first [rewrite (proj2 (Z.leb_le a b)) by tac | rewrite (proj2 (Z.leb_gt a b)) by tac]
  | |- context [Z.eqb ?a ?b] =>
      first [rewrite (proj2 (Z.eqb_eq a b)) by tac | rewrite (proj2 (Z.eqb_neq a b)) by tac]
  end; simpl.

Ltac invert_bind :=
  match goal with
  | H : mbind _ ?m ?s = (_, Ok _) |- _ =>
      apply bind_Ok_inv in H; destruct H as (? & ? & ? & H)
  | H : mbind _ ?m = Ok _ |- _ =>
      apply result_bind_Ok_inv in H; destruct H as (? & ? & H)
  | H : ok_or _ _ = Ok _ |- _ => apply ok_or_Ok_inv in H
  | H : map_err _ _ = Ok _ |- _ => apply map_err_Ok_inv in H
  end.

(** ** Machine integers

    A [u8], [u16], [u32], [u64] or (64-bit) [usize] is a [Z]; the bounds are
    written where the code relies on them. *)

Definition u8_max : Z := 2 ^ 8 - 1.
Definition u16_max : Z := 2 ^ 16 - 1.
Definition u32_max : Z := 2 ^ 32 - 1.
Definition u64_max : Z := 2 ^ 64 - 1.
Definition i64_max : Z := 2 ^ 63 - 1.

Definition in_range (max x : Z) : Prop := 0 <= x <= max.
Abbreviation is_u8 := (in_range u8_max).
Abbreviation is_u16 := (in_range u16_max).
Abbreviation is_u32 := (in_range u32_max).
Abbreviation is_u64 := (in_range u64_max).

#[export] Instance in_range_dec max x : Decision (in_range max x).
Proof. unfold in_range. apply _. Defined.

Definition checked_add (max a b : Z) : option Z := if a + b <=? max then Some (a + b) else None.
Definition checked_sub (a b : Z) : option Z := if b <=? a then Some (a - b) else None.
Definition saturating_add (max a b : Z) : Z := Z.min (a + b) max.
Definition saturating_sub (a b : Z) : Z := Z.max (a - b) 0.
Definition saturating_mul (max a b : Z) : Z := Z.min (a * b) max.
(** [as u32], [as u64]: truncation. *)
Definition wrap (max x : Z) : Z := x mod (max + 1).

Lemma checked_add_Some max a b c : checked_add max a b = Some c <-> c = a + b /\ a + b <= max.
Proof. unfold checked_add. destruct (Z.leb_spec (a + b) max); naive_solver lia. Qed.

Lemma checked_sub_Some a b c : checked_sub a b = Some c <-> c = a - b /\ b <= a.
Proof. unfold checked_sub. destruct (Z.leb_spec b a); naive_solver lia. Qed.

Lemma wrap_small max x : in_range max x -> wrap max x = x.
Proof. intros [??]. unfold wrap. apply Z.mod_small. lia. Qed.

(** ** Bytes and fixed-size arrays *)

Abbreviation bytes := (list byte).

#[export] Instance byte_eq_dec : EqDecision byte := Byte.byte_eq_dec.
#[export] Program Instance byte_countable : Countable byte :=
  inj_countable Byte.to_N Byte.of_N _.
Next Obligation. intros b. apply Byte.of_to_N. Qed.

Definition byte_to_Z (b : byte) : Z := Z.of_N (Byte.to_N b).
Definition byte_of_Z (z : Z) : byte := default x00 (Byte.of_N (Z.to_N (z mod 256))).

Lemma byte_to_Z_range b : 0 <= byte_to_Z b < 256.
Proof.
  unfold byte_to_Z. pose proof (Byte.to_N_bounded b). lia.
Qed.

Lemma byte_to_Z_inj a b : byte_to_Z a = byte_to_Z b -> a = b.
Proof.
  unfold byte_to_Z. intros H%N2Z.inj.
  assert (Some a = Some b) as [= ->]; [|done].
  by rewrite <- (Byte.of_to_N a), <- (Byte.of_to_N b), H.
Qed.

Lemma byte_to_of_Z z : 0 <= z < 256 -> byte_to_Z (byte_of_Z z) = z.
Proof.
  intros Hz. unfold byte_to_Z, byte_of_Z. rewrite Z.mod_small by lia.
  destruct (Byte.of_N (Z.to_N z)) as [b|] eqn:Hb; simpl.
  - apply Byte.to_of_N in Hb. lia.
  - apply Byte.of_N_None_iff in Hb. lia.
Qed.

(** [to_le_bytes] and [to_be_bytes] of an [n]-byte unsigned integer. *)
Fixpoint to_le_bytes (n : nat) (z : Z) : bytes :=
  match n with
  | O => []
  | S n => byte_of_Z z :: to_le_bytes n (z / 256)
  end.
Definition to_be_bytes (n : nat) (z : Z) : bytes := reverse (to_le_bytes n z).

Fixpoint from_le_bytes (l : bytes) : Z :=
  match l with
  | [] => 0
  | b :: l => byte_to_Z b + 256 * from_le_bytes l
  end.

Lemma length_to_le_bytes n z : length (to_le_bytes n z) = n.
Proof. revert z. induction n; intros z; simpl; auto. Qed.

Lemma from_to_le_bytes n z :
  0 <= z < 256 ^ Z.of_nat n -> from_le_bytes (to_le_bytes n z) = z.
Proof.
  revert z. induction n as [|n IH]; intros z Hz; cbn [to_le_bytes from_le_bytes].
  - change (256 ^ Z.of_nat 0) with 1 in Hz. lia.
  - rewrite Nat2Z.inj_succ, Z.pow_succ_r in Hz by lia.
    rewrite IH by (split; [apply Z.div_pos; lia | apply Z.div_lt_upper_bound; lia]).
    assert (byte_of_Z z = byte_of_Z (z mod 256)) as ->
      by (unfold byte_of_Z; by rewrite Z.mod_mod by lia).
    rewrite byte_to_of_Z by (apply Z.mod_pos_bound; lia).
    pose proof (Z.div_mod z 256). lia.
Qed.

(** [[u8; n]]: a byte list whose length is part of its type. *)
Record array (n : nat) : Type := mk_array {
  as_bytes : bytes;
  as_bytes_length : bool_decide (length as_bytes = n) = true
}.
Arguments mk_array {n} _ _.
Arguments as_bytes {n} _.
Arguments as_bytes_length {n} _.

Lemma array_eq {n} (a b : array n) : as_bytes a = as_bytes b -> a = b.
Proof.
  destruct a as [a Ha], b as [b Hb]; simpl; intros ->.
  f_equal. apply (Eqdep_dec.UIP_dec Bool.bool_dec).
Qed.

#[export] Instance array_eq_dec n : EqDecision (array n).
Proof.
  intros a b. destruct (decide (as_bytes a = as_bytes b)) as [H|H].
  - left. by apply array_eq.
  - right. congruence.
Defined.

(** [try_into]/[copy_from_slice]: [None] when the length is wrong. *)
Definition array_try_from (n : nat) (l : bytes) : option (array n) :=
  match bool_decide (length l = n) as b return bool_decide (length l = n) = b -> _ with
  | true => fun H => Some (mk_array l H)
  | false => fun _ => None
  end eq_refl.

Lemma array_try_from_as_bytes {n} (a : array n) : array_try_from n (as_bytes a) = Some a.
Proof.
  unfold array_try_from.
  generalize (@eq_refl bool (bool_decide (length (as_bytes a) = n))).
  generalize (bool_decide (length (as_bytes a) = n)) at 2 3 as b.
  intros [] H.
  - f_equal. by apply array_eq.
  - exfalso. pose proof (as_bytes_length a). congruence.
Qed.

Lemma array_try_from_Some n l a : array_try_from n l = Some a -> as_bytes a = l.
Proof.
  unfold array_try_from.
  generalize (@eq_refl bool (bool_decide (length l = n))).
  generalize (bool_decide (length l = n)) at 2 3 as b.
  intros [] H; naive_solver.
Qed.

Lemma array_try_from_is_Some n l : length l = n -> is_Some (array_try_from n l).
Proof.
  intros Hl. unfold array_try_from.
  generalize (@eq_refl bool (bool_decide (length l = n))).
  generalize (bool_decide (length l = n)) at 2 3 as b.
  intros [] H; [by eexists|]. apply bool_decide_eq_false in H. done.
Qed.

#[export] Program Instance array_countable n : Countable (array n) :=
  inj_countable as_bytes (array_try_from n) _.
Next Obligation. intros n a. apply array_try_from_as_bytes. Qed.

Lemma length_as_bytes {n} (a : array n) : length (as_bytes a) = n.
Proof. apply (bool_decide_eq_true_1 _ (as_bytes_length a)). Qed.

(** [[b; n]]. *)
Program Definition array_fill (n : nat) (b : byte) : array n := mk_array (replicate n b) _.
Next Obligation. intros n b. apply bool_decide_eq_true, length_replicate. Qed.

(** The first [n] bytes of [l], zero-extended when it is shorter. *)
Program Definition array_resize (n : nat) (l : bytes) : array n := mk_array (resize n x00 l) _.
Next Obligation. intros n l. apply bool_decide_eq_true, length_resize. Qed.

(** ** Orders and sorting

    Byte arrays are ordered lexicographically by unsigned byte, as the derived
    [Ord] of the newtypes around [[u8; 32]]. *)

Fixpoint bytes_compare (a b : bytes) : comparison :=
  match a, b with
  | [], [] => Eq
  | [], _ :: _ => Lt
  | _ :: _, [] => Gt
  | x :: a, y :: b =>
      match byte_to_Z x ?= byte_to_Z y with
      | Eq => bytes_compare a b
      | c => c
      end
  end.

Definition array_compare {n} (a b : array n) : comparison :=
  bytes_compare (as_bytes a) (as_bytes b).
Definition array_leb {n} (a b : array n) : bool :=
  match array_compare a b with Gt => false | _ => true end.
Definition array_ltb {n} (a b : array n) : bool :=
  match array_compare a b with Lt => true | _ => false end.

Lemma bytes_compare_antisym a b : bytes_compare b a = CompOpp (bytes_compare a b).
Proof.
  revert b. induction a as [|x a IH]; intros [|y b]; simpl; try done.
  rewrite (Z.compare_antisym (byte_to_Z x)).
  destruct (byte_to_Z x ?= byte_to_Z y); simpl; auto.
Qed.

Lemma bytes_compare_eq a b : bytes_compare a b = Eq <-> a = b.
Proof.
  revert b. induction a as [|x a IH]; intros [|y b]; simpl; try naive_solver.
  destruct (Z.compare_spec (byte_to_Z x) (byte_to_Z y)) as [H|H|H].
  - apply byte_to_Z_inj in H as ->. rewrite IH. naive_solver.
  - split; [done|]. intros [= -> _]. lia.
  - split; [done|]. intros [= -> _]. lia.
Qed.

Lemma bytes_compare_trans a b c :
  bytes_compare a b = Lt -> bytes_compare b c = Lt -> bytes_compare a c = Lt.
Proof.
  revert b c. induction a as [|x a IH]; intros [|y b] [|z c]; simpl; try done.
  destruct (Z.compare_spec (byte_to_Z x) (byte_to_Z y)) as [H1|H1|H1];
  destruct (Z.compare_spec (byte_to_Z y) (byte_to_Z z)) as [H2|H2|H2];
  destruct (Z.compare_spec (byte_to_Z x) (byte_to_Z z)) as [H3|H3|H3];
    intros; try done; try lia; eauto.
Qed.

Lemma array_ltb_irrefl {n} (a : array n) : array_ltb a a = false.
Proof.
  unfold array_ltb, array_compare.
  by rewrite (proj2 (bytes_compare_eq (as_bytes a) _) eq_refl).
Qed.

Lemma array_ltb_trans {n} (a b c : array n) :
  array_ltb a b = true -> array_ltb b c = true -> array_ltb a c = true.
Proof.
  unfold array_ltb, array_compare. intros H1 H2.
  destruct (bytes_compare (as_bytes a) _) eqn:E1; try done.
  destruct (bytes_compare (as_bytes b) _) eqn:E2; try done.
  by rewrite (bytes_compare_trans _ _ _ E1 E2).
Qed.

Lemma array_leb_ltb {n} (a b : array n) :
  array_leb a b = negb (array_ltb b a).
Proof.
  unfold array_leb, array_ltb, array_compare.
  rewrite (bytes_compare_antisym (as_bytes a)).
  by destruct (bytes_compare _ _).
Qed.

Lemma array_leb_lt_or_eq {n} (a b : array n) :
  array_leb a b = true -> array_ltb a b = true \/ a = b.
Proof.
  unfold array_leb, array_ltb, array_compare.
  destruct (bytes_compare _ _) eqn:E; try by auto.
  apply bytes_compare_eq, array_eq in E. auto.
Qed.

Lemma array_leb_total {n} (a b : array n) : array_leb a b = true \/ array_leb b a = true.
Proof.
  unfold array_leb, array_compare. rewrite (bytes_compare_antisym (as_bytes a)).
  destruct (bytes_compare _ _); simpl; auto.
Qed.

Lemma array_leb_trans {n} (a b c : array n) :
  array_leb a b = true -> array_leb b c = true -> array_leb a c = true.
Proof.
  intros [H1| ->]%array_leb_lt_or_eq [H2| ->]%array_leb_lt_or_eq;
    rewrite array_leb_ltb, negb_true_iff, <- not_true_iff_false; intros E.
  - pose proof (array_ltb_trans _ _ _ E (array_ltb_trans _ _ _ H1 H2)) as H3.
    by rewrite array_ltb_irrefl in H3.
  - pose proof (array_ltb_trans _ _ _ E H1) as H3. by rewrite array_ltb_irrefl in H3.
  - pose proof (array_ltb_trans _ _ _ E H2) as H3. by rewrite array_ltb_irrefl in H3.
  - by rewrite array_ltb_irrefl in E.
Qed.

(** [slice::sort_by_key]: a stable sort, here by insertion. *)
Section sort_by.
Context {A : Type} (leb : A -> A -> bool).

Fixpoint insert_by (x : A) (l : list A) : list A :=
  match l with
  | [] => [x]
  | y :: l => if leb x y then x :: y :: l else y :: insert_by x l
  end.
Definition sort_by (l : list A) : list A := foldr insert_by [] l.

Lemma insert_by_Permutation x l : insert_by x l ≡ₚ x :: l.
Proof.
  induction l as [|y l IH]; simpl; [done|].
  destruct (leb x y); [done|]. rewrite IH. apply Permutation_swap.
Qed.

Lemma sort_by_Permutation l : sort_by l ≡ₚ l.
Proof.
  induction l as [|x l IH]; simpl; [done|]. by rewrite insert_by_Permutation, IH.
Qed.

Hypothesis leb_total : forall x y, leb x y = true \/ leb y x = true.
Hypothesis leb_trans : forall x y z, leb x y = true -> leb y z = true -> leb x z = true.
Let le x y : Prop := leb x y = true.

Lemma insert_by_StronglySorted x l : StronglySorted le l -> StronglySorted le (insert_by x l).
Proof.
  induction 1 as [|y l Hl IH Hy]; simpl; [by repeat constructor|].
  destruct (leb x y) eqn:E.
  - constructor; [by constructor|]. constructor; [done|].
    eapply Forall_impl; [exact Hy|]. intros z. by apply leb_trans.
  - constructor; [done|]. rewrite insert_by_Permutation. constructor; [|done].
    unfold le. destruct (leb_total x y); congruence.
Qed.

Lemma sort_by_StronglySorted l : StronglySorted le (sort_by l).
Proof.
  induction l as [|x l IH]; simpl; [constructor|]. by apply insert_by_StronglySorted.
Qed.
End sort_by.

(** In-order traversal of a [BTreeMap] held as a [gmap]. *)
Definition btree_entries {K V} `{Countable K} (leb : K -> K -> bool) (m : gmap K V) : list (K * V) :=
  sort_by (fun x y => leb x.1 y.1) (map_to_list m).
Definition btree_values {K V} `{Countable K} (leb : K -> K -> bool) (m : gmap K V) : list V :=
  (btree_entries leb m).*2.

Lemma elem_of_btree_entries {K V} `{Countable K} leb (m : gmap K V) k v :
  (k, v) ∈ btree_entries leb m <-> m !! k = Some v.
Proof. unfold btree_entries. by rewrite sort_by_Permutation, elem_of_map_to_list. Qed.

Lemma elem_of_btree_values {K V} `{Countable K} leb (m : gmap K V) v :
  v ∈ btree_values leb m <-> exists k, m !! k = Some v.
Proof.
  unfold btree_values. rewrite list_elem_of_fmap. split.
  - intros ([k v'] & -> & Hk%elem_of_btree_entries). by exists k.
  - intros [k Hk]. exists (k, v). by rewrite elem_of_btree_entries.
Qed.

Lemma NoDup_btree_keys {K V} `{Countable K} leb (m : gmap K V) :
  NoDup (btree_entries leb m).*1.
Proof. unfold btree_entries. rewrite sort_by_Permutation. apply NoDup_fst_map_to_list. Qed.

#[export] Hint Resolve array_leb_total array_leb_trans NoDup_btree_keys : kcoin.

(** ** Strings

    A [String] is the list of its Unicode scalar values; [str] embeds the ASCII
    literals of the source. *)

Abbreviation ustring := (list Z).
Definition str (s : string) : ustring :=
  (fun a => Z.of_N (Ascii.N_of_ascii a)) <$> String.list_ascii_of_string s.

(** The UTF-8 bytes of one scalar value, as numbers. *)
Definition utf8_char (c : Z) : list Z :=
  if c <? 0x80 then [c]
  else if c <? 0x800 then [0xC0 + c / 64; 0x80 + c mod 64]
  else if c <? 0x10000 then [0xE0 + c / 4096; 0x80 + (c / 64) mod 64; 0x80 + c mod 64]
  else [0xF0 + c / 262144; 0x80 + (c / 4096) mod 64; 0x80 + (c / 64) mod 64; 0x80 + c mod 64].
Definition utf8 (s : ustring) : list Z := s ≫= utf8_char.

(** [char::is_whitespace] (the Unicode White_Space property) and
    [char::is_control] (general category Cc). *)
Definition is_whitespace (c : Z) : bool :=
  ((9 <=? c) && (c <=? 13)) || (c =? 0x20) || (c =? 0x85) || (c =? 0xA0) || (c =? 0x1680) ||
  ((0x2000 <=? c) && (c <=? 0x200A)) || (c =? 0x2028) || (c =? 0x2029) || (c =? 0x202F) ||
  (c =? 0x205F) || (c =? 0x3000).
Definition is_control (c : Z) : bool := ((0 <=? c) && (c <=? 0x1F)) || ((0x7F <=? c) && (c <=? 0x9F)).

(** [str::trim]. *)
Fixpoint trim_start (s : ustring) : ustring :=
  match s with
  | c :: s' => if is_whitespace c then trim_start s' else s
  | [] => []
  end.
Definition trim (s : ustring) : ustring := reverse (trim_start (reverse (trim_start s))).

(** [trim] removes nothing exactly when neither end is white space. *)
Lemma trim_start_id s : trim_start s = s <-> (forall c, head s = Some c -> is_whitespace c = false).
Proof.
  destruct s as [|c s]; simpl; [done|]. destruct (is_whitespace c) eqn:Hc.
  - split; [|intros Hw; specialize (Hw c eq_refl); congruence].
    intros Heq. exfalso. apply (f_equal length) in Heq.
    assert (length (trim_start s) <= length s)%nat.
    { clear. induction s as [|d s IH]; simpl; [lia|]. destruct (is_whitespace d); simpl; lia. }
    simpl in Heq. lia.
  - split; [|done]. intros _ d [= <-]. done.
Qed.

Lemma length_trim_start s : (length (trim_start s) <= length s)%nat.
Proof. induction s as [|d s IH]; simpl; [lia|]. destruct (is_whitespace d); simpl; lia. Qed.

Lemma trim_id s :
  trim s = s <-> (forall c, head s = Some c -> is_whitespace c = false) /\
                 (forall c, last s = Some c -> is_whitespace c = false).
Proof.
  unfold trim. split.
  - intros Heq. assert (trim_start s = s) as Hs.
    { destruct (decide (trim_start s = s)) as [|Hne]; [done|]. exfalso.
      assert (length (trim_start s) < length s)%nat as Hlt.
      { destruct s as [|c s]; [done|]. simpl in *. destruct (is_whitespace c); [|done].
        pose proof (length_trim_start s). lia. }
      apply (f_equal length) in Heq. rewrite length_reverse in Heq.
      pose proof (length_trim_start (reverse (trim_start s))) as Hl. rewrite length_reverse in Hl. lia. }
    split; [by apply trim_start_id|]. rewrite Hs in Heq.
    assert (trim_start (reverse s) = reverse s) as Hr by by rewrite <- Heq at 2; rewrite reverse_involutive.
    rewrite trim_start_id, <- last_reverse, reverse_involutive in Hr. done.
  - intros [Hh Hl]. rewrite (proj2 (trim_start_id s) Hh), (proj2 (trim_start_id (reverse s))).
    + apply reverse_involutive.
    + by rewrite <- last_reverse, reverse_involutive.
Qed.

(** [to_string] of an unsigned integer; 20 digits are enough for a [u64]. *)
Fixpoint decimal (fuel : nat) (n : Z) : ustring :=
  match fuel with
  | O => []
  | S fuel => (if n / 10 =? 0 then [] else decimal fuel (n / 10)) ++ [48 + n mod 10]
  end.
Definition to_string (n : Z) : ustring := decimal 20 n.

(** [str::parse] for an unsigned integer type with maximum [max]: an optional
    [+], then at least one digit, failing on overflow. *)
Fixpoint parse_digits (max acc : Z) (s : ustring) : option Z :=
  match s with
  | [] => Some acc
  | c :: s =>
      if (48 <=? c) && (c <=? 57) then
        let acc := acc * 10 + (c - 48) in
        if acc <=? max then parse_digits max acc s else None
      else None
  end.
Definition parse_uint (max : Z) (s : ustring) : option Z :=
  match s with
  | [] => None
  | c :: s' =>
      if c =? 43 then (if bool_decide (s' = []) then None else parse_digits max 0 s')
      else parse_digits max 0 s
  end.

Lemma parse_digits_app max a s t :
  parse_digits max a (s ++ t) = parse_digits max a s ≫= (fun a => parse_digits max a t).
Proof.
  revert a. induction s as [|c s IH]; intros a; simpl; [done|].
  repeat case_match; auto.
Qed.

Lemma parse_digits_decimal max fuel n :
  0 <= n <= max -> n < 10 ^ Z.of_nat fuel -> parse_digits max 0 (decimal fuel n) = Some n.
Proof.
  revert n. induction fuel as [|fuel IH]; intros n Hn Hf.
  - change (10 ^ Z.of_nat 0) with 1 in Hf. assert (n = 0) as -> by lia. done.
  - rewrite Nat2Z.inj_succ, Z.pow_succ_r in Hf by lia.
    pose proof (Z.mod_pos_bound n 10). pose proof (Z.div_mod n 10).
    assert (n / 10 < 10 ^ Z.of_nat fuel) by (apply Z.div_lt_upper_bound; lia).
    assert (0 <= n / 10 <= n) by (split; [apply Z.div_pos; lia | apply Z.div_le_upper_bound; lia]).
    cbn [decimal]. rewrite parse_digits_app.
    assert (parse_digits max 0 (if n / 10 =? 0 then [] else decimal fuel (n / 10)) = Some (n / 10)) as ->.
    { destruct (Z.eqb_spec (n / 10) 0) as [->|]; [done|]. apply IH; lia. }
    simpl. rewrite (proj2 (Z.leb_le 48 _)), (proj2 (Z.leb_le _ 57)) by lia. simpl.
    rewrite (proj2 (Z.leb_le _ max)) by lia. f_equal. lia.
Qed.

Lemma decimal_digits fuel n c : 0 <= n -> c ∈ decimal fuel n -> 48 <= c <= 57.
Proof.
  revert n. induction fuel as [|fuel IH]; intros n Hn; cbn [decimal]; [by intros ?%elem_of_nil|].
  rewrite elem_of_app, list_elem_of_singleton. intros [Hc| ->].
  - destruct (n / 10 =? 0); [by apply elem_of_nil in Hc|].
    apply (IH (n / 10)); [apply Z.div_pos; lia | done].
  - pose proof (Z.mod_pos_bound n 10). lia.
Qed.

Lemma to_string_digits n c : 0 <= n -> c ∈ to_string n -> 48 <= c <= 57.
Proof. apply decimal_digits. Qed.

Lemma parse_uint_to_string max n :
  is_u64 n -> n <= max -> parse_uint max (to_string n) = Some n.
Proof.
  intros [Hn0 Hn1] Hmax. unfold parse_uint.
  assert (parse_digits max 0 (to_string n) = Some n) as Hp.
  { unfold u64_max in Hn1. apply parse_digits_decimal; [lia|].
    change (10 ^ Z.of_nat 20) with 100000000000000000000. lia. }
  destruct (to_string n) as [|c s] eqn:Hs.
  - exfalso. apply (f_equal length) in Hs. unfold to_string in Hs. cbn [decimal] in Hs.
    rewrite length_app in Hs. cbn [length] in Hs. lia.
  - destruct (Z.eqb_spec c 43); [|done].
    assert (48 <= c <= 57) by (apply (to_string_digits n); [done|rewrite Hs; set_solver]). lia.
Qed.

Lemma to_string_inj m n : is_u64 m -> is_u64 n -> to_string m = to_string n -> m = n.
Proof.
  intros Hm Hn H. pose proof (parse_uint_to_string u64_max m Hm (proj2 Hm)) as H1.
  pose proof (parse_uint_to_string u64_max n Hn (proj2 Hn)) as H2. congruence.
Qed.

(** [s.split(sep).next()]: the part before the first separator. *)
Fixpoint split_first (sep : Z) (s : ustring) : ustring :=
  match s with
  | [] => []
  | c :: s => if c =? sep then [] else c :: split_first sep s
  end.

Lemma split_first_app sep s t : sep ∉ s -> split_first sep (s ++ sep :: t) = s.
Proof.
  induction s as [|c s IH]; simpl; intros Hs.
  - by rewrite Z.eqb_refl.
  - apply not_elem_of_cons in Hs as [Hc Hs]. rewrite (proj2 (Z.eqb_neq c sep)) by done.
    by rewrite IH.
Qed.

(** ** Counting *)

(** Two duplicate-free lists inside a list of length [n] share at least
    [length l1 + length l2 - n] elements. *)
Lemma NoDup_intersection_length {A} `{EqDecision A} (V l1 l2 : list A) :
  NoDup l1 -> NoDup l2 -> l1 ⊆ V -> l2 ⊆ V ->
  (length l1 + length l2 <= length V + length (filter (fun x => x ∈ l2) l1))%nat.
Proof.
  intros H1 H2 HV1 HV2.
  assert (length l1 = length (filter (fun x => x ∈ l2) l1) + length (filter (fun x => x ∉ l2) l1))%nat as ->.
  { clear. induction l1 as [|x l IH]; [done|]. rewrite !filter_cons.
    repeat case_decide; simpl; tauto || lia. }
  enough (length (filter (fun x => x ∉ l2) l1) + length l2 <= length V)%nat by lia.
  rewrite <- length_app. apply submseteq_length, NoDup_submseteq.
  - apply NoDup_app. repeat split; [by apply NoDup_filter| |done].
    intros x [Hx _]%list_elem_of_filter. done.
  - intros x [[_ Hx]%list_elem_of_filter|Hx]%elem_of_app; auto.
Qed.

Lemma NoDup_fmap_filter {A B} (f : A -> B) (P : A -> Prop) `{forall x, Decision (P x)} l :
  NoDup (f <$> l) -> NoDup (f <$> filter P l).
Proof.
  intros Hl. apply (sublist_NoDup (f <$> filter P l) (f <$> l)); [done|].
  apply fmap_sublist, sublist_filter.
Qed.

(** A [BTreeMap] whose values know their key: no key occurs twice among the values. *)
Lemma NoDup_btree_values_keys {K V} `{Countable K} leb (f : V -> K) (m : gmap K V) :
  map_Forall (fun k v => f v = k) m -> NoDup (f <$> btree_values leb m).
Proof.
  intros Hf. unfold btree_values. rewrite <- list_fmap_compose.
  assert (f ∘ snd <$> btree_entries leb m = (btree_entries leb m).*1) as ->; [|apply NoDup_btree_keys].
  apply list_fmap_ext. intros i [k v] Hi. simpl. apply Hf.
  apply (elem_of_btree_entries leb), list_elem_of_lookup. by exists i.
Qed.

(** ** Sorted lists *)

Section sorted_lists.
Context {A : Type} (R : A -> A -> Prop).

Lemma StronglySorted_sublist l l' : StronglySorted R l -> sublist l' l -> StronglySorted R l'.
Proof.
  intros Hl Hs. revert Hl. induction Hs as [|x l1 l2 Hs IH|x l1 l2 Hs IH]; intros Hl.
  - constructor.
  - apply StronglySorted_inv in Hl as [Hl Hx]. constructor; [by apply IH|].
    apply Forall_forall. intros y Hy. eapply Forall_forall; [exact Hx|]. by eapply elem_of_sublist.
  - apply StronglySorted_inv in Hl as [Hl _]. by apply IH.
Qed.

Lemma StronglySorted_cut l1 l2 x y : StronglySorted R (l1 ++ l2) -> x ∈ l1 -> y ∈ l2 -> R x y.
Proof.
  induction l1 as [|z l1 IH]; simpl; intros Hs Hx Hy; [by apply elem_of_nil in Hx|].
  apply StronglySorted_inv in Hs as [Hs Hz]. apply elem_of_cons in Hx as [->|Hx]; [|by apply IH].
  eapply Forall_forall; [exact Hz|]. set_solver.
Qed.

Lemma StronglySorted_snoc l x : StronglySorted R l -> Forall (fun y => R y x) l -> StronglySorted R (l ++ [x]).
Proof.
  induction 1 as [|y l Hl IH Hy]; simpl; intros Hx; [by repeat constructor|].
  apply Forall_cons in Hx as [Hyx Hx]. constructor; [by apply IH|].
  apply Forall_app. split; [done|]. by constructor.
Qed.

(** The first [n] of a sorted list leave out only what comes after them. *)
Lemma take_sorted_complete n l x :
  StronglySorted R l -> x ∈ l ->
  x ∈ take n l \/ (length (take n l) = n /\ forall y, y ∈ take n l -> R y x).
Proof.
  intros Hs Hx. rewrite <- (take_drop n l) in Hs, Hx.
  apply elem_of_app in Hx as [Hx|Hx]; [by left|right]. split.
  - rewrite length_take. destruct (decide (length l <= n)%nat) as [Hn|Hn]; [|lia].
    rewrite drop_ge in Hx by done. by apply elem_of_nil in Hx.
  - intros y Hy. by eapply StronglySorted_cut.
Qed.
End sorted_lists.

Lemma StronglySorted_reverse {A} (R : A -> A -> Prop) l :
  StronglySorted R l -> StronglySorted (flip R) (reverse l).
Proof.
  induction 1 as [|x l Hl IH Hx]; [constructor|]. rewrite reverse_cons.
  apply StronglySorted_snoc; [done|]. by rewrite reverse_Permutation.
Qed.

(** The values of a [BTreeMap] in key order, when they know their key. *)
Lemma btree_values_sorted {V} (f : V -> Z) (m : gmap Z V) :
  map_Forall (fun k v => f v = k) m -> StronglySorted (fun a b => f a < f b) (btree_values Z.leb m).
Proof.
  intros Hf. unfold btree_values.
  assert (StronglySorted (fun x y => Z.leb x.1 y.1 = true) (btree_entries Z.leb m)) as Hs.
  { apply sort_by_StronglySorted; intros; simpl in *; rewrite ?Z.leb_le in *; lia. }
  pose proof (NoDup_btree_keys Z.leb m) as Hnd.
  assert (forall k v, (k, v) ∈ btree_entries Z.leb m -> f v = k) as Hk.
  { intros k v Hin%elem_of_btree_entries. by apply Hf. }
  induction Hs as [|[k v] l Hl IH Hx]; simpl in *; [constructor|].
  apply NoDup_cons in Hnd as [Hnk Hnd]. constructor.
  - apply IH; [done|]. intros k' v' Hin. apply Hk. set_solver.
  - apply Forall_forall. intros v' ([k' v''] & -> & Hin)%list_elem_of_fmap. simpl.
    rewrite (Hk k v), (Hk k' v'') by set_solver.
    pose proof (proj1 (Forall_forall _ _) Hx _ Hin) as Hle. simpl in Hle. apply Z.leb_le in Hle.
    assert (k <> k'); [|lia]. intros <-. apply Hnk. apply list_elem_of_fmap. by exists (k, v'').
Qed.

Lemma btree_entries_Z_sorted {V} (m : gmap Z V) :
  StronglySorted (fun x y => Z.leb x.1 y.1 = true) (btree_entries Z.leb m).
Proof. apply sort_by_StronglySorted; intros; simpl in *; rewrite ?Z.leb_le in *; lia. Qed.

(** A key above all the others comes last. *)
Lemma btree_values_insert_last {V} (m : gmap Z V) k v :
  map_Forall (fun k' _ => k' < k) m -> btree_values Z.leb (<[k := v]> m) = btree_values Z.leb m ++ [v].
Proof.
  intros Hk. unfold btree_values.
  assert (m !! k = None) as Hn.
  { destruct (m !! k) as [w|] eqn:E; [|done]. specialize (Hk k w E). simpl in Hk. lia. }
  assert (forall x, x ∈ btree_entries Z.leb m -> x.1 < k) as Hin.
  { intros [k' w] Hx%elem_of_btree_entries. by apply (Hk k' w). }
  cut (btree_entries Z.leb (<[k := v]> m) = btree_entries Z.leb m ++ [(k, v)]);
    [intros ->; by rewrite fmap_app|].
  assert (btree_entries Z.leb (<[k := v]> m) ≡ₚ btree_entries Z.leb m ++ [(k, v)]) as Hp.
  { unfold btree_entries. rewrite !sort_by_Permutation, map_to_list_insert by done.
    apply Permutation_cons_append. }
  apply (sorting.StronglySorted_unique_strong (fun x y => Z.leb x.1 y.1 = true)); [| |  |exact Hp].
  - intros [k1 w1] [k2 w2] H1%elem_of_btree_entries H2 Hle1%Z.leb_le Hle2%Z.leb_le. simpl in *.
    assert (k1 = k2) as <- by lia. f_equal. rewrite <- Hp in H2. apply elem_of_btree_entries in H2. congruence.
  - apply btree_entries_Z_sorted.
  - apply StronglySorted_snoc; [apply btree_entries_Z_sorted|].
    apply Forall_forall. intros x Hx%Hin. apply Z.leb_le. simpl. lia.
Qed.
