(* ===== verification/Errors.v ===== *)
(** * Protocol validation errors

    [crates/kcoin-protocol/src/error.rs]: the [ValidationError] enum with the
    payload of each variant, and the stable API code of each. *)

From S2P Require Import Prelude.

Inductive ValidationError : Type :=
| UnsupportedProtocolVersion (expected actual : Z)
| InvalidChainId
| WrongChain (expected actual : ustring)
| InvalidPublicKey
| InvalidSignature
| DuplicateTransaction
| Expired (expiry_height current_height : Z)
| NonceMismatch (expected actual : Z)
| ZeroAmount
| InsufficientBalance (available required : Z)
| StaleChallenge (expected actual : Z)
| WrongChallengeAnswer
| SupplyExhausted
| InvalidDisplayName
| ArithmeticOverflow
| InvalidBlockHeight (expected actual : Z)
| InvalidParentHash
| InvalidTimestamp
| InvalidTransactionsRoot
| InvalidStateRoot
| InvalidCommitCertificate
| DuplicateValidator
| UnauthorizedValidator
| InsufficientQuorum (required actual : Z)
| MalformedAddress
| Malformed
| PayloadTooLarge.

#[export] Instance ValidationError_eq_dec : EqDecision ValidationError.
Proof. solve_decision. Defined.

Definition code (e : ValidationError) : string :=
  match e with
  | UnsupportedProtocolVersion _ _ => "UNSUPPORTED_VERSION"
  | InvalidChainId | WrongChain _ _ => "WRONG_CHAIN"
  | InvalidPublicKey | Malformed => "MALFORMED"
  | InvalidSignature => "INVALID_SIGNATURE"
  | DuplicateTransaction => "DUPLICATE_TRANSACTION"
  | Expired _ _ => "EXPIRED"
  | NonceMismatch _ _ => "NONCE_MISMATCH"
  | ZeroAmount => "ZERO_AMOUNT"
  | InsufficientBalance _ _ => "INSUFFICIENT_BALANCE"
  | StaleChallenge _ _ => "STALE_CHALLENGE"
  | WrongChallengeAnswer => "WRONG_CHALLENGE_ANSWER"
  | SupplyExhausted => "SUPPLY_EXHAUSTED"
  | InvalidDisplayName => "INVALID_DISPLAY_NAME"
  | ArithmeticOverflow => "ARITHMETIC_OVERFLOW"
  | InvalidBlockHeight _ _ => "INVALID_BLOCK_HEIGHT"
  | InvalidParentHash => "INVALID_PARENT_HASH"
  | InvalidTimestamp => "INVALID_TIMESTAMP"
  | InvalidTransactionsRoot => "INVALID_TRANSACTIONS_ROOT"
  | InvalidStateRoot => "INVALID_STATE_ROOT"
  | InvalidCommitCertificate | DuplicateValidator | UnauthorizedValidator
  | InsufficientQuorum _ _ => "INVALID_COMMIT_CERTIFICATE"
  | MalformedAddress => "MALFORMED_ADDRESS"
  | PayloadTooLarge => "PAYLOAD_TOO_LARGE"
  end%string.

(** [Display], derived by [thiserror]. *)
Definition error_message (e : ValidationError) : ustring :=
  match e with
  | UnsupportedProtocolVersion expected actual => str "unsupported protocol version " ++ to_string actual ++ str "; expected " ++ to_string expected
  | InvalidChainId => str "invalid chain id"
  | WrongChain expected actual => str "transaction belongs to chain " ++ actual ++ str ", not " ++ expected
  | InvalidPublicKey => str "public key is not a valid Ed25519 key"
  | InvalidSignature => str "Ed25519 signature verification failed"
  | DuplicateTransaction => str "transaction has already been applied"
  | Expired expiry_height current_height => str "transaction expired at height " ++ to_string expiry_height ++ str "; execution height is " ++ to_string current_height
  | NonceMismatch expected actual => str "nonce mismatch: expected " ++ to_string expected ++ str ", received " ++ to_string actual
  | ZeroAmount => str "transfer amount must be positive"
  | InsufficientBalance available required => str "insufficient balance: available " ++ to_string available ++ str ", required " ++ to_string required
  | StaleChallenge expected actual => str "challenge " ++ to_string actual ++ str " is stale; active challenge is " ++ to_string expected
  | WrongChallengeAnswer => str "incorrect challenge answer"
  | SupplyExhausted => str "the maximum KCoin supply has already been issued"
  | InvalidDisplayName => str "display name is invalid"
  | ArithmeticOverflow => str "integer arithmetic overflow"
  | InvalidBlockHeight expected actual => str "block height mismatch: expected " ++ to_string expected ++ str ", received " ++ to_string actual
  | InvalidParentHash => str "block parent does not match the current tip"
  | InvalidTimestamp => str "block timestamp precedes the previous finalized block"
  | InvalidTransactionsRoot => str "transaction Merkle root is invalid"
  | InvalidStateRoot => str "post-execution state root is invalid"
  | InvalidCommitCertificate => str "commit certificate does not describe the expected block"
  | DuplicateValidator => str "validator appears more than once in a commit certificate"
  | UnauthorizedValidator => str "commit signature is from an unauthorized validator"
  | InsufficientQuorum required actual => str "commit certificate has " ++ to_string actual ++ str " signatures; quorum is " ++ to_string required
  | MalformedAddress => str "address is malformed or not canonical Bech32m"
  | Malformed => str "canonical payload is malformed"
  | PayloadTooLarge => str "payload exceeds its protocol size limit"
  end.
