(* ===== verification/Crypto.v ===== *)
(** * Chain ids, addresses, hashes

    [crates/kcoin-protocol/src/crypto.rs] and the constants of
    [crates/kcoin-protocol/src/lib.rs].  BLAKE3, Ed25519, Borsh and Bech32m are
    third-party crates: they are the class parameters [Blake3], [Ed25519],
    [Borsh] and [Bech32], and their documented behaviour is stated as the law
    classes [Ed25519Laws], [BorshLaws] and [Bech32Laws]. *)

From S2P Require Import Prelude Errors.

(** ** Third-party crates *)

(** [blake3::Hasher::new_derive_key(domain)], fed with [input] and finalized. *)
Class Blake3 : Type := blake3_derive_key : string -> bytes -> array 32.

(** [ed25519_dalek]: [vk_valid] is [VerifyingKey::from_bytes(..).is_ok()]. *)
Class Ed25519 : Type := {
  SigningKey : Type;
  verifying_key : SigningKey -> array 32;
  ed_sign : SigningKey -> bytes -> array 64;
  vk_valid : array 32 -> bool;
  verify_strict : array 32 -> bytes -> array 64 -> bool
}.

Class Ed25519Laws `{Ed25519} : Prop := {
  verifying_key_valid : forall k, vk_valid (verifying_key k) = true;
  verify_strict_sign : forall k m, verify_strict (verifying_key k) m (ed_sign k m) = true
}.

(** [borsh::to_vec] and [try_from_slice] of the type's derived instance. *)
Class Borsh (T : Type) : Type := {
  to_vec : T -> bytes;
  try_from_slice : bytes -> option T
}.

Class BorshLaws (T : Type) `{Borsh T} : Prop :=
  try_from_slice_to_vec : forall x : T, try_from_slice (to_vec x) = Some x.

Lemma to_vec_inj `{BorshLaws T} (x y : T) : to_vec x = to_vec y -> x = y.
Proof.
  intros Heq. apply (f_equal try_from_slice) in Heq.
  rewrite !try_from_slice_to_vec in Heq. by simplify_eq.
Qed.

(** [bech32::encode::<Bech32m>(hrp, data)] and [bech32::decode(s)]. *)
Class Bech32 : Type := {
  bech32m_encode : ustring -> bytes -> option ustring;
  bech32_decode : ustring -> option (ustring * bytes)
}.

(** ** Constants of lib.rs *)

Definition PROTOCOL_VERSION : Z := 1.
Definition ATOMS_PER_KCOIN : Z := 1000000.
Definition MAX_SUPPLY_ATOMS : Z := 100000 * ATOMS_PER_KCOIN.
Definition MAX_TRANSACTION_BYTES : Z := 4 * 1024.
Definition MAX_BLOCK_BYTES : Z := 2 * 1024 * 1024.
Definition MAX_COMMIT_CERTIFICATE_BYTES : Z := 64 * 1024.
Definition MAX_BLOCK_TIMESTAMP_STEP_MS : Z := 60000.
Definition MAX_BLOCK_TIMESTAMP_MS : Z := 32503680000000.
Definition MAX_DISPLAY_NAME_BYTES : Z := 64.
Definition MAX_DISPLAY_NAME_CHARS : Z := 32.

(** [b"KCOIN_TX_V1\0"] and [b"KCOIN_COMMIT_V1\0"]. *)
Definition TX_SIGNATURE_PREFIX : bytes := String.list_byte_of_string "KCOIN_TX_V1" ++ [x00].
Definition COMMIT_SIGNATURE_PREFIX : bytes := String.list_byte_of_string "KCOIN_COMMIT_V1" ++ [x00].
Definition ADDRESS_HASH_DOMAIN : string := "kcoin.dev/v1/address".
Definition TRANSACTION_HASH_DOMAIN : string := "kcoin.dev/v1/transaction-id".
Definition BLOCK_HASH_DOMAIN : string := "kcoin.dev/v1/block-id".
Definition STATE_HASH_DOMAIN : string := "kcoin.dev/v1/state-root".
Definition MERKLE_EMPTY_DOMAIN : string := "kcoin.dev/v1/tx-merkle-empty".
Definition MERKLE_LEAF_DOMAIN : string := "kcoin.dev/v1/tx-merkle-leaf".
Definition MERKLE_NODE_DOMAIN : string := "kcoin.dev/v1/tx-merkle-node".
Definition CHALLENGE_HASH_DOMAIN : string := "kcoin.dev/v1/challenge".

Definition ADDRESS_HRP : ustring := str "kcoin".
Definition ADDRESS_LENGTH : nat := 20.
Definition MAX_CHAIN_ID_BYTES : Z := 64.

(** ** ChainId *)

Record ChainId : Type := mk_ChainId { as_str : ustring }.

#[export] Instance ChainId_eq_dec : EqDecision ChainId.
Proof. solve_decision. Defined.

Definition is_ascii_alphanumeric (b : Z) : bool :=
  ((48 <=? b) && (b <=? 57)) || ((65 <=? b) && (b <=? 90)) || ((97 <=? b) && (b <=? 122)).

Definition chain_id_validate (c : ChainId) : result ValidationError () :=
  let bytes := utf8 (as_str c) in
  if bool_decide (bytes = []) || (MAX_CHAIN_ID_BYTES <? Z.of_nat (length bytes)) ||
     negb (forallb (fun b => is_ascii_alphanumeric b || (b =? 45) || (b =? 95)) bytes)
  then Err InvalidChainId
  else Ok ().

Definition chain_id_new (value : ustring) : result ValidationError ChainId :=
  let candidate := mk_ChainId value in
  _ ← chain_id_validate candidate;
  Ok candidate.

(** ** Hash32 and the domain-separated hashers *)

Definition Hash32 : Type := array 32.
#[export] Instance Hash32_eq_dec : EqDecision Hash32 := array_eq_dec 32.
#[export] Instance Hash32_countable : Countable Hash32 := array_countable 32.

Definition Hash32_ZERO : Hash32 := array_fill 32 x00.

(** The state of an incremental [blake3::Hasher]: its key-derivation context
    and what it was fed. *)
Record Hasher : Type := mk_Hasher { hasher_domain : string; hasher_input : bytes }.
Definition new_derive_key (domain : string) : Hasher := mk_Hasher domain [].
Definition update (h : Hasher) (b : bytes) : Hasher :=
  mk_Hasher (hasher_domain h) (hasher_input h ++ b).
Definition finalize `{Blake3} (h : Hasher) : array 32 :=
  blake3_derive_key (hasher_domain h) (hasher_input h).

Section hashing.
Context `{Blake3}.

Definition hash_bytes (domain : string) (b : bytes) : Hash32 :=
  finalize (update (new_derive_key domain) b).

Definition hash_pair (domain : string) (left right : Hash32) : Hash32 :=
  finalize (update (update (new_derive_key domain) (as_bytes left)) (as_bytes right)).

(** ** Address *)

Definition Address : Type := array 20.

Definition address_from_public_key (public_key : array 32) : Address :=
  let hash := hash_bytes ADDRESS_HASH_DOMAIN (as_bytes public_key) in
  array_resize ADDRESS_LENGTH (take ADDRESS_LENGTH (as_bytes hash)).
End hashing.

#[export] Instance Address_eq_dec : EqDecision Address := array_eq_dec 20.
#[export] Instance Address_countable : Countable Address := array_countable 20.

(** [Display]: [None] is [Err(fmt::Error)]. *)
Definition address_fmt `{Bech32} (a : Address) : option ustring :=
  bech32m_encode ADDRESS_HRP (as_bytes a).

(** [to_string()], which an address always has. *)
Definition address_to_string `{Bech32} (a : Address) : ustring := default [] (address_fmt a).

Definition address_from_str `{Bech32} (value : ustring) : result ValidationError Address :=
  '(hrp, decoded) ← ok_or (bech32_decode value) MalformedAddress;
  if bool_decide (hrp <> ADDRESS_HRP) then Err MalformedAddress
  else
    address ← ok_or (array_try_from ADDRESS_LENGTH decoded) MalformedAddress;
    if bool_decide (address_fmt address <> Some value) then Err MalformedAddress
    else Ok address.

(** Documented behaviour of [bech32] on the KCoin prefix: a 20-byte payload
    always encodes, and decoding an encoding gives the prefix and payload back. *)
Class Bech32Laws `{Bech32} : Prop := {
  bech32m_encode_Some : forall d, length d = ADDRESS_LENGTH -> is_Some (bech32m_encode ADDRESS_HRP d);
  bech32_decode_encode : forall d s,
    bech32m_encode ADDRESS_HRP d = Some s -> bech32_decode s = Some (ADDRESS_HRP, d)
}.

(** An address displays, and its string parses to it alone. *)
Lemma address_from_to_string `{Bech32, !Bech32Laws} (a : Address) : address_from_str (address_to_string a) = Ok a.
Proof.
  unfold address_to_string, address_from_str, address_fmt.
  destruct (bech32m_encode_Some (as_bytes a) (length_as_bytes a)) as [s Hs]. rewrite Hs. simpl default.
  rewrite (bech32_decode_encode _ _ Hs). cbn [ok_or mbind result_bind]. rewrite bool_decide_eq_false_2 by tauto.
  unfold ADDRESS_LENGTH. rewrite (array_try_from_as_bytes a). cbn [ok_or mbind result_bind].
  by rewrite bool_decide_eq_false_2 by (rewrite Hs; tauto).
Qed.

Lemma address_to_string_inj `{Bech32, !Bech32Laws} (a b : Address) : address_to_string a = address_to_string b -> a = b.
Proof. intros E%(f_equal address_from_str). rewrite !address_from_to_string in E. by injection E. Qed.

Lemma hash_pair_alt `{Blake3} domain l r :
  hash_pair domain l r = blake3_derive_key domain (as_bytes l ++ as_bytes r).
Proof. done. Qed.

Lemma hash_bytes_alt `{Blake3} domain b : hash_bytes domain b = blake3_derive_key domain b.
Proof. done. Qed.

Lemma chain_id_new_valid (c : ChainId) : chain_id_validate c = Ok () -> chain_id_new (as_str c) = Ok c.
Proof. destruct c as [s]. unfold chain_id_new. simpl. by intros ->. Qed.

Lemma chain_id_new_invalid (c : ChainId) e : chain_id_validate c = Err e -> chain_id_new (as_str c) = Err e.
Proof. destruct c as [s]. unfold chain_id_new. simpl. by intros ->. Qed.

Lemma chain_id_new_Ok_inv value c :
  chain_id_new value = Ok c -> c = mk_ChainId value /\ chain_id_validate c = Ok ().
Proof. unfold chain_id_new. intros ([] & Hv & [= <-])%result_bind_Ok_inv. done. Qed.
