(* ===== verification/Transaction.v ===== *)
(** * Transactions

    [crates/kcoin-protocol/src/transaction.rs]: the wallet-authored actions,
    their shape checks, signing, verification and decoding. *)

From S2P Require Import Prelude Errors Crypto.

Inductive TransactionAction : Type :=
| Transfer (recipient : Address) (amount_atoms : Z)
| ClaimReward (challenge_id answer : Z)
| SetDisplayName (display_name : option ustring).

Record UnsignedTransaction : Type := mk_UnsignedTransaction {
  tx_protocol_version : Z;
  tx_chain_id : ChainId;
  tx_sender_public_key : array 32;
  tx_nonce : Z;
  tx_expiry_height : Z;
  tx_action : TransactionAction
}.

Record SignedTransaction : Type := mk_SignedTransaction {
  unsigned : UnsignedTransaction;
  tx_signature : array 64
}.

#[export] Instance TransactionAction_eq_dec : EqDecision TransactionAction.
Proof. solve_decision. Defined.
#[export] Instance UnsignedTransaction_eq_dec : EqDecision UnsignedTransaction.
Proof. solve_decision. Defined.
#[export] Instance SignedTransaction_eq_dec : EqDecision SignedTransaction.
Proof. solve_decision. Defined.

(** [validate_display_name]: the byte and scalar-value limits, no surrounding
    white space, no control character. *)
Definition validate_display_name (name : option ustring) : result ValidationError () :=
  match name with
  | None => Ok ()
  | Some name =>
      if bool_decide (name = []) ||
         (MAX_DISPLAY_NAME_BYTES <? Z.of_nat (length (utf8 name))) ||
         (MAX_DISPLAY_NAME_CHARS <? Z.of_nat (length name)) ||
         bool_decide (trim name <> name) ||
         existsb is_control name
      then Err InvalidDisplayName
      else Ok ()
  end.

Definition action_validate_shape (a : TransactionAction) : result ValidationError () :=
  match a with
  | Transfer _ amount_atoms => if amount_atoms =? 0 then Err ZeroAmount else Ok ()
  | SetDisplayName display_name => validate_display_name display_name
  | ClaimReward _ _ => Ok ()
  end.

Definition unsigned_new (chain_id : ChainId) (sender_public_key : array 32)
    (nonce expiry_height : Z) (action : TransactionAction) : UnsignedTransaction :=
  mk_UnsignedTransaction PROTOCOL_VERSION chain_id sender_public_key nonce expiry_height action.

Definition unsigned_validate_shape (u : UnsignedTransaction) : result ValidationError () :=
  if bool_decide (tx_protocol_version u <> PROTOCOL_VERSION)
  then Err (UnsupportedProtocolVersion PROTOCOL_VERSION (tx_protocol_version u))
  else
    _ ← chain_id_validate (tx_chain_id u);
    action_validate_shape (tx_action u).

Section signed.
Context `{Blake3, Ed25519, !Borsh UnsignedTransaction, !Borsh SignedTransaction}.

Definition tx_signing_bytes (u : UnsignedTransaction) : bytes :=
  TX_SIGNATURE_PREFIX ++ to_vec u.

Definition verify_signature (t : SignedTransaction) : result ValidationError () :=
  _ ← unsigned_validate_shape (unsigned t);
  if negb (vk_valid (tx_sender_public_key (unsigned t))) then Err InvalidPublicKey
  else if verify_strict (tx_sender_public_key (unsigned t))
            (tx_signing_bytes (unsigned t)) (tx_signature t)
  then Ok ()
  else Err InvalidSignature.

Definition sign (u : UnsignedTransaction) (signing_key : SigningKey) :
    result ValidationError SignedTransaction :=
  if bool_decide (tx_sender_public_key u <> verifying_key signing_key) then Err InvalidPublicKey
  else
    _ ← unsigned_validate_shape u;
    Ok (mk_SignedTransaction u (ed_sign signing_key (tx_signing_bytes u))).

Definition from_parts (u : UnsignedTransaction) (signature : array 64) :
    result ValidationError SignedTransaction :=
  let transaction := mk_SignedTransaction u signature in
  _ ← verify_signature transaction;
  Ok transaction.

Definition sender_address (t : SignedTransaction) : Address :=
  address_from_public_key (tx_sender_public_key (unsigned t)).

Definition tx_canonical_bytes (t : SignedTransaction) : bytes := to_vec t.

Definition tx_id (t : SignedTransaction) : Hash32 :=
  hash_bytes TRANSACTION_HASH_DOMAIN (tx_canonical_bytes t).

Definition tx_decode (b : bytes) : result ValidationError SignedTransaction :=
  if MAX_TRANSACTION_BYTES <? Z.of_nat (length b) then Err PayloadTooLarge
  else
    transaction ← ok_or (try_from_slice b) Malformed;
    _ ← verify_signature transaction;
    Ok transaction.

(** ** Lemmas *)

Lemma verify_signature_Ok_inv t :
  verify_signature t = Ok () ->
  unsigned_validate_shape (unsigned t) = Ok () /\
  vk_valid (tx_sender_public_key (unsigned t)) = true /\
  verify_strict (tx_sender_public_key (unsigned t)) (tx_signing_bytes (unsigned t))
    (tx_signature t) = true.
Proof.
  unfold verify_signature. intros ([] & Hs & Hv)%result_bind_Ok_inv.
  destruct (vk_valid _); simpl in Hv; [|done]. by destruct (verify_strict _ _ _).
Qed.

Lemma unsigned_validate_shape_Ok_inv u :
  unsigned_validate_shape u = Ok () ->
  tx_protocol_version u = PROTOCOL_VERSION /\ chain_id_validate (tx_chain_id u) = Ok () /\
  action_validate_shape (tx_action u) = Ok ().
Proof.
  unfold unsigned_validate_shape. case_bool_decide; [done|].
  intros ([] & Hc & Ha)%result_bind_Ok_inv. done.
Qed.

(** A signed transaction verifies; so [from_parts] and [decode] accept it. *)
Lemma sign_verifies `{!Ed25519Laws} u k t : sign u k = Ok t -> verify_signature t = Ok ().
Proof.
  unfold sign. case_bool_decide as Hk; [done|].
  intros ([] & Hs & [= <-])%result_bind_Ok_inv. unfold verify_signature; simpl.
  rewrite Hs. simpl. by rewrite Hk, verifying_key_valid, verify_strict_sign.
Qed.
End signed.
