(* ===== verification/Wasm.v ===== *)
(** * The browser bindings

    [crates/kcoin-protocol/src/wasm.rs]: the functions exported to JavaScript,
    which keeps the private key.  A [JsValue] that carries an error is its text. *)

From S2P Require Import Prelude Errors Crypto Transaction.

Definition JsValue : Type := ustring.

Definition public_key (b : bytes) : result JsValue (array 32) :=
  ok_or (array_try_from 32 b) (str "public key must contain exactly 32 bytes").

Definition js_error (error : ValidationError) : JsValue := str (code error) ++ str ": " ++ error_message error.

Section wasm.
Context `{Blake3, Ed25519, Bech32, !Borsh UnsignedTransaction}.

Definition wasm_address_from_public_key (public_key_bytes : bytes) : result JsValue ustring :=
  public_key ← public_key public_key_bytes;
  Ok (address_to_string (address_from_public_key public_key)).

(** The part the three exports of signing bytes share. *)
Definition unsigned_signing_bytes (chain_id : ustring) (sender_public_key : bytes) (nonce expiry_height : Z)
    (action : result JsValue TransactionAction) : result JsValue bytes :=
  chain_id ← map_err js_error (chain_id_new chain_id);
  public_key ← public_key sender_public_key;
  action ← action;
  let transaction := unsigned_new chain_id public_key nonce expiry_height action in
  _ ← map_err js_error (unsigned_validate_shape transaction);
  Ok (tx_signing_bytes transaction).

Definition wasm_unsigned_transfer_signing_bytes (chain_id : ustring) (sender_public_key : bytes)
    (nonce expiry_height : Z) (recipient : ustring) (amount_atoms : Z) : result JsValue bytes :=
  unsigned_signing_bytes chain_id sender_public_key nonce expiry_height
    (recipient ← map_err js_error (address_from_str recipient); Ok (Transfer recipient amount_atoms)).

Definition wasm_unsigned_claim_reward_signing_bytes (chain_id : ustring) (sender_public_key : bytes)
    (nonce expiry_height challenge_id answer : Z) : result JsValue bytes :=
  unsigned_signing_bytes chain_id sender_public_key nonce expiry_height (Ok (ClaimReward challenge_id answer)).

Definition wasm_unsigned_set_display_name_signing_bytes (chain_id : ustring) (sender_public_key : bytes)
    (nonce expiry_height : Z) (display_name : option ustring) : result JsValue bytes :=
  unsigned_signing_bytes chain_id sender_public_key nonce expiry_height (Ok (SetDisplayName display_name)).
End wasm.
