(* ===== verification/Block.v ===== *)
(** * Blocks and the transaction Merkle root

    [crates/kcoin-protocol/src/block.rs], and the [ValidatorId] newtype of
    [commit.rs] that the header carries. *)

From S2P Require Import Prelude Errors Crypto Transaction.

(** [ValidatorId([u8; 32])]: an Ed25519 public key. *)
Definition ValidatorId : Type := array 32.
#[export] Instance ValidatorId_eq_dec : EqDecision ValidatorId := array_eq_dec 32.
#[export] Instance ValidatorId_countable : Countable ValidatorId := array_countable 32.

Record BlockHeader : Type := mk_BlockHeader {
  bh_protocol_version : Z;
  bh_chain_id : ChainId;
  bh_height : Z;
  bh_parent_hash : Hash32;
  bh_proposer : ValidatorId;
  bh_round : Z;
  bh_timestamp_ms : Z;
  bh_transactions_root : Hash32;
  bh_state_root : Hash32
}.

Record Block : Type := mk_Block {
  header : BlockHeader;
  transactions : list SignedTransaction
}.

#[export] Instance BlockHeader_eq_dec : EqDecision BlockHeader.
Proof. solve_decision. Defined.
#[export] Instance Block_eq_dec : EqDecision Block.
Proof. solve_decision. Defined.

Section block.
Context `{Blake3, !Borsh SignedTransaction, !Borsh BlockHeader, !Borsh Block}.

(** One pass of the [while level.len() > 1] loop: [level.chunks(2)], an odd
    last node paired with itself. *)
Fixpoint merkle_next (level : list Hash32) : list Hash32 :=
  match level with
  | hl :: hr :: rest => hash_pair MERKLE_NODE_DOMAIN hl hr :: merkle_next rest
  | [hl] => [hash_pair MERKLE_NODE_DOMAIN hl hl]
  | [] => []
  end.

Fixpoint merkle_loop (fuel : nat) (level : list Hash32) : list Hash32 :=
  match fuel with
  | O => level
  | S fuel => if (1 <? length level)%nat then merkle_loop fuel (merkle_next level) else level
  end.

Definition merkle_leaf (t : SignedTransaction) : Hash32 :=
  hash_bytes MERKLE_LEAF_DOMAIN (as_bytes (tx_id t)).

(** The number of leaves is enough fuel ([merkle_loop_singleton]); the default
    of [level[0]] is never used. *)
Definition merkle_root (txs : list SignedTransaction) : Hash32 :=
  match txs with
  | [] => hash_bytes MERKLE_EMPTY_DOMAIN []
  | _ => default Hash32_ZERO (head (merkle_loop (length txs) (merkle_leaf <$> txs)))
  end.

Definition block_new (chain_id : ChainId) (height : Z) (parent_hash : Hash32)
    (proposer : ValidatorId) (round timestamp_ms : Z) (state_root : Hash32)
    (txs : list SignedTransaction) : Block :=
  let transactions_root := merkle_root txs in
  mk_Block
    (mk_BlockHeader PROTOCOL_VERSION chain_id height parent_hash proposer round timestamp_ms
       transactions_root state_root)
    txs.

Definition block_hash (b : Block) : Hash32 := hash_bytes BLOCK_HASH_DOMAIN (to_vec (header b)).

Definition consensus_hash (b : Block) : Hash32 := block_hash b.

Definition block_canonical_bytes (b : Block) : bytes := to_vec b.

Definition validate_commitments (b : Block) : result ValidationError () :=
  if MAX_BLOCK_BYTES <? Z.of_nat (length (block_canonical_bytes b)) then Err PayloadTooLarge
  else if bool_decide (bh_protocol_version (header b) <> PROTOCOL_VERSION)
  then Err (UnsupportedProtocolVersion PROTOCOL_VERSION (bh_protocol_version (header b)))
  else
    _ ← chain_id_validate (bh_chain_id (header b));
    if bool_decide (merkle_root (transactions b) <> bh_transactions_root (header b))
    then Err InvalidTransactionsRoot
    else Ok ().

Definition block_decode (b : bytes) : result ValidationError Block :=
  if MAX_BLOCK_BYTES <? Z.of_nat (length b) then Err PayloadTooLarge
  else
    block ← ok_or (try_from_slice b) Malformed;
    _ ← validate_commitments block;
    Ok block.

(** ** Lemmas about the Merkle loop *)

Lemma length_merkle_next level :
  length (merkle_next level) = Nat.div2 (S (length level)).
Proof.
  induction level as [level IH] using (induction_ltof1 _ length). unfold ltof in IH.
  destruct level as [|l [|r rest]]; [done..|]. cbn [merkle_next length].
  rewrite IH by (simpl; lia). done.
Qed.

Lemma merkle_next_shorter level :
  (1 < length level)%nat -> (0 < length (merkle_next level) < length level)%nat.
Proof.
  rewrite length_merkle_next. intros Hl.
  destruct (length level) as [|[|n]]; [lia..|].
  change (Nat.div2 (S (S (S n)))) with (S (Nat.div2 (S n))).
  pose proof (Nat.div2_decr (S n) n (le_n _)) as Hd.
  revert Hd. generalize (Nat.div2 (S n)) as d. lia.
Qed.

(** With as much fuel as there are nodes, the loop ends on a single node. *)
Lemma merkle_loop_singleton fuel level :
  level <> [] -> (length level <= fuel)%nat -> exists h, merkle_loop fuel level = [h].
Proof.
  revert level. induction fuel as [|fuel IH]; intros level Hne Hf; simpl.
  - destruct level; [done|simpl in Hf; lia].
  - destruct (Nat.ltb_spec 1 (length level)) as [Hl|Hl].
    + apply merkle_next_shorter in Hl. apply IH; [|lia].
      destruct (merkle_next level); [simpl in Hl; lia|done].
    + destruct level as [|h [|]]; [done|by exists h|simpl in Hl; lia].
Qed.

(** Fuel beyond the number of nodes does not change the result. *)
Lemma merkle_loop_more_fuel fuel fuel' level :
  (length level <= fuel)%nat -> (fuel <= fuel')%nat ->
  merkle_loop fuel' level = merkle_loop fuel level.
Proof.
  revert fuel' level. induction fuel as [|fuel IH]; intros [|fuel'] level Hl Hf; simpl; try done; try lia.
  - destruct level; [done|simpl in Hl; lia].
  - destruct (Nat.ltb_spec 1 (length level)) as [H1|H1]; [|done].
    pose proof (merkle_next_shorter _ H1). apply IH; lia.
Qed.

Lemma merkle_next_app l1 l2 :
  Nat.Even (length l1) -> merkle_next (l1 ++ l2) = merkle_next l1 ++ merkle_next l2.
Proof.
  revert l2. induction l1 as [l1 IH] using (induction_ltof1 _ length). unfold ltof in IH.
  intros l2 He. destruct l1 as [|l [|r rest]]; [done| |].
  - by apply Nat.even_spec in He.
  - simpl. f_equal. apply IH; [simpl; lia|]. destruct He as [k Hk]. exists (k - 1)%nat.
    simpl in Hk. lia.
Qed.

Lemma merkle_root_loop txs fuel :
  txs <> [] -> (length txs <= fuel)%nat ->
  merkle_loop fuel (merkle_leaf <$> txs) = [merkle_root txs].
Proof.
  intros Hne Hf. destruct (merkle_loop_singleton (length txs) (merkle_leaf <$> txs)) as [h Hh].
  - by destruct txs.
  - by rewrite length_fmap.
  - rewrite (merkle_loop_more_fuel (length txs)) by (rewrite ?length_fmap; lia).
    rewrite Hh. destruct txs; [done|]. unfold merkle_root. by rewrite Hh.
Qed.

Lemma validate_commitments_Ok_inv b :
  validate_commitments b = Ok () ->
  Z.of_nat (length (block_canonical_bytes b)) <= MAX_BLOCK_BYTES /\
  bh_protocol_version (header b) = PROTOCOL_VERSION /\
  chain_id_validate (bh_chain_id (header b)) = Ok () /\
  merkle_root (transactions b) = bh_transactions_root (header b).
Proof.
  unfold validate_commitments. destruct (Z.ltb_spec MAX_BLOCK_BYTES (Z.of_nat (length (block_canonical_bytes b)))); [done|].
  destruct (decide (bh_protocol_version (header b) = PROTOCOL_VERSION)) as [Hv|Hv].
  - settle_tests tauto. intros ([] & Hc & Hr)%result_bind_Ok_inv. case_bool_decide; [done|]. done.
  - by settle_tests tauto.
Qed.
End block.
