(* ===== verification/Commit.v ===== *)
(** * Commit votes and certificates

    [crates/kcoin-protocol/src/commit.rs]: the finality statement validators
    sign, the certificate that collects the signatures, its verification, and
    the quorum size. *)

From S2P Require Import Prelude Errors Crypto Transaction Block.

Record CommitVote : Type := mk_CommitVote {
  cv_protocol_version : Z;
  cv_chain_id : ChainId;
  cv_height : Z;
  cv_round : Z;
  cv_block_hash : Hash32
}.

Record CommitSignature : Type := mk_CommitSignature {
  cs_validator : ValidatorId;
  cs_signature : array 64
}.

Record CommitCertificate : Type := mk_CommitCertificate {
  cc_protocol_version : Z;
  cc_chain_id : ChainId;
  cc_height : Z;
  cc_round : Z;
  cc_block_hash : Hash32;
  cc_signatures : list CommitSignature
}.

#[export] Instance CommitVote_eq_dec : EqDecision CommitVote.
Proof. solve_decision. Defined.
#[export] Instance CommitSignature_eq_dec : EqDecision CommitSignature.
Proof. solve_decision. Defined.
#[export] Instance CommitCertificate_eq_dec : EqDecision CommitCertificate.
Proof. solve_decision. Defined.

(** [floor(2N/3) + 1] without multiplication ([quorum_size_floor]). *)
Definition quorum_size (validator_count : Z) : Z :=
  if validator_count =? 0 then 0 else validator_count - ((validator_count - 1) / 3).

Definition validator_from_signing_key `{Ed25519} (key : SigningKey) : ValidatorId :=
  verifying_key key.

(** [ValidatorId::verifying_key]: [VerifyingKey::from_bytes] on the identity's
    bytes; the key that comes back is named by those bytes. *)
Definition validator_verifying_key `{Ed25519} (v : ValidatorId) :
    result ValidationError (array 32) :=
  if vk_valid v then Ok v else Err InvalidPublicKey.

Definition commit_vote_new (chain_id : ChainId) (height round : Z) (block_hash : Hash32) : CommitVote :=
  mk_CommitVote PROTOCOL_VERSION chain_id height round block_hash.

Definition commit_vote_validate_shape (v : CommitVote) : result ValidationError () :=
  if bool_decide (cv_protocol_version v <> PROTOCOL_VERSION)
  then Err (UnsupportedProtocolVersion PROTOCOL_VERSION (cv_protocol_version v))
  else chain_id_validate (cv_chain_id v).

(** [sort_by_key(|signature| signature.validator)]. *)
Definition certificate_new (vote : CommitVote) (signatures : list CommitSignature) : CommitCertificate :=
  let signatures := sort_by (fun a b => array_leb (cs_validator a) (cs_validator b)) signatures in
  mk_CommitCertificate (cv_protocol_version vote) (cv_chain_id vote) (cv_height vote)
    (cv_round vote) (cv_block_hash vote) signatures.

Definition certificate_vote (c : CommitCertificate) : CommitVote :=
  mk_CommitVote (cc_protocol_version c) (cc_chain_id c) (cc_height c) (cc_round c) (cc_block_hash c).

Section certificate.
Context `{Blake3, Ed25519, !Borsh CommitVote, !Borsh CommitCertificate, !Borsh BlockHeader}.

Definition commit_signing_bytes (v : CommitVote) : bytes := COMMIT_SIGNATURE_PREFIX ++ to_vec v.

Definition commit_sign (vote : CommitVote) (signing_key : SigningKey) : CommitSignature :=
  mk_CommitSignature (validator_from_signing_key signing_key)
    (ed_sign signing_key (commit_signing_bytes vote)).

(** The [for commit_signature in &self.signatures] loop of [verify], with its
    [seen] set and [previous] validator. *)
Fixpoint verify_loop (authorized : gset ValidatorId) (vote : CommitVote)
    (seen : gset ValidatorId) (previous : option ValidatorId) (signatures : list CommitSignature) :
    result ValidationError (gset ValidatorId) :=
  match signatures with
  | [] => Ok seen
  | s :: signatures =>
      if bool_decide (cs_validator s ∉ authorized) then Err UnauthorizedValidator
      else if bool_decide (cs_validator s ∈ seen) then Err DuplicateValidator
      else if (if previous is Some validator then array_leb (cs_validator s) validator else false)
      then Err InvalidCommitCertificate
      else
        key ← validator_verifying_key (cs_validator s);
        if verify_strict key (commit_signing_bytes vote) (cs_signature s)
        then verify_loop authorized vote ({[cs_validator s]} ∪ seen) (Some (cs_validator s)) signatures
        else Err InvalidSignature
  end.

Definition certificate_verify (c : CommitCertificate) (validators : list ValidatorId) :
    result ValidationError () :=
  if MAX_COMMIT_CERTIFICATE_BYTES <? Z.of_nat (length (to_vec c)) then Err PayloadTooLarge
  else
    let vote := certificate_vote c in
    _ ← commit_vote_validate_shape vote;
    let authorized : gset ValidatorId := list_to_set validators in
    if bool_decide (authorized = ∅) || bool_decide (size authorized <> length validators)
    then Err InvalidCommitCertificate
    else
      let required := quorum_size (Z.of_nat (size authorized)) in
      seen ← verify_loop authorized vote ∅ None (cc_signatures c);
      if Z.of_nat (size seen) <? required
      then Err (InsufficientQuorum required (Z.of_nat (size seen)))
      else Ok ().

Definition verify_for_block (c : CommitCertificate) (b : Block) (validators : list ValidatorId) :
    result ValidationError () :=
  if bool_decide (cc_chain_id c <> bh_chain_id (header b)) ||
     bool_decide (cc_height c <> bh_height (header b)) ||
     bool_decide (cc_block_hash c <> consensus_hash b) ||
     (cc_round c <? bh_round (header b))
  then Err InvalidCommitCertificate
  else
    let validator_count := Z.of_nat (length validators) in
    if validator_count =? 0 then Err InvalidCommitCertificate
    else
      let height_offset := saturating_sub (bh_height (header b)) 1 mod validator_count in
      let round_offset := bh_round (header b) mod validator_count in
      let proposer_index := (height_offset + round_offset) mod validator_count in
      if bool_decide (Some (bh_proposer (header b)) <> validators !! Z.to_nat proposer_index)
      then Err InvalidCommitCertificate
      else certificate_verify c validators.

Definition certificate_canonical_bytes (c : CommitCertificate) : bytes := to_vec c.

Definition certificate_decode (b : bytes) : result ValidationError CommitCertificate :=
  if MAX_COMMIT_CERTIFICATE_BYTES <? Z.of_nat (length b) then Err PayloadTooLarge
  else ok_or (try_from_slice b) Malformed.

(** ** What an accepted certificate guarantees *)

(** One signature of a certificate over [vote]: authorized, by a well-formed
    key, valid. *)
Definition signature_ok (validators : list ValidatorId) (vote : CommitVote) (s : CommitSignature) : Prop :=
  cs_validator s ∈ validators /\ vk_valid (cs_validator s) = true /\
  verify_strict (cs_validator s) (commit_signing_bytes vote) (cs_signature s) = true.

Definition signature_lt (a b : CommitSignature) : Prop :=
  array_ltb (cs_validator a) (cs_validator b) = true.

Lemma verify_loop_Ok (validators : list ValidatorId) vote seen previous sigs seen' :
  verify_loop (list_to_set validators) vote seen previous sigs = Ok seen' ->
  Forall (signature_ok validators vote) sigs /\ StronglySorted signature_lt sigs /\
  Forall (fun s => if previous is Some p then array_ltb p (cs_validator s) = true else True) sigs /\
  seen' = list_to_set (cs_validator <$> sigs) ∪ seen.
Proof.
  revert seen previous. induction sigs as [|s sigs IH]; intros seen previous Hloop; simpl in Hloop.
  { injection Hloop as <-. split_and!; [constructor..|]. set_solver. }
  case_bool_decide as Ha; [done|]. case_bool_decide as Hs; [done|].
  destruct (match previous with Some _ => _ | None => _ end) eqn:Hp; [done|].
  unfold validator_verifying_key in Hloop.
  destruct (vk_valid _) eqn:Hk; simpl in Hloop; [|done].
  destruct (verify_strict _ _ _) eqn:Hv; [|done].
  apply IH in Hloop as (Hok & Hsort & Hprev & ->).
  rewrite elem_of_list_to_set in Ha. split_and!.
  - by constructor.
  - constructor; [done|]. exact Hprev.
  - destruct previous as [p|]; [|by apply Forall_true].
    rewrite array_leb_ltb, negb_false_iff in Hp. constructor; [done|].
    eapply Forall_impl; [exact Hprev|]. intros x. by apply array_ltb_trans.
  - simpl. set_solver.
Qed.

Lemma verify_loop_complete (validators : list ValidatorId) vote seen previous sigs :
  Forall (signature_ok validators vote) sigs -> StronglySorted signature_lt sigs ->
  Forall (fun s => cs_validator s ∉ seen) sigs ->
  Forall (fun s => if previous is Some p then array_ltb p (cs_validator s) = true else True) sigs ->
  verify_loop (list_to_set validators) vote seen previous sigs =
  Ok (list_to_set (cs_validator <$> sigs) ∪ seen).
Proof.
  intros Hok Hsort. revert seen previous Hok.
  induction Hsort as [|s sigs Hsort IH Hs]; intros seen previous Hok Hseen Hprev.
  { simpl. f_equal. set_solver. }
  apply Forall_cons in Hok as [(Ha & Hk & Hv) Hok].
  apply Forall_cons in Hseen as [Hs1 Hseen]. apply Forall_cons in Hprev as [Hp Hprev].
  simpl. rewrite bool_decide_eq_false_2 by (rewrite elem_of_list_to_set; tauto).
  rewrite bool_decide_eq_false_2 by done.
  unfold validator_verifying_key. rewrite Hk. simpl. rewrite Hv.
  transitivity (verify_loop (list_to_set validators) vote ({[cs_validator s]} ∪ seen)
    (Some (cs_validator s)) sigs).
  { destruct previous; [|done]. by rewrite array_leb_ltb, Hp. }
  rewrite IH; [|done| |exact Hs].
  - f_equal. set_solver.
  - rewrite Forall_forall in *. intros x Hx.
    rewrite elem_of_union, elem_of_singleton. intros [He|He]; [|by apply (Hseen x)].
    specialize (Hs x Hx). unfold signature_lt in Hs. by rewrite He, array_ltb_irrefl in Hs.
Qed.

Lemma signature_lt_NoDup sigs : StronglySorted signature_lt sigs -> NoDup (cs_validator <$> sigs).
Proof.
  induction 1 as [|s sigs _ IH Hs]; simpl; constructor; [|done].
  intros (x & He & Hx)%list_elem_of_fmap. rewrite Forall_forall in Hs. specialize (Hs x Hx).
  unfold signature_lt in Hs. by rewrite He, array_ltb_irrefl in Hs.
Qed.

(** Sorting signatures of distinct validators gives the strict order [verify] asks for. *)
Lemma sorted_signatures sigs :
  NoDup (cs_validator <$> sigs) ->
  StronglySorted signature_lt
    (sort_by (fun a b => array_leb (cs_validator a) (cs_validator b)) sigs).
Proof.
  set (leb := fun a b => array_leb (cs_validator a) (cs_validator b)). intros Hnd0.
  assert (NoDup (cs_validator <$> sort_by leb sigs)) as Hnd by by rewrite sort_by_Permutation.
  assert (StronglySorted (fun a b => leb a b = true) (sort_by leb sigs)) as Hs.
  { apply sort_by_StronglySorted; unfold leb; eauto with kcoin. }
  revert Hs Hnd. generalize (sort_by leb sigs) as l. clear Hnd0. intros l. induction 1 as [|s l Hs IH Hle]; simpl; [constructor|].
  intros [Hnin Hnd]%NoDup_cons. constructor; [by apply IH|].
  rewrite Forall_forall in *. intros x Hx. destruct (array_leb_lt_or_eq _ _ (Hle x Hx)) as [|He]; [done|].
  exfalso. apply Hnin, list_elem_of_fmap. by exists x.
Qed.

Lemma size_list_to_set_NoDup (l : list ValidatorId) :
  size (list_to_set (C := gset ValidatorId) l) = length l <-> NoDup l.
Proof.
  split; [|apply size_list_to_set].
  induction l as [|x l IH]; simpl; [constructor|].
  intros Hl. destruct (decide (x ∈ l)) as [Hx|Hx].
  - exfalso. assert (({[x]} ∪ list_to_set l : gset ValidatorId) = list_to_set l) as He by set_solver.
    rewrite He in Hl.
    enough (size (list_to_set (C := gset ValidatorId) l) <= length l)%nat by lia.
    clear. induction l as [|x l IH]; simpl; [done|].
    etrans; [apply size_union_alt|] || idtac.
    rewrite size_union_alt, size_singleton.
    enough (size (list_to_set (C := gset ValidatorId) l ∖ {[x]}) <= size (list_to_set (C := gset ValidatorId) l))%nat by lia.
    apply subseteq_size. set_solver.
  - rewrite size_union, size_singleton in Hl by set_solver. constructor; [done|]. apply IH. lia.
Qed.

(** The specification of [verify], in terms of the signature list alone. *)
Record certificate_ok (c : CommitCertificate) (validators : list ValidatorId) : Prop := {
  ok_size : Z.of_nat (length (to_vec c)) <= MAX_COMMIT_CERTIFICATE_BYTES;
  ok_version : cc_protocol_version c = PROTOCOL_VERSION;
  ok_chain : chain_id_validate (cc_chain_id c) = Ok ();
  ok_validators : validators <> [] /\ NoDup validators;
  ok_signatures : Forall (signature_ok validators (certificate_vote c)) (cc_signatures c);
  ok_sorted : StronglySorted signature_lt (cc_signatures c);
  ok_quorum : quorum_size (Z.of_nat (length validators)) <= Z.of_nat (length (cc_signatures c))
}.

Lemma certificate_verify_iff c validators :
  certificate_verify c validators = Ok () <-> certificate_ok c validators.
Proof.
  unfold certificate_verify, commit_vote_validate_shape. split.
  - destruct (Z.ltb_spec MAX_COMMIT_CERTIFICATE_BYTES (Z.of_nat (length (to_vec c)))); [done|].
    intros ([] & Hshape & Hrest)%result_bind_Ok_inv.
    destruct (bool_decide (cv_protocol_version _ <> _)) eqn:Hver in Hshape; [done|].
    apply bool_decide_eq_false, dec_stable in Hver.
    destruct (bool_decide _ || bool_decide _) eqn:Hauth in Hrest; [done|].
    apply orb_false_iff in Hauth as [Hne%bool_decide_eq_false Hsz%bool_decide_eq_false].
    apply dec_stable in Hsz as Hnd. apply size_list_to_set_NoDup in Hnd.
    apply result_bind_Ok_inv in Hrest as (seen & Hloop & Hq).
    apply verify_loop_Ok in Hloop as (Hok & Hsort & _ & ->).
    apply dec_stable in Hsz. rewrite Hsz in Hq.
    assert (size (list_to_set (C := gset ValidatorId) (cs_validator <$> cc_signatures c) ∪ ∅) =
            length (cc_signatures c)) as He.
    { rewrite union_empty_r_L, size_list_to_set, length_fmap; [done|]. by apply signature_lt_NoDup. }
    rewrite He in Hq.
    destruct (Z.ltb_spec (Z.of_nat (length (cc_signatures c))) (quorum_size (Z.of_nat (length validators)))); [done|].
    split; [lia|done..| |done|done|lia]. split; [|done]. intros ->. by apply Hne.
  - intros [Hsize Hver Hchain [Hne Hnd] Hok Hsort Hq].
    rewrite (proj2 (Z.ltb_ge _ _)) by done. simpl.
    assert (size (list_to_set (C := gset ValidatorId) validators) = length validators) as Hsz
      by by apply size_list_to_set_NoDup.
    assert (list_to_set (C := gset ValidatorId) validators <> ∅) as Hnel.
    { intros He. rewrite He, size_empty in Hsz. by destruct validators. }
    settle_tests tauto. rewrite Hchain; simpl. settle_tests tauto.
    rewrite verify_loop_complete by (try done; apply Forall_true; set_solver). simpl.
    rewrite Hsz, union_empty_r_L, size_list_to_set, length_fmap by by apply signature_lt_NoDup.
    by rewrite (proj2 (Z.ltb_ge _ _)).
Qed.

Lemma verify_for_block_Ok_inv c b validators :
  verify_for_block c b validators = Ok () ->
  cc_chain_id c = bh_chain_id (header b) /\ cc_height c = bh_height (header b) /\
  cc_block_hash c = block_hash b /\ bh_round (header b) <= cc_round c /\
  certificate_ok c validators.
Proof.
  unfold verify_for_block.
  destruct (_ || _) eqn:Hc; [done|]. rewrite !orb_false_iff, !bool_decide_eq_false in Hc.
  destruct Hc as [[[H1%dec_stable H2%dec_stable] H3%dec_stable] H4%Z.ltb_ge].
  destruct (_ =? 0); [done|]. case_bool_decide; [done|].
  by intros Hok%certificate_verify_iff.
Qed.
End certificate.

(** ** Quorums *)

Lemma quorum_size_floor n : 1 <= n -> quorum_size n = 2 * n / 3 + 1.
Proof.
  intros Hn. unfold quorum_size. rewrite (proj2 (Z.eqb_neq n 0)) by lia.
  Z.to_euclidean_division_equations. lia.
Qed.

(** Two quorums of [n] validators overlap in more than [floor((n-1)/3)]. *)
Lemma quorum_size_overlap n : 1 <= n -> (n - 1) / 3 < 2 * quorum_size n - n.
Proof.
  intros Hn. unfold quorum_size. rewrite (proj2 (Z.eqb_neq n 0)) by lia.
  Z.to_euclidean_division_equations. lia.
Qed.

Lemma quorum_size_range n : 1 <= n -> 1 <= quorum_size n <= n.
Proof.
  intros Hn. unfold quorum_size. rewrite (proj2 (Z.eqb_neq n 0)) by lia.
  Z.to_euclidean_division_equations. lia.
Qed.

#[export] Hint Resolve quorum_size_range quorum_size_overlap : kcoin.

(** ** Conflicting certificates *)

Section conflict.
Context `{Ed25519, !Borsh CommitVote, !Borsh CommitCertificate, !BorshLaws CommitVote}.

(** [culprits] are more than a third of the others among [validators], and each
    has a valid signature on either of the two different votes. *)
Record exposed (vote1 vote2 : CommitVote) (validators culprits : list ValidatorId) : Prop := {
  exposed_unique : NoDup culprits;
  exposed_members : culprits ⊆ validators;
  exposed_many : (Z.of_nat (length validators) - 1) / 3 < Z.of_nat (length culprits);
  exposed_differ : commit_signing_bytes vote1 <> commit_signing_bytes vote2;
  exposed_signatures : Forall (fun v => exists sig1 sig2,
      verify_strict v (commit_signing_bytes vote1) sig1 = true /\
      verify_strict v (commit_signing_bytes vote2) sig2 = true) culprits
}.

Lemma conflicting_certificates_overlap c1 c2 validators :
  certificate_ok c1 validators -> certificate_ok c2 validators ->
  certificate_vote c1 <> certificate_vote c2 ->
  exists culprits, exposed (certificate_vote c1) (certificate_vote c2) validators culprits.
Proof.
  intros [_ _ _ [Hne Hnd] Hs1 Hsort1 Hq1] [_ _ _ _ Hs2 Hsort2 Hq2] Hdiff.
  set (l1 := cs_validator <$> cc_signatures c1). set (l2 := cs_validator <$> cc_signatures c2).
  rewrite Forall_forall in Hs1, Hs2.
  assert (l1 ⊆ validators) as Hl1 by (intros v (s & -> & Hs)%list_elem_of_fmap; by apply Hs1).
  assert (l2 ⊆ validators) as Hl2 by (intros v (s & -> & Hs)%list_elem_of_fmap; by apply Hs2).
  pose proof (signature_lt_NoDup _ Hsort1) as Hnd1. pose proof (signature_lt_NoDup _ Hsort2) as Hnd2.
  exists (filter (fun v => v ∈ l2) l1). split.
  - by apply NoDup_filter.
  - intros v [_ Hv]%list_elem_of_filter. by apply Hl1.
  - pose proof (NoDup_intersection_length validators l1 l2 Hnd1 Hnd2 Hl1 Hl2) as Hlen.
    subst l1 l2. rewrite !length_fmap in Hlen.
    assert (1 <= Z.of_nat (length validators)) as Hpos by (destruct validators; simpl; [done|lia]).
    pose proof (quorum_size_overlap _ Hpos). lia.
  - unfold commit_signing_bytes. intros Heq%app_inv_head. by apply to_vec_inj in Heq.
  - apply Forall_forall. intros v [Hv2 Hv1]%list_elem_of_filter.
    apply list_elem_of_fmap in Hv1 as (s1 & -> & Hin1). apply list_elem_of_fmap in Hv2 as (s2 & Heq & Hin2).
    exists (cs_signature s1), (cs_signature s2). split; [by apply Hs1|]. rewrite Heq. by apply Hs2.
Qed.
End conflict.
