(* ===== verification/Ledger.v ===== *)
(** * The deterministic ledger

    [crates/kcoin-protocol/src/ledger.rs]: accounts, the arithmetic challenge,
    the reward schedule, the validation and execution of transactions, and the
    construction, application and replay of blocks.

    [BTreeMap] and [BTreeSet] are [gmap] and [gset]; methods that take
    [&mut self] are [stE LedgerState ValidationError], so the state they leave
    behind on an error is part of the model. *)

From S2P Require Import Prelude Errors Crypto Transaction Block Commit.

Definition REWARD_BAND_ATOMS : Z := 20000 * ATOMS_PER_KCOIN.
Definition REWARDS_KCOIN : list Z := [100; 50; 25; 10; 5].

(** ** Data *)

Record AccountState : Type := mk_AccountState {
  balance_atoms : Z;
  next_nonce : Z;
  ac_display_name : option ustring
}.

Definition AccountState_default : AccountState := mk_AccountState 0 0 None.

Inductive ChallengeOperation : Type := Add | Subtract | Multiply.

#[export] Instance AccountState_eq_dec : EqDecision AccountState.
Proof. solve_decision. Defined.
#[export] Instance ChallengeOperation_eq_dec : EqDecision ChallengeOperation.
Proof. solve_decision. Defined.

Definition symbol (op : ChallengeOperation) : Z :=
  match op with Add => 43 | Subtract => 45 | Multiply => 0xD7 end.

Record Challenge : Type := mk_Challenge {
  ch_id : Z;
  ch_operation : ChallengeOperation;
  ch_left : Z;
  ch_right : Z
}.

(** [bytes[i]] of a digest. *)
Definition digest_byte (digest : Hash32) (i : nat) : Z :=
  byte_to_Z (default x00 (as_bytes digest !! i)).

Definition for_id `{Blake3} (id : Z) : Challenge :=
  let digest := hash_bytes CHALLENGE_HASH_DOMAIN (to_le_bytes 8 id) in
  let operation :=
    match digest_byte digest 0 mod 3 with 0 => Add | 1 => Subtract | _ => Multiply end in
  let l := 1 + digest_byte digest 1 mod 9 in
  let r := 1 + digest_byte digest 2 mod 9 in
  if bool_decide (operation = Subtract) && (l <? r)
  then mk_Challenge id operation r l
  else mk_Challenge id operation l r.

(** Unsigned subtraction that would underflow is a panic: [None]. *)
Definition answer_opt (c : Challenge) : option Z :=
  match ch_operation c with
  | Add => checked_add u16_max (ch_left c) (ch_right c)
  | Subtract => checked_sub (ch_left c) (ch_right c)
  | Multiply => if ch_left c * ch_right c <=? u16_max then Some (ch_left c * ch_right c) else None
  end.

(** [Challenge::answer] where it does not panic; for every generated challenge
    ([answer_opt_for_id]). *)
Definition answer (c : Challenge) : Z :=
  match ch_operation c with
  | Add => ch_left c + ch_right c
  | Subtract => ch_left c - ch_right c
  | Multiply => ch_left c * ch_right c
  end.

Record ValidatedTransaction : Type := mk_ValidatedTransaction {
  vt_id : Hash32;
  vt_sender : Address
}.

Inductive TransactionOutcome : Type :=
| OutcomeTransfer (recipient : Address) (amount_atoms : Z)
| RewardClaimed (challenge_id reward_atoms : Z)
| DisplayNameUpdated (display_name : option ustring).

Record TransactionReceipt : Type := mk_TransactionReceipt {
  tr_transaction_id : Hash32;
  tr_sender : Address;
  tr_nonce : Z;
  tr_outcome : TransactionOutcome
}.

Record LedgerState : Type := mk_LedgerState {
  chain_id : ChainId;
  height : Z;
  tip_hash : Hash32;
  last_block_timestamp_ms : Z;
  total_supply_atoms : Z;
  active_challenge_id : Z;
  accounts : gmap Address AccountState;
  applied_transactions : gset Hash32
}.

Record StateCommitment : Type := mk_StateCommitment {
  sc_protocol_version : Z;
  sc_chain_id : ChainId;
  sc_height : Z;
  sc_last_block_timestamp_ms : Z;
  sc_total_supply_atoms : Z;
  sc_active_challenge_id : Z;
  sc_accounts : gmap Address AccountState;
  sc_applied_transactions : gset Hash32
}.

(** Assignments to the fields of [self]. *)
Definition with_balance (b : Z) (a : AccountState) : AccountState :=
  mk_AccountState b (next_nonce a) (ac_display_name a).
Definition with_nonce (n : Z) (a : AccountState) : AccountState :=
  mk_AccountState (balance_atoms a) n (ac_display_name a).
Definition with_display_name (d : option ustring) (a : AccountState) : AccountState :=
  mk_AccountState (balance_atoms a) (next_nonce a) d.

Definition set_accounts (f : gmap Address AccountState -> gmap Address AccountState) (s : LedgerState) :=
  mk_LedgerState (chain_id s) (height s) (tip_hash s) (last_block_timestamp_ms s)
    (total_supply_atoms s) (active_challenge_id s) (f (accounts s)) (applied_transactions s).
Definition set_applied (f : gset Hash32 -> gset Hash32) (s : LedgerState) :=
  mk_LedgerState (chain_id s) (height s) (tip_hash s) (last_block_timestamp_ms s)
    (total_supply_atoms s) (active_challenge_id s) (accounts s) (f (applied_transactions s)).
Definition set_issuance (supply challenge : Z) (s : LedgerState) :=
  mk_LedgerState (chain_id s) (height s) (tip_hash s) (last_block_timestamp_ms s)
    supply challenge (accounts s) (applied_transactions s).
Definition set_height_timestamp (h ts : Z) (s : LedgerState) :=
  mk_LedgerState (chain_id s) h (tip_hash s) ts
    (total_supply_atoms s) (active_challenge_id s) (accounts s) (applied_transactions s).
Definition set_tip_hash (tip : Hash32) (s : LedgerState) :=
  mk_LedgerState (chain_id s) (height s) tip (last_block_timestamp_ms s)
    (total_supply_atoms s) (active_challenge_id s) (accounts s) (applied_transactions s).

(** ** Reads and the reward schedule *)

Definition ledger_new (c : ChainId) : LedgerState := mk_LedgerState c 0 Hash32_ZERO 0 0 0 ∅ ∅.

Definition account (s : LedgerState) (address : Address) : option AccountState :=
  accounts s !! address.

Definition account_or_default (s : LedgerState) (address : Address) : AccountState :=
  default AccountState_default (accounts s !! address).

Definition contains_transaction (s : LedgerState) (id : Hash32) : bool :=
  bool_decide (id ∈ applied_transactions s).

Definition applied_transaction_count (s : LedgerState) : Z := Z.of_nat (size (applied_transactions s)).

Definition reward_for_supply (total_supply : Z) : option Z :=
  if MAX_SUPPLY_ATOMS <=? total_supply then None
  else
    let band := total_supply / REWARD_BAND_ATOMS in
    let reward_kcoin :=
      default 0 (REWARDS_KCOIN !! Z.to_nat
        (if band <? Z.of_nat (length REWARDS_KCOIN) then band
         else Z.of_nat (length REWARDS_KCOIN) - 1)) in
    let reward_atoms := reward_kcoin * ATOMS_PER_KCOIN in
    let remaining := MAX_SUPPLY_ATOMS - total_supply in
    Some (if reward_atoms <? remaining then reward_atoms else remaining).

Definition normalized_proposal_timestamp (s : LedgerState) (requested_ms : Z) : Z :=
  if height s =? 0 then Z.min requested_ms MAX_BLOCK_TIMESTAMP_MS
  else
    Z.min (Z.min (Z.max requested_ms (last_block_timestamp_ms s))
             (saturating_add u64_max (last_block_timestamp_ms s) MAX_BLOCK_TIMESTAMP_STEP_MS))
      MAX_BLOCK_TIMESTAMP_MS.

Section ledger.
Context `{Blake3, Ed25519, !Borsh UnsignedTransaction, !Borsh SignedTransaction,
          !Borsh BlockHeader, !Borsh Block, !Borsh StateCommitment,
          !Borsh CommitVote, !Borsh CommitCertificate}.

Definition current_challenge (s : LedgerState) : Challenge := for_id (active_challenge_id s).

Definition state_commitment (s : LedgerState) : StateCommitment :=
  mk_StateCommitment PROTOCOL_VERSION (chain_id s) (height s) (last_block_timestamp_ms s)
    (total_supply_atoms s) (active_challenge_id s) (accounts s) (applied_transactions s).

Definition state_root (s : LedgerState) : Hash32 :=
  hash_bytes STATE_HASH_DOMAIN (to_vec (state_commitment s)).

(** ** Transactions *)

Definition validate_transaction (s : LedgerState) (t : SignedTransaction) (execution_height : Z) :
    result ValidationError ValidatedTransaction :=
  _ ← verify_signature t;
  if bool_decide (tx_chain_id (unsigned t) <> chain_id s)
  then Err (WrongChain (as_str (chain_id s)) (as_str (tx_chain_id (unsigned t))))
  else
  let id := tx_id t in
  if bool_decide (id ∈ applied_transactions s) then Err DuplicateTransaction
  else if tx_expiry_height (unsigned t) <? execution_height
  then Err (Expired (tx_expiry_height (unsigned t)) execution_height)
  else
  let sender := sender_address t in
  let sender_account := default AccountState_default (accounts s !! sender) in
  if negb (tx_nonce (unsigned t) =? next_nonce sender_account)
  then Err (NonceMismatch (next_nonce sender_account) (tx_nonce (unsigned t)))
  else
  _ ← ok_or (checked_add u64_max (next_nonce sender_account) 1) ArithmeticOverflow;
  _ ← match tx_action (unsigned t) with
      | Transfer _ amount_atoms =>
          if amount_atoms =? 0 then Err ZeroAmount
          else if balance_atoms sender_account <? amount_atoms
          then Err (InsufficientBalance (balance_atoms sender_account) amount_atoms)
          else Ok ()
      | ClaimReward challenge_id answered =>
          if negb (challenge_id =? active_challenge_id s)
          then Err (StaleChallenge (active_challenge_id s) challenge_id)
          else if negb (answered =? answer (current_challenge s)) then Err WrongChallengeAnswer
          else
            reward ← ok_or (reward_for_supply (total_supply_atoms s)) SupplyExhausted;
            _ ← ok_or (checked_add u64_max (balance_atoms sender_account) reward) ArithmeticOverflow;
            _ ← ok_or (checked_add u64_max (active_challenge_id s) 1) ArithmeticOverflow;
            Ok ()
      | SetDisplayName display_name => validate_display_name display_name
      end;
  Ok (mk_ValidatedTransaction id sender).

(** The [match &transaction.unsigned.action] of [apply_transaction]: it updates
    [self] and the local [sender_account], and yields the outcome. *)
Definition apply_action (sender : Address) (sender_account : AccountState) (a : TransactionAction) :
    stE LedgerState ValidationError (AccountState * TransactionOutcome) :=
  self ← get;
  match a with
  | Transfer recipient amount_atoms =>
      if bool_decide (recipient <> sender) then
        let recipient_account := default AccountState_default (accounts self !! recipient) in
        recipient_balance ← lift (ok_or
          (checked_add u64_max (balance_atoms recipient_account) amount_atoms) ArithmeticOverflow);
        sender_balance ← lift (ok_or
          (checked_sub (balance_atoms sender_account) amount_atoms) ArithmeticOverflow);
        let sender_account := with_balance sender_balance sender_account in
        let recipient_account := with_balance recipient_balance recipient_account in
        _ ← modify (set_accounts <[recipient := recipient_account]>);
        mret (sender_account, OutcomeTransfer recipient amount_atoms)
      else mret (sender_account, OutcomeTransfer recipient amount_atoms)
  | ClaimReward challenge_id _ =>
      reward_atoms ← lift (ok_or (reward_for_supply (total_supply_atoms self)) SupplyExhausted);
      new_balance ← lift (ok_or
        (checked_add u64_max (balance_atoms sender_account) reward_atoms) ArithmeticOverflow);
      new_supply ← lift (ok_or
        (checked_add u64_max (total_supply_atoms self) reward_atoms) ArithmeticOverflow);
      next_challenge ← lift (ok_or
        (checked_add u64_max (active_challenge_id self) 1) ArithmeticOverflow);
      _ ← modify (set_issuance new_supply next_challenge);
      mret (with_balance new_balance sender_account, RewardClaimed challenge_id reward_atoms)
  | SetDisplayName display_name =>
      mret (with_display_name display_name sender_account, DisplayNameUpdated display_name)
  end.

Definition apply_transaction (t : SignedTransaction) (execution_height : Z) :
    stE LedgerState ValidationError TransactionReceipt :=
  self ← get;
  validated ← lift (validate_transaction self t execution_height);
  let sender_account := default AccountState_default (accounts self !! vt_sender validated) in
  next_nonce ← lift (ok_or (checked_add u64_max (next_nonce sender_account) 1) ArithmeticOverflow);
  '(sender_account, outcome) ← apply_action (vt_sender validated) sender_account (tx_action (unsigned t));
  let sender_account := with_nonce next_nonce sender_account in
  _ ← modify (set_accounts <[vt_sender validated := sender_account]>);
  _ ← modify (set_applied (fun applied => {[vt_id validated]} ∪ applied));
  mret (mk_TransactionReceipt (vt_id validated) (vt_sender validated) (tx_nonce (unsigned t)) outcome).

(** ** Blocks *)

(** [for transaction in transactions { candidate.apply_transaction(..)? }],
    the receipts collected. *)
Fixpoint apply_transactions (txs : list SignedTransaction) (execution_height : Z) :
    stE LedgerState ValidationError (list TransactionReceipt) :=
  match txs with
  | [] => mret []
  | t :: txs =>
      receipt ← apply_transaction t execution_height;
      receipts ← apply_transactions txs execution_height;
      mret (receipt :: receipts)
  end.

Definition build_block (s : LedgerState) (proposer : ValidatorId) (round timestamp_ms : Z)
    (txs : list SignedTransaction) : result ValidationError Block :=
  new_height ← ok_or (checked_add u64_max (height s) 1) ArithmeticOverflow;
  let timestamp_ms := normalized_proposal_timestamp s timestamp_ms in
  let '(candidate, executed) := apply_transactions txs new_height s in
  _ ← executed;
  let candidate := set_height_timestamp new_height timestamp_ms candidate in
  Ok (block_new (chain_id s) new_height (tip_hash s) proposer round timestamp_ms
        (state_root candidate) txs).

Definition apply_block (b : Block) : stE LedgerState ValidationError (list TransactionReceipt) :=
  _ ← lift (validate_commitments b);
  self ← get;
  if bool_decide (bh_chain_id (header b) <> chain_id self)
  then throw (WrongChain (as_str (chain_id self)) (as_str (bh_chain_id (header b))))
  else
  expected_height ← lift (ok_or (checked_add u64_max (height self) 1) ArithmeticOverflow);
  if negb (bh_height (header b) =? expected_height)
  then throw (InvalidBlockHeight expected_height (bh_height (header b)))
  else if bool_decide (bh_parent_hash (header b) <> tip_hash self) then throw InvalidParentHash
  else if (MAX_BLOCK_TIMESTAMP_MS <? bh_timestamp_ms (header b)) ||
          ((0 <? height self) &&
           ((bh_timestamp_ms (header b) <? last_block_timestamp_ms self) ||
            (saturating_add u64_max (last_block_timestamp_ms self) MAX_BLOCK_TIMESTAMP_STEP_MS
               <? bh_timestamp_ms (header b))))
  then throw InvalidTimestamp
  else
    let '(candidate, executed) := apply_transactions (transactions b) (bh_height (header b)) self in
    receipts ← lift executed;
    let candidate := set_height_timestamp (bh_height (header b)) (bh_timestamp_ms (header b)) candidate in
    if bool_decide (state_root candidate <> bh_state_root (header b)) then throw InvalidStateRoot
    else
      _ ← put (set_tip_hash (block_hash b) candidate);
      mret receipts.

Definition apply_finalized_block (b : Block) (certificate : CommitCertificate)
    (validators : list ValidatorId) : stE LedgerState ValidationError (list TransactionReceipt) :=
  _ ← lift (verify_for_block certificate b validators);
  apply_block b.

Fixpoint apply_blocks (blocks : list Block) : stE LedgerState ValidationError () :=
  match blocks with
  | [] => mret ()
  | b :: blocks => _ ← apply_block b; apply_blocks blocks
  end.

Definition replay_blocks (c : ChainId) (blocks : list Block) : result ValidationError LedgerState :=
  let '(state, executed) := apply_blocks blocks (ledger_new c) in
  _ ← executed;
  Ok state.

Fixpoint apply_finalized_blocks (history : list (Block * CommitCertificate))
    (validators : list ValidatorId) : stE LedgerState ValidationError () :=
  match history with
  | [] => mret ()
  | (b, certificate) :: history =>
      _ ← apply_finalized_block b certificate validators;
      apply_finalized_blocks history validators
  end.

Definition replay_finalized_blocks (c : ChainId) (history : list (Block * CommitCertificate))
    (validators : list ValidatorId) : result ValidationError LedgerState :=
  let '(state, executed) := apply_finalized_blocks history validators (ledger_new c) in
  _ ← executed;
  Ok state.
End ledger.
