(* ===== verification/LedgerFacts.v ===== *)
(** * Correctness of the ledger

    The specification of a transaction ([tx_valid], [tx_effect]), the ledger
    invariant [ledger_ok] with supply conservation and the issuance schedule,
    and the lemmas on the execution of transactions, blocks and replays. *)

From Stdlib Require Import Lia.
From S2P Require Import Prelude Errors Crypto Transaction Block Commit Ledger.

(** ** Sums over the accounts *)

Definition sum_accounts (f : AccountState -> Z) (m : gmap Address AccountState) : Z :=
  map_fold (fun _ a acc => f a + acc) 0 m.

Section sums.
Context (f : AccountState -> Z).
Implicit Types m : gmap Address AccountState.

Lemma sum_accounts_insert_new m k v :
  m !! k = None -> sum_accounts f (<[k := v]> m) = f v + sum_accounts f m.
Proof. intros Hk. unfold sum_accounts. rewrite map_fold_insert_L; [done|intros; lia|done]. Qed.

Lemma sum_accounts_insert m k v :
  f AccountState_default = 0 ->
  sum_accounts f (<[k := v]> m) =
  sum_accounts f m - f (default AccountState_default (m !! k)) + f v.
Proof.
  intros H0. destruct (m !! k) as [a|] eqn:Hk; simpl.
  - rewrite <- (insert_id m k a) at 2 by done.
    rewrite <- (insert_delete_eq m k a), <- (insert_delete_eq m k v).
    rewrite !sum_accounts_insert_new by apply lookup_delete_eq. lia.
  - rewrite sum_accounts_insert_new by done. lia.
Qed.

Lemma sum_accounts_nonneg m : map_Forall (fun _ a => 0 <= f a) m -> 0 <= sum_accounts f m.
Proof.
  induction m as [|k a m Hk IH] using map_ind; [done|].
  intros [Ha Hm]%map_Forall_insert; [|done]. rewrite sum_accounts_insert_new by done.
  apply IH in Hm. lia.
Qed.

Lemma sum_accounts_lookup m k :
  f AccountState_default = 0 -> map_Forall (fun _ a => 0 <= f a) m ->
  f (default AccountState_default (m !! k)) <= sum_accounts f m.
Proof.
  intros H0 Hm. destruct (m !! k) as [a|] eqn:Hk; simpl.
  - rewrite <- (insert_delete_id m k a) by done.
    rewrite sum_accounts_insert_new by apply lookup_delete_eq.
    enough (0 <= sum_accounts f (delete k m)) by lia.
    apply sum_accounts_nonneg. intros j b Hj%lookup_delete_Some. naive_solver.
  - rewrite H0. by apply sum_accounts_nonneg.
Qed.

(** Two different accounts hold at most the total. *)
Lemma sum_accounts_lookup2 m j k :
  f AccountState_default = 0 -> map_Forall (fun _ a => 0 <= f a) m -> j <> k ->
  f (default AccountState_default (m !! j)) + f (default AccountState_default (m !! k)) <=
  sum_accounts f m.
Proof.
  intros H0 Hm Hjk. destruct (m !! j) as [a|] eqn:Hj; cbn [from_option id].
  - rewrite <- (insert_delete_id m j a) by done.
    rewrite sum_accounts_insert_new, lookup_insert_ne by (try apply lookup_delete_eq; done).
    enough (f (default AccountState_default (delete j m !! k)) <= sum_accounts f (delete j m)) by (cbn; lia).
    apply sum_accounts_lookup; [done|]. intros i b Hi%lookup_delete_Some. naive_solver.
  - pose proof (sum_accounts_lookup m k H0 Hm). cbn in *. lia.
Qed.
End sums.

(** ** The issuance schedule *)

(** The supply after [claims] successful claims. *)
Fixpoint issued (claims : nat) : Z :=
  match claims with
  | O => 0
  | S claims => let supply := issued claims in supply + default 0 (reward_for_supply supply)
  end.

(** The claims it takes to issue every atom ([issued_max]). *)
Definition TOTAL_CLAIMS : Z := 7400.

Lemma reward_for_supply_Some s r :
  0 <= s -> reward_for_supply s = Some r -> 0 < r <= 100 * ATOMS_PER_KCOIN /\ s + r <= MAX_SUPPLY_ATOMS.
Proof.
  unfold reward_for_supply. intros Hs.
  destruct (Z.leb_spec MAX_SUPPLY_ATOMS s) as [|Hlt]; [done|].
  set (band := if _ <? Z.of_nat (length REWARDS_KCOIN) then _ else _). intros [= <-].
  assert (0 <= band <= 4) as Hband.
  { subst band. change (Z.of_nat (length REWARDS_KCOIN)) with 5.
    assert (0 <= s / REWARD_BAND_ATOMS) by (apply Z.div_pos; [done|]; reflexivity).
    destruct (Z.ltb_spec (s / REWARD_BAND_ATOMS) 5); lia. }
  assert (exists w, REWARDS_KCOIN !! Z.to_nat band = Some w /\ 5 <= w <= 100) as (w & Hw & Hwr).
  { assert (band = 0 \/ band = 1 \/ band = 2 \/ band = 3 \/ band = 4) as Hc by lia.
    destruct Hc as [-> | [-> | [-> | [-> | ->]]]]; eexists; (split; [reflexivity|lia]). }
  rewrite Hw. change (default 0 (Some w)) with w. unfold MAX_SUPPLY_ATOMS, ATOMS_PER_KCOIN in *. clearbody band.
  destruct (Z.ltb_spec (w * 1000000) (100000 * 1000000 - s)); lia.
Qed.

Lemma reward_for_supply_None s : reward_for_supply s = None <-> MAX_SUPPLY_ATOMS <= s.
Proof. unfold reward_for_supply. destruct (Z.leb_spec MAX_SUPPLY_ATOMS s); naive_solver lia. Qed.

Lemma issued_step n :
  issued (S n) = issued n + default 0 (reward_for_supply (issued n)).
Proof. done. Qed.

Lemma issued_range n : 0 <= issued n <= MAX_SUPPLY_ATOMS.
Proof.
  induction n as [|n IH]; [done|]. rewrite issued_step.
  destruct (reward_for_supply (issued n)) as [r|] eqn:Hr; cbn [from_option id].
  - apply reward_for_supply_Some in Hr; lia.
  - lia.
Qed.

Lemma issued_mono m n : (m <= n)%nat -> issued m <= issued n.
Proof.
  induction 1 as [|n _ IH]; [done|]. rewrite issued_step. pose proof (issued_range n).
  destruct (reward_for_supply (issued n)) as [r|] eqn:Hr; cbn [from_option id]; [|lia].
  apply reward_for_supply_Some in Hr; lia.
Qed.

Lemma issued_7399 : issued (Z.to_nat TOTAL_CLAIMS - 1) = MAX_SUPPLY_ATOMS - 5 * ATOMS_PER_KCOIN.
Proof. vm_compute. reflexivity. Qed.

Lemma issued_max : issued (Z.to_nat TOTAL_CLAIMS) = MAX_SUPPLY_ATOMS.
Proof. vm_compute. reflexivity. Qed.

Lemma issued_lt_max n : issued n < MAX_SUPPLY_ATOMS <-> Z.of_nat n < TOTAL_CLAIMS.
Proof.
  split; intros Hn.
  - destruct (decide (Z.of_nat n < TOTAL_CLAIMS)) as [|Hge]; [done|].
    pose proof (issued_mono (Z.to_nat TOTAL_CLAIMS) n) as Hm. rewrite issued_max in Hm. lia.
  - pose proof (issued_mono n (Z.to_nat TOTAL_CLAIMS - 1)) as Hm. rewrite issued_7399 in Hm.
    assert (issued n <= MAX_SUPPLY_ATOMS - 5 * ATOMS_PER_KCOIN) by (apply Hm; lia).
    unfold ATOMS_PER_KCOIN in *. lia.
Qed.

(** The reward in whole KCoin at a supply of [k] KCoin. *)
Lemma reward_for_supply_kcoin k :
  0 <= k < 100000 ->
  reward_for_supply (ATOMS_PER_KCOIN * k) =
  Some (ATOMS_PER_KCOIN * Z.min (100000 - k)
    (if k <? 20000 then 100 else if k <? 40000 then 50 else if k <? 60000 then 25
     else if k <? 80000 then 10 else 5)).
Proof.
  intros Hk. unfold reward_for_supply, MAX_SUPPLY_ATOMS, REWARD_BAND_ATOMS, ATOMS_PER_KCOIN.
  rewrite (proj2 (Z.leb_gt _ _)) by lia.
  assert (1000000 * k / (20000 * 1000000) = k / 20000) as ->.
  { rewrite (Z.mul_comm 20000), Z.div_mul_cancel_l; lia. }
  change (Z.of_nat (length REWARDS_KCOIN)) with 5.
  pose proof (Z.div_mod k 20000). pose proof (Z.mod_pos_bound k 20000).
  assert (k / 20000 = 0 \/ k / 20000 = 1 \/ k / 20000 = 2 \/ k / 20000 = 3 \/ k / 20000 = 4) as Hc by lia.
  f_equal.
  destruct Hc as [Hc|[Hc|[Hc|[Hc|Hc]]]]; rewrite Hc in *;
    match goal with |- context [REWARDS_KCOIN !! ?i] =>
      let w := eval vm_compute in (default 0 (REWARDS_KCOIN !! i)) in
      change (default 0 (REWARDS_KCOIN !! i)) with w
    end;
    repeat match goal with |- context [?a <? ?b] => destruct (Z.ltb_spec a b) end; lia.
Qed.

Definition issued_kcoin (n : Z) : Z :=
  Z.min (100 * n) (Z.min (10000 + 50 * n) (Z.min (25000 + 25 * n)
    (Z.min (46000 + 10 * n) (Z.min (63000 + 5 * n) 100000)))).

Lemma issued_kcoin_spec n : issued n = ATOMS_PER_KCOIN * issued_kcoin (Z.of_nat n).
Proof.
  induction n as [|n IH]; [done|]. rewrite issued_step, IH.
  assert (0 <= issued_kcoin (Z.of_nat n) <= 100000) as Hk by (unfold issued_kcoin; lia).
  destruct (Z.lt_ge_cases (issued_kcoin (Z.of_nat n)) 100000) as [Hlt|Hge].
  - rewrite reward_for_supply_kcoin by lia. cbn [from_option id].
    rewrite <- Z.mul_add_distr_l. f_equal. unfold issued_kcoin in *.
    repeat match goal with |- context [?a <? ?b] => destruct (Z.ltb_spec a b) end; lia.
  - rewrite (proj2 (reward_for_supply_None _)) by (unfold MAX_SUPPLY_ATOMS, ATOMS_PER_KCOIN; lia).
    cbn [from_option id]. rewrite Z.add_0_r. f_equal. unfold issued_kcoin in *. lia.
Qed.

(** ** Challenges *)

Lemma for_id_range `{Blake3} id :
  1 <= ch_left (for_id id) <= 9 /\ 1 <= ch_right (for_id id) <= 9 /\
  (ch_operation (for_id id) = Subtract -> ch_right (for_id id) <= ch_left (for_id id)).
Proof.
  unfold for_id. set (digest := hash_bytes _ _). cbv zeta.
  pose proof (Z.mod_pos_bound (digest_byte digest 1) 9) as Hl.
  pose proof (Z.mod_pos_bound (digest_byte digest 2) 9) as Hr.
  generalize (match digest_byte digest 0 mod 3 with 0 => Add | 1 => Subtract | _ => Multiply end) as op.
  intros op. case_bool_decide as Hop; simpl; [|split_and!; lia || done].
  destruct (Z.ltb_spec (1 + digest_byte digest 1 mod 9) (1 + digest_byte digest 2 mod 9)); simpl; lia.
Qed.

Lemma answer_range l r op :
  1 <= l <= 9 -> 1 <= r <= 9 -> (op = Subtract -> r <= l) ->
  forall id, answer_opt (mk_Challenge id op l r) = Some (answer (mk_Challenge id op l r)) /\
  0 <= answer (mk_Challenge id op l r) <= 81.
Proof.
  intros Hl Hr Hop id. unfold answer_opt, answer, checked_add, checked_sub, u16_max; simpl.
  destruct op; simpl.
  - rewrite (proj2 (Z.leb_le _ _)) by lia. split; [done|lia].
  - specialize (Hop eq_refl). rewrite (proj2 (Z.leb_le _ _)) by lia. split; [done|lia].
  - assert (l * r <= 81) by nia. assert (0 <= l * r) by nia.
    rewrite (proj2 (Z.leb_le _ _)) by lia. split; [done|lia].
Qed.

(** ** Fields within their machine types *)

Definition action_in_range (a : TransactionAction) : Prop :=
  match a with
  | Transfer _ amount_atoms => is_u64 amount_atoms
  | ClaimReward challenge_id answer => is_u64 challenge_id /\ is_u16 answer
  | SetDisplayName _ => True
  end.

Definition transaction_in_range (t : SignedTransaction) : Prop :=
  is_u64 (tx_nonce (unsigned t)) /\ is_u64 (tx_expiry_height (unsigned t)) /\
  action_in_range (tx_action (unsigned t)).

Definition block_in_range (b : Block) : Prop :=
  is_u64 (bh_height (header b)) /\ is_u64 (bh_timestamp_ms (header b)) /\
  Forall transaction_in_range (transactions b).

(** ** The ledger invariant *)

Record ledger_ok (s : LedgerState) : Prop := {
  ok_height : is_u64 (height s);
  ok_timestamp : in_range MAX_BLOCK_TIMESTAMP_MS (last_block_timestamp_ms s);
  ok_accounts : map_Forall (fun _ a => 0 <= balance_atoms a /\ is_u64 (next_nonce a)) (accounts s);
  ok_challenge : 0 <= active_challenge_id s;
  ok_supply : sum_accounts balance_atoms (accounts s) = total_supply_atoms s;
  ok_issued : total_supply_atoms s = issued (Z.to_nat (active_challenge_id s));
  ok_claims : active_challenge_id s <= TOTAL_CLAIMS;
  ok_nonces : sum_accounts next_nonce (accounts s) = Z.of_nat (size (applied_transactions s))
}.

Section ledger_ok_lemmas.
Context (s : LedgerState) (Hok : ledger_ok s).

Lemma ledger_ok_supply_range : 0 <= total_supply_atoms s <= MAX_SUPPLY_ATOMS.
Proof. rewrite (ok_issued s Hok). apply issued_range. Qed.

Lemma ledger_ok_account x :
  0 <= balance_atoms (account_or_default s x) /\ is_u64 (next_nonce (account_or_default s x)).
Proof.
  unfold account_or_default. destruct (accounts s !! x) as [a|] eqn:Hx; simpl.
  - exact (ok_accounts s Hok x a Hx).
  - done.
Qed.

Lemma ledger_ok_balance_le x : balance_atoms (account_or_default s x) <= total_supply_atoms s.
Proof.
  rewrite <- (ok_supply s Hok). apply sum_accounts_lookup; [done|].
  eapply map_Forall_impl; [exact (ok_accounts s Hok)|]. by intros ? ? [].
Qed.

Lemma ledger_ok_balance_le2 x y :
  x <> y ->
  balance_atoms (account_or_default s x) + balance_atoms (account_or_default s y) <=
  total_supply_atoms s.
Proof.
  intros Hxy. rewrite <- (ok_supply s Hok). apply sum_accounts_lookup2; [done| |done].
  eapply map_Forall_impl; [exact (ok_accounts s Hok)|]. by intros ? ? [].
Qed.
End ledger_ok_lemmas.

Lemma ledger_new_ok c : ledger_ok (ledger_new c).
Proof. split; try done; apply map_Forall_empty. Qed.

Lemma max_supply_lt_u64 : MAX_SUPPLY_ATOMS < u64_max.
Proof. done. Qed.

Section facts.
Context `{Blake3, Ed25519, !Borsh UnsignedTransaction, !Borsh SignedTransaction,
          !Borsh BlockHeader, !Borsh Block, !Borsh StateCommitment,
          !Borsh CommitVote, !Borsh CommitCertificate}.

(** ** When a transaction is valid *)

Definition action_valid (s : LedgerState) (sender : Address) (a : TransactionAction) : Prop :=
  match a with
  | Transfer _ amount_atoms =>
      amount_atoms <> 0 /\ amount_atoms <= balance_atoms (account_or_default s sender)
  | ClaimReward challenge_id answered =>
      challenge_id = active_challenge_id s /\ answered = answer (current_challenge s) /\
      exists reward, reward_for_supply (total_supply_atoms s) = Some reward /\
        balance_atoms (account_or_default s sender) + reward <= u64_max /\
        active_challenge_id s + 1 <= u64_max
  | SetDisplayName display_name => validate_display_name display_name = Ok ()
  end.

Record tx_valid (s : LedgerState) (t : SignedTransaction) (execution_height : Z) : Prop := {
  valid_signature : verify_signature t = Ok ();
  valid_chain : tx_chain_id (unsigned t) = chain_id s;
  valid_fresh : tx_id t ∉ applied_transactions s;
  valid_expiry : execution_height <= tx_expiry_height (unsigned t);
  valid_nonce : tx_nonce (unsigned t) = next_nonce (account_or_default s (sender_address t));
  valid_nonce_room : next_nonce (account_or_default s (sender_address t)) + 1 <= u64_max;
  valid_action : action_valid s (sender_address t) (tx_action (unsigned t))
}.

Lemma validate_transaction_iff s t h v :
  validate_transaction s t h = Ok v <->
  tx_valid s t h /\ v = mk_ValidatedTransaction (tx_id t) (sender_address t).
Proof.
  unfold validate_transaction. split.
  - intros ([] & Hsig & Hrun)%result_bind_Ok_inv.
    case_bool_decide as Hchain; [done|]. case_bool_decide as Hfresh; [done|].
    destruct (Z.ltb_spec (tx_expiry_height (unsigned t)) h); [done|].
    destruct (Z.eqb_spec (tx_nonce (unsigned t))
      (next_nonce (default AccountState_default (accounts s !! sender_address t)))) as [Hn|]; [|done].
    simpl in Hrun. apply result_bind_Ok_inv in Hrun as (n & Hroom%ok_or_Ok_inv%checked_add_Some & Hrun).
    apply result_bind_Ok_inv in Hrun as ([] & Hact & [= <-]).
    split; [|done]. split; try done; try tauto. unfold account_or_default, action_valid.
    destruct (tx_action (unsigned t)) as [rcpt amt|cid ans|d]; [| |done].
    + unfold account_or_default.
      destruct (Z.eqb_spec amt 0); [done|].
      destruct (Z.ltb_spec (balance_atoms (default AccountState_default (accounts s !! sender_address t))) amt);
        [done|]. done.
    + destruct (Z.eqb_spec cid (active_challenge_id s)) as [Hcid|]; [|done].
      destruct (Z.eqb_spec ans (answer (current_challenge s))) as [Hans|]; [|done]. simpl in Hact.
      repeat invert_bind. simplify_eq.
      repeat match goal with Hc : checked_add _ _ _ = Some _ |- _ => apply checked_add_Some in Hc as [-> ?] end.
      split_and!; eauto.
  - intros [[Hsig Hchain Hfresh Hexp Hn Hroom Hact] ->].
    unfold account_or_default in *. rewrite Hsig. cbn [mbind result_bind].
    unfold checked_add. settle_tests ltac:(tauto || lia).
    unfold action_valid, account_or_default in Hact.
    destruct (tx_action (unsigned t)) as [rcpt amt|cid ans|d].
    + destruct Hact. settle_tests lia. done.
    + destruct Hact as (-> & -> & reward & Hr & Hb & Hc). settle_tests lia. rewrite Hr. simpl.
      settle_tests lia. done.
    + by rewrite Hact.
Qed.

(** ** What a transaction does *)

Definition tx_reward (s : LedgerState) (a : TransactionAction) : Z :=
  match a with
  | ClaimReward _ _ => default 0 (reward_for_supply (total_supply_atoms s))
  | _ => 0
  end.

Definition balance_change (s : LedgerState) (t : SignedTransaction) (x : Address) : Z :=
  match tx_action (unsigned t) with
  | Transfer recipient amount_atoms =>
      (if decide (x = recipient) then amount_atoms else 0) -
      (if decide (x = sender_address t) then amount_atoms else 0)
  | a => if decide (x = sender_address t) then tx_reward s a else 0
  end.

(** Every account after the transaction, in terms of the account before. *)
Record tx_effect (s : LedgerState) (t : SignedTransaction) (s' : LedgerState) : Prop := {
  eff_balance x :
    balance_atoms (account_or_default s' x) = balance_atoms (account_or_default s x) + balance_change s t x;
  eff_nonce x :
    next_nonce (account_or_default s' x) =
    next_nonce (account_or_default s x) + (if decide (x = sender_address t) then 1 else 0);
  eff_name x :
    ac_display_name (account_or_default s' x) =
    match tx_action (unsigned t) with
    | SetDisplayName d => if decide (x = sender_address t) then d else ac_display_name (account_or_default s x)
    | _ => ac_display_name (account_or_default s x)
    end;
  eff_supply : total_supply_atoms s' = total_supply_atoms s + tx_reward s (tx_action (unsigned t));
  eff_challenge :
    active_challenge_id s' =
    active_challenge_id s + match tx_action (unsigned t) with ClaimReward _ _ => 1 | _ => 0 end;
  eff_applied : applied_transactions s' = {[tx_id t]} ∪ applied_transactions s;
  eff_chain : chain_id s' = chain_id s;
  eff_height : height s' = height s;
  eff_tip : tip_hash s' = tip_hash s;
  eff_timestamp : last_block_timestamp_ms s' = last_block_timestamp_ms s
}.

Definition tx_outcome (s : LedgerState) (t : SignedTransaction) : TransactionOutcome :=
  match tx_action (unsigned t) with
  | Transfer recipient amount_atoms => OutcomeTransfer recipient amount_atoms
  | ClaimReward challenge_id _ => RewardClaimed challenge_id (tx_reward s (tx_action (unsigned t)))
  | SetDisplayName display_name => DisplayNameUpdated display_name
  end.

Definition tx_receipt (s : LedgerState) (t : SignedTransaction) : TransactionReceipt :=
  mk_TransactionReceipt (tx_id t) (sender_address t) (tx_nonce (unsigned t)) (tx_outcome s t).

(** The state a successful [apply_transaction] writes. *)
Definition tx_post_action (s : LedgerState) (sender : Address) (a : TransactionAction) :
    LedgerState * AccountState :=
  let acc := account_or_default s sender in
  match a with
  | Transfer r amount =>
      if decide (r = sender) then (s, acc)
      else
        let racc := account_or_default s r in
        (set_accounts <[r := with_balance (balance_atoms racc + amount) racc]> s,
         with_balance (balance_atoms acc - amount) acc)
  | ClaimReward _ _ =>
      (set_issuance (total_supply_atoms s + tx_reward s a) (active_challenge_id s + 1) s,
       with_balance (balance_atoms acc + tx_reward s a) acc)
  | SetDisplayName d => (s, with_display_name d acc)
  end.

Definition tx_post (s : LedgerState) (t : SignedTransaction) : LedgerState :=
  let '(s1, acc) := tx_post_action s (sender_address t) (tx_action (unsigned t)) in
  set_applied (fun applied => {[tx_id t]} ∪ applied)
    (set_accounts <[sender_address t := with_nonce (next_nonce acc + 1) acc]> s1).

Lemma tx_post_effect s t : tx_effect s t (tx_post s t).
Proof.
  unfold tx_post, tx_post_action. split; intros; simpl;
    destruct (tx_action (unsigned t)) as [r a|c a|d] eqn:Ha;
    unfold balance_change, account_or_default; rewrite ?Ha; simpl;
    rewrite ?lookup_insert; repeat (case_decide; subst; simpl; rewrite ?lookup_insert);
    simplify_eq/=; try done; try lia.
Qed.

Lemma apply_action_run s a outcome s1 acc :
  tx_post_action s (sender_address a) (tx_action (unsigned a)) = (s1, acc) ->
  outcome = tx_outcome s a ->
  action_valid s (sender_address a) (tx_action (unsigned a)) ->
  total_supply_atoms s + tx_reward s (tx_action (unsigned a)) <= u64_max ->
  (forall r amount, tx_action (unsigned a) = Transfer r amount -> r <> sender_address a ->
     balance_atoms (account_or_default s r) + amount <= u64_max) ->
  apply_action (sender_address a) (account_or_default s (sender_address a)) (tx_action (unsigned a)) s =
  (s1, Ok (acc, outcome)).
Proof.
  unfold tx_post_action, apply_action, tx_outcome. intros Hpost -> Hv Hsup Hrec.
  destruct (tx_action (unsigned a)) as [r amt|c ans|d].
  - destruct Hv as [Hne Hbal].
    unfold get, mbind, mret, stE_bind, stE_ret, modify, lift, ok_or, checked_add, checked_sub.
    fold (account_or_default s r).
    case_decide as Hr; simplify_eq; settle_tests tauto; [done|].
    specialize (Hrec r amt eq_refl Hr). settle_tests lia. done.
  - destruct Hv as (_ & _ & reward & Hr & Hb & Hc). simpl in Hsup, Hpost. simplify_eq.
    unfold get, mbind, mret, stE_bind, stE_ret, modify, lift, ok_or, checked_add. simpl.
    rewrite Hr in *. simpl in *. settle_tests lia. done.
  - simplify_eq. done.
Qed.

Lemma apply_transaction_run s t h :
  ledger_ok s -> transaction_in_range t -> tx_valid s t h ->
  apply_transaction t h s = (tx_post s t, Ok (tx_receipt s t)).
Proof.
  intros Hok (_ & _ & Hrange) Hv. unfold apply_transaction.
  rewrite (bind_run_Ok get _ s s s eq_refl). cbv beta.
  assert (validate_transaction s t h = Ok (mk_ValidatedTransaction (tx_id t) (sender_address t))) as Hval
    by by apply validate_transaction_iff.
  rewrite Hval, (bind_run_Ok _ _ s s _ eq_refl). cbv beta zeta. simpl vt_sender. simpl vt_id.
  fold (account_or_default s (sender_address t)).
  destruct Hv as [_ _ _ _ Hn Hroom Hact].
  unfold checked_add at 1. rewrite (proj2 (Z.leb_le _ _)) by done. simpl ok_or.
  rewrite (bind_run_Ok _ _ s s _ eq_refl). cbv beta.
  unfold tx_post. destruct (tx_post_action s (sender_address t) (tx_action (unsigned t))) as [s1 acc] eqn:Hp.
  erewrite bind_run_Ok; cycle 1.
  { apply (apply_action_run _ _ _ _ _ Hp eq_refl Hact).
    - pose proof (ledger_ok_supply_range s Hok). pose proof max_supply_lt_u64.
      destruct (tx_action (unsigned t)) as [| |]; simpl; try lia.
      destruct (reward_for_supply _) as [r|] eqn:Hr; simpl; [|lia].
      apply reward_for_supply_Some in Hr; lia.
    - intros r amount Ha Hr. rewrite Ha in Hact. destruct Hact as [_ Hbal].
      pose proof (ledger_ok_supply_range s Hok). pose proof max_supply_lt_u64.
      pose proof (ledger_ok_balance_le2 s Hok _ _ Hr). lia. }
  assert (next_nonce acc = next_nonce (account_or_default s (sender_address t))) as Hna.
  { unfold tx_post_action in Hp. destruct (tx_action (unsigned t)); repeat case_decide; by simplify_eq. }
  unfold tx_receipt. rewrite Hna. done.
Qed.

Lemma apply_transaction_valid s t h s' r :
  apply_transaction t h s = (s', Ok r) -> tx_valid s t h.
Proof.
  unfold apply_transaction. intros Hrun.
  apply bind_Ok_inv in Hrun as (s1 & self & [= <- <-] & Hrun).
  apply bind_Ok_inv in Hrun as (s2 & v & [= <- Hval] & _).
  by apply validate_transaction_iff in Hval as [].
Qed.

Lemma apply_transaction_Ok_inv s t h s' r :
  ledger_ok s -> transaction_in_range t -> apply_transaction t h s = (s', Ok r) ->
  tx_valid s t h /\ s' = tx_post s t /\ r = tx_receipt s t.
Proof.
  intros Hok Hr Hrun. pose proof (apply_transaction_valid _ _ _ _ _ Hrun) as Hv.
  rewrite (apply_transaction_run s t h Hok Hr Hv) in Hrun. by simplify_eq.
Qed.

(** No error path of a transaction has written anything. *)
Lemma apply_action_Err_inv s sender acc a s' e :
  apply_action sender acc a s = (s', Err e) -> s' = s.
Proof.
  unfold apply_action, get, mbind, stE_bind, lift, ok_or, modify, mret, stE_ret.
  intros Hrun. invert_checks Hrun.
Qed.

Lemma apply_transaction_Err_inv s t h s' e : apply_transaction t h s = (s', Err e) -> s' = s.
Proof.
  unfold apply_transaction. intros Hrun.
  apply bind_Err_inv in Hrun as [[=]|(s1 & self & [= <- <-] & Hrun)].
  apply bind_Err_inv in Hrun as [[= <- _]|(s1 & v & [= <- _] & Hrun)]; [done|].
  apply bind_Err_inv in Hrun as [[= <- _]|(s1 & n & [= <- _] & Hrun)]; [done|].
  apply bind_Err_inv in Hrun as [Hrun|(s1 & [acc o] & _ & Hrun)].
  - by eapply apply_action_Err_inv.
  - done.
Qed.

(** ** The invariant is preserved *)

Lemma tx_post_sums s t :
  sum_accounts balance_atoms (accounts (tx_post s t)) =
    sum_accounts balance_atoms (accounts s) + tx_reward s (tx_action (unsigned t)) /\
  sum_accounts next_nonce (accounts (tx_post s t)) = sum_accounts next_nonce (accounts s) + 1.
Proof.
  unfold tx_post, tx_post_action.
  destruct (tx_action (unsigned t)) as [r a|c a|d]; simpl; try case_decide as Hr; simpl;
    rewrite !sum_accounts_insert by done; rewrite ?lookup_insert_ne by done;
    unfold account_or_default; simpl; lia.
Qed.

Lemma tx_post_accounts_ok s t h :
  ledger_ok s -> transaction_in_range t -> tx_valid s t h ->
  map_Forall (fun _ a => 0 <= balance_atoms a /\ is_u64 (next_nonce a)) (accounts (tx_post s t)).
Proof.
  intros Hok (_ & _ & Hrange) [_ _ _ _ _ Hroom Hact].
  pose proof (ledger_ok_account s Hok (sender_address t)) as [Hb Hn].
  unfold tx_post, tx_post_action.
  destruct (tx_action (unsigned t)) as [r a|c a|d]; simpl in *; unfold in_range in *.
  - pose proof (ledger_ok_account s Hok r). unfold in_range in *. case_decide; simpl;
      repeat (apply map_Forall_insert_2; [simpl; lia|]); apply Hok.
  - destruct Hact as (_ & _ & w & Hw & _). rewrite Hw. simpl.
    pose proof (ledger_ok_supply_range s Hok). apply reward_for_supply_Some in Hw; [|lia].
    apply map_Forall_insert_2; [simpl; lia|apply Hok].
  - apply map_Forall_insert_2; [simpl; lia|apply Hok].
Qed.

Lemma tx_post_issuance s t h :
  ledger_ok s -> tx_valid s t h ->
  0 <= active_challenge_id (tx_post s t) <= TOTAL_CLAIMS /\
  total_supply_atoms (tx_post s t) = issued (Z.to_nat (active_challenge_id (tx_post s t))).
Proof.
  intros Hok [_ _ _ _ _ _ Hact]. destruct (tx_post_effect s t) as [_ _ _ Hs Hc _ _ _ _ _].
  rewrite Hs, Hc. pose proof (ok_issued s Hok) as Hi. pose proof (ok_challenge s Hok).
  pose proof (ok_claims s Hok).
  destruct (tx_action (unsigned t)) as [r a|c a|d]; simpl; rewrite ?Z.add_0_r; try done.
  destruct Hact as (_ & _ & w & Hw & _).
  assert (total_supply_atoms s < MAX_SUPPLY_ATOMS) as Hlt.
  { pose proof (ledger_ok_supply_range s Hok). apply reward_for_supply_Some in Hw; lia. }
  rewrite Hi, issued_lt_max in Hlt. split; [lia|].
  rewrite Z2Nat.inj_add, Nat.add_comm by lia. simpl. by rewrite Hi.
Qed.

Lemma tx_post_ok s t h :
  ledger_ok s -> transaction_in_range t -> tx_valid s t h -> ledger_ok (tx_post s t).
Proof.
  intros Hok Hrange Hv. destruct (tx_post_effect s t) as [_ _ _ Hs Hc Ha _ Hh _ Hts].
  destruct (tx_post_issuance s t h Hok Hv) as [[??] Hi]. destruct (tx_post_sums s t) as [Hb Hn].
  split; try done.
  - rewrite Hh. apply Hok.
  - rewrite Hts. apply Hok.
  - by eapply tx_post_accounts_ok.
  - by rewrite Hb, Hs, (ok_supply s Hok).
  - destruct Hv as [_ _ Hfresh _ _ _ _].
    rewrite Hn, Ha, (ok_nonces s Hok), size_union, size_singleton by set_solver. lia.
Qed.
End facts.
