(* ===== verification/Replay.v ===== *)
(** * Blocks and replay

    Lemmas on the block operations of [Ledger]: the specification of
    [apply_block] ([block_valid], [block_post]), construction followed by
    application, and what a replayed history looks like. *)

From Stdlib Require Import Lia.
From S2P Require Import Prelude Errors Crypto Transaction Block Commit Ledger LedgerFacts.

Section blocks.
Context `{Blake3, Ed25519, !Borsh UnsignedTransaction, !Borsh SignedTransaction,
          !Borsh BlockHeader, !Borsh Block, !Borsh StateCommitment,
          !Borsh CommitVote, !Borsh CommitCertificate}.

(** ** Lists of transactions *)

Definition txs_post (s : LedgerState) (txs : list SignedTransaction) : LedgerState :=
  foldl tx_post s txs.

Fixpoint txs_valid (s : LedgerState) (txs : list SignedTransaction) (execution_height : Z) : Prop :=
  match txs with
  | [] => True
  | t :: txs => tx_valid s t execution_height /\ txs_valid (tx_post s t) txs execution_height
  end.

Fixpoint txs_receipts (s : LedgerState) (txs : list SignedTransaction) : list TransactionReceipt :=
  match txs with
  | [] => []
  | t :: txs => tx_receipt s t :: txs_receipts (tx_post s t) txs
  end.

Lemma apply_transactions_run s txs h :
  ledger_ok s -> Forall transaction_in_range txs -> txs_valid s txs h ->
  apply_transactions txs h s = (txs_post s txs, Ok (txs_receipts s txs)).
Proof.
  intros Hok Hr. revert s Hok. induction Hr as [|t txs Ht _ IH]; intros s Hok; [done|].
  intros [Hv Hvs]. simpl. rewrite (bind_run_Ok _ _ _ _ _ (apply_transaction_run s t h Hok Ht Hv)).
  rewrite (bind_run_Ok _ _ _ _ _ (IH _ (tx_post_ok s t h Hok Ht Hv) Hvs)). done.
Qed.

Lemma apply_transactions_Ok_inv s txs h s' rs :
  ledger_ok s -> Forall transaction_in_range txs -> apply_transactions txs h s = (s', Ok rs) ->
  txs_valid s txs h /\ s' = txs_post s txs /\ rs = txs_receipts s txs.
Proof.
  intros Hok Hr. revert s Hok rs. induction Hr as [|t txs Ht _ IH]; intros s Hok rs; simpl.
  { by intros [= <- <-]. }
  intros (s1 & r & Hrun1 & Hrun)%bind_Ok_inv.
  apply bind_Ok_inv in Hrun as (s2 & rs' & Hrun2 & [= <- <-]).
  apply apply_transaction_Ok_inv in Hrun1 as (Hv & -> & ->); [|done..].
  apply IH in Hrun2 as (Hvs & -> & ->); [|by eapply tx_post_ok].
  done.
Qed.

Lemma txs_post_ok s txs h :
  ledger_ok s -> Forall transaction_in_range txs -> txs_valid s txs h -> ledger_ok (txs_post s txs).
Proof.
  intros Hok Hr. revert s Hok. induction Hr as [|t txs Ht _ IH]; intros s Hok; [done|].
  intros [Hv Hvs]. apply IH; [by eapply tx_post_ok|done].
Qed.

(** What executing transactions leaves alone. *)
Lemma txs_post_frame s txs :
  chain_id (txs_post s txs) = chain_id s /\ height (txs_post s txs) = height s /\
  tip_hash (txs_post s txs) = tip_hash s /\
  last_block_timestamp_ms (txs_post s txs) = last_block_timestamp_ms s.
Proof.
  revert s. induction txs as [|t txs IH]; intros s; [done|]. simpl.
  destruct (tx_post_effect s t) as [_ _ _ _ _ _ Hc Hh Ht Hts].
  destruct (IH (tx_post s t)) as (-> & -> & -> & ->). done.
Qed.

Lemma txs_post_applied s txs :
  applied_transactions (txs_post s txs) = list_to_set (tx_id <$> txs) ∪ applied_transactions s.
Proof.
  revert s. induction txs as [|t txs IH]; intros s; simpl; [set_solver|].
  rewrite IH, (eff_applied _ _ _ (tx_post_effect s t)). set_solver.
Qed.

(** No transaction is executed twice, in one block or across blocks. *)
Lemma txs_valid_fresh s txs h :
  txs_valid s txs h ->
  NoDup (tx_id <$> txs) /\ Forall (fun t => tx_id t ∉ applied_transactions s) txs.
Proof.
  revert s. induction txs as [|t txs IH]; intros s; simpl; [by repeat constructor|].
  intros [Hv Hvs]. destruct (IH _ Hvs) as [Hnd Hf].
  rewrite (eff_applied _ _ _ (tx_post_effect s t)) in Hf. split.
  - constructor; [|done]. intros (x & Hid & Hx)%list_elem_of_fmap.
    rewrite Forall_forall in Hf. specialize (Hf x Hx). set_solver.
  - constructor; [apply Hv|]. eapply Forall_impl; [exact Hf|]. set_solver.
Qed.

Lemma txs_valid_authentic s txs h :
  txs_valid s txs h ->
  Forall (fun t => verify_signature t = Ok () /\ tx_chain_id (unsigned t) = chain_id s) txs.
Proof.
  revert s. induction txs as [|t txs IH]; intros s; simpl; [constructor|].
  intros [[Hsig Hc _ _ _ _ _] Hvs]. constructor; [done|].
  specialize (IH _ Hvs). by rewrite (eff_chain _ _ _ (tx_post_effect s t)) in IH.
Qed.

(** ** One block *)

Definition block_post (s : LedgerState) (b : Block) : LedgerState :=
  set_tip_hash (block_hash b)
    (set_height_timestamp (bh_height (header b)) (bh_timestamp_ms (header b))
       (txs_post s (transactions b))).

Definition timestamp_ok (s : LedgerState) (ts : Z) : Prop :=
  ts <= MAX_BLOCK_TIMESTAMP_MS /\
  (0 < height s ->
   last_block_timestamp_ms s <= ts <= last_block_timestamp_ms s + MAX_BLOCK_TIMESTAMP_STEP_MS).

Record block_valid (s : LedgerState) (b : Block) : Prop := {
  valid_commitments : validate_commitments b = Ok ();
  valid_block_chain : bh_chain_id (header b) = chain_id s;
  valid_height : bh_height (header b) = height s + 1;
  valid_height_room : height s + 1 <= u64_max;
  valid_parent : bh_parent_hash (header b) = tip_hash s;
  valid_timestamp : timestamp_ok s (bh_timestamp_ms (header b));
  valid_transactions : txs_valid s (transactions b) (bh_height (header b));
  valid_state_root : bh_state_root (header b) = state_root (block_post s b)
}.

Lemma state_root_set_tip s tip : state_root (set_tip_hash tip s) = state_root s.
Proof. done. Qed.

Lemma timestamp_test s ts :
  ledger_ok s ->
  (MAX_BLOCK_TIMESTAMP_MS <? ts) ||
    ((0 <? height s) && ((ts <? last_block_timestamp_ms s) ||
      (saturating_add u64_max (last_block_timestamp_ms s) MAX_BLOCK_TIMESTAMP_STEP_MS <? ts))) = false <->
  timestamp_ok s ts.
Proof.
  intros Hok. destruct (ok_timestamp s Hok) as [Hts0 Hts]. unfold timestamp_ok, saturating_add.
  rewrite Z.min_l
    by (unfold u64_max, MAX_BLOCK_TIMESTAMP_STEP_MS, MAX_BLOCK_TIMESTAMP_MS in *; lia).
  rewrite orb_false_iff, andb_false_iff, orb_false_iff, !Z.ltb_ge.
  destruct (Z.lt_ge_cases 0 (height s)); intuition lia.
Qed.

Lemma apply_block_run s b :
  ledger_ok s -> block_in_range b -> block_valid s b ->
  apply_block b s = (block_post s b, Ok (txs_receipts s (transactions b))).
Proof.
  intros Hok (_ & _ & Hr) [Hc Hchain Hh Hroom Hp Hts Hv Hroot]. unfold apply_block.
  rewrite Hc, (bind_run_Ok (lift (Ok ())) _ s s () eq_refl).
  rewrite (bind_run_Ok get _ s s s eq_refl). cbv beta.
  rewrite bool_decide_eq_false_2 by tauto.
  unfold checked_add. rewrite (proj2 (Z.leb_le _ _)) by done. cbn [ok_or].
  rewrite (bind_run_Ok (lift (Ok _)) _ s s _ eq_refl). cbv beta.
  rewrite (proj2 (Z.eqb_eq _ _) Hh). cbn [negb].
  rewrite bool_decide_eq_false_2 by tauto.
  rewrite (proj2 (timestamp_test s _ Hok) Hts).
  rewrite (apply_transactions_run s _ _ Hok Hr Hv).
  rewrite (bind_run_Ok (lift (Ok _)) _ s s _ eq_refl). cbv beta.
  rewrite bool_decide_eq_false_2; [done|]. intros Hne. apply Hne.
  by rewrite Hroot.
Qed.

Lemma apply_block_Ok_inv s b s' rs :
  ledger_ok s -> block_in_range b -> apply_block b s = (s', Ok rs) ->
  block_valid s b /\ s' = block_post s b /\ rs = txs_receipts s (transactions b).
Proof.
  intros Hok (_ & _ & Hr) Hrun. unfold apply_block in Hrun.
  apply bind_Ok_inv in Hrun as (s1 & [] & [= <- Hc] & Hrun).
  apply bind_Ok_inv in Hrun as (s1 & self & [= <- <-] & Hrun).
  case_bool_decide as Hchain; [done|].
  apply bind_Ok_inv in Hrun as (s1 & n & [= <- [-> Hroom]%ok_or_Ok_inv%checked_add_Some] & Hrun).
  destruct (Z.eqb_spec (bh_height (header b)) (height s + 1)) as [Hh|]; [|done]. cbn [negb] in Hrun.
  case_bool_decide as Hp; [done|].
  destruct (_ || _) eqn:Hts in Hrun; [done|]. apply (timestamp_test s _ Hok) in Hts.
  destruct (apply_transactions _ _ _) as [cand executed] eqn:Htx.
  apply bind_Ok_inv in Hrun as (s1 & rs' & [= <- ->] & Hrun).
  apply apply_transactions_Ok_inv in Htx as (Hv & -> & ->); [|done..].
  case_bool_decide as Hroot; [done|].
  apply bind_Ok_inv in Hrun as (s2 & [] & [= <-] & [= <- <-]).
  split; [|done]. split; try done; by apply dec_stable.
Qed.

(** [apply_block] is atomic: on any error the ledger is what it was. *)
Lemma apply_block_Err_inv s b s' e : apply_block b s = (s', Err e) -> s' = s.
Proof.
  unfold apply_block. intros Hrun.
  apply bind_Err_inv in Hrun as [[= <- _]|(s1 & [] & [= <- _] & Hrun)]; [done|].
  apply bind_Err_inv in Hrun as [[=]|(s1 & self & [= <- <-] & Hrun)].
  case_bool_decide; [by injection Hrun|].
  apply bind_Err_inv in Hrun as [[= <- _]|(s1 & n & [= <- _] & Hrun)]; [done|].
  destruct (negb _); [by injection Hrun|].
  case_bool_decide; [by injection Hrun|].
  destruct (_ || _) in Hrun; [by injection Hrun|].
  destruct (apply_transactions _ _ _) as [cand executed].
  apply bind_Err_inv in Hrun as [[= <- _]|(s1 & rs & [= <- _] & Hrun)]; [done|].
  case_bool_decide; [by injection Hrun|]. done.
Qed.

Lemma block_post_ok s b :
  ledger_ok s -> block_in_range b -> block_valid s b -> ledger_ok (block_post s b).
Proof.
  intros Hok (Hbh & [Hts0 _] & Hr) Hv. destruct (txs_post_ok s _ _ Hok Hr (valid_transactions _ _ Hv)) as [].
  destruct (valid_timestamp _ _ Hv). by split.
Qed.

(** ** Building a block *)

Lemma normalized_timestamp_ok s ts :
  ledger_ok s -> is_u64 ts ->
  timestamp_ok s (normalized_proposal_timestamp s ts) /\ is_u64 (normalized_proposal_timestamp s ts).
Proof.
  intros Hok [Hts0 Hts1]. destruct (ok_timestamp s Hok) as [Hl0 Hl1]. destruct (ok_height s Hok).
  unfold timestamp_ok, normalized_proposal_timestamp, saturating_add, in_range,
    u64_max, MAX_BLOCK_TIMESTAMP_STEP_MS, MAX_BLOCK_TIMESTAMP_MS in *.
  destruct (Z.eqb_spec (height s) 0); lia.
Qed.

Lemma build_block_Ok_inv s proposer round ts txs b :
  ledger_ok s -> Forall transaction_in_range txs ->
  build_block s proposer round ts txs = Ok b ->
  height s + 1 <= u64_max /\ txs_valid s txs (height s + 1) /\
  b = block_new (chain_id s) (height s + 1) (tip_hash s) proposer round
        (normalized_proposal_timestamp s ts)
        (state_root (set_height_timestamp (height s + 1) (normalized_proposal_timestamp s ts)
           (txs_post s txs))) txs.
Proof.
  intros Hok Hr. unfold build_block.
  intros (n & [-> Hroom]%ok_or_Ok_inv%checked_add_Some & Hrun)%result_bind_Ok_inv.
  destruct (apply_transactions _ _ _) as [cand executed] eqn:Htx.
  apply result_bind_Ok_inv in Hrun as (rs & -> & [= <-]).
  apply apply_transactions_Ok_inv in Htx as (Hv & -> & ->); [|done..]. done.
Qed.

Lemma build_block_run s proposer round ts txs :
  ledger_ok s -> Forall transaction_in_range txs ->
  height s + 1 <= u64_max -> txs_valid s txs (height s + 1) ->
  exists b, build_block s proposer round ts txs = Ok b.
Proof.
  intros Hok Hr Hroom Hv. unfold build_block, checked_add.
  rewrite (proj2 (Z.leb_le _ _)) by done. simpl.
  rewrite (apply_transactions_run s _ _ Hok Hr Hv). simpl. by eexists.
Qed.

Lemma build_block_valid s proposer round ts txs b :
  ledger_ok s -> is_u64 ts -> Forall transaction_in_range txs ->
  chain_id_validate (chain_id s) = Ok () ->
  build_block s proposer round ts txs = Ok b ->
  Z.of_nat (length (block_canonical_bytes b)) <= MAX_BLOCK_BYTES ->
  block_valid s b /\ block_in_range b /\ transactions b = txs.
Proof.
  intros Hok Hts Hr Hchain Hb Hsize.
  apply build_block_Ok_inv in Hb as (Hroom & Hv & Heq); [|done..].
  destruct (normalized_timestamp_ok s ts Hok Hts) as [Htsok Htsr].
  assert (validate_commitments b = Ok ()) as Hc.
  { unfold validate_commitments. rewrite (proj2 (Z.ltb_ge _ _)) by done. subst b. simpl.
    settle_tests tauto. rewrite Hchain. simpl. settle_tests tauto. done. }
  clear Hsize. subst b. split_and!; [|split_and!; [|done..]|done].
  - split; done.
  - simpl. pose proof (ok_height s Hok). unfold in_range in *. lia.
Qed.

(** The size is the first thing a ledger looks at. *)
Lemma apply_block_oversized s b :
  MAX_BLOCK_BYTES < Z.of_nat (length (block_canonical_bytes b)) -> apply_block b s = (s, Err PayloadTooLarge).
Proof.
  intros Hsize%Z.ltb_lt. assert (validate_commitments b = Err PayloadTooLarge) as Hc.
  { unfold validate_commitments. by rewrite Hsize. }
  unfold apply_block. by rewrite Hc.
Qed.

(** ** Replay *)

Definition blocks_post (s : LedgerState) (bs : list Block) : LedgerState := foldl block_post s bs.

Fixpoint blocks_valid (s : LedgerState) (bs : list Block) : Prop :=
  match bs with
  | [] => True
  | b :: bs => block_valid s b /\ blocks_valid (block_post s b) bs
  end.

Lemma apply_blocks_run s bs :
  ledger_ok s -> Forall block_in_range bs -> blocks_valid s bs ->
  apply_blocks bs s = (blocks_post s bs, Ok ()).
Proof.
  intros Hok Hr. revert s Hok. induction Hr as [|b bs Hb _ IH]; intros s Hok; [done|].
  intros [Hv Hvs]. simpl. rewrite (bind_run_Ok _ _ _ _ _ (apply_block_run s b Hok Hb Hv)).
  by rewrite (IH _ (block_post_ok s b Hok Hb Hv) Hvs).
Qed.

Lemma apply_blocks_Ok_inv s bs s' u :
  ledger_ok s -> Forall block_in_range bs -> apply_blocks bs s = (s', Ok u) ->
  blocks_valid s bs /\ s' = blocks_post s bs.
Proof.
  intros Hok Hr. revert s Hok. induction Hr as [|b bs Hb _ IH]; intros s Hok; simpl.
  { by intros [= <- _]. }
  intros (s1 & rs & Hrun1 & Hrun)%bind_Ok_inv.
  apply apply_block_Ok_inv in Hrun1 as (Hv & -> & _); [|done..].
  apply IH in Hrun as (Hvs & ->); [done|by apply block_post_ok].
Qed.

Lemma blocks_post_ok s bs :
  ledger_ok s -> Forall block_in_range bs -> blocks_valid s bs -> ledger_ok (blocks_post s bs).
Proof.
  intros Hok Hr. revert s Hok. induction Hr as [|b bs Hb _ IH]; intros s Hok; [done|].
  intros [Hv Hvs]. by apply IH; [apply block_post_ok|].
Qed.

Lemma replay_blocks_iff c bs s :
  Forall block_in_range bs ->
  replay_blocks c bs = Ok s <-> blocks_valid (ledger_new c) bs /\ s = blocks_post (ledger_new c) bs.
Proof.
  intros Hr. unfold replay_blocks. split.
  - destruct (apply_blocks _ _) as [s1 [[]|e]] eqn:Hrun; [|done]. intros [= <-].
    apply apply_blocks_Ok_inv in Hrun; [done|apply ledger_new_ok|done].
  - intros [Hv ->]. by rewrite apply_blocks_run by (try apply ledger_new_ok; done).
Qed.

Lemma blocks_valid_snoc s bs b :
  blocks_valid s (bs ++ [b]) <-> blocks_valid s bs /\ block_valid (blocks_post s bs) b.
Proof. revert s. induction bs as [|b' bs IH]; intros s; simpl; [naive_solver|]. rewrite IH. naive_solver. Qed.

Lemma blocks_post_snoc s bs b : blocks_post s (bs ++ [b]) = block_post (blocks_post s bs) b.
Proof. unfold blocks_post. by rewrite foldl_app. Qed.

(** The block at an index was valid on the ledger of the blocks before it. *)
Lemma blocks_valid_lookup s bs i b :
  blocks_valid s bs -> bs !! i = Some b -> block_valid (blocks_post s (take i bs)) b.
Proof.
  revert s i. induction bs as [|b' bs IH]; intros s [|i]; simpl; try done.
  - by intros [Hv _] [= <-].
  - intros [_ Hvs] Hi. by apply (IH (block_post s b')).
Qed.

Lemma blocks_valid_take s bs i : blocks_valid s bs -> blocks_valid s (take i bs).
Proof.
  revert s i. induction bs as [|b bs IH]; intros s [|i]; simpl; try done.
  intros [Hv Hvs]. split; [done|]. by apply IH.
Qed.

Lemma blocks_post_take_S s bs i b :
  bs !! i = Some b -> blocks_post s (take (S i) bs) = block_post (blocks_post s (take i bs)) b.
Proof. intros Hi. by rewrite (take_S_r _ _ _ Hi), blocks_post_snoc. Qed.

(** The height, the executed transactions and the tip of a replayed history. *)
Lemma blocks_post_height s bs :
  blocks_valid s bs -> height (blocks_post s bs) = height s + Z.of_nat (length bs).
Proof.
  revert s. induction bs as [|b bs IH]; intros s; simpl; [lia|].
  intros [Hv Hvs]. rewrite IH by done. simpl. rewrite (valid_height _ _ Hv). lia.
Qed.

Lemma blocks_post_applied s bs :
  applied_transactions (blocks_post s bs) =
  list_to_set (tx_id <$> (bs ≫= transactions)) ∪ applied_transactions s.
Proof.
  revert s. induction bs as [|b bs IH]; intros s; simpl; [set_solver|].
  rewrite IH. simpl. rewrite txs_post_applied, fmap_app, list_to_set_app_L. set_solver.
Qed.

Lemma blocks_valid_fresh s bs :
  blocks_valid s bs ->
  NoDup (tx_id <$> (bs ≫= transactions)) /\
  Forall (fun t => tx_id t ∉ applied_transactions s) (bs ≫= transactions).
Proof.
  revert s. induction bs as [|b bs IH]; intros s; simpl; [by repeat constructor|].
  intros [Hv Hvs]. destruct (IH _ Hvs) as [Hnd Hf]. simpl in Hf. rewrite txs_post_applied in Hf.
  destruct (txs_valid_fresh _ _ _ (valid_transactions _ _ Hv)) as [Hnd1 Hf1].
  rewrite Forall_forall in Hf. rewrite fmap_app. split.
  - apply NoDup_app. split_and!; [done| |done].
    intros i Hi (t & -> & Ht)%list_elem_of_fmap. specialize (Hf t Ht). set_solver.
  - apply Forall_app. split; [done|]. apply Forall_forall. intros t Ht. specialize (Hf t Ht). set_solver.
Qed.

Lemma blocks_post_chain_id s bs : chain_id (blocks_post s bs) = chain_id s.
Proof.
  revert s. induction bs as [|b bs IH]; intros s; [done|]. simpl. rewrite IH. simpl. apply txs_post_frame.
Qed.

Lemma blocks_valid_authentic s bs :
  blocks_valid s bs ->
  Forall (fun t => verify_signature t = Ok () /\ tx_chain_id (unsigned t) = chain_id s) (bs ≫= transactions).
Proof.
  revert s. induction bs as [|b bs IH]; intros s; simpl; [constructor|].
  intros [Hv Hvs]. apply Forall_app. split.
  - apply (txs_valid_authentic s _ _ (valid_transactions _ _ Hv)).
  - specialize (IH _ Hvs). simpl in IH. by destruct (txs_post_frame s (transactions b)) as (<- & _).
Qed.

(** [replay_finalized_blocks] is certificate checking plus [replay_blocks]. *)
Lemma apply_finalized_blocks_Ok s history validators s' :
  apply_finalized_blocks history validators s = (s', Ok ()) <->
  Forall (fun bc => verify_for_block bc.2 bc.1 validators = Ok ()) history /\
  apply_blocks history.*1 s = (s', Ok ()).
Proof.
  revert s. induction history as [|[b c] history IH]; intros s.
  { simpl. naive_solver. }
  cbn [apply_finalized_blocks apply_blocks fmap list_fmap fst]. unfold apply_finalized_block.
  rewrite Forall_cons. cbn [fst snd]. split.
  - intros (s1 & rs & (s2 & [] & [= <- Hc] & Hb)%bind_Ok_inv & Hrun)%bind_Ok_inv.
    apply IH in Hrun as [Hall Hrun]. split; [done|]. by rewrite (bind_run_Ok _ _ _ _ _ Hb).
  - intros [[Hc Hall] (s1 & rs & Hb & Hrun)%bind_Ok_inv]. rewrite Hc.
    rewrite (bind_run_Ok _ _ s s1 rs); [by apply IH|].
    by rewrite (bind_run_Ok (lift (Ok ())) _ s s () eq_refl).
Qed.
End blocks.
