(* ===== verification/Merkle.v ===== *)
(** * What the block hash commits to

    The Merkle root of [Block.merkle_root] under collision resistance: it binds
    duplicate-free transaction lists of any length, and only those; a block
    hash then determines the block, and a tip hash determines the replayed
    history behind it.

    No fixed-output hash is injective, so collision resistance is stated of the
    finite list of inputs a statement hashes ([collision_free]). *)

From Stdlib Require Import Lia.
From S2P Require Import Prelude Errors Crypto Transaction Block Commit Ledger LedgerFacts Replay.

Section merkle.
Context `{Blake3, !Borsh SignedTransaction}.

Definition collision_free (inputs : list (string * bytes)) : Prop :=
  Forall (fun p => Forall (fun q => blake3_derive_key p.1 p.2 = blake3_derive_key q.1 q.2 -> p = q) inputs) inputs.

#[export] Instance collision_free_dec inputs : Decision (collision_free inputs).
Proof. unfold collision_free. apply _. Defined.

Lemma collision_free_eq inputs d1 i1 d2 i2 :
  collision_free inputs -> (d1, i1) ∈ inputs -> (d2, i2) ∈ inputs ->
  blake3_derive_key d1 i1 = blake3_derive_key d2 i2 -> d1 = d2 /\ i1 = i2.
Proof.
  unfold collision_free. rewrite Forall_forall. intros Hcf H1 H2 Heq.
  specialize (Hcf _ H1). rewrite Forall_forall in Hcf. by specialize (Hcf _ H2 Heq) as [= -> ->].
Qed.

Lemma collision_free_subseteq inputs inputs' :
  inputs' ⊆ inputs -> collision_free inputs -> collision_free inputs'.
Proof. unfold collision_free. rewrite !Forall_forall. setoid_rewrite Forall_forall. eauto. Qed.

Lemma as_bytes_app_inj {n} (a b c d : array n) :
  as_bytes a ++ as_bytes b = as_bytes c ++ as_bytes d -> a = c /\ b = d.
Proof.
  intros [H1 H2]%app_inj_1; [by split; apply array_eq|]. by rewrite !length_as_bytes.
Qed.

(** The hash domains are distinct. *)
Lemma merkle_domains :
  MERKLE_LEAF_DOMAIN <> MERKLE_NODE_DOMAIN /\ MERKLE_EMPTY_DOMAIN <> MERKLE_NODE_DOMAIN /\
  MERKLE_EMPTY_DOMAIN <> MERKLE_LEAF_DOMAIN.
Proof. by split_and!; vm_compute. Qed.

(** ** The inputs a root hashes *)

Fixpoint next_inputs (level : list Hash32) : list (string * bytes) :=
  match level with
  | hl :: hr :: rest => (MERKLE_NODE_DOMAIN, as_bytes hl ++ as_bytes hr) :: next_inputs rest
  | [hl] => [(MERKLE_NODE_DOMAIN, as_bytes hl ++ as_bytes hl)]
  | [] => []
  end.

Fixpoint loop_inputs (fuel : nat) (level : list Hash32) : list (string * bytes) :=
  match fuel with
  | O => []
  | S fuel =>
      if (1 <? length level)%nat then next_inputs level ++ loop_inputs fuel (merkle_next level) else []
  end.

Definition merkle_inputs (txs : list SignedTransaction) : list (string * bytes) :=
  (MERKLE_EMPTY_DOMAIN, []) ::
  ((fun t => (TRANSACTION_HASH_DOMAIN, tx_canonical_bytes t)) <$> txs) ++
  ((fun t => (MERKLE_LEAF_DOMAIN, as_bytes (tx_id t))) <$> txs) ++
  loop_inputs (length txs) (merkle_leaf <$> txs).

(** Induction on a level two nodes at a time. *)
Lemma level_ind (P : list Hash32 -> Prop) :
  P [] -> (forall x, P [x]) -> (forall x y l, P l -> P (x :: y :: l)) -> forall l, P l.
Proof.
  intros H0 H1 H2 l. enough (P l /\ forall x, P (x :: l)) by tauto.
  induction l as [|y l [IH1 IH2]]; [by split|]. split; [apply IH2|]. intros x. by apply H2.
Qed.

Section binding.
Context (D : list (string * bytes)) (Hcf : collision_free D).

(** The nodes of a tree: a node at depth [k] above the leaves. *)
Inductive is_tree : nat -> Hash32 -> Prop :=
| tree_leaf i : (MERKLE_LEAF_DOMAIN, i) ∈ D -> is_tree 0 (blake3_derive_key MERKLE_LEAF_DOMAIN i)
| tree_node k x y :
    is_tree k x -> is_tree k y -> (MERKLE_NODE_DOMAIN, as_bytes x ++ as_bytes y) ∈ D ->
    is_tree (S k) (hash_pair MERKLE_NODE_DOMAIN x y).

(** Domain separation: a hash is a node of one depth only. *)
Lemma is_tree_depth j k h : is_tree j h -> is_tree k h -> j = k.
Proof.
  intros Hj. revert k. induction Hj as [i Hi|j x y _ IHx _ _ Hin]; intros k Hk.
  - inversion Hk as [|k' x y ? ? Hin Hk' Heq]; [done|]. rewrite hash_pair_alt in Heq.
    destruct (collision_free_eq _ _ _ _ _ Hcf Hin Hi Heq). pose proof merkle_domains. naive_solver.
  - inversion Hk as [i Hi Hk' Heq|k' x' y' Hx' _ Hin' Hk' Heq].
    + rewrite hash_pair_alt in Heq.
      destruct (collision_free_eq _ _ _ _ _ Hcf Hi Hin Heq). pose proof merkle_domains. naive_solver.
    + f_equal. rewrite !hash_pair_alt in Heq.
      destruct (collision_free_eq _ _ _ _ _ Hcf Hin' Hin Heq) as [_ [-> ->]%as_bytes_app_inj].
      by apply IHx.
Qed.

Lemma hash_pair_inj x y x' y' :
  (MERKLE_NODE_DOMAIN, as_bytes x ++ as_bytes y) ∈ D ->
  (MERKLE_NODE_DOMAIN, as_bytes x' ++ as_bytes y') ∈ D ->
  hash_pair MERKLE_NODE_DOMAIN x y = hash_pair MERKLE_NODE_DOMAIN x' y' -> x = x' /\ y = y'.
Proof.
  rewrite !hash_pair_alt. intros Hin Hin' Heq.
  by destruct (collision_free_eq _ _ _ _ _ Hcf Hin Hin' Heq) as [_ [-> ->]%as_bytes_app_inj].
Qed.

Lemma merkle_next_tree k l :
  next_inputs l ⊆ D -> Forall (is_tree k) l -> Forall (is_tree (S k)) (merkle_next l).
Proof.
  induction l as [|x|x y l IH] using level_ind; simpl; intros Hin Hl; [constructor| |].
  - rewrite Forall_singleton in Hl. constructor; [|constructor]. apply tree_node; [done..|set_solver].
  - apply Forall_cons in Hl as [Hx [Hy Hl]%Forall_cons].
    constructor; [|apply IH; [set_solver|done]]. apply tree_node; [done..|set_solver].
Qed.

Lemma merkle_loop_tree fuel k l h :
  loop_inputs fuel l ⊆ D -> Forall (is_tree k) l -> merkle_loop fuel l = [h] ->
  exists j, is_tree j h /\ (k <= j)%nat /\ ((1 < length l)%nat -> (k < j)%nat \/ fuel = 0%nat).
Proof.
  revert k l. induction fuel as [|fuel IH]; intros k l; simpl; intros Hin Hl.
  - intros ->. rewrite Forall_singleton in Hl. eauto.
  - destruct (Nat.ltb_spec 1 (length l)) as [H1|H1].
    + intros Hh. destruct (IH (S k) (merkle_next l)) as (j & Hj & Hkj & _); [set_solver| |done|].
      { apply merkle_next_tree; [set_solver|done]. }
      exists j. split_and!; [done|lia|]. left. lia.
    + intros ->. rewrite Forall_singleton in Hl. exists k. split_and!; [done|lia|]. simpl in *; lia.
Qed.

(** Every node of the next level is the hash of a pair of this level. *)
Lemma elem_of_merkle_next l h :
  h ∈ merkle_next l ->
  exists x y, h = hash_pair MERKLE_NODE_DOMAIN x y /\ x ∈ l /\ y ∈ l /\
    (MERKLE_NODE_DOMAIN, as_bytes x ++ as_bytes y) ∈ next_inputs l.
Proof.
  induction l as [|x|x y l IH] using level_ind; simpl; [by intros ?%elem_of_nil| |].
  - intros ->%list_elem_of_singleton. exists x, x. set_solver.
  - intros [->|Hh]%elem_of_cons; [exists x, y; set_solver|].
    destruct (IH Hh) as (x' & y' & -> & ? & ? & ?). exists x', y'. set_solver.
Qed.

Lemma merkle_next_NoDup l : next_inputs l ⊆ D -> NoDup l -> NoDup (merkle_next l).
Proof.
  induction l as [|x|x y l IH] using level_ind; simpl; intros Hin Hnd; [constructor| |].
  - apply NoDup_singleton.
  - apply NoDup_cons in Hnd as [Hx [Hy Hnd]%NoDup_cons].
    constructor; [|apply IH; [set_solver|done]].
    intros (x' & y' & Heq & Hx' & _ & Hin')%elem_of_merkle_next.
    apply hash_pair_inj in Heq as [-> _]; [set_solver|set_solver|].
    apply Hin, elem_of_cons. by right.
Qed.

Lemma merkle_next_inj l1 l2 :
  next_inputs l1 ⊆ D -> next_inputs l2 ⊆ D -> NoDup l1 -> NoDup l2 ->
  merkle_next l1 = merkle_next l2 -> l1 = l2.
Proof.
  revert l2. induction l1 as [|x|x y l1 IH] using level_ind; intros [|x' [|y' l2]];
    simpl; intros Hin1 Hin2 Hnd1 Hnd2; try done; intros Heq;
    pose proof (f_equal head Heq) as [= Hxy]; pose proof (f_equal tail Heq) as Hrest; clear Heq;
    (apply hash_pair_inj in Hxy as [Hx Hy]; [subst|set_solver..]); try done.
  - by apply NoDup_cons in Hnd2 as [[]%not_elem_of_cons _].
  - by apply NoDup_cons in Hnd1 as [[]%not_elem_of_cons _].
  - apply NoDup_cons in Hnd1 as [_ [_ ?]%NoDup_cons].
    apply NoDup_cons in Hnd2 as [_ [_ ?]%NoDup_cons].
    by rewrite (IH l2) by (done || set_solver).
Qed.

Lemma merkle_loop_inj k f1 f2 l1 l2 h :
  loop_inputs f1 l1 ⊆ D -> loop_inputs f2 l2 ⊆ D -> NoDup l1 -> NoDup l2 ->
  Forall (is_tree k) l1 -> Forall (is_tree k) l2 ->
  (length l1 <= f1)%nat -> (length l2 <= f2)%nat ->
  merkle_loop f1 l1 = [h] -> merkle_loop f2 l2 = [h] -> l1 = l2.
Proof.
  revert k f2 l1 l2. induction f1 as [|f1 IH]; intros k f2 l1 l2 Hin1 Hin2 Hnd1 Hnd2 Ht1 Ht2 Hf1 Hf2 Hh1 Hh2.
  { destruct l1; simpl in Hf1; [done|lia]. }
  destruct (merkle_loop_tree _ k _ _ Hin1 Ht1 Hh1) as (j1 & Hj1 & _ & Hlt1).
  destruct (merkle_loop_tree _ k _ _ Hin2 Ht2 Hh2) as (j2 & Hj2 & _ & Hlt2).
  destruct f2 as [|f2]; [destruct l2; simpl in Hf2; [done|lia]|].
  pose proof (is_tree_depth _ _ _ Hj1 Hj2) as <-. simpl in Hin1, Hin2, Hh1, Hh2.
  destruct (Nat.ltb_spec 1 (length l1)) as [H1|H1], (Nat.ltb_spec 1 (length l2)) as [H2|H2].
  - pose proof (merkle_next_shorter _ H1). pose proof (merkle_next_shorter _ H2).
    assert (next_inputs l1 ⊆ D /\ loop_inputs f1 (merkle_next l1) ⊆ D) as [] by set_solver.
    assert (next_inputs l2 ⊆ D /\ loop_inputs f2 (merkle_next l2) ⊆ D) as [] by set_solver.
    apply merkle_next_inj; [done..|].
    apply (IH (S k) f2); auto using merkle_next_NoDup, merkle_next_tree; lia.
  - subst l2. rewrite Forall_singleton in Ht2. pose proof (is_tree_depth _ _ _ Ht2 Hj1).
    destruct (Hlt1 H1); lia.
  - subst l1. rewrite Forall_singleton in Ht1. pose proof (is_tree_depth _ _ _ Ht1 Hj1).
    destruct (Hlt2 H2); lia.
  - by subst.
Qed.
End binding.

(** ** Roots *)

Lemma merkle_leaf_alt t : merkle_leaf t = blake3_derive_key MERKLE_LEAF_DOMAIN (as_bytes (tx_id t)).
Proof. done. Qed.

Lemma tx_id_alt t : tx_id t = blake3_derive_key TRANSACTION_HASH_DOMAIN (tx_canonical_bytes t).
Proof. done. Qed.

Section roots.
Context (D : list (string * bytes)) (Hcf : collision_free D).

(** The kinds of inputs a list's root hashes. *)
Lemma merkle_inputs_elem txs :
  merkle_inputs txs ⊆ D ->
  (MERKLE_EMPTY_DOMAIN, []) ∈ D /\ loop_inputs (length txs) (merkle_leaf <$> txs) ⊆ D /\
  forall t, t ∈ txs ->
    (TRANSACTION_HASH_DOMAIN, tx_canonical_bytes t) ∈ D /\
    (MERKLE_LEAF_DOMAIN, as_bytes (tx_id t)) ∈ D.
Proof.
  unfold merkle_inputs. intros Hin.
  pose proof (fun p Hp => Hin p Hp) as Helem. setoid_rewrite elem_of_cons in Helem.
  setoid_rewrite elem_of_app in Helem. setoid_rewrite elem_of_app in Helem.
  split_and!; [by apply Helem; left|intros p Hp; by apply Helem; auto|].
  intros t Ht. split; apply Helem; right; [left|right; left]; apply list_elem_of_fmap; by exists t.
Qed.

(** The leaves of a duplicate-free list are duplicate-free level-0 nodes. *)
Lemma merkle_leaves_ok txs :
  merkle_inputs txs ⊆ D -> NoDup (tx_id <$> txs) ->
  Forall (is_tree D 0) (merkle_leaf <$> txs) /\ NoDup (merkle_leaf <$> txs).
Proof.
  intros (_ & _ & Hin)%merkle_inputs_elem Hnd. split.
  - apply Forall_fmap, Forall_forall. intros t Ht. simpl. rewrite merkle_leaf_alt.
    apply tree_leaf. by apply Hin.
  - assert (merkle_leaf <$> txs =
      (fun i => blake3_derive_key MERKLE_LEAF_DOMAIN (as_bytes i)) <$> (tx_id <$> txs)) as ->.
    { by rewrite <- list_fmap_compose. }
    apply NoDup_fmap_2_strong; [|done].
    intros i j (t & -> & Ht)%list_elem_of_fmap (u & -> & Hu)%list_elem_of_fmap Heq.
    destruct (Hin t Ht) as [_ H1], (Hin u Hu) as [_ H2].
    destruct (collision_free_eq _ _ _ _ _ Hcf H1 H2 Heq) as [_ ?]. by apply array_eq.
Qed.

Lemma merkle_leaf_inj t u :
  (MERKLE_LEAF_DOMAIN, as_bytes (tx_id t)) ∈ D -> (MERKLE_LEAF_DOMAIN, as_bytes (tx_id u)) ∈ D ->
  merkle_leaf t = merkle_leaf u -> tx_id t = tx_id u.
Proof.
  intros H1 H2 Heq. destruct (collision_free_eq _ _ _ _ _ Hcf H1 H2 Heq) as [_ ?]. by apply array_eq.
Qed.

Lemma tx_id_inj `{!BorshLaws SignedTransaction} t u :
  (TRANSACTION_HASH_DOMAIN, tx_canonical_bytes t) ∈ D ->
  (TRANSACTION_HASH_DOMAIN, tx_canonical_bytes u) ∈ D ->
  tx_id t = tx_id u -> t = u.
Proof.
  intros H1 H2 Heq. destruct (collision_free_eq _ _ _ _ _ Hcf H1 H2 Heq) as [_ Hb].
  by apply to_vec_inj.
Qed.

Lemma merkle_leaves_inj `{!BorshLaws SignedTransaction} txs1 txs2 :
  merkle_inputs txs1 ⊆ D -> merkle_inputs txs2 ⊆ D ->
  merkle_leaf <$> txs1 = merkle_leaf <$> txs2 -> txs1 = txs2.
Proof.
  intros (_ & _ & H1)%merkle_inputs_elem (_ & _ & H2)%merkle_inputs_elem.
  revert txs2 H2. induction txs1 as [|t txs1 IH]; intros [|u txs2] H2; try done.
  intros Heq. rewrite !fmap_cons in Heq. injection Heq as Hl Heq.
  destruct (H1 t) as [Ht1 Ht2], (H2 u) as [Hu1 Hu2]; [by left..|]. f_equal.
  - apply tx_id_inj; [done..|]. by apply merkle_leaf_inj.
  - apply IH; [| |done]; intros x Hx; [apply H1|apply H2]; by right.
Qed.

(** A root is never the root of the empty list. *)
Lemma merkle_root_nonempty txs :
  merkle_inputs txs ⊆ D -> NoDup (tx_id <$> txs) -> merkle_root txs = merkle_root [] -> txs = [].
Proof.
  intros Hin Hnd Heq. destruct (decide (txs = [])) as [|Hne]; [done|]. exfalso.
  destruct (merkle_leaves_ok txs Hin Hnd) as [Ht _].
  apply merkle_inputs_elem in Hin as (He & Hloop & _).
  destruct (merkle_loop_tree D Hcf _ _ _ _ Hloop Ht (merkle_root_loop txs _ Hne (le_n _))) as (j & Hj & _).
  rewrite Heq in Hj. pose proof merkle_domains as (_ & ? & ?).
  inversion Hj as [i Hi Hj0 Hh|k x y Hx Hy Hi Hj0 Hh];
    [|rewrite hash_pair_alt in Hh]; destruct (collision_free_eq _ _ _ _ _ Hcf Hi He Hh); congruence.
Qed.

Lemma merkle_root_inj `{!BorshLaws SignedTransaction} txs1 txs2 :
  merkle_inputs txs1 ⊆ D -> merkle_inputs txs2 ⊆ D ->
  NoDup (tx_id <$> txs1) -> NoDup (tx_id <$> txs2) ->
  merkle_root txs1 = merkle_root txs2 -> txs1 = txs2.
Proof.
  intros Hin1 Hin2 Hnd1 Hnd2 Heq.
  destruct (decide (txs1 = [])) as [->|Hne1]; [symmetry; by apply merkle_root_nonempty|].
  destruct (decide (txs2 = [])) as [->|Hne2]; [by apply merkle_root_nonempty|].
  destruct (merkle_leaves_ok _ Hin1 Hnd1) as [Ht1 Hl1], (merkle_leaves_ok _ Hin2 Hnd2) as [Ht2 Hl2].
  apply merkle_leaves_inj; [done..|].
  apply merkle_inputs_elem in Hin1 as (_ & Hloop1 & _). apply merkle_inputs_elem in Hin2 as (_ & Hloop2 & _).
  apply (merkle_loop_inj D Hcf 0 (length txs1) (length txs2) _ _ (merkle_root txs1));
    rewrite ?length_fmap; try done; [by apply merkle_root_loop|rewrite Heq; by apply merkle_root_loop].
Qed.
End roots.

Lemma merkle_loop_step fuel level :
  (1 < length level)%nat -> merkle_loop (S fuel) level = merkle_loop fuel (merkle_next level).
Proof. intros Hl. simpl. by rewrite (proj2 (Nat.ltb_lt _ _)). Qed.

(** An odd last transaction and the same transaction twice have one root. *)
Lemma merkle_root_duplicate_last txs t :
  txs <> [] -> Nat.Even (length txs) ->
  merkle_root (txs ++ [t]) = merkle_root (txs ++ [t; t]).
Proof.
  intros Hne Heven.
  assert (0 < length txs)%nat as Hpos by (destruct txs; simpl; [done|lia]).
  pose proof (merkle_root_loop (txs ++ [t]) (S (length txs + 1))) as H1.
  pose proof (merkle_root_loop (txs ++ [t; t]) (S (length txs + 1))) as H2.
  rewrite merkle_loop_step in H1 by (rewrite fmap_app, length_app, length_fmap; simpl; lia).
  rewrite merkle_loop_step in H2 by (rewrite fmap_app, length_app, length_fmap; simpl; lia).
  rewrite fmap_app, merkle_next_app in H1, H2 by by rewrite length_fmap.
  rewrite length_app in H1, H2. simpl in H1, H2.
  enough ([merkle_root (txs ++ [t])] = [merkle_root (txs ++ [t; t])]) by congruence.
  rewrite <- H1, <- H2; try lia; by destruct txs.
Qed.
End merkle.

(** ** Blocks and histories *)

Section history.
Context `{Blake3, Ed25519, !Borsh UnsignedTransaction, !Borsh SignedTransaction,
          !Borsh BlockHeader, !Borsh Block, !Borsh StateCommitment,
          !Borsh CommitVote, !Borsh CommitCertificate}.
Context `{!BorshLaws SignedTransaction, !BorshLaws BlockHeader}.

Definition block_inputs (b : Block) : list (string * bytes) :=
  (BLOCK_HASH_DOMAIN, to_vec (header b)) :: merkle_inputs (transactions b).

Lemma block_hash_inj D s1 s2 b1 b2 :
  collision_free D -> block_inputs b1 ⊆ D -> block_inputs b2 ⊆ D ->
  block_valid s1 b1 -> block_valid s2 b2 -> block_hash b1 = block_hash b2 -> b1 = b2.
Proof.
  unfold block_inputs. intros Hcf Hin1 Hin2 Hv1 Hv2 Heq.
  assert (header b1 = header b2) as Hh.
  { destruct (collision_free_eq D BLOCK_HASH_DOMAIN (to_vec (header b1)) BLOCK_HASH_DOMAIN
      (to_vec (header b2))) as [_ Hb]; [done|apply Hin1; by left|apply Hin2; by left|exact Heq|].
    by apply to_vec_inj. }
  assert (forall s b, block_valid s b -> merkle_root (transactions b) = bh_transactions_root (header b) /\
    NoDup (tx_id <$> transactions b)) as Hroot.
  { intros s b [Hc _ _ _ _ _ Hv _]. split; [|by eapply txs_valid_fresh].
    by apply validate_commitments_Ok_inv in Hc as (_ & _ & _ & ?). }
  destruct (Hroot _ _ Hv1) as [Hr1 Hn1], (Hroot _ _ Hv2) as [Hr2 Hn2].
  destruct b1 as [h1 txs1], b2 as [h2 txs2]; simpl in *; subst h2. f_equal.
  apply (merkle_root_inj D Hcf); try done; [set_solver|set_solver|congruence].
Qed.

Lemma tip_hash_inj D c1 c2 bs1 bs2 :
  collision_free D ->
  Forall (fun b => block_inputs b ⊆ D) bs1 -> Forall (fun b => block_inputs b ⊆ D) bs2 ->
  blocks_valid (ledger_new c1) bs1 -> blocks_valid (ledger_new c2) bs2 ->
  length bs1 = length bs2 ->
  tip_hash (blocks_post (ledger_new c1) bs1) = tip_hash (blocks_post (ledger_new c2) bs2) ->
  bs1 = bs2.
Proof.
  intros Hcf. revert bs2. induction bs1 as [|b1 bs1 IH] using rev_ind; intros bs2 Hin1 Hin2 Hv1 Hv2 Hlen.
  { by destruct bs2. }
  destruct bs2 as [|b2 bs2 _] using rev_ind; [rewrite length_app in Hlen; simpl in Hlen; lia|].
  rewrite !length_app in Hlen. simpl in Hlen.
  apply Forall_app in Hin1 as [Hin1 Hb1], Hin2 as [Hin2 Hb2].
  rewrite Forall_singleton in Hb1, Hb2.
  apply blocks_valid_snoc in Hv1 as [Hv1 Hvb1], Hv2 as [Hv2 Hvb2].
  rewrite !blocks_post_snoc. intros Htip.
  pose proof (block_hash_inj D _ _ _ _ Hcf Hb1 Hb2 Hvb1 Hvb2 Htip) as <-.
  f_equal. apply IH; try done; [lia|].
  by rewrite <- (valid_parent _ _ Hvb1), <- (valid_parent _ _ Hvb2).
Qed.
End history.
