(* ===== verification/Reference.v ===== *)
(** * Concrete instances of the third-party interfaces

    A prefix-free serializer for every serialized type, a toy hash and a toy
    signature scheme. They satisfy the law classes of [Crypto] and compute, so
    the theorems that assume those laws can be instantiated and evaluated.
    They model no crate: nothing outside the witnesses depends on this file. *)

From Stdlib Require Import Lia.
From S2P Require Import Prelude Errors Crypto Transaction Block Commit Ledger.

(** ** Prefix codecs *)

Record codec (A : Type) : Type := mk_codec {
  enc : A -> bytes;
  dec : bytes -> option (A * bytes);
  dec_enc : forall a rest, dec (enc a ++ rest) = Some (a, rest)
}.
Arguments mk_codec {A} _ _ _.
Arguments enc {A} _ _.
Arguments dec {A} _ _.
Arguments dec_enc {A} _ _ _.

(** One byte per binary digit, ended by [x00]. *)
Fixpoint enc_positive (p : positive) : bytes :=
  match p with
  | xH => [x00]
  | xO p => x01 :: enc_positive p
  | xI p => x02 :: enc_positive p
  end.
Fixpoint dec_positive (l : bytes) : option (positive * bytes) :=
  match l with
  | x00 :: l => Some (xH, l)
  | x01 :: l => '(p, rest) ← dec_positive l; Some (xO p, rest)
  | x02 :: l => '(p, rest) ← dec_positive l; Some (xI p, rest)
  | _ => None
  end.

Lemma dec_enc_positive p rest : dec_positive (enc_positive p ++ rest) = Some (p, rest).
Proof. induction p as [p IH|p IH|]; simpl; [by rewrite IH..|done]. Qed.

Definition positive_codec : codec positive := mk_codec enc_positive dec_positive dec_enc_positive.

(** Through a retraction onto a type that already has a codec. *)
Program Definition retract_codec {A B} (f : A -> B) (g : B -> option A)
    (Hgf : forall a, g (f a) = Some a) (c : codec B) : codec A :=
  mk_codec (fun a => enc c (f a))
    (fun l => '(b, rest) ← dec c l; a ← g b; Some (a, rest)) _.
Next Obligation. intros A B f g Hgf c a rest. simpl. rewrite dec_enc. simpl. by rewrite Hgf. Qed.

Definition countable_codec (A : Type) `{Countable A} : codec A :=
  retract_codec encode decode decode_encode positive_codec.

Program Definition pair_codec {A B} (c : codec A) (d : codec B) : codec (A * B) :=
  mk_codec (fun p => enc c p.1 ++ enc d p.2)
    (fun l => '(a, rest) ← dec c l; '(b, rest) ← dec d rest; Some ((a, b), rest)) _.
Next Obligation. intros A B c d [a b] rest. simpl. rewrite <- app_assoc, dec_enc. simpl. by rewrite dec_enc. Qed.

Definition enc_sum {A B} (c : codec A) (d : codec B) (s : A + B) : bytes :=
  match s with inl a => x00 :: enc c a | inr b => x01 :: enc d b end.
Definition dec_sum {A B} (c : codec A) (d : codec B) (l : bytes) : option ((A + B) * bytes) :=
  match l with
  | x00 :: l => '(a, rest) ← dec c l; Some (inl a, rest)
  | x01 :: l => '(b, rest) ← dec d l; Some (inr b, rest)
  | _ => None
  end.

Lemma dec_enc_sum {A B} (c : codec A) (d : codec B) s rest :
  dec_sum c d (enc_sum c d s ++ rest) = Some (s, rest).
Proof. destruct s; simpl; by rewrite dec_enc. Qed.

Definition sum_codec {A B} (c : codec A) (d : codec B) : codec (A + B) :=
  mk_codec (enc_sum c d) (dec_sum c d) (dec_enc_sum c d).

Fixpoint dec_list {A} (c : codec A) (n : nat) (l : bytes) : option (list A * bytes) :=
  match n with
  | O => Some ([], l)
  | S n => '(a, rest) ← dec c l; '(xs, rest) ← dec_list c n rest; Some (a :: xs, rest)
  end.

Lemma dec_list_enc {A} (c : codec A) (xs : list A) rest :
  dec_list c (length xs) ((xs ≫= enc c) ++ rest) = Some (xs, rest).
Proof.
  induction xs as [|x xs IH]; [done|]. cbn [length dec_list].
  rewrite bind_cons, <- app_assoc, dec_enc. cbn [mbind option_bind]. by rewrite IH.
Qed.

Program Definition list_codec {A} (c : codec A) : codec (list A) :=
  mk_codec (fun xs => enc (countable_codec nat) (length xs) ++ (xs ≫= enc c))
    (fun l => '(n, rest) ← dec (countable_codec nat) l; dec_list c n rest) _.
Next Obligation.
  intros A c xs rest. cbv beta. rewrite <- app_assoc, dec_enc. cbn [mbind option_bind]. apply dec_list_enc.
Qed.

Definition Z_codec : codec Z := countable_codec Z.
Definition bytes_codec : codec bytes := list_codec (retract_codec byte_to_Z (Some ∘ byte_of_Z)
  (fun b => f_equal Some (byte_to_Z_inj _ _ (byte_to_of_Z _ (byte_to_Z_range b)))) Z_codec).
Definition ustring_codec : codec ustring := list_codec Z_codec.
Definition array_codec (n : nat) : codec (array n) :=
  retract_codec as_bytes (array_try_from n) array_try_from_as_bytes bytes_codec.

Definition map_codec {K V} `{Countable K} (ck : codec K) (cv : codec V) : codec (gmap K V) :=
  retract_codec map_to_list (Some ∘ list_to_map)
    (fun m => f_equal Some (list_to_map_to_list m)) (list_codec (pair_codec ck cv)).
Definition set_codec {K} `{Countable K} (ck : codec K) : codec (gset K) :=
  retract_codec elements (Some ∘ list_to_set)
    (fun X => f_equal Some (list_to_set_elements_L X)) (list_codec ck).
Program Definition option_codec {A} (c : codec A) : codec (option A) :=
  retract_codec (fun o => match o with Some a => inr a | None => inl tt end)
    (fun s => Some (match s with inr a => Some a | inl _ => None end)) _ (sum_codec (countable_codec unit) c).
Next Obligation. by intros A c [a|]. Qed.

(** ** The serialized types *)

Definition chain_id_codec : codec ChainId :=
  retract_codec as_str (Some ∘ mk_ChainId) (fun '(mk_ChainId _) => eq_refl) ustring_codec.

Program Definition action_codec : codec TransactionAction :=
  retract_codec
    (fun a => match a with
              | Transfer r n => inl (r, n)
              | ClaimReward c n => inr (inl (c, n))
              | SetDisplayName d => inr (inr d)
              end)
    (fun s => Some (match s with
                    | inl (r, n) => Transfer r n
                    | inr (inl (c, n)) => ClaimReward c n
                    | inr (inr d) => SetDisplayName d
                    end)) _
    (sum_codec (pair_codec (array_codec 20) Z_codec)
       (sum_codec (pair_codec Z_codec Z_codec) (option_codec ustring_codec))).
Next Obligation. by intros []. Qed.

Program Definition unsigned_codec : codec UnsignedTransaction :=
  retract_codec
    (fun u => (tx_protocol_version u, (tx_chain_id u, (tx_sender_public_key u,
                (tx_nonce u, (tx_expiry_height u, tx_action u))))))
    (fun '(v, (c, (k, (n, (e, a))))) => Some (mk_UnsignedTransaction v c k n e a)) _
    (pair_codec Z_codec (pair_codec chain_id_codec (pair_codec (array_codec 32)
       (pair_codec Z_codec (pair_codec Z_codec action_codec))))).
Next Obligation. by intros []. Qed.

Program Definition signed_codec : codec SignedTransaction :=
  retract_codec (fun t => (unsigned t, tx_signature t)) (fun '(u, s) => Some (mk_SignedTransaction u s)) _
    (pair_codec unsigned_codec (array_codec 64)).
Next Obligation. by intros []. Qed.

Program Definition header_codec : codec BlockHeader :=
  retract_codec
    (fun h => ((bh_protocol_version h, (bh_chain_id h, bh_height h)),
               ((bh_parent_hash h, (bh_proposer h, bh_round h)),
                (bh_timestamp_ms h, (bh_transactions_root h, bh_state_root h)))))
    (fun '((v, (c, h)), ((p, (w, r)), (t, (m, s)))) => Some (mk_BlockHeader v c h p w r t m s)) _
    (pair_codec (pair_codec Z_codec (pair_codec chain_id_codec Z_codec))
       (pair_codec (pair_codec (array_codec 32) (pair_codec (array_codec 32) Z_codec))
          (pair_codec Z_codec (pair_codec (array_codec 32) (array_codec 32))))).
Next Obligation. by intros []. Qed.

Program Definition block_codec : codec Block :=
  retract_codec (fun b => (header b, transactions b)) (fun '(h, t) => Some (mk_Block h t)) _
    (pair_codec header_codec (list_codec signed_codec)).
Next Obligation. by intros []. Qed.

Program Definition commit_vote_codec : codec CommitVote :=
  retract_codec
    (fun v => ((cv_protocol_version v, (cv_chain_id v, cv_height v)), (cv_round v, cv_block_hash v)))
    (fun '((v, (c, h)), (r, b)) => Some (mk_CommitVote v c h r b)) _
    (pair_codec (pair_codec Z_codec (pair_codec chain_id_codec Z_codec)) (pair_codec Z_codec (array_codec 32))).
Next Obligation. by intros []. Qed.

Program Definition signature_codec : codec CommitSignature :=
  retract_codec (fun s => (cs_validator s, cs_signature s)) (fun '(v, s) => Some (mk_CommitSignature v s)) _
    (pair_codec (array_codec 32) (array_codec 64)).
Next Obligation. by intros []. Qed.

Program Definition certificate_codec : codec CommitCertificate :=
  retract_codec
    (fun c => (certificate_vote c, cc_signatures c))
    (fun '(v, s) => Some (mk_CommitCertificate (cv_protocol_version v) (cv_chain_id v) (cv_height v)
                            (cv_round v) (cv_block_hash v) s)) _
    (pair_codec commit_vote_codec (list_codec signature_codec)).
Next Obligation. by intros []. Qed.

Program Definition account_codec : codec AccountState :=
  retract_codec (fun a => (balance_atoms a, (next_nonce a, ac_display_name a)))
    (fun '(b, (n, d)) => Some (mk_AccountState b n d)) _
    (pair_codec Z_codec (pair_codec Z_codec (option_codec ustring_codec))).
Next Obligation. by intros []. Qed.

Program Definition commitment_codec : codec StateCommitment :=
  retract_codec
    (fun c => ((sc_protocol_version c, (sc_chain_id c, sc_height c)),
               ((sc_last_block_timestamp_ms c, (sc_total_supply_atoms c, sc_active_challenge_id c)),
                (sc_accounts c, sc_applied_transactions c))))
    (fun '((v, (c, h)), ((t, (s, a)), (m, x))) => Some (mk_StateCommitment v c h t s a m x)) _
    (pair_codec (pair_codec Z_codec (pair_codec chain_id_codec Z_codec))
       (pair_codec (pair_codec Z_codec (pair_codec Z_codec Z_codec))
          (pair_codec (map_codec (array_codec 20) account_codec) (set_codec (array_codec 32))))).
Next Obligation. by intros []. Qed.

(** ** Instances *)

Definition codec_borsh {A} (c : codec A) : Borsh A := {|
  to_vec := enc c;
  try_from_slice l := match dec c l with Some (a, []) => Some a | _ => None end
|}.

Lemma codec_borsh_laws {A} (c : codec A) : @BorshLaws A (codec_borsh c).
Proof.
  intros x. unfold try_from_slice, to_vec, codec_borsh. simpl.
  rewrite <- (app_nil_r (enc c x)), dec_enc. done.
Qed.

Module Ref.
#[export] Instance unsigned_borsh : Borsh UnsignedTransaction := codec_borsh unsigned_codec.
#[export] Instance signed_borsh : Borsh SignedTransaction := codec_borsh signed_codec.
#[export] Instance header_borsh : Borsh BlockHeader := codec_borsh header_codec.
#[export] Instance block_borsh : Borsh Block := codec_borsh block_codec.
#[export] Instance commit_vote_borsh : Borsh CommitVote := codec_borsh commit_vote_codec.
#[export] Instance certificate_borsh : Borsh CommitCertificate := codec_borsh certificate_codec.
#[export] Instance commitment_borsh : Borsh StateCommitment := codec_borsh commitment_codec.
#[export] Instance unsigned_laws : BorshLaws UnsignedTransaction := codec_borsh_laws unsigned_codec.
#[export] Instance signed_laws : BorshLaws SignedTransaction := codec_borsh_laws signed_codec.
#[export] Instance header_laws : BorshLaws BlockHeader := codec_borsh_laws header_codec.
#[export] Instance block_laws : BorshLaws Block := codec_borsh_laws block_codec.
#[export] Instance commit_vote_laws : BorshLaws CommitVote := codec_borsh_laws commit_vote_codec.
#[export] Instance certificate_laws : BorshLaws CommitCertificate := codec_borsh_laws certificate_codec.
#[export] Instance commitment_laws : BorshLaws StateCommitment := codec_borsh_laws commitment_codec.

(** A polynomial fold of the domain and the input modulo [2^61]. *)
Definition mix (acc : Z) (b : byte) : Z := Z.land (acc * 1000003 + byte_to_Z b + 1) (2 ^ 61 - 1).
#[export] Instance blake3 : Blake3 := fun domain input =>
  let h := foldl mix (foldl mix 7 (String.list_byte_of_string domain)) input in
  array_resize 32 (to_le_bytes 8 h ++ to_le_bytes 8 (Z.land (h * h) (2 ^ 64 - 1))).

(** A key is its own public key; a signature is a keyed hash of the message. *)
Definition toy_sign (k : array 32) (m : bytes) : array 64 :=
  array_resize 64 (as_bytes (blake3 "toy-signature" (as_bytes k ++ m))).
#[export] Instance ed25519 : Ed25519 := {|
  SigningKey := array 32;
  verifying_key k := k;
  ed_sign := toy_sign;
  vk_valid _ := true;
  verify_strict k m s := bool_decide (s = toy_sign k m)
|}.
#[export] Instance ed25519_laws : Ed25519Laws.
Proof. split; [done|]. intros k m. by apply bool_decide_eq_true. Qed.

(** The data part, one scalar value per byte, after the prefix and a ["1"]. *)
Definition toy_encode (hrp : ustring) (d : bytes) : ustring := hrp ++ 49 :: (byte_to_Z <$> d).
Definition toy_decode (s : ustring) : ustring * bytes :=
  let hrp := split_first 49 s in (hrp, byte_of_Z <$> drop (S (length hrp)) s).

Lemma toy_decode_encode hrp d : 49 ∉ hrp -> toy_decode (toy_encode hrp d) = (hrp, d).
Proof.
  intros Hhrp. unfold toy_decode, toy_encode. rewrite split_first_app by done. cbv zeta. f_equal.
  rewrite <- Nat.add_1_r, drop_app_add. change (drop 1 (49 :: (byte_to_Z <$> d))) with (byte_to_Z <$> d).
  clear Hhrp.
  induction d as [|b d IH]; [done|]. rewrite !fmap_cons, IH. f_equal.
  apply byte_to_Z_inj, byte_to_of_Z, byte_to_Z_range.
Qed.

#[export] Instance bech32 : Bech32 := {|
  bech32m_encode hrp d := Some (toy_encode hrp d);
  bech32_decode s := Some (toy_decode s)
|}.
#[export] Instance bech32_laws : Bech32Laws.
Proof.
  split; [by eexists|]. intros d s [= <-]. simpl. f_equal. apply toy_decode_encode.
  by apply (bool_decide_unpack _).
Qed.
End Ref.
