(* ===== verification/Fixtures.v ===== *)
(** * Concrete ledger data for the witnesses

    A small chain over the instances of [Reference]: two wallets, a genesis
    ledger, a reward claim, a transfer, and the blocks and certificates that
    carry them. *)

From Stdlib Require Import Lia.
From S2P Require Import Prelude Errors Crypto Transaction Block Commit Ledger LedgerFacts Reference.
Export Ref.

Definition chain : ChainId := mk_ChainId (str "kcoin-test").
Definition key (b : byte) : array 32 := array_fill 32 b.
Definition signing_key (b : byte) : SigningKey := key b.
Definition alice : array 32 := key x01.
Definition bob : array 32 := key x02.
Definition bob_address : Address := address_from_public_key bob.
Definition alice_address : Address := address_from_public_key alice.

(** A signed transaction whatever its shape. *)
Definition signed_by (k : array 32) (nonce : Z) (a : TransactionAction) : SignedTransaction :=
  let u := unsigned_new chain k nonce 100 a in mk_SignedTransaction u (ed_sign (Ed25519 := ed25519) k (tx_signing_bytes u)).

Definition claim (s : LedgerState) (k : array 32) (nonce : Z) : SignedTransaction :=
  signed_by k nonce (ClaimReward (active_challenge_id s) (answer (current_challenge s))).

Definition validators4 : list ValidatorId := [key x11; key x12; key x13; key x14].

Definition genesis : LedgerState := ledger_new chain.
Definition claim1 : SignedTransaction := Eval vm_compute in claim genesis alice 0.
Definition transfer1 : SignedTransaction := Eval vm_compute in signed_by alice 1 (Transfer bob_address 25000000).
Definition name1 : SignedTransaction := Eval vm_compute in signed_by alice 2 (SetDisplayName (Some (str "Alice"))).
Definition block_or (s : LedgerState) (p : ValidatorId) (ts : Z) (txs : list SignedTransaction) : Block :=
  match build_block s p 0 ts txs with
  | Ok b => b
  | Err _ => block_new chain 0 Hash32_ZERO p 0 ts Hash32_ZERO []
  end.
Definition block1 : Block := Eval vm_compute in block_or genesis (key x11) 1000 [claim1; transfer1; name1].
Definition ledger1 : LedgerState := Eval vm_compute in (apply_block block1 genesis).1.
Definition block2 : Block := Eval vm_compute in block_or ledger1 (key x12) 2000 [].

Definition certify (b : Block) (ks : list (array 32)) : CommitCertificate :=
  let vote := commit_vote_new chain (bh_height (header b)) (bh_round (header b)) (block_hash b) in
  certificate_new vote ((fun k : array 32 => commit_sign vote (k : @SigningKey ed25519)) <$> ks).
Definition certificate1 : CommitCertificate := Eval vm_compute in certify block1 [key x13; key x11; key x12].

(** ** Deciding the side conditions *)

#[export] Instance action_in_range_dec a : Decision (action_in_range a).
Proof. destruct a; simpl; apply _. Defined.
#[export] Instance transaction_in_range_dec t : Decision (transaction_in_range t).
Proof. unfold transaction_in_range. apply _. Defined.
#[export] Instance block_in_range_dec b : Decision (block_in_range b).
Proof. unfold block_in_range. apply _. Defined.

(** Prove a decidable closed statement by evaluating it. *)
Ltac decide_now := apply (bool_decide_unpack _); vm_compute; exact I.

(** [f = Ok x] and the like, for the results of the fixtures. *)
Ltac compute_now := vm_compute; reflexivity.

(** A run known to succeed by evaluation. *)
Lemma run_Ok {S E A} (m : stE S E A) s :
  is_ok (m s).2 = true -> exists a, m s = ((m s).1, Ok a).
Proof. destruct (m s) as [s' [a|e]]; [by exists a|done]. Qed.

Definition blocks12 : list Block := [block1; block2].
Definition ledger2 : LedgerState := Eval vm_compute in (apply_block block2 ledger1).1.

Lemma blocks12_in_range : Forall block_in_range blocks12.
Proof. decide_now. Qed.

Lemma replay_blocks12 : replay_blocks chain blocks12 = Ok ledger2.
Proof. compute_now. Qed.

Lemma ledger_ok_genesis : ledger_ok genesis.
Proof. apply ledger_new_ok. Qed.

(** An empty first block, and a rival of it by the same proposer. *)
Definition block0 : Block := Eval vm_compute in block_or genesis (key x11) 1000 [].
Definition block0' : Block := Eval vm_compute in block_or genesis (key x11) 2000 [].
Definition ledger0 : LedgerState := Eval vm_compute in (apply_block block0 genesis).1.
Definition certificate0 : CommitCertificate :=
  Eval vm_compute in certify block0 [key x11; key x12; key x13].
Definition certificate0' : CommitCertificate :=
  Eval vm_compute in certify block0' [key x12; key x13; key x14].
