(* ===== verification/ProtocolSpec.v ===== *)
(** * Properties of the protocol crate

    The theorems on transactions, blocks, certificates and the ledger, each
    with a witness over the data of [Fixtures] where it has hypotheses. *)

From Stdlib Require Import Lia.
From S2P Require Import Prelude Errors Crypto Transaction Block Commit Ledger LedgerFacts Replay Merkle Reference Fixtures.

Section theorems.
Context `{Blake3, Ed25519, !Borsh UnsignedTransaction, !Borsh SignedTransaction,
          !Borsh BlockHeader, !Borsh Block, !Borsh StateCommitment,
          !Borsh CommitVote, !Borsh CommitCertificate}.

(** ** Transactions *)

(** C4. [apply_transaction] implements its specification: on a well-formed
    ledger it succeeds exactly on the transactions that are valid there, with
    the balances, nonces, names, supply, challenge and applied set the
    specification says (a self-transfer and a first payment to a new address
    included), and otherwise it fails and leaves the ledger as it was. *)
Theorem apply_transaction_refines s t execution_height :
  ledger_ok s -> transaction_in_range t ->
  (tx_valid s t execution_height /\
   exists s', apply_transaction t execution_height s = (s', Ok (tx_receipt s t)) /\ tx_effect s t s') \/
  (~ tx_valid s t execution_height /\
   exists e, apply_transaction t execution_height s = (s, Err e)).
Proof.
  intros Hok Hr. destruct (apply_transaction t execution_height s) as [s' [r|e]] eqn:Hrun.
  - left. apply apply_transaction_Ok_inv in Hrun as (Hv & -> & ->); [|done..].
    split; [done|]. eexists. split; [done|]. apply tx_post_effect.
  - right. pose proof (apply_transaction_Err_inv _ _ _ _ _ Hrun) as ->. split; [|by eexists].
    intros Hv. by rewrite (apply_transaction_run s t _ Hok Hr Hv) in Hrun.
Qed.

(** C6. Supply is conserved and capped along every replayed history: the
    balances add up to the total supply, which is what the issuance schedule
    gives for the challenges claimed so far and never exceeds the maximum; no
    more than 7,400 rewards are ever paid; and the nonces count the executed
    transactions. *)
Theorem replay_conserves_supply c blocks s :
  Forall block_in_range blocks -> replay_blocks c blocks = Ok s ->
  sum_accounts balance_atoms (accounts s) = total_supply_atoms s /\
  total_supply_atoms s = issued (Z.to_nat (active_challenge_id s)) /\
  0 <= total_supply_atoms s <= MAX_SUPPLY_ATOMS /\
  0 <= active_challenge_id s <= TOTAL_CLAIMS /\
  sum_accounts next_nonce (accounts s) = Z.of_nat (size (applied_transactions s)).
Proof.
  intros Hr [Hv ->]%replay_blocks_iff; [|done].
  pose proof (blocks_post_ok _ _ (ledger_new_ok c) Hr Hv) as Hok.
  pose proof (ledger_ok_supply_range _ Hok). destruct Hok. done.
Qed.

(** C11. [apply_block] is all or nothing: it succeeds exactly on the blocks that
    extend the tip with a valid timestamp, valid transactions and the right
    commitments, and otherwise the ledger is unchanged. *)
Theorem apply_block_refines s b :
  ledger_ok s -> block_in_range b ->
  (block_valid s b /\ apply_block b s = (block_post s b, Ok (txs_receipts s (transactions b)))) \/
  (~ block_valid s b /\ exists e, apply_block b s = (s, Err e)).
Proof.
  intros Hok Hr. destruct (apply_block b s) as [s' [r|e]] eqn:Hrun.
  - left. apply apply_block_Ok_inv in Hrun as (Hv & -> & ->); done.
  - right. pose proof (apply_block_Err_inv _ _ _ _ Hrun) as ->. split; [|by eexists].
    intros Hv. by rewrite (apply_block_run s b Hok Hr Hv) in Hrun.
Qed.

(** C36. What [build_block] builds on the tip, whatever timestamp was requested,
    is a block with the given transactions that every ledger in that state
    accepts, unless it is larger than a block may be: [build_block] does not look
    at the size, and such a block is refused as too large by every ledger, which
    stays as it was. *)
Theorem build_block_applies s proposer round ts txs b :
  ledger_ok s -> is_u64 ts -> Forall transaction_in_range txs ->
  chain_id_validate (chain_id s) = Ok () ->
  build_block s proposer round ts txs = Ok b ->
  transactions b = txs /\
  (Z.of_nat (length (block_canonical_bytes b)) <= MAX_BLOCK_BYTES ->
     apply_block b s = (block_post s b, Ok (txs_receipts s txs)) /\ ledger_ok (block_post s b)) /\
  (MAX_BLOCK_BYTES < Z.of_nat (length (block_canonical_bytes b)) ->
     forall s', apply_block b s' = (s', Err PayloadTooLarge)).
Proof.
  intros Hok Hts Hr Hc Hb. split; [|split].
  - by apply build_block_Ok_inv in Hb as (_ & _ & ->).
  - intros Hsize. destruct (build_block_valid s proposer round ts txs b) as (Hv & Hbr & Htx); [done..|].
    pose proof (apply_block_run s b Hok Hbr Hv) as Hrun. rewrite Htx in Hrun. split; [done|by apply block_post_ok].
  - intros Hsize s'. by apply apply_block_oversized.
Qed.

(** Replay protection: a replayed history holds no transaction twice, and
    every transaction in it is refused from then on as a duplicate. *)
Theorem executed_transactions_are_refused c blocks s t execution_height :
  Forall block_in_range blocks -> replay_blocks c blocks = Ok s ->
  t ∈ (blocks ≫= transactions) ->
  NoDup (tx_id <$> (blocks ≫= transactions)) /\
  apply_transaction t execution_height s = (s, Err DuplicateTransaction).
Proof.
  intros Hr [Hv ->]%replay_blocks_iff Ht; [|done]. split; [by eapply blocks_valid_fresh|].
  pose proof (blocks_valid_authentic _ _ Hv) as Hauth. rewrite Forall_forall in Hauth.
  destruct (Hauth t Ht) as [Hsig Hc]. unfold apply_transaction, validate_transaction.
  rewrite (bind_run_Ok get _ _ _ _ eq_refl). cbv beta. rewrite Hsig. cbn [mbind result_bind].
  rewrite bool_decide_eq_false_2 by (rewrite blocks_post_chain_id; tauto).
  rewrite bool_decide_eq_true_2; [done|]. rewrite blocks_post_applied. set_solver.
Qed.

(** C40. Nobody but the holder of its key can touch an account: if a
    transaction lowers a balance, or changes a nonce or a display name, the
    account's address is the hash of the key whose signature the transaction
    carries. *)
Theorem only_the_signer_spends s t execution_height s' r x :
  ledger_ok s -> transaction_in_range t ->
  apply_transaction t execution_height s = (s', Ok r) ->
  balance_atoms (account_or_default s' x) < balance_atoms (account_or_default s x) \/
  next_nonce (account_or_default s' x) <> next_nonce (account_or_default s x) \/
  ac_display_name (account_or_default s' x) <> ac_display_name (account_or_default s x) ->
  x = address_from_public_key (tx_sender_public_key (unsigned t)) /\
  verify_strict (tx_sender_public_key (unsigned t)) (tx_signing_bytes (unsigned t)) (tx_signature t) = true.
Proof.
  intros Hok Hr (Hv & -> & _)%apply_transaction_Ok_inv Hx; [|done..].
  destruct (verify_signature_Ok_inv t (valid_signature _ _ _ Hv)) as (_ & _ & Hsig). split; [|done].
  destruct (tx_post_effect s t) as [Hb Hn Hd _ _ _ _ _ _ _].
  rewrite Hb, Hn, Hd in Hx. unfold balance_change in Hx.
  fold (sender_address t). destruct (decide (x = sender_address t)) as [|Hne]; [done|].
  destruct Hr as (_ & _ & Hra). unfold in_range, action_in_range in Hra.
  destruct (tx_action (unsigned t)); repeat case_decide; unfold in_range in *; intuition lia || congruence.
Qed.

(** ** Certificates *)

(** [CommitCertificate::verify] accepts exactly the certificates of its
    specification: small enough, of this protocol version, with a well-formed
    chain id, for a non-empty duplicate-free validator set, carrying in
    strictly increasing validator order valid signatures of members on the
    certificate's vote, a quorum of them. *)
Theorem certificate_verify_refines c validators :
  certificate_verify c validators = Ok () <-> certificate_ok c validators.
Proof. apply certificate_verify_iff. Qed.

(** Accountable safety of certificates: two certificates that verify for
    one validator set and certify different votes expose more than a third of
    the others, [floor((n-1)/3) + 1] validators at least, each with a valid
    signature on either of two different messages. *)
Theorem conflicting_certificates_expose_signers `{!BorshLaws CommitVote} c1 c2 validators :
  certificate_verify c1 validators = Ok () -> certificate_verify c2 validators = Ok () ->
  certificate_vote c1 <> certificate_vote c2 ->
  exists culprits,
    NoDup culprits /\ culprits ⊆ validators /\
    (Z.of_nat (length validators) - 1) / 3 < Z.of_nat (length culprits) /\
    commit_signing_bytes (certificate_vote c1) <> commit_signing_bytes (certificate_vote c2) /\
    Forall (fun v => exists sig1 sig2,
      verify_strict v (commit_signing_bytes (certificate_vote c1)) sig1 = true /\
      verify_strict v (commit_signing_bytes (certificate_vote c2)) sig2 = true) culprits.
Proof.
  intros H1%certificate_verify_iff H2%certificate_verify_iff Hdiff.
  destruct (conflicting_certificates_overlap c1 c2 validators H1 H2 Hdiff) as (culprits & []). by exists culprits.
Qed.

(** Certificate construction: honest signatures of a quorum of distinct
    members on one vote, handed to [CommitCertificate::new] in any order, make
    a certificate that verifies. *)
Theorem certificate_new_verifies `{!Ed25519Laws} c h r hash keys validators :
  let vote := commit_vote_new c h r hash in
  let certificate := certificate_new vote ((fun k => commit_sign vote k) <$> keys) in
  chain_id_validate c = Ok () -> validators <> [] -> NoDup validators ->
  NoDup (verifying_key <$> keys) -> verifying_key <$> keys ⊆ validators ->
  quorum_size (Z.of_nat (length validators)) <= Z.of_nat (length keys) ->
  Z.of_nat (length (to_vec certificate)) <= MAX_COMMIT_CERTIFICATE_BYTES ->
  certificate_verify certificate validators = Ok ().
Proof.
  intros vote certificate Hc Hne Hnd Hndk Hsub Hq Hsize. apply certificate_verify_iff. split; try done.
  - unfold certificate, certificate_new; cbn [cc_signatures]. apply Forall_forall.
    intros s Hs. rewrite sort_by_Permutation in Hs. apply list_elem_of_fmap in Hs as (k & -> & Hk).
    split_and!; simpl.
    + apply Hsub, list_elem_of_fmap. by exists k.
    + apply verifying_key_valid.
    + apply verify_strict_sign.
  - apply sorted_signatures. rewrite <- list_fmap_compose. exact Hndk.
  - unfold certificate, certificate_new; cbn [cc_signatures].
    by rewrite sort_by_Permutation, length_fmap.
Qed.

(** ** Commitments *)

(** The transactions root is binding for lists without repeated ids, of
    any lengths: under collision resistance on the inputs hashed, equal roots
    mean the same transactions in the same order. *)
Theorem merkle_root_binding `{!BorshLaws SignedTransaction} txs1 txs2 :
  collision_free (merkle_inputs txs1 ++ merkle_inputs txs2) ->
  NoDup (tx_id <$> txs1) -> NoDup (tx_id <$> txs2) ->
  merkle_root txs1 = merkle_root txs2 -> txs1 = txs2.
Proof.
  intros Hcf. apply (merkle_root_inj _ Hcf); intros p Hp; apply elem_of_app; auto.
Qed.

(** The restriction to lists without repetition is needed: after an even
    positive number of transactions, a last transaction and the same
    transaction twice have the same root, so [validate_commitments] alone
    accepts a block whose last transaction was repeated. *)
Theorem merkle_root_repeats_odd_tail txs t :
  txs <> [] -> Nat.Even (length txs) -> merkle_root (txs ++ [t; t]) = merkle_root (txs ++ [t]).
Proof. intros Hne He. by rewrite (merkle_root_duplicate_last txs t Hne He). Qed.

(** A height and a tip hash determine the history: two replays that end at
    the same height with the same tip hash replayed the same blocks, under
    collision resistance on the headers and trees of both. *)
Theorem tip_determines_history `{!BorshLaws SignedTransaction, !BorshLaws BlockHeader} c blocks1 blocks2 s1 s2 :
  collision_free ((blocks1 ≫= block_inputs) ++ (blocks2 ≫= block_inputs)) ->
  Forall block_in_range blocks1 -> Forall block_in_range blocks2 ->
  replay_blocks c blocks1 = Ok s1 -> replay_blocks c blocks2 = Ok s2 ->
  height s1 = height s2 -> tip_hash s1 = tip_hash s2 -> blocks1 = blocks2 /\ s1 = s2.
Proof.
  intros Hcf Hr1 Hr2 [Hv1 ->]%replay_blocks_iff [Hv2 ->]%replay_blocks_iff Hh Ht; [|done..].
  rewrite !blocks_post_height in Hh by done.
  enough (blocks1 = blocks2) as -> by done.
  eapply (tip_hash_inj _ c c); try done; try lia;
    apply Forall_forall; intros b Hb p Hp; apply elem_of_app;
    [left|right]; apply list_elem_of_bind; by exists b.
Qed.

(** Replaying certified history is replaying the blocks after checking
    every certificate: both give the same ledger, and a certified replay
    succeeds exactly when the plain replay does and each certificate verifies
    for its block. *)
Theorem replay_finalized_equivalent c history validators s :
  replay_finalized_blocks c history validators = Ok s <->
  Forall (fun bc => verify_for_block bc.2 bc.1 validators = Ok ()) history /\
  replay_blocks c history.*1 = Ok s.
Proof.
  unfold replay_finalized_blocks, replay_blocks.
  pose proof (apply_finalized_blocks_Ok (ledger_new c) history validators) as Hiff.
  split.
  - destruct (apply_finalized_blocks _ _ _) as [s1 [[]|e]]; [|done]. intros [= <-].
    destruct (proj1 (Hiff s1) eq_refl) as [Hall ->]. done.
  - intros [Hall Hrun]. destruct (apply_blocks _ _) as [s1 [[]|e]]; [|done]. injection Hrun as ->.
    by rewrite (proj2 (Hiff s)).
Qed.

(** A state root determines the ledger up to the tip hash: two ledgers
    with equal roots agree on every field the commitment covers. *)
Theorem state_root_binding `{!BorshLaws StateCommitment} s1 s2 :
  collision_free [(STATE_HASH_DOMAIN, to_vec (state_commitment s1));
                  (STATE_HASH_DOMAIN, to_vec (state_commitment s2))] ->
  state_root s1 = state_root s2 -> s1 = set_tip_hash (tip_hash s1) s2.
Proof.
  intros Hcf Heq.
  destruct (collision_free_eq _ STATE_HASH_DOMAIN (to_vec (state_commitment s1))
    STATE_HASH_DOMAIN (to_vec (state_commitment s2)) Hcf) as [_ Hb];
    [by left|right; by left|exact Heq|].
  apply to_vec_inj in Hb. destruct s1, s2. injection Hb as -> -> -> -> -> -> ->. done.
Qed.

(** The shape of a replayed chain: heights count from one on the given
    chain, each block names the hash of the one before as its parent, and time
    never goes back, never jumps by more than the step limit and never passes
    the ceiling. *)
Theorem replayed_chain_linked c blocks s i b :
  Forall block_in_range blocks -> replay_blocks c blocks = Ok s -> blocks !! i = Some b ->
  bh_height (header b) = Z.of_nat i + 1 /\ bh_chain_id (header b) = c /\
  bh_timestamp_ms (header b) <= MAX_BLOCK_TIMESTAMP_MS /\
  (i = 0%nat -> bh_parent_hash (header b) = Hash32_ZERO) /\
  (forall b', blocks !! S i = Some b' ->
     bh_parent_hash (header b') = block_hash b /\
     bh_timestamp_ms (header b) <= bh_timestamp_ms (header b') <=
       bh_timestamp_ms (header b) + MAX_BLOCK_TIMESTAMP_STEP_MS).
Proof.
  intros Hr [Hv _]%replay_blocks_iff Hi; [|done].
  pose proof (blocks_valid_lookup _ _ _ _ Hv Hi) as [_ Hc Hh _ Hp Hts _ _].
  pose proof (lookup_lt_Some _ _ _ Hi) as Hlen.
  rewrite blocks_post_chain_id in Hc. rewrite blocks_post_height in Hh by by apply blocks_valid_take.
  rewrite length_take_le in Hh by lia. simpl in Hh, Hc.
  split_and!; [lia|done|apply Hts|by intros ->|].
  intros b' Hi'. pose proof (blocks_valid_lookup _ _ _ _ Hv Hi') as [_ _ _ _ Hp' Hts' _ _].
  rewrite (blocks_post_take_S _ _ _ _ Hi) in Hp', Hts'. split; [done|].
  destruct Hts' as [_ Hts']. simpl in Hts'. apply Hts'. lia.
Qed.

(** ** Challenges, rewards, shapes *)

(** Every challenge is a small arithmetic problem: operands between 1 and
    9, a subtraction never underflows (the Rust code would panic), and the
    answer fits the claim's [u16], at most 81. *)
Theorem challenge_bounds id :
  1 <= ch_left (for_id id) <= 9 /\ 1 <= ch_right (for_id id) <= 9 /\
  answer_opt (for_id id) = Some (answer (for_id id)) /\ 0 <= answer (for_id id) <= 81.
Proof.
  destruct (for_id_range id) as (Hl & Hr & Hop). split_and!; try lia;
    destruct (for_id id) as [i op l r]; simpl in *; by apply (answer_range l r op Hl Hr Hop i).
Qed.

(** A wallet's signed transaction survives the wire: what [sign] returns,
    if it fits the size limit, is decoded and accepted by every node. *)
Theorem signed_transaction_decodes `{!Ed25519Laws, !BorshLaws SignedTransaction} u k t :
  sign u k = Ok t -> Z.of_nat (length (tx_canonical_bytes t)) <= MAX_TRANSACTION_BYTES ->
  tx_decode (tx_canonical_bytes t) = Ok t.
Proof.
  intros Hs Hsize. unfold tx_decode. rewrite (proj2 (Z.ltb_ge _ _)) by done.
  unfold tx_canonical_bytes. rewrite try_from_slice_to_vec. simpl.
  by rewrite (sign_verifies u k t Hs).
Qed.
(** ** Well-typed ledgers *)

(** A ledger whose names passed their check. *)
Record well_typed (s : LedgerState) : Prop := {
  typed_ledger : ledger_ok s;
  typed_names : map_Forall (fun _ a => validate_display_name (ac_display_name a) = Ok ()) (accounts s)
}.

Lemma typed_name s x : well_typed s -> validate_display_name (ac_display_name (account_or_default s x)) = Ok ().
Proof.
  intros [_ Hn]. unfold account_or_default. destruct (accounts s !! x) as [a|] eqn:Hx; simpl; [exact (Hn x a Hx)|done].
Qed.

Lemma tx_post_well_typed s t h :
  well_typed s -> transaction_in_range t -> tx_valid s t h -> well_typed (tx_post s t).
Proof.
  intros Hs Ht Hv. pose proof (typed_name s) as Hname. split; [by eapply tx_post_ok; [apply Hs|..]|].
  pose proof (verify_signature_Ok_inv t (valid_signature _ _ _ Hv)) as (Hshape & _ & _).
  apply unsigned_validate_shape_Ok_inv in Hshape as (_ & _ & Hshape).
  unfold tx_post, tx_post_action. destruct (tx_action (unsigned t)) as [r x|i x|name]; try case_decide; simpl;
    repeat apply map_Forall_insert_2; simpl; first [apply Hname; done|apply Hs|exact Hshape].
Qed.

Lemma block_post_well_typed s b :
  well_typed s -> block_in_range b -> block_valid s b -> well_typed (block_post s b).
Proof.
  intros Hs Hb Hv. split; [by apply block_post_ok; [apply Hs|..]|].
  change (accounts (block_post s b)) with (accounts (txs_post s (transactions b))).
  pose proof (valid_transactions _ _ Hv) as Htxs. destruct Hb as (_ & _ & Hr).
  assert (forall s1, well_typed s1 -> txs_valid s1 (transactions b) (bh_height (header b)) ->
    well_typed (txs_post s1 (transactions b))) as Hall; [|by apply Hall].
  clear Hs Hv Htxs. induction Hr as [|t txs Ht _ IH]; intros s1 Hs1; [done|].
  intros [Hv Hvs]. apply IH; [by eapply tx_post_well_typed|done].
Qed.

(** C27. The operations of the ledger keep it well typed: a new ledger is, and
    whatever [apply_transaction], [apply_block] and [apply_finalized_block] are
    given and answer, they leave a ledger whose numbers all fit [u64], so no
    unchecked sum of balances overflows, and whose names are printable. *)
Theorem ledger_operations_well_typed :
  (forall c, well_typed (ledger_new c)) /\
  (forall s t h, well_typed s -> transaction_in_range t -> well_typed (apply_transaction t h s).1) /\
  (forall s b, well_typed s -> block_in_range b -> well_typed (apply_block b s).1) /\
  (forall s b c validators, well_typed s -> block_in_range b -> well_typed (apply_finalized_block b c validators s).1) /\
  (forall s, well_typed s ->
     is_u64 (height s) /\ is_u64 (last_block_timestamp_ms s) /\ is_u64 (active_challenge_id s) /\
     is_u64 (total_supply_atoms s) /\ sum_accounts balance_atoms (accounts s) <= u64_max /\
     map_Forall (fun _ a => is_u64 (balance_atoms a) /\ is_u64 (next_nonce a)) (accounts s)).
Proof.
  assert (forall s b, well_typed s -> block_in_range b -> well_typed (apply_block b s).1) as Hblock.
  { intros s b Hs Hb. destruct (apply_block b s) as [s' [rs|e]] eqn:Hr.
    - apply apply_block_Ok_inv in Hr as (Hv & -> & _); [by apply block_post_well_typed|apply Hs|done].
    - by apply apply_block_Err_inv in Hr as ->. }
  split_and!; [|  |exact Hblock| |].
  - intros c. split; [apply ledger_new_ok|apply map_Forall_empty].
  - intros s t h Hs Ht. destruct (apply_transaction t h s) as [s' [r|e]] eqn:Hr.
    + apply apply_transaction_Ok_inv in Hr as (Hv & -> & _); [by eapply tx_post_well_typed|apply Hs|done].
    + by apply apply_transaction_Err_inv in Hr as ->.
  - intros s b c validators Hs Hb. unfold apply_finalized_block, mbind, stE_bind, lift. simpl.
    destruct (verify_for_block c b validators) as [[]|e]; [by apply Hblock|done].
  - intros s [Hok _]. destruct (ledger_ok_supply_range s Hok) as [Hs0 Hs1]. pose proof max_supply_lt_u64 as Hmax.
    pose proof (ok_timestamp _ Hok). pose proof (ok_claims _ Hok). pose proof (ok_challenge _ Hok).
    unfold is_u64, in_range, MAX_BLOCK_TIMESTAMP_MS, TOTAL_CLAIMS in *. rewrite (ok_supply _ Hok).
    split_and!; try (apply Hok); try lia; try (unfold u64_max; lia).
    intros x a Hx. destruct (ok_accounts _ Hok x a Hx) as [Hb Hn]. pose proof (ledger_ok_balance_le s Hok x) as Hle.
    unfold account_or_default in Hle. rewrite Hx in Hle. simpl in Hle. unfold is_u64, in_range in *. lia.
Qed.
End theorems.

(** The issuance schedule in closed form: after [n] claims the supply in
    KCoin is the least of the lines [100 n], [10000 + 50 n], [25000 + 25 n],
    [46000 + 10 n], [63000 + 5 n] and the cap, so [reward_for_supply] never
    skips or overruns a band and reaches the cap exactly. *)
Theorem issuance_closed_form n :
  issued n = ATOMS_PER_KCOIN *
    Z.min (100 * Z.of_nat n) (Z.min (10000 + 50 * Z.of_nat n) (Z.min (25000 + 25 * Z.of_nat n)
      (Z.min (46000 + 10 * Z.of_nat n) (Z.min (63000 + 5 * Z.of_nat n) 100000)))) /\
  (reward_for_supply (issued n) = None <-> TOTAL_CLAIMS <= Z.of_nat n).
Proof.
  split; [apply issued_kcoin_spec|]. rewrite reward_for_supply_None.
  pose proof (issued_lt_max n). lia.
Qed.

(** The display names accepted are the non-empty strings of at most 64
    UTF-8 bytes and 32 characters, without a control character and with no
    white space at either end. *)
Theorem display_name_spec name :
  validate_display_name (Some name) = Ok () <->
  name <> [] /\ Z.of_nat (length (utf8 name)) <= 64 /\ Z.of_nat (length name) <= 32 /\
  Forall (fun c => is_control c = false) name /\
  (forall c, head name = Some c -> is_whitespace c = false) /\
  (forall c, last name = Some c -> is_whitespace c = false).
Proof.
  unfold validate_display_name, MAX_DISPLAY_NAME_BYTES, MAX_DISPLAY_NAME_CHARS.
  rewrite <- trim_id.
  assert (existsb is_control name = false <-> Forall (fun c => is_control c = false) name) as <-.
  { rewrite <- not_true_iff_false, existsb_exists, Forall_forall. setoid_rewrite list_elem_of_In.
    setoid_rewrite <- not_true_iff_false. naive_solver. }
  destruct (_ || _) eqn:Ht.
  - split; [done|]. intros (Hne & Hb & Hc & He & Htrim).
    rewrite He, (bool_decide_eq_false_2 (name = [])), (bool_decide_eq_false_2 (trim name <> name)),
      !(proj2 (Z.ltb_ge _ _)) in Ht by (done || tauto). done.
  - split; [|done]. intros _. rewrite !orb_false_iff, !Z.ltb_ge, !bool_decide_eq_false in Ht.
    destruct Ht as [[[[Hne Hb] Hc] Htrim] He]. split_and!; try done. by apply dec_stable.
Qed.

(** Address strings are canonical: a string parses to an address exactly
    when it is the string that address displays as, so an address has one
    accepted spelling, and display followed by parse is the identity. *)
Theorem address_strings_canonical `{Bech32, !Bech32Laws} s a :
  address_from_str s = Ok a <-> address_fmt a = Some s.
Proof.
  unfold address_from_str, address_fmt. split.
  - intros ([hrp d] & _ & Hrun)%result_bind_Ok_inv. case_bool_decide; [done|].
    apply result_bind_Ok_inv in Hrun as (b & _ & Hrun). case_bool_decide as Hb; [done|].
    by injection Hrun as ->.
  - intros Hs. rewrite (bech32_decode_encode _ _ Hs). cbn [ok_or mbind result_bind].
    rewrite bool_decide_eq_false_2 by tauto.
    unfold ADDRESS_LENGTH. rewrite (array_try_from_as_bytes a). cbn [ok_or mbind result_bind].
    by rewrite bool_decide_eq_false_2 by tauto.
Qed.

(** ** Witnesses *)

Lemma apply_transaction_refines_witness :
  exists s', apply_transaction claim1 1 genesis = (s', Ok (tx_receipt genesis claim1)) /\
    tx_effect genesis claim1 s' /\ total_supply_atoms s' = 100000000.
Proof.
  destruct (apply_transaction_refines genesis claim1 1 ledger_ok_genesis) as [(_ & s' & Hrun & Heff)|[_ [e He]]].
  - decide_now.
  - exists s'. split_and!; [done..|]. rewrite (eff_supply _ _ _ Heff). compute_now.
  - exfalso. assert (is_ok (apply_transaction claim1 1 genesis).2 = true) as Hok by compute_now.
    by rewrite He in Hok.
Defined.

Lemma replay_conserves_supply_witness :
  sum_accounts balance_atoms (accounts ledger2) = total_supply_atoms ledger2 /\
  total_supply_atoms ledger2 = 100000000.
Proof.
  split; [|compute_now].
  apply (replay_conserves_supply chain blocks12 ledger2 blocks12_in_range replay_blocks12).
Defined.

Lemma apply_block_refines_witness : block_valid genesis block1.
Proof.
  destruct (apply_block_refines genesis block1 ledger_ok_genesis) as [[Hv _]|[_ [e He]]]; [decide_now|done|].
  exfalso. assert (is_ok (apply_block block1 genesis).2 = true) as Hok by compute_now.
  by rewrite He in Hok.
Defined.

Lemma build_block_applies_witness :
  apply_block block1 genesis = (block_post genesis block1, Ok (txs_receipts genesis [claim1; transfer1; name1])).
Proof.
  destruct (build_block_applies genesis (key x11) 0 1000 [claim1; transfer1; name1] block1 ledger_ok_genesis)
    as (_ & Happly & _); [decide_now|decide_now|compute_now|compute_now|].
  apply Happly. by apply Z.leb_le; vm_compute.
Defined.

Lemma executed_transactions_are_refused_witness :
  apply_transaction transfer1 3 ledger2 = (ledger2, Err DuplicateTransaction).
Proof.
  apply (executed_transactions_are_refused chain blocks12 ledger2 transfer1 3 blocks12_in_range replay_blocks12).
  decide_now.
Defined.

Lemma only_the_signer_spends_witness :
  alice_address = address_from_public_key (tx_sender_public_key (unsigned claim1)).
Proof.
  destruct (run_Ok (apply_transaction claim1 1) genesis) as [r Hrun]; [compute_now|].
  apply (only_the_signer_spends genesis claim1 1 (apply_transaction claim1 1 genesis).1 r alice_address
    ledger_ok_genesis); [decide_now|exact Hrun|].
  right; left. intros Heq. apply Z.eqb_eq in Heq. vm_compute in Heq. discriminate.
Defined.

Lemma conflicting_certificates_expose_signers_witness :
  exists culprits, NoDup culprits /\ culprits ⊆ validators4 /\ 1 < Z.of_nat (length culprits).
Proof.
  destruct (conflicting_certificates_expose_signers certificate0 certificate0' validators4)
    as (culprits & Hnd & Hsub & Hlen & _).
  - compute_now.
  - compute_now.
  - intros Heq. apply (f_equal cv_block_hash) in Heq.
    apply (bool_decide_eq_true_2 (cv_block_hash (certificate_vote certificate0) = cv_block_hash (certificate_vote certificate0'))) in Heq.
    vm_compute in Heq. discriminate.
  - exists culprits. split_and!; [done..|]. change ((Z.of_nat (length validators4) - 1) / 3) with 1 in Hlen. done.
Defined.

Lemma certificate_new_verifies_witness :
  certificate_verify (certificate_new (commit_vote_new chain 1 0 (block_hash block0))
    ((fun k => commit_sign (commit_vote_new chain 1 0 (block_hash block0)) k) <$>
       [signing_key x14; signing_key x11; signing_key x12])) validators4 = Ok ().
Proof.
  apply (certificate_new_verifies chain 1 0 (block_hash block0) [signing_key x14; signing_key x11; signing_key x12] validators4);
    [compute_now|done|decide_now|decide_now| |by vm_compute|by apply Z.leb_le; vm_compute].
  intros v Hv. apply (bool_decide_unpack (v ∈ validators4)).
  apply list_elem_of_fmap in Hv as (k & -> & Hk). rewrite !elem_of_cons, elem_of_nil in Hk.
  destruct Hk as [->|[->|[->|[]]]]; vm_compute; exact I.
Defined.

Lemma merkle_root_binding_witness : [claim1] = [claim1].
Proof.
  apply (merkle_root_binding [claim1] [claim1]); [decide_now|decide_now|decide_now|done].
Defined.

Lemma merkle_root_repeats_odd_tail_witness :
  merkle_root ([claim1; transfer1] ++ [name1; name1]) = merkle_root ([claim1; transfer1] ++ [name1]).
Proof. apply merkle_root_repeats_odd_tail; [done|by exists 1%nat]. Defined.

Lemma tip_determines_history_witness : [block0] = [block0] /\ ledger0 = ledger0.
Proof.
  apply (tip_determines_history chain [block0] [block0] ledger0 ledger0);
    [decide_now|decide_now|decide_now|compute_now|compute_now|done|done].
Defined.

Lemma state_root_binding_witness : genesis = set_tip_hash (tip_hash genesis) genesis.
Proof. apply state_root_binding; [decide_now|done]. Defined.

Lemma replayed_chain_linked_witness : bh_parent_hash (header block2) = block_hash block1.
Proof.
  apply (replayed_chain_linked chain blocks12 ledger2 0 block1 blocks12_in_range replay_blocks12); done.
Defined.

Lemma signed_transaction_decodes_witness : tx_decode (tx_canonical_bytes transfer1) = Ok transfer1.
Proof.
  apply (signed_transaction_decodes (unsigned transfer1) (signing_key x01)); [compute_now|by apply Z.leb_le; vm_compute].
Defined.

Lemma address_strings_canonical_witness :
  address_from_str (default [] (address_fmt alice_address)) = Ok alice_address.
Proof. apply address_strings_canonical. compute_now. Defined.
