(* ===== verification/ConsensusTypes.v ===== *)
(** * Consensus messages, events and effects

    [crates/kcoin-consensus/src/types.rs] and the signature checks at the top of
    [engine.rs].

    The consensus crate's own [ValidatorId] and [BlockId] wrap the same 32 bytes
    as the protocol's [ValidatorId] and [Hash32] and convert without change:
    both sides are the same type here. A [Duration] is its number of
    nanoseconds. *)

From S2P Require Import Prelude Errors Crypto Transaction Block Commit.

Definition BlockId : Type := array 32.
#[export] Instance BlockId_eq_dec : EqDecision BlockId := array_eq_dec 32.
#[export] Instance BlockId_countable : Countable BlockId := array_countable 32.

(** [From<Hash32>] and [From<BlockId>]. *)
Definition block_id_from_hash (hash : Hash32) : BlockId := hash.
Definition hash_from_block_id (block_id : BlockId) : Hash32 := block_id.

(** ** Validator sets *)

Inductive ValidatorSetError : Type := Empty | Duplicate (v : ValidatorId).

Record ValidatorSet : Type := mk_ValidatorSet { validators : list ValidatorId }.

(** The [for validator in &validators] loop, with its [seen] set. *)
Fixpoint check_distinct (seen : gset ValidatorId) (l : list ValidatorId) : result ValidatorSetError () :=
  match l with
  | [] => Ok ()
  | v :: l => if bool_decide (v ∈ seen) then Err (Duplicate v) else check_distinct ({[v]} ∪ seen) l
  end.

Definition validator_set_new (l : list ValidatorId) : result ValidatorSetError ValidatorSet :=
  if bool_decide (l = []) then Err Empty
  else
    _ ← check_distinct ∅ l;
    Ok (mk_ValidatorSet l).

Definition vs_contains (s : ValidatorSet) (v : ValidatorId) : bool := bool_decide (v ∈ validators s).
Definition vs_len (s : ValidatorSet) : Z := Z.of_nat (length (validators s)).
Definition quorum (s : ValidatorSet) : Z := quorum_size (vs_len s).

Definition null_validator : ValidatorId := array_fill 32 x00.

(** [usize] arithmetic wraps in a release build. The default of the indexing is
    never used: the set is not empty ([proposer_lookup]). *)
Definition proposer (s : ValidatorSet) (height round : Z) : ValidatorId :=
  let height_offset := saturating_sub height 1 in
  let index := wrap u64_max (height_offset + round) mod vs_len s in
  default null_validator (validators s !! Z.to_nat index).

(** ** Votes, proposals, signed messages *)

Inductive VoteKind : Type := Prevote | Precommit.
#[export] Instance VoteKind_eq_dec : EqDecision VoteKind.
Proof. solve_decision. Defined.
#[export] Program Instance VoteKind_countable : Countable VoteKind :=
  inj_countable' (fun k => match k with Prevote => false | Precommit => true end)
    (fun b => if b then Precommit else Prevote) _.
Next Obligation. by intros []. Qed.

Inductive VoteValue : Type := Nil | BlockValue (b : BlockId).
#[export] Instance VoteValue_eq_dec : EqDecision VoteValue.
Proof. solve_decision. Defined.
#[export] Program Instance VoteValue_countable : Countable VoteValue :=
  inj_countable' (fun v => match v with Nil => None | BlockValue b => Some b end)
    (fun o => match o with Some b => BlockValue b | None => Nil end) _.
Next Obligation. by intros []. Qed.

(** The derived order: [Nil] before every block. *)
Definition vote_value_leb (a b : VoteValue) : bool :=
  match a, b with
  | Nil, _ => true
  | BlockValue _, Nil => false
  | BlockValue a, BlockValue b => array_leb a b
  end.

Record Vote : Type := mk_Vote {
  v_chain_id : ustring;
  v_height : Z;
  v_round : Z;
  v_kind : VoteKind;
  v_validator : ValidatorId;
  v_value : VoteValue
}.
#[export] Instance Vote_eq_dec : EqDecision Vote.
Proof. solve_decision. Defined.

Record SignedVote : Type := mk_SignedVote { sv_vote : Vote; sv_signature : bytes }.
#[export] Instance SignedVote_eq_dec : EqDecision SignedVote.
Proof. solve_decision. Defined.

Record Proposal : Type := mk_Proposal {
  p_chain_id : ustring;
  p_height : Z;
  p_round : Z;
  p_proposer : ValidatorId;
  p_block_id : BlockId;
  p_valid_round : option Z;
  p_valid_round_proof : list SignedVote
}.
#[export] Instance Proposal_eq_dec : EqDecision Proposal.
Proof. solve_decision. Defined.

Record SignedProposal : Type := mk_SignedProposal { sp_proposal : Proposal; sp_signature : bytes }.
#[export] Instance SignedProposal_eq_dec : EqDecision SignedProposal.
Proof. solve_decision. Defined.

Inductive SignableMessage : Type :=
| SignableProposal (p : Proposal)
| SignableVote (v : Vote).
#[export] Instance SignableMessage_eq_dec : EqDecision SignableMessage.
Proof. solve_decision. Defined.

Inductive SignedMessage : Type :=
| SignedMessageProposal (p : SignedProposal)
| SignedMessageVote (v : SignedVote).
#[export] Instance SignedMessage_eq_dec : EqDecision SignedMessage.
Proof. solve_decision. Defined.

Definition signable_round (m : SignableMessage) : Z :=
  match m with SignableProposal p => p_round p | SignableVote v => v_round v end.

Definition signable (m : SignedMessage) : SignableMessage :=
  match m with
  | SignedMessageProposal p => SignableProposal (sp_proposal p)
  | SignedMessageVote v => SignableVote (sv_vote v)
  end.

Definition message_signature (m : SignedMessage) : bytes :=
  match m with
  | SignedMessageProposal p => sp_signature p
  | SignedMessageVote v => sv_signature v
  end.

Inductive SigningBytesError : Type := SigningInvalidChainId.

Section signing.
  Context `{Ed25519, !Borsh CommitVote, !Borsh SignableMessage}.

(** A block precommit is signed as the protocol's commit vote; everything else
    as its own Borsh encoding, which cannot fail into a [Vec]. *)
Definition signing_bytes (m : SignableMessage) : result SigningBytesError bytes :=
  match m with
  | SignableVote (mk_Vote chain_id height round Precommit _ (BlockValue block_id)) =>
      chain_id ← map_err (fun _ => SigningInvalidChainId) (chain_id_new chain_id);
      Ok (commit_signing_bytes (commit_vote_new chain_id height round (hash_from_block_id block_id)))
  | _ => Ok (to_vec m)
  end.

(** [engine.rs]'s [ValidationError]. *)
Inductive EngineValidationError : Type :=
| EngineInvalidSignature
| EngineInvalidProposal
| EngineInvalidCertificate
| EngineOther.

(** The text of [Other] is dropped. *)
Definition verify_ed25519 (signer : ValidatorId) (message : SignableMessage) (signature : bytes) :
    result EngineValidationError () :=
  signature ← ok_or (array_try_from 64 signature) EngineInvalidSignature;
  if negb (vk_valid signer) then Err EngineInvalidSignature
  else
    bytes ← map_err (fun _ => EngineOther) (signing_bytes message);
    if verify_strict signer bytes signature then Ok () else Err EngineInvalidSignature.

Definition verify_ed25519_proposal (proposal : SignedProposal) : result EngineValidationError () :=
  verify_ed25519 (p_proposer (sp_proposal proposal)) (SignableProposal (sp_proposal proposal))
    (sp_signature proposal).

Definition verify_ed25519_vote (vote : SignedVote) : result EngineValidationError () :=
  verify_ed25519 (v_validator (sv_vote vote)) (SignableVote (sv_vote vote)) (sv_signature vote).
End signing.

(** ** Consensus certificates and their protocol form *)

Record ConsensusCertificate : Type := mk_ConsensusCertificate {
  c_chain_id : ustring;
  c_height : Z;
  c_round : Z;
  c_block_id : BlockId;
  c_precommits : list SignedVote
}.
#[export] Instance ConsensusCertificate_eq_dec : EqDecision ConsensusCertificate.
Proof. solve_decision. Defined.

Inductive ProtocolCertificateError : Type :=
| CertInvalidChainId
| CertMismatchedPrecommit
| CertInvalidSignatureLength (actual : Z).

Definition precommit_to_protocol (c : ConsensusCertificate) (precommit : SignedVote) :
    result ProtocolCertificateError CommitSignature :=
  let vote := sv_vote precommit in
  if bool_decide (v_kind vote <> Precommit) ||
     bool_decide (v_value vote <> BlockValue (c_block_id c)) ||
     bool_decide (v_chain_id vote <> c_chain_id c) ||
     negb (v_height vote =? c_height c) ||
     negb (v_round vote =? c_round c)
  then Err CertMismatchedPrecommit
  else
    signature ← ok_or (array_try_from 64 (sv_signature precommit))
      (CertInvalidSignatureLength (Z.of_nat (length (sv_signature precommit))));
    Ok (mk_CommitSignature (v_validator vote) signature).

Definition to_protocol (c : ConsensusCertificate) : result ProtocolCertificateError CommitCertificate :=
  chain_id ← map_err (fun _ => CertInvalidChainId) (chain_id_new (c_chain_id c));
  let vote := commit_vote_new chain_id (c_height c) (c_round c) (hash_from_block_id (c_block_id c)) in
  signatures ← try_collect (precommit_to_protocol c) (c_precommits c);
  Ok (certificate_new vote signatures).

Definition from_protocol (certificate : CommitCertificate) : ConsensusCertificate :=
  let block_id := block_id_from_hash (cc_block_hash certificate) in
  mk_ConsensusCertificate (as_str (cc_chain_id certificate)) (cc_height certificate)
    (cc_round certificate) block_id
    ((fun s => mk_SignedVote
        (mk_Vote (as_str (cc_chain_id certificate)) (cc_height certificate) (cc_round certificate)
           Precommit (cs_validator s) (BlockValue block_id))
        (as_bytes (cs_signature s))) <$> cc_signatures certificate).

(** ** Safety state, timeouts, events, effects *)

Inductive Phase : Type := PhasePropose | PhasePrevote | PhasePrecommit | PhaseFinalized.
#[export] Instance Phase_eq_dec : EqDecision Phase.
Proof. solve_decision. Defined.

Record SafetyState : Type := mk_SafetyState {
  ss_height : Z;
  ss_round : Z;
  ss_locked_round : option Z;
  ss_locked_block : option BlockId;
  ss_valid_round : option Z;
  ss_valid_block : option BlockId;
  ss_valid_round_proof : list SignedVote
}.
#[export] Instance SafetyState_eq_dec : EqDecision SafetyState.
Proof. solve_decision. Defined.

Record Timeout : Type := mk_Timeout {
  to_height : Z;
  to_round : Z;
  to_phase : Phase;
  to_after : Z
}.
#[export] Instance Timeout_eq_dec : EqDecision Timeout.
Proof. solve_decision. Defined.

Inductive Event : Type :=
| Start
| ProposalReady (height round : Z) (block_id : BlockId)
| Message (m : SignedMessage)
| Persisted (m : SignedMessage)
| TimeoutEvent (t : Timeout)
| Certificate (c : ConsensusCertificate).

Record Finalization : Type := mk_Finalization {
  f_height : Z;
  f_round : Z;
  f_block_id : BlockId;
  f_certificate : ConsensusCertificate
}.
#[export] Instance Finalization_eq_dec : EqDecision Finalization.
Proof. solve_decision. Defined.

Inductive Evidence : Type :=
| DoubleVote (validator : ValidatorId) (first second : SignedVote)
| DoubleProposal (proposer : ValidatorId) (first second : SignedProposal).
#[export] Instance Evidence_eq_dec : EqDecision Evidence.
Proof. solve_decision. Defined.

Inductive Effect : Type :=
| RequestProposal (height round : Z) (valid_block : option BlockId) (valid_round : option Z)
| PersistBeforeBroadcast (message : SignableMessage) (safety_state : SafetyState)
| Broadcast (m : SignedMessage)
| ScheduleTimeout (t : Timeout)
| Finalize (f : Finalization)
| EvidenceEffect (e : Evidence).
#[export] Instance Effect_eq_dec : EqDecision Effect.
Proof. solve_decision. Defined.

(** ** Configuration *)

Definition DURATION_MAX : Z := u64_max * 10 ^ 9 + 999999999.
Definition from_millis (ms : Z) : Z := ms * 10 ^ 6.

Record ConsensusConfig : Type := mk_ConsensusConfig {
  cfg_chain_id : ustring;
  propose_timeout : Z;
  prevote_timeout : Z;
  precommit_timeout : Z;
  timeout_step : Z;
  max_cached_rounds : Z;
  max_round_ahead : Z;
  max_rounds_per_height : Z;
  max_signature_bytes : Z
}.

Definition for_chain (chain_id : ustring) : ConsensusConfig :=
  mk_ConsensusConfig chain_id (from_millis 800) (from_millis 500) (from_millis 500)
    (from_millis 100) 64 16 10000 128.

Definition timeout_for (c : ConsensusConfig) (phase : Phase) (round : Z) : Z :=
  let base :=
    match phase with
    | PhasePropose => propose_timeout c
    | PhasePrevote => prevote_timeout c
    | PhasePrecommit => precommit_timeout c
    | PhaseFinalized => 0
    end in
  let step := saturating_mul DURATION_MAX (timeout_step c) round in
  saturating_add DURATION_MAX base step.

(** ** Lemmas on validator sets *)

Lemma check_distinct_Ok seen l :
  check_distinct seen l = Ok () <-> NoDup l /\ Forall (fun v => v ∉ seen) l.
Proof.
  revert seen. induction l as [|v l IH]; intros seen; simpl.
  { split; [intros _; split; constructor|done]. }
  rewrite NoDup_cons, Forall_cons. case_bool_decide as Hv; [split; [done|tauto]|].
  rewrite IH, !Forall_forall. set_solver.
Qed.

Lemma validator_set_new_Ok l s :
  validator_set_new l = Ok s <-> s = mk_ValidatorSet l /\ l <> [] /\ NoDup l.
Proof.
  unfold validator_set_new. case_bool_decide as Hl; [naive_solver|]. split.
  - intros ([] & Hd & [= <-])%result_bind_Ok_inv. by apply check_distinct_Ok in Hd as [].
  - intros (-> & _ & Hnd). rewrite (proj2 (check_distinct_Ok ∅ l)); [done|].
    split; [done|]. apply Forall_true. set_solver.
Qed.

(** The members of a set built by [ValidatorSet::new]. *)
Record validator_set_ok (s : ValidatorSet) : Prop := {
  vs_nonempty : validators s <> [];
  vs_distinct : NoDup (validators s)
}.

Lemma vs_len_pos s : validator_set_ok s -> 1 <= vs_len s.
Proof. intros [Hne _]. unfold vs_len. destruct (validators s); simpl; [done|lia]. Qed.

Lemma proposer_lookup s height round :
  validator_set_ok s -> 1 <= height -> 0 <= round -> height - 1 + round <= u64_max ->
  validators s !! Z.to_nat ((height - 1 + round) mod vs_len s) = Some (proposer s height round).
Proof.
  intros Hs Hh Hr Hmax. pose proof (vs_len_pos s Hs) as Hlen. unfold proposer, saturating_sub.
  rewrite Z.max_l by lia. rewrite wrap_small by (unfold in_range; lia).
  pose proof (Z.mod_pos_bound (height - 1 + round) (vs_len s)).
  assert (Z.to_nat ((height - 1 + round) mod vs_len s) < length (validators s))%nat as Hlt
    by (unfold vs_len in *; lia).
  by destruct (lookup_lt_is_Some_2 _ _ Hlt) as [v ->].
Qed.
