(* ===== verification/Engine.v ===== *)
(** * The consensus engine

    [crates/kcoin-consensus/src/engine.rs]: one validator's state machine for
    one height. A method taking [&mut self] is [stE Consensus ConsensusError];
    one that appends to a caller's [effects] vector returns what it appends.
    Every caller of such a method drops the vector when the method fails, so
    the effects of a failed step are lost while its state changes stay. *)

From S2P Require Import Prelude Errors Crypto Transaction Block Commit ConsensusTypes.

(** The embedding node's checks. *)
Class MessageValidator : Type := {
  mv_validate_proposal : SignedProposal -> result EngineValidationError ();
  mv_validate_vote : SignedVote -> result EngineValidationError ();
  mv_validate_certificate : ConsensusCertificate -> result EngineValidationError ()
}.

Inductive ConsensusError : Type :=
| ZeroHeight
| LocalValidatorNotFound (v : ValidatorId)
| InvalidConfig (message : string)
| AlreadyStarted
| NotStarted
| RestoredHeightMismatch (expected actual : Z)
| MalformedSafetyState
| RestoredRoundOutOfRange (round : Z)
| RestoredDecisionSigner (expected actual : ValidatorId)
| EngineWrongChain (expected actual : ustring)
| WrongHeight (expected actual : Z)
| UnknownValidator (v : ValidatorId)
| UnexpectedProposer (round : Z) (expected actual : ValidatorId)
| RoundOutsideWindow (round : Z)
| RoundLimitReached (round : Z)
| SignatureTooLarge
| InvalidValidRoundProof
| InvalidCertificate
| ProposalNotRequested (height round : Z)
| UnexpectedPersistedMessage
| ConflictingCommit (finalized received : BlockId)
| EngineValidation (e : EngineValidationError).

Inductive DecisionKey : Type :=
| ProposalKey (round : Z)
| VoteKey (round : Z) (kind : VoteKind).
#[export] Instance DecisionKey_eq_dec : EqDecision DecisionKey.
Proof. solve_decision. Defined.
#[export] Program Instance DecisionKey_countable : Countable DecisionKey :=
  inj_countable'
    (fun k => match k with ProposalKey r => (r, None) | VoteKey r k => (r, Some k) end)
    (fun p => match p with (r, None) => ProposalKey r | (r, Some k) => VoteKey r k end) _.
Next Obligation. by intros []. Qed.

Definition of_signable (m : SignableMessage) : DecisionKey :=
  match m with
  | SignableProposal p => ProposalKey (p_round p)
  | SignableVote v => VoteKey (v_round v) (v_kind v)
  end.

Definition key_round (k : DecisionKey) : Z :=
  match k with ProposalKey r => r | VoteKey r _ => r end.

Record Consensus : Type := mk_Consensus {
  local_id : ValidatorId;
  vset : ValidatorSet;
  config : ConsensusConfig;
  con_height : Z;
  con_round : Z;
  phase : Phase;
  started : bool;
  finalized : option Finalization;
  locked_round : option Z;
  locked_block : option BlockId;
  valid_round : option Z;
  valid_block : option BlockId;
  valid_proof : list SignedVote;
  proposals : gmap Z SignedProposal;
  votes : gmap (Z * VoteKind) (gmap ValidatorId SignedVote);
  requested_proposals : gset Z;
  local_decisions : gmap DecisionKey SignableMessage;
  pending_persistence : gmap DecisionKey SignableMessage
}.

(** Assignments to the fields of [self]. *)
Definition set_round_phase (r : Z) (p : Phase) (c : Consensus) : Consensus :=
  mk_Consensus (local_id c) (vset c) (config c) (con_height c) r p (started c) (finalized c) (locked_round c)
    (locked_block c) (valid_round c) (valid_block c) (valid_proof c) (proposals c) (votes c)
    (requested_proposals c) (local_decisions c) (pending_persistence c).
Definition set_phase (p : Phase) (c : Consensus) : Consensus :=
  mk_Consensus (local_id c) (vset c) (config c) (con_height c) (con_round c) p (started c) (finalized c)
    (locked_round c) (locked_block c) (valid_round c) (valid_block c) (valid_proof c) (proposals c)
    (votes c) (requested_proposals c) (local_decisions c) (pending_persistence c).
Definition set_started (c : Consensus) : Consensus :=
  mk_Consensus (local_id c) (vset c) (config c) (con_height c) (con_round c) (phase c) true (finalized c)
    (locked_round c) (locked_block c) (valid_round c) (valid_block c) (valid_proof c) (proposals c)
    (votes c) (requested_proposals c) (local_decisions c) (pending_persistence c).
Definition set_finalized (f : Finalization) (c : Consensus) : Consensus :=
  mk_Consensus (local_id c) (vset c) (config c) (con_height c) (con_round c) PhaseFinalized (started c) (Some
    f) (locked_round c) (locked_block c) (valid_round c) (valid_block c) (valid_proof c) (proposals
    c) (votes c) (requested_proposals c) (local_decisions c) (pending_persistence c).
Definition set_locked (r : Z) (b : BlockId) (c : Consensus) : Consensus :=
  mk_Consensus (local_id c) (vset c) (config c) (con_height c) (con_round c) (phase c) (started c) (finalized
    c) (Some r) (Some b) (valid_round c) (valid_block c) (valid_proof c) (proposals c) (votes c)
    (requested_proposals c) (local_decisions c) (pending_persistence c).
Definition set_valid (r : Z) (b : BlockId) (proof : list SignedVote) (c : Consensus) : Consensus :=
  mk_Consensus (local_id c) (vset c) (config c) (con_height c) (con_round c) (phase c) (started c) (finalized
    c) (locked_round c) (locked_block c) (Some r) (Some b) proof (proposals c) (votes c)
    (requested_proposals c) (local_decisions c) (pending_persistence c).
Definition set_proposals (x : gmap Z SignedProposal) (c : Consensus) : Consensus :=
  mk_Consensus (local_id c) (vset c) (config c) (con_height c) (con_round c) (phase c) (started c) (finalized
    c) (locked_round c) (locked_block c) (valid_round c) (valid_block c) (valid_proof c) x (votes
    c) (requested_proposals c) (local_decisions c) (pending_persistence c).
Definition set_votes (x : gmap (Z * VoteKind) (gmap ValidatorId SignedVote)) (c : Consensus) : Consensus :=
  mk_Consensus (local_id c) (vset c) (config c) (con_height c) (con_round c) (phase c) (started c) (finalized
    c) (locked_round c) (locked_block c) (valid_round c) (valid_block c) (valid_proof c) (proposals
    c) x (requested_proposals c) (local_decisions c) (pending_persistence c).
Definition set_requested_proposals (x : gset Z) (c : Consensus) : Consensus :=
  mk_Consensus (local_id c) (vset c) (config c) (con_height c) (con_round c) (phase c) (started c) (finalized
    c) (locked_round c) (locked_block c) (valid_round c) (valid_block c) (valid_proof c) (proposals
    c) (votes c) x (local_decisions c) (pending_persistence c).
Definition set_local_decisions (x : gmap DecisionKey SignableMessage) (c : Consensus) : Consensus :=
  mk_Consensus (local_id c) (vset c) (config c) (con_height c) (con_round c) (phase c) (started c) (finalized
    c) (locked_round c) (locked_block c) (valid_round c) (valid_block c) (valid_proof c) (proposals
    c) (votes c) (requested_proposals c) x (pending_persistence c).
Definition set_pending_persistence (x : gmap DecisionKey SignableMessage) (c : Consensus) : Consensus :=
  mk_Consensus (local_id c) (vset c) (config c) (con_height c) (con_round c) (phase c) (started c) (finalized
    c) (locked_round c) (locked_block c) (valid_round c) (valid_block c) (valid_proof c) (proposals
    c) (votes c) (requested_proposals c) (local_decisions c) x.
Definition set_restored (r : Z) (ss : SafetyState) (c : Consensus) : Consensus :=
  mk_Consensus (local_id c) (vset c) (config c) (con_height c) r (phase c) (started c) (finalized c)
    (ss_locked_round ss) (ss_locked_block ss) (ss_valid_round ss) (ss_valid_block ss)
    (ss_valid_round_proof ss) (proposals c) (votes c) (requested_proposals c) (local_decisions c)
    (pending_persistence c).

(** ** Construction and reads *)

Definition consensus_new (local : ValidatorId) (vs : ValidatorSet) (height : Z) (cfg : ConsensusConfig) :
    result ConsensusError Consensus :=
  if height =? 0 then Err ZeroHeight
  else if negb (vs_contains vs local) then Err (LocalValidatorNotFound local)
  else if negb (is_ok (chain_id_new (cfg_chain_id cfg))) then Err 
    (InvalidConfig "chain_id must be a valid KCoin protocol chain ID")
  else if max_cached_rounds cfg =? 0 then Err 
    (InvalidConfig "max_cached_rounds must be greater than zero")
  else if max_rounds_per_height cfg =? 0 then Err 
    (InvalidConfig "max_rounds_per_height must be greater than zero")
  else if max_signature_bytes cfg =? 0 then Err 
    (InvalidConfig "max_signature_bytes must be greater than zero")
  else Ok (mk_Consensus local vs cfg height 0 PhasePropose false None None None None None []
             ∅ ∅ ∅ ∅ ∅).

Definition locked (c : Consensus) : option (Z * BlockId) :=
  match locked_round c, locked_block c with
  | Some round, Some block => Some (round, block)
  | _, _ => None
  end.

Definition valid_value (c : Consensus) : option (Z * BlockId) :=
  match valid_round c, valid_block c with
  | Some round, Some block => Some (round, block)
  | _, _ => None
  end.

Definition safety_state (c : Consensus) : SafetyState :=
  mk_SafetyState (con_height c) (con_round c) (locked_round c) (locked_block c)
    (valid_round c) (valid_block c) (valid_proof c).

Definition cached_round_count (c : Consensus) : Z :=
  Z.of_nat (size (dom (proposals c) ∪ set_map (D := gset Z) fst (dom (votes c)))).

Definition vote_count (c : Consensus) (round : Z) (kind : VoteKind) : Z :=
  match votes c !! (round, kind) with Some m => Z.of_nat (size m) | None => 0 end.

Definition timeout (c : Consensus) (p : Phase) : Timeout :=
  mk_Timeout (con_height c) (con_round c) p (timeout_for (config c) p (con_round c)).

(** ** The round window *)

(** [max_cached_rounds.saturating_sub(1) as Round]. *)
Definition retained_before (c : Consensus) : Z :=
  wrap u32_max (saturating_sub (max_cached_rounds (config c)) 1).
Definition window_min (c : Consensus) : Z := saturating_sub (con_round c) (retained_before c).
Definition window_max (c : Consensus) : Z :=
  saturating_add u32_max (con_round c) (max_round_ahead (config c)).

Definition round_is_cacheable (c : Consensus) (round : Z) : bool :=
  (window_min c <=? round) && (round <=? window_max c).

Definition prune_caches (c : Consensus) : Consensus :=
  let keep := round_is_cacheable c in
  set_pending_persistence (filter (fun kv => keep (key_round kv.1) = true) (pending_persistence c))
    (set_local_decisions (filter (fun kv => keep (key_round kv.1) = true) (local_decisions c))
      (set_requested_proposals (filter (fun r => keep r = true) (requested_proposals c))
        (set_votes (filter (fun kv => keep kv.1.1 = true) (votes c))
          (set_proposals (filter (fun kv => keep kv.1 = true) (proposals c)) c)))).

(** ** Structural validation *)

Definition validate_context (c : Consensus) (chain_id : ustring) (height : Z) : result ConsensusError () :=
  if bool_decide (chain_id <> cfg_chain_id (config c))
  then Err (EngineWrongChain (cfg_chain_id (config c)) chain_id)
  else if negb (height =? con_height c) then Err (WrongHeight (con_height c) height)
  else Ok ().

Definition validate_vote_structure (c : Consensus) (signed : SignedVote) : result ConsensusError () :=
  let vote := sv_vote signed in
  _ ← validate_context c (v_chain_id vote) (v_height vote);
  if negb (vs_contains (vset c) (v_validator vote)) then Err (UnknownValidator (v_validator vote))
  else if max_rounds_per_height (config c) <=? v_round vote then Err (RoundOutsideWindow (v_round vote))
  else Ok ().

Section engine.
  Context `{MessageValidator}.

(** The loop over the votes of a proof or a certificate, with its [signers]
    set; [bad] is the error of a vote that is not the one wanted. *)
Fixpoint check_votes (c : Consensus) (bad : ConsensusError) (round : Z) (kind : VoteKind)
    (value : VoteValue) (signers : gset ValidatorId) (l : list SignedVote) : result ConsensusError () :=
  match l with
  | [] => Ok ()
  | signed :: l =>
      if max_signature_bytes (config c) <? Z.of_nat (length (sv_signature signed))
      then Err SignatureTooLarge
      else
        _ ← validate_vote_structure c signed;
        let vote := sv_vote signed in
        if negb (v_round vote =? round) || bool_decide (v_kind vote <> kind) ||
           bool_decide (v_value vote <> value) || bool_decide (v_validator vote ∈ signers)
        then Err bad
        else
          _ ← map_err EngineValidation (mv_validate_vote signed);
          check_votes c bad round kind value ({[v_validator vote]} ∪ signers) l
  end.

Definition validate_proposal_structure (c : Consensus) (signed : SignedProposal) : result ConsensusError () :=
  let proposal := sp_proposal signed in
  _ ← validate_context c (p_chain_id proposal) (p_height proposal);
  if negb (vs_contains (vset c) (p_proposer proposal)) then Err (UnknownValidator (p_proposer proposal))
  else
  let expected := proposer (vset c) (con_height c) (p_round proposal) in
  if bool_decide (p_proposer proposal <> expected)
  then Err (UnexpectedProposer (p_round proposal) expected (p_proposer proposal))
  else if max_rounds_per_height (config c) <=? p_round proposal
  then Err (RoundOutsideWindow (p_round proposal))
  else
  match p_valid_round proposal with
  | None =>
      if bool_decide (p_valid_round_proof proposal = []) then Ok () else Err InvalidValidRoundProof
  | Some valid_round =>
      if valid_round <? p_round proposal then
        let n := Z.of_nat (length (p_valid_round_proof proposal)) in
        if (n <? quorum (vset c)) || (vs_len (vset c) <? n) then Err InvalidValidRoundProof
        else check_votes c InvalidValidRoundProof valid_round Prevote
               (BlockValue (p_block_id proposal)) ∅ (p_valid_round_proof proposal)
      else Err InvalidValidRoundProof
  end.

Definition validate_message (c : Consensus) (message : SignedMessage) : result ConsensusError () :=
  if max_signature_bytes (config c) <? Z.of_nat (length (message_signature message))
  then Err SignatureTooLarge
  else
  match message with
  | SignedMessageProposal proposal =>
      _ ← validate_proposal_structure c proposal;
      map_err EngineValidation (mv_validate_proposal proposal)
  | SignedMessageVote vote =>
      _ ← validate_vote_structure c vote;
      map_err EngineValidation (mv_validate_vote vote)
  end.

Definition preflight_message (c : Consensus) (message : SignedMessage) : result ConsensusError bool :=
  _ ← validate_message c message;
  Ok (round_is_cacheable c (signable_round (signable message))).

Definition validate_certificate (c : Consensus) (certificate : ConsensusCertificate) :
    result ConsensusError () :=
  _ ← validate_context c (c_chain_id certificate) (c_height certificate);
  let n := Z.of_nat (length (c_precommits certificate)) in
  if (max_rounds_per_height (config c) <=? c_round certificate) || (n <? quorum (vset c)) ||
     (vs_len (vset c) <? n)
  then Err InvalidCertificate
  else
    _ ← check_votes c InvalidCertificate (c_round certificate) Precommit
          (BlockValue (c_block_id certificate)) ∅ (c_precommits certificate);
    map_err EngineValidation (mv_validate_certificate certificate).

(** ** Restoring durable state *)

Definition validate_restored_safety_state (c : Consensus) (ss : SafetyState) : result ConsensusError () :=
  let lock_is_well_formed :=
    match ss_locked_round ss, ss_locked_block ss with
    | None, None => true
    | Some round, Some _ => round <=? ss_round ss
    | _, _ => false
    end in
  let proof_len := Z.of_nat (length (ss_valid_round_proof ss)) in
  let valid_value_is_well_formed :=
    match ss_valid_round ss, ss_valid_block ss with
    | None, None => bool_decide (ss_valid_round_proof ss = [])
    | Some round, Some _ =>
        (round <=? ss_round ss) && (quorum (vset c) <=? proof_len) && (proof_len <=? vs_len (vset c))
    | _, _ => false
    end in
  let lock_is_covered_by_valid_value :=
    match ss_locked_round ss, ss_locked_block ss, ss_valid_round ss, ss_valid_block ss with
    | None, None, _, _ => true
    | Some locked_round, Some locked_block, Some valid_round, Some valid_block =>
        (locked_round <? valid_round) ||
        ((valid_round =? locked_round) && bool_decide (valid_block = locked_block))
    | _, _, _, _ => false
    end in
  if negb lock_is_well_formed || negb valid_value_is_well_formed || negb lock_is_covered_by_valid_value
  then Err MalformedSafetyState
  else
  match ss_valid_round ss, ss_valid_block ss with
  | Some valid_round, Some valid_block =>
      check_votes c MalformedSafetyState valid_round Prevote (BlockValue valid_block) ∅
        (ss_valid_round_proof ss)
  | _, _ => Ok ()
  end.

Definition new_with_safety_state (local : ValidatorId) (vs : ValidatorSet) (height : Z)
    (cfg : ConsensusConfig) (ss : SafetyState) : result ConsensusError Consensus :=
  if negb (ss_height ss =? height) then Err (RestoredHeightMismatch height (ss_height ss))
  else
  resume_round ←
    ok_or (match checked_add u32_max (ss_round ss) 1 with
           | Some round => if round <? max_rounds_per_height cfg then Some round else None
           | None => None
           end) (RestoredRoundOutOfRange (ss_round ss));
  consensus ← consensus_new local vs height cfg;
  _ ← validate_restored_safety_state consensus ss;
  Ok (set_restored resume_round ss consensus).

Definition restore_local_decision (message : SignableMessage) : stE Consensus ConsensusError () :=
  self ← get;
  if started self then throw AlreadyStarted
  else
  '(chain_id, height, signer) ←
    match message with
    | SignableProposal p =>
        let expected := proposer (vset self) (con_height self) (p_round p) in
        if bool_decide (p_proposer p <> expected)
        then throw (UnexpectedProposer (p_round p) expected (p_proposer p))
        else mret (p_chain_id p, p_height p, p_proposer p)
    | SignableVote v => mret (v_chain_id v, v_height v, v_validator v)
    end;
  _ ← lift (validate_context self chain_id height);
  if bool_decide (signer <> local_id self) then throw (RestoredDecisionSigner (local_id self) signer)
  else if (con_round self <=? signable_round message) ||
          (max_rounds_per_height (config self) <=? signable_round message)
  then throw MalformedSafetyState
  else
  let key := of_signable message in
  match local_decisions self !! key with
  | Some existing => if bool_decide (existing = message) then mret () else throw UnexpectedPersistedMessage
  | None => modify (set_local_decisions (<[key := message]> (local_decisions self)))
  end.

(** ** Votes *)

Definition group_votes (l : list SignedVote) : gmap VoteValue (list SignedVote) :=
  foldl (fun m v => <[v_value (sv_vote v) := default [] (m !! v_value (sv_vote v)) ++ [v]]> m) ∅ l.

Definition quorum_votes (c : Consensus) (round : Z) (kind : VoteKind) :
    option (VoteValue * list SignedVote) :=
  by_validator ← votes c !! (round, kind);
  let by_value := group_votes (btree_values (K := ValidatorId) array_leb by_validator) in
  List.find (fun entry => quorum (vset c) <=? Z.of_nat (length entry.2))
    (btree_entries vote_value_leb by_value).

Definition prevote_for (c : Consensus) (p : Proposal) : VoteValue :=
  match locked_round c, locked_block c with
  | None, None => BlockValue (p_block_id p)
  | lr, Some locked =>
      if bool_decide (locked = p_block_id p) then BlockValue (p_block_id p)
      else
        match lr, p_valid_round p with
        | Some locked_round, Some valid_round =>
            if locked_round <? valid_round then BlockValue (p_block_id p) else Nil
        | _, _ => Nil
        end
  | _, _ => Nil
  end.

(** Returns the effects pushed. *)
Definition cast_vote (kind : VoteKind) (value : VoteValue) (c : Consensus) : Consensus * list Effect :=
  let message := SignableVote
    (mk_Vote (cfg_chain_id (config c)) (con_height c) (con_round c) kind (local_id c) value) in
  let key := VoteKey (con_round c) kind in
  if bool_decide (is_Some (local_decisions c !! key)) then (c, [])
  else
    let c := set_local_decisions (<[key := message]> (local_decisions c)) c in
    let c := set_pending_persistence (<[key := message]> (pending_persistence c)) c in
    let persist := PersistBeforeBroadcast message (safety_state c) in
    let c := set_phase (match kind with Prevote => PhasePrevote | Precommit => PhasePrecommit end) c in
    (c, [persist; ScheduleTimeout (timeout c (phase c))]).

Definition cast_vote_st (kind : VoteKind) (value : VoteValue) : stE Consensus ConsensusError (list Effect) :=
  fun c => let '(c, effects) := cast_vote kind value c in (c, Ok effects).

Definition request_persistence (message : SignableMessage) : stE Consensus ConsensusError (list Effect) :=
  self ← get;
  let key := of_signable message in
  match local_decisions self !! key with
  | Some existing => if bool_decide (existing = message) then mret [] else throw UnexpectedPersistedMessage
  | None =>
      _ ← modify (fun c => set_local_decisions (<[key := message]> (local_decisions c)) c);
      _ ← modify (fun c => set_pending_persistence (<[key := message]> (pending_persistence c)) c);
      self ← get;
      mret [PersistBeforeBroadcast message (safety_state self)]
  end.

Definition finalize (certificate : ConsensusCertificate) : stE Consensus ConsensusError (list Effect) :=
  self ← get;
  match finalized self with
  | Some f =>
      if bool_decide (f_block_id f = c_block_id certificate) then mret []
      else throw (ConflictingCommit (f_block_id f) (c_block_id certificate))
  | None =>
      let finalization := mk_Finalization (c_height certificate) (c_round certificate)
        (c_block_id certificate) certificate in
      _ ← modify (set_finalized finalization);
      mret [Finalize finalization]
  end.

(** The first half of [evaluate_round]: the prevote quorum. *)
Definition evaluate_prevotes (round : Z) : stE Consensus ConsensusError (list Effect) :=
  self ← get;
  match quorum_votes self round Prevote with
  | Some (BlockValue block_id, proof) =>
      let has_proposal :=
        match proposals self !! round with
        | Some p => bool_decide (p_block_id (sp_proposal p) = block_id)
        | None => false
        end in
      _ ← (if has_proposal && (round <=? con_round self) &&
              match valid_round self with Some known => known <? round | None => true end
           then modify (set_valid round block_id proof) else mret ());
      if has_proposal && (round =? con_round self) && bool_decide (phase self = PhasePrevote)
      then
        _ ← modify (set_locked round block_id);
        cast_vote_st Precommit (BlockValue block_id)
      else mret []
  | Some (Nil, _) =>
      if (round =? con_round self) && bool_decide (phase self = PhasePrevote)
      then cast_vote_st Precommit Nil
      else mret []
  | None => mret []
  end.

(** The second half: the precommit quorum. *)
Definition evaluate_precommits (round : Z) : stE Consensus ConsensusError (list Effect) :=
  self ← get;
  match quorum_votes self round Precommit with
  | Some (BlockValue block_id, precommits) =>
      let certificate := mk_ConsensusCertificate (cfg_chain_id (config self)) (con_height self)
        round block_id precommits in
      _ ← lift (map_err EngineValidation (mv_validate_certificate certificate));
      finalize certificate
  | _ => mret []
  end.

Definition evaluate_round (round : Z) : stE Consensus ConsensusError (list Effect) :=
  effects ← evaluate_prevotes round;
  effects' ← evaluate_precommits round;
  mret (effects ++ effects').

Definition activate_current_round : stE Consensus ConsensusError (list Effect) :=
  self ← get;
  effects ←
    (if bool_decide (phase self = PhasePropose) then
       match proposals self !! con_round self with
       | Some p => cast_vote_st Prevote (prevote_for self (sp_proposal p))
       | None => mret []
       end
     else mret []);
  self ← get;
  effects' ← evaluate_round (con_round self);
  mret (effects ++ effects').

(** ** Event handlers *)

Definition enter_round (round : Z) : stE Consensus ConsensusError (list Effect) :=
  self ← get;
  if max_rounds_per_height (config self) <=? round then throw (RoundLimitReached round)
  else
  _ ← modify (set_round_phase round PhasePropose);
  _ ← modify prune_caches;
  self ← get;
  let effects := [ScheduleTimeout (timeout self PhasePropose)] in
  match proposals self !! round with
  | Some _ =>
      effects' ← activate_current_round;
      mret (effects ++ effects')
  | None =>
      if bool_decide (proposer (vset self) (con_height self) round = local_id self) then
        _ ← modify (fun c => set_requested_proposals ({[round]} ∪ requested_proposals c) c);
        mret (effects ++ [RequestProposal (con_height self) round (valid_block self) (valid_round self)])
      else mret effects
  end.

Definition proposal_ready (height round : Z) (block_id : BlockId) :
    stE Consensus ConsensusError (list Effect) :=
  self ← get;
  if negb (height =? con_height self) then throw (WrongHeight (con_height self) height)
  else if bool_decide (round ∉ requested_proposals self) then throw (ProposalNotRequested height round)
  else
  _ ← modify (fun c => set_requested_proposals (requested_proposals c ∖ {[round]}) c);
  let proof :=
    match valid_round self with
    | Some vr =>
        if (vr <? round) && bool_decide (valid_block self = Some block_id) then valid_proof self else []
    | None => []
    end in
  let vround := if bool_decide (proof = []) then None else valid_round self in
  request_persistence (SignableProposal
    (mk_Proposal (cfg_chain_id (config self)) height round (local_id self) block_id vround proof)).

Definition accept_proposal (proposal : SignedProposal) : stE Consensus ConsensusError (list Effect) :=
  self ← get;
  let round := p_round (sp_proposal proposal) in
  if negb (round_is_cacheable self round) then mret []
  else
  match proposals self !! round with
  | Some first =>
      if bool_decide (first = proposal) then mret []
      else mret [EvidenceEffect (DoubleProposal (p_proposer (sp_proposal proposal)) first proposal)]
  | None =>
      _ ← modify (fun c => set_proposals (<[round := proposal]> (proposals c)) c);
      if round =? con_round self then activate_current_round else mret []
  end.

Definition accept_vote (vote : SignedVote) : stE Consensus ConsensusError (list Effect) :=
  self ← get;
  let round := v_round (sv_vote vote) in
  if negb (round_is_cacheable self round) then mret []
  else
  let key := (round, v_kind (sv_vote vote)) in
  let by_validator := default ∅ (votes self !! key) in
  match by_validator !! v_validator (sv_vote vote) with
  | Some first =>
      if bool_decide (first = vote) then mret []
      else mret [EvidenceEffect (DoubleVote (v_validator (sv_vote vote)) first vote)]
  | None =>
      _ ← modify (fun c =>
            set_votes (<[key := <[v_validator (sv_vote vote) := vote]> by_validator]> (votes c)) c);
      evaluate_round round
  end.

Definition accept_validated_message (message : SignedMessage) : stE Consensus ConsensusError (list Effect) :=
  match message with
  | SignedMessageProposal proposal => accept_proposal proposal
  | SignedMessageVote vote => accept_vote vote
  end.

Definition receive_message (message : SignedMessage) : stE Consensus ConsensusError (list Effect) :=
  self ← get;
  _ ← lift (validate_message self message);
  accept_validated_message message.

Definition persisted (message : SignedMessage) : stE Consensus ConsensusError (list Effect) :=
  self ← get;
  let key := of_signable (signable message) in
  if bool_decide (pending_persistence self !! key <> Some (signable message))
  then throw UnexpectedPersistedMessage
  else
  _ ← lift (validate_message self message);
  _ ← modify (fun c => set_pending_persistence (delete key (pending_persistence c)) c);
  effects ← accept_validated_message message;
  mret (Broadcast message :: effects).

Definition handle_timeout (t : Timeout) : stE Consensus ConsensusError (list Effect) :=
  self ← get;
  if negb (to_height t =? con_height self) || negb (to_round t =? con_round self) ||
     bool_decide (to_phase t <> phase self) ||
     negb (to_after t =? timeout_for (config self) (phase self) (con_round self))
  then mret []
  else
  match phase self with
  | PhasePropose =>
      effects ← cast_vote_st Prevote Nil;
      effects' ← evaluate_round (con_round self);
      mret (effects ++ effects')
  | PhasePrevote =>
      effects ← cast_vote_st Precommit Nil;
      effects' ← evaluate_round (con_round self);
      mret (effects ++ effects')
  | PhasePrecommit =>
      next ← lift (ok_or (checked_add u32_max (con_round self) 1) (RoundLimitReached (con_round self)));
      enter_round next
  | PhaseFinalized => mret []
  end.

Definition step (event : Event) : stE Consensus ConsensusError (list Effect) :=
  self ← get;
  match event with
  | Start =>
      if started self then throw AlreadyStarted
      else
        _ ← modify set_started;
        enter_round (con_round self)
  | Certificate certificate =>
      _ ← lift (validate_certificate self certificate);
      finalize certificate
  | _ =>
      if negb (started self) then throw NotStarted
      else if bool_decide (is_Some (finalized self)) then mret []
      else
      match event with
      | ProposalReady height round block_id => proposal_ready height round block_id
      | Message message => receive_message message
      | Persisted message => persisted message
      | TimeoutEvent t => handle_timeout t
      | Start | Certificate _ => mret []
      end
  end.
End engine.
