(* ===== verification/EngineFacts.v ===== *)
(** * The safety invariant of one validator

    What one engine guarantees about the votes it asks to be signed, whatever
    it receives: [node_inv] is kept by every step ([step_inv]). The votes are
    collected in a history [log]; [Auth] says which votes of others can be
    trusted to have been signed, and is instantiated by the network in
    [Agreement]. *)

From Stdlib Require Import Lia.
From S2P Require Import Prelude Errors Crypto Transaction Block Commit ConsensusTypes Engine.

(** A local decision handed over for signing, with the safety state to store
    beside it. *)
Definition Decision : Type := SignableMessage * SafetyState.

(** The decisions in a list of effects, and the votes among decisions. *)
Definition requested (effects : list Effect) : list Decision :=
  omap (fun e => match e with PersistBeforeBroadcast m ss => Some (m, ss) | _ => None end) effects.

Definition result_requested (r : result ConsensusError (list Effect)) : list Decision :=
  match r with Ok effects => requested effects | Err _ => [] end.

Definition votes_of (log : list Decision) : list Vote :=
  omap (fun d => match d.1 with SignableVote v => Some v | _ => None end) log.

Lemma requested_app l1 l2 : requested (l1 ++ l2) = requested l1 ++ requested l2.
Proof. apply omap_app. Qed.

Lemma votes_of_app l1 l2 : votes_of (l1 ++ l2) = votes_of l1 ++ votes_of l2.
Proof. apply omap_app. Qed.

(** The signed votes an event carries. *)
Definition message_votes (m : SignedMessage) : list SignedVote :=
  match m with
  | SignedMessageProposal p => p_valid_round_proof (sp_proposal p)
  | SignedMessageVote v => [v]
  end.

Definition event_votes (e : Event) : list SignedVote :=
  match e with
  | Message m | Persisted m => message_votes m
  | Certificate c => c_precommits c
  | _ => []
  end.

(** ** Quorum counting *)

Lemma group_votes_lookup l (m : gmap VoteValue (list SignedVote)) v :
  foldl (fun m sv => <[v_value (sv_vote sv) := default [] (m !! v_value (sv_vote sv)) ++ [sv]]> m) m l !! v =
  if decide (filter (fun sv => v_value (sv_vote sv) = v) l = []) then m !! v
  else Some (default [] (m !! v) ++ filter (fun sv => v_value (sv_vote sv) = v) l).
Proof.
  revert m. induction l as [|sv l IH]; intros m; [done|]. simpl foldl. rewrite IH, filter_cons, lookup_insert.
  destruct (decide (v_value (sv_vote sv) = v)) as [Hv|Hv]; [|done]. rewrite Hv.
  destruct (decide (filter _ l = [])) as [Hn|Hn]; [by rewrite Hn|].
  destruct (decide (sv :: filter _ l = [])); [done|]. simpl. by rewrite <- app_assoc.
Qed.

Lemma group_votes_Some l v l' :
  group_votes l !! v = Some l' -> l' = filter (fun sv => v_value (sv_vote sv) = v) l.
Proof.
  unfold group_votes. rewrite group_votes_lookup, lookup_empty. simpl.
  destruct (decide _); naive_solver.
Qed.

(** What [quorum_votes] finds: the votes of one round and kind for one value,
    as many as a quorum. *)
Lemma quorum_votes_Some c r k value l :
  quorum_votes c r k = Some (value, l) ->
  exists m : gmap ValidatorId SignedVote, votes c !! (r, k) = Some m /\
    l = filter (fun sv => v_value (sv_vote sv) = value) (btree_values array_leb m) /\
    quorum (vset c) <= Z.of_nat (length l).
Proof.
  unfold quorum_votes. destruct (votes c !! (r, k)) as [m|] eqn:Hm; [|done]. simpl.
  intros [Hin Hq]%find_some. exists m. split; [done|].
  apply list_elem_of_In, elem_of_btree_entries, group_votes_Some in Hin as ->.
  split; [done|]. by apply Z.leb_le.
Qed.

Section node.
  Context `{MessageValidator}.
  Context (me : ValidatorId) (vs : ValidatorSet) (cfg : ConsensusConfig) (height : Z).
  Context (Auth : Vote -> Prop).

Definition the_vote (r : Z) (k : VoteKind) (v : ValidatorId) (value : VoteValue) : Vote :=
  mk_Vote (cfg_chain_id cfg) height r k v value.

(** A quorum of members signed this vote. *)
Definition vote_quorum (r : Z) (k : VoteKind) (value : VoteValue) : Prop :=
  exists q, NoDup q /\ q ⊆ validators vs /\ quorum vs <= Z.of_nat (length q) /\
    Forall (fun v => Auth (the_vote r k v value)) q.

Definition polka (r : Z) (b : BlockId) : Prop := vote_quorum r Prevote (BlockValue b).

(** Every signed vote of the event that passes the node's check is trusted. *)
Definition event_ok (e : Event) : Prop :=
  Forall (fun sv => mv_validate_vote sv = Ok () -> Auth (sv_vote sv)) (event_votes e).

Definition proposal_justified (r : Z) (p : Proposal) : Prop :=
  forall vr, p_valid_round p = Some vr -> vr < r /\ polka vr (p_block_id p).

(** A stored safety state accounts for the votes stored so far. *)
Record safety_covers (ws : list Vote) (ss : SafetyState) : Prop := {
  sc_height : ss_height ss = height;
  sc_round : 0 <= ss_round ss;
  sc_rounds w : w ∈ ws -> v_round w <= ss_round ss;
  sc_lock :
    match ss_locked_round ss, ss_locked_block ss with
    | None, None => True
    | Some lr, Some lb => 0 <= lr <= ss_round ss /\ polka lr lb
    | _, _ => False
    end;
  sc_locked r b : the_vote r Precommit me (BlockValue b) ∈ ws ->
    exists lr lb, ss_locked_round ss = Some lr /\ ss_locked_block ss = Some lb /\ r <= lr /\ (r = lr -> b = lb)
}.

Record node_inv (log : list Decision) (c : Consensus) : Prop := {
  ni_local : local_id c = me;
  ni_vset : vset c = vs;
  ni_config : config c = cfg;
  ni_height : con_height c = height;
  ni_round : 0 <= con_round c;
  ni_votes r k m v sv :
    votes c !! (r, k) = Some m -> m !! v = Some sv ->
    v ∈ validators vs /\ sv_vote sv = the_vote r k v (v_value (sv_vote sv)) /\ Auth (sv_vote sv);
  ni_proposals r p : proposals c !! r = Some p -> proposal_justified r (sp_proposal p);
  ni_lock :
    match locked_round c, locked_block c with
    | None, None => True
    | Some lr, Some lb => 0 <= lr <= con_round c /\ polka lr lb
    | _, _ => False
    end;
  ni_final f : finalized c = Some f -> vote_quorum (f_round f) Precommit (BlockValue (f_block_id f));
  ni_decisions r k : is_Some (local_decisions c !! VoteKey r k) ->
    r <= con_round c /\ (started c = false -> r < con_round c);
  ni_phase : phase c = PhasePropose \/ phase c = PhasePrevote ->
    local_decisions c !! VoteKey (con_round c) Precommit = None /\
    forall lr, locked_round c = Some lr -> lr < con_round c;
  ni_unstarted lr : started c = false -> locked_round c = Some lr -> lr < con_round c;
  ni_hist_vote w : w ∈ votes_of log -> w = the_vote (v_round w) (v_kind w) me (v_value w);
  ni_hist_round w : w ∈ votes_of log ->
    0 <= v_round w <= con_round c /\ (started c = false -> v_round w < con_round c);
  ni_hist_current w : w ∈ votes_of log -> v_round w = con_round c ->
    is_Some (local_decisions c !! VoteKey (con_round c) (v_kind w));
  ni_hist_unique w1 w2 : w1 ∈ votes_of log -> w2 ∈ votes_of log ->
    v_round w1 = v_round w2 -> v_kind w1 = v_kind w2 -> w1 = w2;
  ni_hist_polka r b : the_vote r Precommit me (BlockValue b) ∈ votes_of log -> polka r b;
  ni_hist_locked r b : the_vote r Precommit me (BlockValue b) ∈ votes_of log ->
    exists lr lb, locked_round c = Some lr /\ locked_block c = Some lb /\ r <= lr /\ (r = lr -> b = lb);
  ni_hist_rule r1 b r2 b' :
    the_vote r1 Precommit me (BlockValue b) ∈ votes_of log -> the_vote r2 Prevote me (BlockValue b') ∈ votes_of log ->
    r1 < r2 -> b <> b' -> exists vr, r1 < vr < r2 /\ polka vr b';
  ni_log l1 m ss l2 : log = l1 ++ (m, ss) :: l2 -> safety_covers (votes_of (l1 ++ [(m, ss)])) ss
}.

(** Forgetting the latest decisions. *)
Lemma node_inv_weaken log log' c : node_inv (log ++ log') c -> node_inv log c.
Proof.
  intros []. rewrite votes_of_app in *.
  assert (forall w, w ∈ votes_of log -> w ∈ votes_of log ++ votes_of log') as Hsub by set_solver.
  split; eauto. intros l1 m ss l2 ->. apply (ni_log0 l1 m ss (l2 ++ log')). by rewrite <- app_assoc.
Qed.

(** A piece of the engine that keeps the invariant, its votes added to the history. *)
Definition keeps_inv (m : stE Consensus ConsensusError (list Effect)) : Prop :=
  forall log c c' r, node_inv log c -> started c = true -> m c = (c', r) ->
    node_inv (log ++ result_requested r) c' /\ started c' = true.

Lemma keeps_inv_nil log c : node_inv log c -> node_inv (log ++ []) c.
Proof. by rewrite app_nil_r. Qed.

Lemma keeps_inv_mret_nil : keeps_inv (mret []).
Proof. intros log c c' r Hc Hs [= <- <-]. split; [by apply keeps_inv_nil|done]. Qed.

Definition keeps_at (log : list Decision) (c : Consensus) (m : stE Consensus ConsensusError (list Effect)) : Prop :=
  forall c' r, m c = (c', r) -> node_inv (log ++ result_requested r) c' /\ started c' = true.

Lemma keeps_at_app log c m1 m2 :
  keeps_at log c m1 -> keeps_inv m2 ->
  keeps_at log c (effects ← m1; effects' ← m2; mret (effects ++ effects')).
Proof.
  intros H1 H2 c' r Hrun. unfold mbind, stE_bind in Hrun.
  destruct (m1 c) as [c1 [l1|e1]] eqn:Hm1; destruct (H1 _ _ Hm1) as [Hc1 Hs1].
  2:{ simplify_eq. done. }
  destruct (m2 c1) as [c2 [l2|e2]] eqn:Hm2; destruct (H2 _ _ _ _ Hc1 Hs1 Hm2) as [Hc2 Hs2].
  - injection Hrun as <- <-. simpl. by rewrite requested_app, app_assoc.
  - simplify_eq. split; [|done]. simpl in *. rewrite app_nil_r in *. by eapply node_inv_weaken.
Qed.

Lemma keeps_inv_app m1 m2 :
  keeps_inv m1 -> keeps_inv m2 ->
  keeps_inv (effects ← m1; effects' ← m2; mret (effects ++ effects')).
Proof.
  intros H1 H2 log c c' r Hc Hs. apply keeps_at_app; [|done]. intros c1 r1. by apply H1.
Qed.

(** ** Casting a vote *)

Definition prevote_ok (c : Consensus) (b : BlockId) : Prop :=
  forall lr lb, locked_round c = Some lr -> locked_block c = Some lb ->
    lb = b \/ exists vr, lr < vr < con_round c /\ polka vr b.

(** The circumstances in which the engine casts: the state before, the vote,
    and the state handed to [cast_vote] (with the new lock for a block). *)
Inductive cast_ok (c : Consensus) : VoteKind -> VoteValue -> Consensus -> Prop :=
| cast_prevote value :
    phase c = PhasePropose -> (forall b, value = BlockValue b -> prevote_ok c b) ->
    cast_ok c Prevote value c
| cast_precommit_nil : phase c = PhasePrevote -> cast_ok c Precommit Nil c
| cast_precommit b :
    phase c = PhasePrevote -> polka (con_round c) b ->
    cast_ok c Precommit (BlockValue b) (set_locked (con_round c) b c).

Lemma cast_ok_frame c k value c1 :
  cast_ok c k value c1 ->
  local_id c1 = local_id c /\ vset c1 = vset c /\ config c1 = config c /\ con_height c1 = con_height c /\
  con_round c1 = con_round c /\ started c1 = started c /\ local_decisions c1 = local_decisions c /\
  votes c1 = votes c /\ proposals c1 = proposals c /\ finalized c1 = finalized c.
Proof. by intros []. Qed.

(** The state and history after an actual cast. *)
Definition after_cast (k : VoteKind) (w : Vote) (c : Consensus) : Consensus :=
  set_phase (match k with Prevote => PhasePrevote | Precommit => PhasePrecommit end)
    (set_pending_persistence (<[VoteKey (con_round c) k := SignableVote w]> (pending_persistence c))
      (set_local_decisions (<[VoteKey (con_round c) k := SignableVote w]> (local_decisions c)) c)).

Lemma cast_vote_cases k value c c' effects :
  cast_vote k value c = (c', effects) ->
  let w := mk_Vote (cfg_chain_id (config c)) (con_height c) (con_round c) k (local_id c) value in
  (is_Some (local_decisions c !! VoteKey (con_round c) k) /\ c' = c /\ effects = []) \/
  (local_decisions c !! VoteKey (con_round c) k = None /\ c' = after_cast k w c /\
   requested effects = [(SignableVote w, safety_state c)]).
Proof.
  unfold cast_vote. case_bool_decide as Hd; intros [= <- <-]; [by left|].
  right. split_and!; [by apply eq_None_not_Some|done|done].
Qed.

(** The lock after the cast covers every precommit of the history. *)
Lemma cast_locked log c k value c1 r b :
  node_inv log c -> cast_ok c k value c1 ->
  the_vote r Precommit me (BlockValue b) ∈ votes_of log ++ [the_vote (con_round c) k me value] ->
  exists lr lb, locked_round c1 = Some lr /\ locked_block c1 = Some lb /\ r <= lr /\ (r = lr -> b = lb).
Proof.
  intros Hc Hcast [Hold|Hnew%list_elem_of_singleton]%elem_of_app.
  - destruct (ni_hist_locked _ _ Hc _ _ Hold) as (lr & lb & Hlr & Hlb & Hle & Heq).
    destruct Hcast as [value Hp _|Hp|b' Hp _]; [by eauto 10..|].
    destruct (ni_phase _ _ Hc (or_intror Hp)) as [_ Hlt]. specialize (Hlt _ Hlr).
    exists (con_round c), b'. simpl. split_and!; [done|done|lia|lia].
  - injection Hnew as -> <- <-. inversion Hcast; subst. simpl. eauto 10 with lia.
Qed.

(** A new block prevote obeys the lock rule against the old precommits. *)
Lemma cast_rule log c k value c1 r1 b r2 b' :
  node_inv log c -> cast_ok c k value c1 ->
  the_vote r1 Precommit me (BlockValue b) ∈ votes_of log ++ [the_vote (con_round c) k me value] ->
  the_vote r2 Prevote me (BlockValue b') ∈ votes_of log ++ [the_vote (con_round c) k me value] ->
  r1 < r2 -> b <> b' -> exists vr, r1 < vr < r2 /\ polka vr b'.
Proof.
  intros Hc Hcast [H1|H1%list_elem_of_singleton]%elem_of_app [H2|H2%list_elem_of_singleton]%elem_of_app Hlt Hne.
  - by eapply ni_hist_rule.
  - injection H2 as -> <- <-. inversion Hcast as [value Hp Hok| |]; subst.
    destruct (ni_hist_locked _ _ Hc _ _ H1) as (lr & lb & Hlr & Hlb & Hle & Heq).
    destruct (Hok _ eq_refl lr lb Hlr Hlb) as [->|(vr & ? & ?)]; [|exists vr; split; [lia|done]].
    pose proof (ni_lock _ _ Hc) as Hlock. rewrite Hlr, Hlb in Hlock. destruct Hlock as [_ Hpolka].
    destruct (ni_phase _ _ Hc (or_introl Hp)) as [_ Hlt']. specialize (Hlt' _ Hlr).
    exists lr. split; [|done]. assert (r1 <> lr) by naive_solver. lia.
  - injection H1 as -> <- <-. apply (ni_hist_round _ _ Hc) in H2 as [H2 _]. simpl in H2. lia.
  - injection H1 as -> <- <-. by injection H2.
Qed.

Lemma cast_lock log c k value c1 :
  node_inv log c -> cast_ok c k value c1 ->
  match locked_round c1, locked_block c1 with
  | None, None => True
  | Some lr, Some lb => 0 <= lr <= con_round c /\ polka lr lb
  | _, _ => False
  end.
Proof.
  intros Hc [value' Hp _|Hp|b Hp Hpolka]; [apply Hc..|]. simpl.
  pose proof (ni_round _ _ Hc). split; [lia|done].
Qed.

(** A prevote leaves the validator unlocked in its round. *)
Lemma cast_phase log c k value c1 w :
  node_inv log c -> cast_ok c k value c1 ->
  phase (after_cast k w c1) = PhasePropose \/ phase (after_cast k w c1) = PhasePrevote ->
  k = Prevote /\ local_decisions c !! VoteKey (con_round c) Precommit = None /\
  forall lr, locked_round c1 = Some lr -> lr < con_round c.
Proof.
  intros Hc [value' Hp _|Hp|b Hp Hpolka]; simpl; intros [|]; try done.
  split; [done|]. apply (ni_phase _ _ Hc). by left.
Qed.

(** The history facts that mention only rounds and kinds. *)
Lemma cast_hist log c k value w1 w2 :
  node_inv log c -> started c = true -> local_decisions c !! VoteKey (con_round c) k = None ->
  w1 ∈ votes_of log ++ [the_vote (con_round c) k me value] -> w2 ∈ votes_of log ++ [the_vote (con_round c) k me value] ->
  v_round w1 = v_round w2 -> v_kind w1 = v_kind w2 -> w1 = w2.
Proof.
  intros Hc Hs Hnone.
  assert (forall w, w ∈ votes_of log -> v_round w = con_round c -> v_kind w = k -> False) as Hnew.
  { intros w Hw Hr Hk. pose proof (ni_hist_current _ _ Hc w Hw Hr) as Hdec.
    rewrite Hk, Hnone in Hdec. by destruct Hdec. }
  intros [H1|H1%list_elem_of_singleton]%elem_of_app [H2|H2%list_elem_of_singleton]%elem_of_app Hr Hk; subst.
  - by eapply ni_hist_unique.
  - exfalso. by apply (Hnew w1).
  - exfalso. by apply (Hnew w2).
  - done.
Qed.

(** Appending a decision to the log. *)
Lemma log_snoc log d l1 m ss l2 :
  (forall l1 m ss l2, log = l1 ++ (m, ss) :: l2 -> safety_covers (votes_of (l1 ++ [(m, ss)])) ss) ->
  safety_covers (votes_of (log ++ [d])) d.2 ->
  log ++ [d] = l1 ++ (m, ss) :: l2 -> safety_covers (votes_of (l1 ++ [(m, ss)])) ss.
Proof.
  intros Hold Hnew. destruct l2 as [|x l2 _] using rev_ind.
  - intros [-> ->]%app_inj_tail. done.
  - rewrite app_comm_cons, app_assoc. intros [Heq _]%app_inj_tail. by eapply Hold.
Qed.

Lemma cast_covers log c k value c1 :
  node_inv log c -> cast_ok c k value c1 ->
  safety_covers (votes_of log ++ [the_vote (con_round c) k me value]) (safety_state c1).
Proof.
  intros Hc Hcast. pose proof (ni_round _ _ Hc).
  destruct (cast_ok_frame _ _ _ _ Hcast) as (_ & _ & _ & Hh & Hr & _).
  split; cbn -[the_vote]; rewrite ?Hh, ?Hr.
  - apply Hc.
  - done.
  - intros w [Hw| ->%list_elem_of_singleton]%elem_of_app; [by apply (ni_hist_round _ _ Hc)|simpl; lia].
  - by eapply cast_lock.
  - intros r b. by eapply cast_locked.
Qed.

Lemma node_covers log c : node_inv log c -> safety_covers (votes_of log) (safety_state c).
Proof.
  intros []. split; simpl; try done. intros w Hw. by apply ni_hist_round0.
Qed.

Lemma cast_vote_inv log c k value c1 c' effects :
  node_inv log c -> started c = true -> cast_ok c k value c1 ->
  cast_vote k value c1 = (c', effects) ->
  node_inv (log ++ requested effects) c' /\ started c' = true.
Proof.
  intros Hc Hs Hcast Hrun.
  destruct (cast_ok_frame _ _ _ _ Hcast) as (Hf1 & Hf2 & Hf3 & Hf4 & Hf5 & Hf6 & Hf7 & Hf8 & Hf9 & Hf10).
  apply cast_vote_cases in Hrun as [(Hdec & -> & ->)|(Hdec & -> & ->)]; rewrite ?Hf1, ?Hf3, ?Hf4, ?Hf5, ?Hf7 in *.
  { destruct Hcast as [value Hp _|Hp|b Hp _]; [split; [by apply keeps_inv_nil|done]|..];
      destruct (ni_phase _ _ Hc (or_intror Hp)) as [Hnone _]; rewrite Hnone in Hdec; by destruct Hdec. }
  assert (mk_Vote (cfg_chain_id (config c)) (con_height c) (con_round c) k (local_id c) value =
    the_vote (con_round c) k me value) as ->.
  { unfold the_vote. by rewrite (ni_local _ _ Hc), (ni_config _ _ Hc), (ni_height _ _ Hc). }
  pose proof (ni_round _ _ Hc) as Hround.
  pose proof (cast_phase _ _ _ _ _ (the_vote (con_round c) k me value) Hc Hcast) as Hphase.
  split; [|simpl; congruence]. pose proof Hc as Hc'. destruct Hc'.
  pose proof (cast_covers _ _ _ _ _ Hc Hcast) as Hcov.
  split; rewrite ?votes_of_app; cbn -[the_vote]; rewrite ?Hf1, ?Hf2, ?Hf3, ?Hf4, ?Hf5, ?Hf6, ?Hf7, ?Hf8, ?Hf9, ?Hf10; try done.
  - by eapply cast_lock.
  - intros r k'. destruct (decide (VoteKey r k' = VoteKey (con_round c) k)) as [[= -> ->]|Hne].
    + intros _. split; [lia|congruence].
    + rewrite lookup_insert_ne by done. apply ni_decisions0.
  - intros Hp. destruct (Hphase Hp) as (-> & Hnone & Hlt). by rewrite lookup_insert_ne.
  - congruence.
  - intros w [Hw| ->%list_elem_of_singleton]%elem_of_app; [by apply ni_hist_vote0|done].
  - intros w [Hw| ->%list_elem_of_singleton]%elem_of_app; [by apply ni_hist_round0|].
    simpl. split; [lia|congruence].
  - intros w [Hw| ->%list_elem_of_singleton]%elem_of_app Hr.
    + rewrite lookup_insert_is_Some'. right. by apply ni_hist_current0.
    + simpl. by rewrite lookup_insert_eq.
  - intros w1 w2. by eapply cast_hist.
  - intros r b [Hw|Hw%list_elem_of_singleton]%elem_of_app; [by eapply ni_hist_polka0|].
    injection Hw as -> <- <-. by inversion Hcast.
  - intros r b. by eapply cast_locked.
  - intros r1 b r2 b'. by eapply cast_rule.
  - intros l1 m ss l2. apply log_snoc; [done|]. by rewrite votes_of_app.
Qed.

(** ** Counted votes are a quorum of signatures *)

Lemma quorum_votes_vote_quorum log c r k value l :
  node_inv log c -> quorum_votes c r k = Some (value, l) -> vote_quorum r k value.
Proof.
  intros Hc (m & Hm & Hl & Hq)%quorum_votes_Some.
  assert (forall v sv, m !! v = Some sv ->
    v ∈ validators vs /\ sv_vote sv = the_vote r k v (v_value (sv_vote sv)) /\ Auth (sv_vote sv)) as Hmem
    by (intros v sv Hv; by eapply ni_votes).
  exists ((v_validator ∘ sv_vote) <$> l). split_and!.
  - rewrite Hl. apply NoDup_fmap_filter, NoDup_btree_values_keys.
    intros v sv Hv. destruct (Hmem v sv Hv) as (_ & Heq & _). simpl. by rewrite Heq.
  - intros v (sv & -> & Hsv)%list_elem_of_fmap. rewrite Hl in Hsv.
    apply list_elem_of_filter in Hsv as [_ [v Hv]%elem_of_btree_values].
    destruct (Hmem v sv Hv) as (Hin & Heq & _). simpl. by rewrite Heq.
  - rewrite length_fmap. by rewrite (ni_vset _ _ Hc) in Hq.
  - apply Forall_fmap, Forall_forall. intros sv Hsv. rewrite Hl in Hsv.
    apply list_elem_of_filter in Hsv as [Hval [v Hv]%elem_of_btree_values].
    destruct (Hmem v sv Hv) as (_ & Heq & Hauth). rewrite Hval in Heq. simpl. rewrite Heq. simpl.
    by rewrite Heq in Hauth.
Qed.

(** ** Writes that do not concern the votes cast *)

Lemma set_valid_inv log c r b proof : node_inv log c -> node_inv log (set_valid r b proof c).
Proof. by intros []. Qed.

Lemma set_requested_inv log c x : node_inv log c -> node_inv log (set_requested_proposals x c).
Proof. by intros []. Qed.

Lemma set_pending_inv log c x : node_inv log c -> node_inv log (set_pending_persistence x c).
Proof. by intros []. Qed.

Lemma set_proposals_inv log c r p :
  node_inv log c -> proposal_justified r (sp_proposal p) ->
  node_inv log (set_proposals (<[r := p]> (proposals c)) c).
Proof.
  intros [] Hp. split; try done. simpl. intros r' p' [[<- <-]|[_ Hr']]%lookup_insert_Some; [done|].
  by eapply ni_proposals0.
Qed.

Lemma set_votes_inv log c sv m :
  let w := sv_vote sv in
  node_inv log c -> default ∅ (votes c !! (v_round w, v_kind w)) = m ->
  v_validator w ∈ validators vs -> w = the_vote (v_round w) (v_kind w) (v_validator w) (v_value w) -> Auth w ->
  node_inv log (set_votes (<[(v_round w, v_kind w) := <[v_validator w := sv]> m]> (votes c)) c).
Proof.
  intros w [] Hm Hin Hw Hauth. split; try done. simpl.
  intros r k m' v sv' [[[= <- <-] <-]|[_ Hm']]%lookup_insert_Some; [|by eapply ni_votes0].
  intros [[<- <-]|[_ Hv]]%lookup_insert_Some; [done|]. subst m.
  destruct (votes c !! _) as [m|] eqn:Hm; [|done]. by eapply ni_votes0.
Qed.

Lemma set_finalized_inv log c f :
  node_inv log c -> vote_quorum (f_round f) Precommit (BlockValue (f_block_id f)) ->
  node_inv log (set_finalized f c).
Proof.
  intros [] Hq. split; try done; simpl.
  - by intros f' [= <-].
  - by intros [|].
Qed.

(** ** The engine's methods keep the invariant *)

Lemma cast_vote_st_inv log c k value c1 c' r :
  node_inv log c -> started c = true -> cast_ok c k value c1 ->
  cast_vote_st k value c1 = (c', r) -> node_inv (log ++ result_requested r) c' /\ started c' = true.
Proof.
  intros Hc Hs Hcast. unfold cast_vote_st. destruct (cast_vote k value c1) as [c2 effects] eqn:Hv.
  intros [= <- <-]. by eapply cast_vote_inv.
Qed.

Lemma unchanged_inv log c c' r :
  node_inv log c -> started c = true -> c' = c -> result_requested r = [] ->
  node_inv (log ++ result_requested r) c' /\ started c' = true.
Proof. intros Hc Hs -> ->. split; [by apply keeps_inv_nil|done]. Qed.

Lemma evaluate_prevotes_inv round : keeps_inv (evaluate_prevotes round).
Proof.
  intros log c c' r Hc Hs Hrun. unfold evaluate_prevotes in Hrun. run_get Hrun.
  destruct (quorum_votes c round Prevote) as [[[|b] proof]|] eqn:Hq.
  - destruct (Z.eqb_spec round (con_round c)) as [->|]; cbn [andb] in Hrun;
      [case_bool_decide as Hp|]; [|simplify_eq; by eapply unchanged_inv..].
    eapply (cast_vote_st_inv log c Precommit Nil c); [done..| |exact Hrun]. by constructor.
  - set (has_proposal := match proposals c !! round with Some _ => _ | None => _ end) in Hrun.
    assert (polka round b) as Hpolka by by eapply quorum_votes_vote_quorum.
    set (newer := match valid_round c with Some known => known <? round | None => true end) in Hrun.
    set (c1 := if has_proposal && (round <=? con_round c) && newer then set_valid round b proof c else c).
    assert (node_inv log c1 /\ started c1 = true /\ phase c1 = phase c /\ con_round c1 = con_round c)
      as (Hc1 & Hs1 & Hp1 & Hr1).
    { subst c1. destruct (has_proposal && (round <=? con_round c) && newer); [|done]. split_and!; [by apply set_valid_inv|done..]. }
    assert ((if has_proposal && (round =? con_round c) && bool_decide (phase c = PhasePrevote)
             then cast_vote_st Precommit (BlockValue b) (set_locked round b c1) else (c1, Ok [])) = (c', r)) as Hrun'.
    { rewrite <- Hrun. subst c1. destruct (has_proposal && (round <=? con_round c) && newer); by destruct (_ && _). }
    clear Hrun. destruct has_proposal; cbn [andb] in Hrun'; [|simplify_eq; by eapply unchanged_inv].
    destruct (Z.eqb_spec round (con_round c)) as [->|]; cbn [andb] in Hrun'; [|simplify_eq; by eapply unchanged_inv].
    case_bool_decide as Hp; [|simplify_eq; by eapply unchanged_inv].
    eapply (cast_vote_st_inv log c1); [done..| |exact Hrun']. rewrite <- Hr1.
    constructor; [congruence|by rewrite Hr1].
  - simplify_eq. by eapply unchanged_inv.
Qed.

Lemma finalize_inv certificate :
  vote_quorum (c_round certificate) Precommit (BlockValue (c_block_id certificate)) ->
  keeps_inv (finalize certificate).
Proof.
  intros Hq log c c' r Hc Hs Hrun. unfold finalize in Hrun. run_get Hrun.
  destruct (finalized c) as [f|].
  - case_bool_decide; simplify_eq; by eapply unchanged_inv.
  - simplify_eq. split; [|done]. by apply keeps_inv_nil, set_finalized_inv.
Qed.

Lemma evaluate_precommits_inv round : keeps_inv (evaluate_precommits round).
Proof.
  intros log c c' r Hc Hs Hrun. unfold evaluate_precommits in Hrun. run_get Hrun.
  destruct (quorum_votes c round Precommit) as [[[|b] l]|] eqn:Hq;
    [simplify_eq; by eapply unchanged_inv| |simplify_eq; by eapply unchanged_inv].
  destruct (map_err _ _) as [[]|e]; [|simplify_eq; by eapply unchanged_inv].
  eapply finalize_inv; [|done..]. by eapply quorum_votes_vote_quorum.
Qed.

Lemma evaluate_round_inv round : keeps_inv (evaluate_round round).
Proof. apply keeps_inv_app; [apply evaluate_prevotes_inv|apply evaluate_precommits_inv]. Qed.

(** [prevote_for] obeys the lock on a justified proposal of the current round. *)
Lemma prevote_for_ok log c p b :
  node_inv log c -> proposal_justified (con_round c) p -> prevote_for c p = BlockValue b -> prevote_ok c b.
Proof.
  intros Hc Hjust Hv lr lb Hlr Hlb. unfold prevote_for in Hv. rewrite Hlr, Hlb in Hv.
  case_bool_decide as Heq; [left; congruence|]. right.
  destruct (p_valid_round p) as [vr|] eqn:Hvr; [|done].
  destruct (Z.ltb_spec lr vr); [|done]. injection Hv as <-.
  destruct (Hjust vr Hvr) as [??]. exists vr. split; [lia|done].
Qed.

Lemma activate_current_round_inv : keeps_inv activate_current_round.
Proof.
  intros log c c' r Hc Hs Hrun.
  set (cast := fun c : Consensus => (if bool_decide (phase c = PhasePropose) then
       match proposals c !! con_round c with
       | Some p => cast_vote_st Prevote (prevote_for c (sp_proposal p))
       | None => mret []
       end else mret []) c).
  assert (keeps_inv cast) as Hcast.
  { clear. intros log c c' r Hc Hs Hrun. unfold cast in Hrun.
    case_bool_decide as Hp; [|run_get Hrun; simplify_eq; by eapply unchanged_inv].
    destruct (proposals c !! con_round c) as [p|] eqn:Hprop; [|run_get Hrun; simplify_eq; by eapply unchanged_inv].
    eapply (cast_vote_st_inv log c); [done..| |exact Hrun]. constructor; [done|].
    intros b Hb. eapply prevote_for_ok; [done| |done]. by eapply ni_proposals. }
  eapply (keeps_inv_app cast (fun c => evaluate_round (con_round c) c)); [done| |done|done|exact Hrun].
  intros hist1 c1 c1' r1 Hc1 Hs1. by apply evaluate_round_inv.
Qed.

(** ** What validation establishes *)

Lemma validate_context_Ok c chain h :
  validate_context c chain h = Ok () <-> chain = cfg_chain_id (config c) /\ h = con_height c.
Proof.
  unfold validate_context. destruct (decide (chain = cfg_chain_id (config c))) as [->|Hne].
  - rewrite bool_decide_eq_false_2 by tauto. destruct (Z.eqb_spec h (con_height c)); naive_solver.
  - rewrite bool_decide_eq_true_2 by done. naive_solver.
Qed.

Lemma validate_vote_structure_Ok c sv :
  validate_vote_structure c sv = Ok () <->
  v_chain_id (sv_vote sv) = cfg_chain_id (config c) /\ v_height (sv_vote sv) = con_height c /\
  v_validator (sv_vote sv) ∈ validators (vset c) /\
  v_round (sv_vote sv) < max_rounds_per_height (config c).
Proof.
  unfold validate_vote_structure, vs_contains. split.
  - intros ([] & [Hc Hh]%validate_context_Ok & Hrun)%result_bind_Ok_inv.
    case_bool_decide as Hv; [|done]. simpl in Hrun.
    destruct (Z.leb_spec (max_rounds_per_height (config c)) (v_round (sv_vote sv))); done.
  - intros (Hc & Hh & Hv & Hr). rewrite (proj2 (validate_context_Ok c _ _)) by done.
    cbn [mbind result_bind]. rewrite bool_decide_eq_true_2 by done. cbn [negb].
    by rewrite (proj2 (Z.leb_gt _ _)).
Qed.

Lemma check_votes_Ok c bad round kind value signers l :
  check_votes c bad round kind value signers l = Ok () ->
  NoDup (v_validator ∘ sv_vote <$> l) /\
  Forall (fun sv => v_validator (sv_vote sv) ∉ signers /\ v_validator (sv_vote sv) ∈ validators (vset c) /\
    sv_vote sv = mk_Vote (cfg_chain_id (config c)) (con_height c) round kind (v_validator (sv_vote sv)) value /\
    mv_validate_vote sv = Ok ()) l.
Proof.
  revert signers. induction l as [|sv l IH]; intros signers; [by repeat constructor|]. simpl.
  destruct (_ <? _); [done|].
  intros ([] & (Hc & Hh & Hv & _)%validate_vote_structure_Ok & Hrun)%result_bind_Ok_inv.
  destruct (negb _ || _ || _ || _) eqn:Hbad; [done|].
  rewrite !orb_false_iff, negb_false_iff, Z.eqb_eq, !bool_decide_eq_false in Hbad.
  destruct Hbad as [[[Hr Hk%dec_stable] Hval%dec_stable] Hs].
  apply result_bind_Ok_inv in Hrun as ([] & Hmv%map_err_Ok_inv & Hrun).
  destruct (IH _ Hrun) as [Hnd Hall]. split.
  - constructor; [|done]. intros (sv' & Heq & Hsv')%list_elem_of_fmap. simpl in Heq.
    rewrite Forall_forall in Hall. destruct (Hall sv' Hsv') as [Hn _]. set_solver.
  - constructor.
    + split_and!; [done..| |done]. destruct (sv_vote sv); simpl in *; congruence.
    + eapply Forall_impl; [exact Hall|]. set_solver.
Qed.

Lemma check_votes_quorum log c bad round kind value l :
  node_inv log c -> Forall (fun sv => mv_validate_vote sv = Ok () -> Auth (sv_vote sv)) l ->
  quorum vs <= Z.of_nat (length l) ->
  check_votes c bad round kind value ∅ l = Ok () -> vote_quorum round kind value.
Proof.
  intros Hc Hauth Hq [Hnd Hall]%check_votes_Ok. exists (v_validator ∘ sv_vote <$> l).
  rewrite Forall_forall in Hall, Hauth. split_and!.
  - done.
  - intros v (sv & -> & Hsv)%list_elem_of_fmap. simpl. rewrite <- (ni_vset _ _ Hc). by apply Hall.
  - by rewrite length_fmap.
  - apply Forall_fmap, Forall_forall. intros sv Hsv. simpl.
    destruct (Hall sv Hsv) as (_ & _ & Heq & Hmv). specialize (Hauth sv Hsv Hmv).
    unfold the_vote. by rewrite <- (ni_config _ _ Hc), <- (ni_height _ _ Hc), <- Heq.
Qed.

Definition message_ok (m : SignedMessage) : Prop :=
  Forall (fun sv => mv_validate_vote sv = Ok () -> Auth (sv_vote sv)) (message_votes m).

Lemma validate_proposal_justified log c p :
  node_inv log c -> message_ok (SignedMessageProposal p) ->
  validate_message c (SignedMessageProposal p) = Ok () ->
  proposal_justified (p_round (sp_proposal p)) (sp_proposal p).
Proof.
  intros Hc Hok Hval vr Hvr. unfold validate_message in Hval. destruct (_ <? _); [done|].
  apply result_bind_Ok_inv in Hval as ([] & Hval & _). unfold validate_proposal_structure in Hval.
  apply result_bind_Ok_inv in Hval as ([] & _ & Hval).
  destruct (negb _); [done|]. case_bool_decide; [done|]. destruct (_ <=? _); [done|].
  rewrite Hvr in Hval. destruct (Z.ltb_spec vr (p_round (sp_proposal p))); [|done].
  destruct (_ || _) eqn:Hlen; [done|]. apply orb_false_iff in Hlen as [Hlen%Z.ltb_ge _].
  rewrite (ni_vset _ _ Hc) in Hlen. split; [done|]. by eapply check_votes_quorum.
Qed.

Lemma validate_vote_the_vote log c sv :
  node_inv log c -> message_ok (SignedMessageVote sv) ->
  validate_message c (SignedMessageVote sv) = Ok () ->
  let w := sv_vote sv in
  v_validator w ∈ validators vs /\ w = the_vote (v_round w) (v_kind w) (v_validator w) (v_value w) /\ Auth w.
Proof.
  intros Hc Hok Hval. unfold validate_message in Hval. destruct (_ <? _); [done|].
  apply result_bind_Ok_inv in Hval as ([] & (Hch & Hh & Hin & _)%validate_vote_structure_Ok & Hmv%map_err_Ok_inv).
  unfold message_ok in Hok. cbn [message_votes] in Hok. rewrite Forall_singleton in Hok.
  rewrite (ni_vset _ _ Hc) in Hin. rewrite (ni_config _ _ Hc) in Hch. rewrite (ni_height _ _ Hc) in Hh.
  cbv zeta. split_and!; [done| |by apply Hok]. unfold the_vote. destruct (sv_vote sv); simpl in *; congruence.
Qed.

(** ** Receiving messages *)

Lemma accept_proposal_inv p :
  proposal_justified (p_round (sp_proposal p)) (sp_proposal p) -> keeps_inv (accept_proposal p).
Proof.
  intros Hj log c c' r Hc Hs Hrun. unfold accept_proposal in Hrun. run_get Hrun.
  destruct (negb _); [simplify_eq; by eapply unchanged_inv|].
  destruct (proposals c !! _); [case_bool_decide; simplify_eq; by eapply unchanged_inv|].
  assert (node_inv log (set_proposals (<[p_round (sp_proposal p) := p]> (proposals c)) c)) as Hc1
    by by apply set_proposals_inv.
  destruct (_ =? _).
  - by eapply activate_current_round_inv.
  - simplify_eq. by eapply (unchanged_inv _ (set_proposals _ c)).
Qed.

Lemma accept_vote_inv sv :
  let w := sv_vote sv in
  v_validator w ∈ validators vs -> w = the_vote (v_round w) (v_kind w) (v_validator w) (v_value w) -> Auth w ->
  keeps_inv (accept_vote sv).
Proof.
  intros w Hin Hw Hauth log c c' r Hc Hs Hrun. unfold accept_vote in Hrun. fold w in Hrun. run_get Hrun.
  destruct (negb _); [simplify_eq; by eapply unchanged_inv|].
  destruct (default ∅ _ !! _); [case_bool_decide; simplify_eq; by eapply unchanged_inv|].
  eapply evaluate_round_inv; [| |exact Hrun]; [by apply set_votes_inv|done].
Qed.

Lemma accept_validated_message_inv hist0 c0 m :
  node_inv hist0 c0 -> message_ok m -> validate_message c0 m = Ok () ->
  keeps_inv (accept_validated_message m).
Proof.
  intros Hc Hok Hval. destruct m as [p|sv]; simpl.
  - apply accept_proposal_inv. by eapply validate_proposal_justified.
  - destruct (validate_vote_the_vote _ _ _ Hc Hok Hval) as (? & ? & ?). by apply accept_vote_inv.
Qed.

Lemma receive_message_inv m : message_ok m -> keeps_inv (receive_message m).
Proof.
  intros Hok log c c' r Hc Hs Hrun. unfold receive_message in Hrun. run_get Hrun.
  destruct (validate_message c m) as [[]|e] eqn:Hval; [|simplify_eq; by eapply unchanged_inv].
  by eapply (accept_validated_message_inv log c m).
Qed.

Lemma persisted_inv m : message_ok m -> keeps_inv (persisted m).
Proof.
  intros Hok log c c' r Hc Hs Hrun. unfold persisted in Hrun. run_get Hrun.
  case_bool_decide; [simplify_eq; by eapply unchanged_inv|].
  destruct (validate_message c m) as [[]|e] eqn:Hval; [|simplify_eq; by eapply unchanged_inv].
  destruct (accept_validated_message m _) as [c1 [effects|e]] eqn:Hacc; simplify_eq;
    apply (accept_validated_message_inv log c m Hc Hok Hval log) in Hacc; try done;
    by apply set_pending_inv.
Qed.

(** ** The local proposer *)

Lemma insert_decision_inv log c key m :
  node_inv log c -> (forall r k, key <> VoteKey r k) ->
  node_inv log (set_local_decisions (<[key := m]> (local_decisions c)) c).
Proof.
  intros [] Hkey. split; try done; simpl; intros; rewrite lookup_insert_ne in * by done; eauto.
Qed.

(** A proposal joins the log without adding a vote. *)
Lemma log_proposal_inv log c p :
  node_inv log c -> node_inv (log ++ [(SignableProposal p, safety_state c)]) c.
Proof.
  intros Hc. pose proof (node_covers log c Hc) as Hcov. destruct Hc.
  assert (votes_of (log ++ [(SignableProposal p, safety_state c)]) = votes_of log) as Heq
    by (rewrite votes_of_app; apply app_nil_r).
  split; rewrite ?Heq; try done. intros l1 m ss l2. apply log_snoc; [done|].
  exact (eq_ind_r (fun ws => safety_covers ws (safety_state c)) Hcov Heq).
Qed.

Lemma request_persistence_inv p : keeps_inv (request_persistence (SignableProposal p)).
Proof.
  intros log c c' r Hc Hs Hrun. unfold request_persistence in Hrun. run_get Hrun.
  destruct (local_decisions c !! _); [case_bool_decide; simplify_eq; by eapply unchanged_inv|].
  injection Hrun as <- <-. split; [|done]. apply log_proposal_inv.
  by apply (set_pending_inv log (set_local_decisions _ c)), insert_decision_inv.
Qed.

Lemma proposal_ready_inv h round b : keeps_inv (proposal_ready h round b).
Proof.
  intros log c c' r Hc Hs Hrun. unfold proposal_ready in Hrun. run_get Hrun.
  destruct (negb _); [simplify_eq; by eapply unchanged_inv|].
  case_bool_decide; [simplify_eq; by eapply unchanged_inv|].
  eapply request_persistence_inv; [| |exact Hrun]; [by apply set_requested_inv|done].
Qed.

(** ** Entering a round *)

Lemma round_is_cacheable_self c :
  0 <= con_round c <= u32_max -> 0 <= max_round_ahead (config c) -> round_is_cacheable c (con_round c) = true.
Proof.
  intros [Hr Hr'] Ha. unfold round_is_cacheable, window_min, window_max, saturating_sub, saturating_add.
  assert (0 <= retained_before c) as Hret by (unfold retained_before, wrap; apply Z.mod_pos_bound; done).
  apply andb_true_iff. rewrite !Z.leb_le. lia.
Qed.

(** Pruning after moving to a later round forgets only other rounds' data. *)
Lemma enter_state_inv log c round :
  node_inv log c -> started c = true -> con_round c <= round ->
  (forall r k, is_Some (local_decisions c !! VoteKey r k) -> r < round) ->
  (forall w, w ∈ votes_of log -> v_round w < round) ->
  (forall lr, locked_round c = Some lr -> lr < round) ->
  node_inv log (prune_caches (set_round_phase round PhasePropose c)).
Proof.
  intros [] Hs Hle Hdec Hhist Hlock. unfold prune_caches. split; simpl; try done.
  - lia.
  - intros r k m v sv [Hm _]%map_lookup_filter_Some. by eapply ni_votes0.
  - intros r p [Hp _]%map_lookup_filter_Some. by eapply ni_proposals0.
  - destruct (locked_round c), (locked_block c); try done. destruct ni_lock0. split; [lia|done].
  - intros r k [m [Hm _]%map_lookup_filter_Some]. assert (r < round) by by eapply Hdec. split; [lia|congruence].
  - intros _. split; [|done]. apply map_lookup_filter_None. left. apply eq_None_not_Some.
    intros Hd%Hdec. lia.
  - congruence.
  - intros w Hw. pose proof (Hhist w Hw). destruct (ni_hist_round0 w Hw). split; [lia|congruence].
  - intros w Hw Hr. pose proof (Hhist w Hw). lia.
Qed.

(** [enter_round], given what makes its target round new. *)
Lemma enter_round_inv log c round c' r :
  node_inv log c -> started c = true -> con_round c <= round ->
  (forall r k, is_Some (local_decisions c !! VoteKey r k) -> r < round) ->
  (forall w, w ∈ votes_of log -> v_round w < round) ->
  (forall lr, locked_round c = Some lr -> lr < round) ->
  enter_round round c = (c', r) -> node_inv (log ++ result_requested r) c' /\ started c' = true.
Proof.
  intros Hc Hs Hle Hdec Hhist Hlock Hrun. unfold enter_round in Hrun.
  rewrite (bind_run_Ok get _ c c c eq_refl) in Hrun. cbn beta in Hrun.
  destruct (_ <=? _); [unfold throw in Hrun; simplify_eq; by eapply unchanged_inv|].
  rewrite (bind_run_Ok (modify _) _ c (set_round_phase round PhasePropose c) () eq_refl) in Hrun.
  pose proof (enter_state_inv log c round Hc Hs Hle Hdec Hhist Hlock) as Hc1.
  set (c0 := set_round_phase round PhasePropose c) in Hrun, Hc1.
  assert (started (prune_caches c0) = true) as Hs1 by exact Hs.
  rewrite (bind_run_Ok (modify _) _ c0 (prune_caches c0) () eq_refl) in Hrun.
  set (c1 := prune_caches c0) in *. clearbody c1. clear c0.
  rewrite (bind_run_Ok get _ c1 c1 c1 eq_refl) in Hrun. cbn beta zeta in Hrun.
  destruct (proposals c1 !! round).
  - run_get Hrun. destruct (activate_current_round c1) as [c2 [effects|e]] eqn:Hact; simplify_eq;
      by apply (activate_current_round_inv log) in Hact.
  - case_bool_decide; run_get Hrun; simplify_eq; [|by eapply unchanged_inv].
    split; [|done]. by apply keeps_inv_nil, set_requested_inv.
Qed.

Lemma cast_then_evaluate_inv log c k value round :
  node_inv log c -> started c = true -> cast_ok c k value c ->
  keeps_at log c (effects ← cast_vote_st k value; effects' ← evaluate_round round; mret (effects ++ effects')).
Proof.
  intros Hc Hs Hcast. apply keeps_at_app; [|apply evaluate_round_inv].
  intros c' r. by eapply cast_vote_st_inv.
Qed.

Lemma node_inv_before_next log c :
  node_inv log c ->
  (forall r k, is_Some (local_decisions c !! VoteKey r k) -> r < con_round c + 1) /\
  (forall w, w ∈ votes_of log -> v_round w < con_round c + 1) /\
  (forall lr, locked_round c = Some lr -> lr < con_round c + 1).
Proof.
  intros []. split_and!.
  - intros r k Hd. destruct (ni_decisions0 r k Hd). lia.
  - intros w Hw. destruct (ni_hist_round0 w Hw). lia.
  - intros lr Hlr. rewrite Hlr in ni_lock0. destruct (locked_block c); [|done]. destruct ni_lock0. lia.
Qed.

Lemma handle_timeout_inv t : keeps_inv (handle_timeout t).
Proof.
  intros log c c' r Hc Hs Hrun. unfold handle_timeout in Hrun.
  rewrite (bind_run_Ok get _ c c c eq_refl) in Hrun. cbn beta in Hrun.
  destruct (_ || _); [run_get Hrun; simplify_eq; by eapply unchanged_inv|].
  destruct (phase c) eqn:Hp.
  - eapply cast_then_evaluate_inv; [done|done| |exact Hrun]. by constructor.
  - eapply cast_then_evaluate_inv; [done|done| |exact Hrun]. by constructor.
  - run_get Hrun. unfold ok_or, checked_add in Hrun. destruct (_ <=? _); [|simplify_eq; by eapply unchanged_inv].
    destruct (node_inv_before_next log c Hc) as (? & ? & ?).
    eapply enter_round_inv; [done|done| |done..|exact Hrun]. lia.
  - run_get Hrun. simplify_eq. by eapply unchanged_inv.
Qed.

(** ** Every step *)

Lemma validate_certificate_quorum log c certificate :
  node_inv log c -> event_ok (Certificate certificate) -> validate_certificate c certificate = Ok () ->
  vote_quorum (c_round certificate) Precommit (BlockValue (c_block_id certificate)).
Proof.
  intros Hc Hok Hval. unfold validate_certificate in Hval.
  apply result_bind_Ok_inv in Hval as ([] & _ & Hval).
  destruct (_ || _ || _) eqn:Hlen; [done|]. rewrite !orb_false_iff, !Z.ltb_ge in Hlen.
  destruct Hlen as [[_ Hlen] _]. rewrite (ni_vset _ _ Hc) in Hlen.
  apply result_bind_Ok_inv in Hval as ([] & Hval & _). by eapply check_votes_quorum.
Qed.


Lemma finalize_any_inv log c certificate c' r :
  node_inv log c -> vote_quorum (c_round certificate) Precommit (BlockValue (c_block_id certificate)) ->
  finalize certificate c = (c', r) -> node_inv (log ++ result_requested r) c'.
Proof.
  intros Hc Hq Hrun. unfold finalize in Hrun. run_get Hrun.
  destruct (finalized c) as [f|].
  - case_bool_decide; simplify_eq; by apply keeps_inv_nil.
  - simplify_eq. by apply keeps_inv_nil, set_finalized_inv.
Qed.

Lemma start_inv log c c' r :
  node_inv log c -> started c = false ->
  (_ ← modify set_started; enter_round (con_round c)) c = (c', r) -> node_inv (log ++ result_requested r) c'.
Proof.
  intros Hc Hs Hrun. rewrite (bind_run_Ok (modify _) _ c (set_started c) () eq_refl) in Hrun.
  pose proof Hc as Hc'. destruct Hc'.
  assert (node_inv log (set_started c)) as Hc1.
  { split; try done; simpl.
    - intros r' k Hd. destruct (ni_decisions0 r' k Hd). split; [lia|done].
    - intros w Hw. destruct (ni_hist_round0 w Hw). split; [lia|done]. }
  apply (enter_round_inv log) in Hrun as [? _]; try done; simpl.
  - intros r' k Hd. by apply (ni_decisions0 r' k Hd).
  - intros w Hw. by apply (ni_hist_round0 w Hw).
  - intros lr Hlr. by apply ni_unstarted0.
Qed.

(** The invariant of one validator: whatever event arrives, every step keeps
    it, the votes it requests joining the history. *)
Lemma step_inv log c e c' r :
  node_inv log c -> event_ok e -> step e c = (c', r) -> node_inv (log ++ result_requested r) c'.
Proof.
  intros Hc Hok Hrun. unfold step in Hrun. rewrite (bind_run_Ok get _ c c c eq_refl) in Hrun.
  destruct e as [|h round b|m|m|t|certificate]; cbn beta iota in Hrun.
  1: { destruct (started c) eqn:Hs; [|by eapply start_inv].
       unfold throw in Hrun. simplify_eq. by apply keeps_inv_nil. }
  5: { run_get Hrun. destruct (validate_certificate c certificate) as [[]|e] eqn:Hval;
         [|simplify_eq; by apply keeps_inv_nil].
       eapply finalize_any_inv; [done| |done]. by eapply validate_certificate_quorum. }
  all: destruct (started c) eqn:Hs; cbn [negb] in Hrun; [|unfold throw in Hrun; simplify_eq; by apply keeps_inv_nil].
  all: case_bool_decide; [unfold mret, stE_ret in Hrun; simplify_eq; by apply keeps_inv_nil|].
  - by apply (proposal_ready_inv h round b log) in Hrun as [].
  - by apply (receive_message_inv m Hok log) in Hrun as [].
  - by apply (persisted_inv m Hok log) in Hrun as [].
  - by apply (handle_timeout_inv t log) in Hrun as [].
Qed.

(** ** Fresh engines *)

Lemma consensus_new_Ok c :
  consensus_new me vs height cfg = Ok c ->
  c = mk_Consensus me vs cfg height 0 PhasePropose false None None None None None [] ∅ ∅ ∅ ∅ ∅.
Proof.
  unfold consensus_new. repeat (destruct (_ =? _) || destruct (negb _); try done). by intros [= <-].
Qed.

Lemma consensus_new_inv c :
  consensus_new me vs height cfg = Ok c -> node_inv [] c /\ started c = false.
Proof.
  intros ->%consensus_new_Ok. split; [|done]. split; simpl; try done; try (intros; set_solver).
  - intros r k [x Hx]. by rewrite lookup_empty in Hx.
  - intros l1 m ss l2 Hl. by destruct l1.
Qed.

(** ** Restarted engines *)

(** A restart from the last stored safety state, for the stored decisions. *)
Lemma restored_inv log m ss c0 c :
  node_inv (log ++ [(m, ss)]) c0 -> new_with_safety_state me vs height cfg ss = Ok c ->
  node_inv (log ++ [(m, ss)]) c /\ started c = false.
Proof.
  intros Hc0. unfold new_with_safety_state. destruct (negb _); [done|].
  intros (round & Hround & Hrun)%result_bind_Ok_inv.
  apply result_bind_Ok_inv in Hrun as (c1 & Hc1 & Hrun).
  apply result_bind_Ok_inv in Hrun as ([] & _ & [= <-]).
  assert (round = ss_round ss + 1) as ->.
  { apply ok_or_Ok_inv in Hround. unfold checked_add in Hround. destruct (_ <=? _); [|done].
    destruct (_ <? _); naive_solver. }
  apply consensus_new_Ok in Hc1 as ->. split; [|done].
  pose proof (ni_log _ _ Hc0 log m ss [] eq_refl) as []. destruct Hc0.
  split; simpl; try done.
  - lia.
  - destruct (ss_locked_round ss), (ss_locked_block ss); try done. split; [lia|apply sc_lock0].
  - intros r k [x Hx]. by rewrite lookup_empty in Hx.
  - intros _. split; [done|]. intros lr Hlr. rewrite Hlr in sc_lock0. destruct (ss_locked_block ss); [lia|done].
  - intros lr _ Hlr. rewrite Hlr in sc_lock0. destruct (ss_locked_block ss); [lia|done].
  - intros w Hw. pose proof (sc_rounds0 w Hw). destruct (ni_hist_round0 w Hw). split; lia.
  - intros w Hw Hr. pose proof (sc_rounds0 w Hw). lia.
Qed.

(** Reserving a stored decision before the start. *)
Lemma restore_local_decision_inv log m c c' r :
  node_inv log c -> started c = false -> restore_local_decision m c = (c', r) ->
  node_inv log c' /\ started c' = false.
Proof.
  intros Hc Hs Hrun. unfold restore_local_decision in Hrun.
  rewrite (bind_run_Ok get _ c c c eq_refl), Hs in Hrun.
  set (ctx := match m with SignableProposal _ => _ | SignableVote _ => _ end) in Hrun.
  assert (exists r, ctx c = (c, r)) as [[[[chain h] signer]|e] Hctx].
  { subst ctx. destruct m; [case_bool_decide|]; by eexists. }
  2:{ rewrite (bind_run_Err _ _ _ _ _ Hctx) in Hrun. by simplify_eq. }
  rewrite (bind_run_Ok _ _ _ _ _ Hctx) in Hrun. run_get Hrun.
  destruct (validate_context _ _ _) as [[]|e]; [|by simplify_eq].
  case_bool_decide; [by simplify_eq|].
  destruct (_ || _) eqn:Hround; [by simplify_eq|].
  apply orb_false_iff in Hround as [Hround%Z.leb_gt _].
  destruct (local_decisions c !! of_signable m) eqn:Hd; [case_bool_decide; by simplify_eq|].
  simplify_eq. split; [|done]. destruct Hc. split; try done; simpl.
  - intros r k. rewrite lookup_insert_is_Some'. intros [Heq|Hin]; [|by apply (ni_decisions0 r k)].
    destruct m; simplify_eq/=. lia.
  - intros Hp. destruct (ni_phase0 Hp) as [Hnone Hlt]. split; [|done].
    rewrite lookup_insert_ne; [done|]. intros Heq. destruct m; simplify_eq/=. lia.
  - intros w Hw Hr. destruct (ni_hist_round0 w Hw) as [_ Hlt]. specialize (Hlt Hs). lia.
Qed.
End node.

(** More trust only adds quorums: the invariant survives a growing [Auth]. *)
Section mono.
  Context `{MessageValidator}.
  Context (me : ValidatorId) (vs : ValidatorSet) (cfg : ConsensusConfig) (height : Z).
  Context (Auth Auth' : Vote -> Prop) (Himp : forall w, Auth w -> Auth' w).

Lemma vote_quorum_mono r k value :
  vote_quorum vs cfg height Auth r k value -> vote_quorum vs cfg height Auth' r k value.
Proof.
  intros (q & Hnd & Hsub & Hq & Hall). exists q. split_and!; try done.
  eapply Forall_impl; [exact Hall|]. eauto.
Qed.

Lemma node_inv_mono log c :
  node_inv me vs cfg height Auth log c -> node_inv me vs cfg height Auth' log c.
Proof.
  intros []. split; try done.
  - intros r k m v sv Hm Hv. destruct (ni_votes0 r k m v sv Hm Hv) as (? & ? & ?). eauto.
  - intros r p Hp vr Hvr. destruct (ni_proposals0 r p Hp vr Hvr). split; [done|by apply vote_quorum_mono].
  - destruct (locked_round c), (locked_block c); try done. destruct ni_lock0. split; [done|by apply vote_quorum_mono].
  - intros f Hf. by apply vote_quorum_mono, ni_final0.
  - intros r b Hw. by apply vote_quorum_mono, ni_hist_polka0.
  - intros r1 b r2 b' H1 H2 Hlt Hne. destruct (ni_hist_rule0 r1 b r2 b' H1 H2 Hlt Hne) as (vr & ? & ?).
    exists vr. split; [done|by apply vote_quorum_mono].
  - intros l1 m ss l2 Hl. destruct (ni_log0 l1 m ss l2 Hl). split; try done.
    destruct (ss_locked_round ss), (ss_locked_block ss); try done. destruct sc_lock0.
    split; [done|by apply vote_quorum_mono].
Qed.
End mono.
