(* ===== verification/EngineRules.v ===== *)
(** * What every step of the engine keeps

    [progress]: identity, height and configuration never change, the round only
    grows, a finalization is never replaced, and the well-formedness invariant
    [engine_wf] (cache window, provenance of cached votes, the certificate of a
    finalization) is kept. The methods are walked through once, with the rules
    of [from]. *)

From Stdlib Require Import Lia.
From S2P Require Import Prelude Errors Crypto Transaction Block Commit ConsensusTypes Engine EngineFacts.

(** Configurations within their machine types. *)
Record config_ok (cfg : ConsensusConfig) : Prop := {
  cfg_ahead : in_range u32_max (max_round_ahead cfg);
  cfg_cached : 1 <= max_cached_rounds cfg <= u32_max;
  cfg_rounds : 1 <= max_rounds_per_height cfg <= u32_max
}.

Section rules.
  Context `{MessageValidator}.

(** A certificate that convinced the engine of [vs] at [height]. *)
Record certificate_sound (vs : ValidatorSet) (cfg : ConsensusConfig) (height : Z)
    (certificate : ConsensusCertificate) : Prop := {
  cs_chain : c_chain_id certificate = cfg_chain_id cfg;
  cs_height : c_height certificate = height;
  cs_quorum : quorum vs <= Z.of_nat (length (c_precommits certificate));
  cs_distinct : NoDup ((v_validator ∘ sv_vote) <$> c_precommits certificate);
  cs_votes sv : sv ∈ c_precommits certificate ->
    v_validator (sv_vote sv) ∈ validators vs /\ mv_validate_vote sv = Ok () /\
    sv_vote sv = mk_Vote (cfg_chain_id cfg) height (c_round certificate) Precommit
      (v_validator (sv_vote sv)) (BlockValue (c_block_id certificate));
  cs_validated : mv_validate_certificate certificate = Ok ()
}.

Record engine_wf (c : Consensus) : Prop := {
  wf_config : config_ok (config c);
  wf_round : 0 <= con_round c < max_rounds_per_height (config c);
  wf_proposals r : is_Some (proposals c !! r) -> round_is_cacheable c r = true;
  wf_proposal r p : proposals c !! r = Some p ->
    p_round (sp_proposal p) = r /\ mv_validate_proposal p = Ok () /\
    p_chain_id (sp_proposal p) = cfg_chain_id (config c) /\ p_height (sp_proposal p) = con_height c /\
    p_proposer (sp_proposal p) = proposer (vset c) (con_height c) r;
  wf_votes r k : is_Some (votes c !! (r, k)) -> round_is_cacheable c r = true;
  wf_vote r k m v sv : votes c !! (r, k) = Some m -> m !! v = Some sv ->
    v ∈ validators (vset c) /\ mv_validate_vote sv = Ok () /\
    sv_vote sv = mk_Vote (cfg_chain_id (config c)) (con_height c) r k v (v_value (sv_vote sv));
  wf_requested r : r ∈ requested_proposals c -> round_is_cacheable c r = true /\ r <= con_round c;
  wf_pending : pending_persistence c ⊆ local_decisions c;
  wf_decisions key : is_Some (local_decisions c !! key) -> key_round key <= con_round c;
  wf_final f : finalized c = Some f ->
    certificate_sound (vset c) (config c) (con_height c) (f_certificate f) /\
    f_height f = con_height c /\ f_round f = c_round (f_certificate f) /\
    f_block_id f = c_block_id (f_certificate f)
}.

Record evolves (c c' : Consensus) : Prop := {
  ev_local : local_id c' = local_id c;
  ev_vset : vset c' = vset c;
  ev_config : config c' = config c;
  ev_height : con_height c' = con_height c;
  ev_round : con_round c <= con_round c';
  ev_started : started c = true -> started c' = true;
  ev_final f : finalized c = Some f -> finalized c' = Some f
}.

(** A decision that was made and does not wait for storage any more; when its
    round leaves the window its record is dropped. *)
Definition settled (c : Consensus) (key : DecisionKey) : Prop :=
  pending_persistence c !! key = None /\
  (is_Some (local_decisions c !! key) \/ key_round key < window_min c).

Definition progress (c c' : Consensus) : Prop :=
  engine_wf c -> evolves c c' /\ engine_wf c' /\ forall key, settled c key -> settled c' key.

#[export] Instance progress_preorder : PreOrder progress.
Proof.
  split.
  - intros c Hc. split_and!; [by split|done..].
  - intros c1 c2 c3 Hp1 Hp2 Hc1. destruct (Hp1 Hc1) as ([] & Hc2 & Hs1). destruct (Hp2 Hc2) as ([] & Hc3 & Hs2).
    split_and!; [split; eauto; try congruence; lia|done|eauto].
Qed.

(** The method [m], run from [c], makes progress on every path. *)
Definition from {A} (c : Consensus) (m : stE Consensus ConsensusError A) : Prop := preserves progress c m.

Lemma from_wf {A} c (m : stE Consensus ConsensusError A) : (engine_wf c -> from c m) -> from c m.
Proof. intros Hm c' r Hrun Hwf. by eapply Hm. Qed.

Lemma from_mret {A} c (a : A) : from c (mret a).
Proof. apply (preserves_ret _). Qed.

Lemma from_throw {A} c e : from (A := A) c (throw e).
Proof. apply (preserves_throw _). Qed.

Lemma from_lift {A} c (r : result ConsensusError A) : from c (lift r).
Proof. apply (preserves_lift _). Qed.

Lemma from_modify c f : progress c (f c) -> from c (modify f).
Proof. apply preserves_modify. Qed.

Lemma from_bind {A B} c (m : stE Consensus ConsensusError A) (f : A -> stE Consensus ConsensusError B) :
  from c m -> (forall c1 a, m c = (c1, Ok a) -> from c1 (f a)) -> from c (m ≫= f).
Proof. apply (preserves_bind _). Qed.

Lemma from_get {B} c (f : Consensus -> stE Consensus ConsensusError B) : from c (f c) -> from c (get ≫= f).
Proof. apply (preserves_get _). Qed.

Lemma from_check {B} c (r : result ConsensusError ()) (f : () -> stE Consensus ConsensusError B) :
  (r = Ok () -> from c (f ())) -> from c (lift r ≫= f).
Proof. intros Hf. apply (preserves_check _). by intros []. Qed.

Lemma from_modify_then {B} c g (f : () -> stE Consensus ConsensusError B) :
  progress c (g c) -> from (g c) (f ()) -> from c (modify g ≫= f).
Proof. apply (preserves_modify_then _). Qed.

(** Two methods in sequence, their effects appended. *)
Lemma from_app c (m1 m2 : stE Consensus ConsensusError (list Effect)) :
  from c m1 -> (forall c1, from c1 m2) -> from c (effects ← m1; effects' ← m2; mret (effects ++ effects')).
Proof.
  intros H1 H2. apply from_bind; [done|]. intros c1 l1 _.
  apply from_bind; [done|]. intros c2 l2 _. apply from_mret.
Qed.
End rules.

Section methods.
  Context `{MessageValidator}.

(** ** Assignments *)

(** Assignments that leave the decisions alone. *)
Lemma progress_by c c' :
  evolves c c' -> (engine_wf c -> engine_wf c') -> pending_persistence c' = pending_persistence c ->
  local_decisions c' = local_decisions c -> con_round c' = con_round c -> progress c c'.
Proof.
  intros Hev Hwf Hp Hl Hr Hc. split_and!; [done|by apply Hwf|]. intros key.
  unfold settled, window_min, retained_before. by rewrite Hp, Hl, Hr, (ev_config _ _ Hev).
Qed.

Lemma progress_set_phase p c : progress c (set_phase p c).
Proof. apply progress_by; [by split|by intros []|done..]. Qed.

Lemma progress_set_started c : progress c (set_started c).
Proof. apply progress_by; [by split|by intros []|done..]. Qed.

Lemma progress_set_locked r b c : progress c (set_locked r b c).
Proof. apply progress_by; [by split|by intros []|done..]. Qed.

Lemma progress_set_valid r b proof c : progress c (set_valid r b proof c).
Proof. apply progress_by; [by split|by intros []|done..]. Qed.

Lemma progress_set_proposals c p :
  let q := sp_proposal p in
  round_is_cacheable c (p_round q) = true -> mv_validate_proposal p = Ok () ->
  p_chain_id q = cfg_chain_id (config c) -> p_height q = con_height c ->
  p_proposer q = proposer (vset c) (con_height c) (p_round q) ->
  progress c (set_proposals (<[p_round q := p]> (proposals c)) c).
Proof.
  intros q Hr Hval Hchain Hh Hprop. apply progress_by; [by split| |done..]. intros []. split; try done; simpl.
  - intros r' [x [[<- _]|[_ Hx]]%lookup_insert_Some]; [done|]. apply wf_proposals0. by exists x.
  - intros r' p' [[<- <-]|[_ Hx]]%lookup_insert_Some; [by split_and!|by apply wf_proposal0].
Qed.

Lemma progress_request c r :
  (engine_wf c -> round_is_cacheable c r = true /\ r <= con_round c) ->
  progress c (set_requested_proposals ({[r]} ∪ requested_proposals c) c).
Proof.
  intros Hr. apply progress_by; [by split| |done..]. intros Hwf. specialize (Hr Hwf). destruct Hwf.
  split; try done. simpl. intros r' [ ->%elem_of_singleton|Hr']%elem_of_union; [done|by apply wf_requested0].
Qed.

Lemma progress_unrequest c r :
  progress c (set_requested_proposals (requested_proposals c ∖ {[r]}) c).
Proof.
  apply progress_by; [by split| |done..]. intros []. split; try done. simpl.
  intros r' [Hr' _]%elem_of_difference. by apply wf_requested0.
Qed.

Lemma progress_set_votes c sv m :
  let w := sv_vote sv in
  round_is_cacheable c (v_round w) = true -> v_validator w ∈ validators (vset c) -> mv_validate_vote sv = Ok () ->
  v_chain_id w = cfg_chain_id (config c) -> v_height w = con_height c ->
  m = default ∅ (votes c !! (v_round w, v_kind w)) ->
  progress c (set_votes (<[(v_round w, v_kind w) := <[v_validator w := sv]> m]> (votes c)) c).
Proof.
  intros w Hr Hv Hval Hchain Hh ->. apply progress_by; [by split| |done..]. intros []. split; try done.
  - simpl. intros r k [x [[[= <- <-] _]|[_ Hx]]%lookup_insert_Some]; [done|]. apply (wf_votes0 r k). by exists x.
  - intros r k m v sv'. simpl. intros [[[= <- <-] <-]|[_ Hm]]%lookup_insert_Some; [|by apply wf_vote0].
    intros [[<- <-]|[_ Hsv]]%lookup_insert_Some.
    + split_and!; [done..|]. rewrite <- Hchain, <- Hh. by destruct (sv_vote sv).
    + destruct (votes c !! _) as [m|] eqn:Hm; [by apply (wf_vote0 _ _ m)|]. by destruct (lookup_empty_Some _ _ Hsv).
Qed.

Lemma round_in_window c r : round_is_cacheable c r = true -> window_min c <= r.
Proof. by intros [Hr%Z.leb_le _]%andb_true_iff. Qed.

(** A new local decision, waiting to be stored. *)
Lemma progress_decide c key m :
  local_decisions c !! key = None ->
  (engine_wf c -> round_is_cacheable c (key_round key) = true /\ key_round key <= con_round c) ->
  progress c (set_pending_persistence (<[key := m]> (pending_persistence c))
    (set_local_decisions (<[key := m]> (local_decisions c)) c)).
Proof.
  intros Hkey Hround Hwf. destruct (Hround Hwf) as [Hin%round_in_window Hle]. split_and!; [by split|..].
  - destruct Hwf. split; try done; simpl; [by apply insert_mono|].
    intros key' [<-|Hdec]%lookup_insert_is_Some'; [done|by apply wf_decisions0].
  - unfold settled. simpl. intros key' [Hp Hdec].
    assert (key <> key') as Hne.
    { intros <-. destruct Hdec as [[x Hx]|Hlt]; [congruence|lia]. }
    by rewrite !lookup_insert_ne.
Qed.

Lemma progress_stored c key :
  progress c (set_pending_persistence (delete key (pending_persistence c)) c).
Proof.
  intros []. split_and!; [by split|..].
  - split; try done. simpl. etransitivity; [apply delete_subseteq|done].
  - unfold settled. simpl. intros key' [Hp Hdec]. split; [|done]. by apply lookup_delete_None; right.
Qed.

Lemma progress_finalize c f :
  finalized c = None ->
  (engine_wf c -> certificate_sound (vset c) (config c) (con_height c) (f_certificate f)) ->
  f_height f = con_height c -> f_round f = c_round (f_certificate f) ->
  f_block_id f = c_block_id (f_certificate f) -> progress c (set_finalized f c).
Proof.
  intros Hnone Hcert Hh Hr Hb.
  apply progress_by; [split; simpl; [done..|]; intros f'; by rewrite Hnone| |done..]. intros Hwf. specialize (Hcert Hwf). destruct Hwf. split; try done.
  by intros f' [= <-].
Qed.

(** The current round, anywhere in the window. *)
Lemma current_round_cacheable c : engine_wf c -> round_is_cacheable c (con_round c) = true.
Proof. intros []. destruct wf_config0 as [[] ? ?]. apply round_is_cacheable_self; lia. Qed.

(** Moving to a later round and pruning what left the window. *)
Lemma window_min_mono c c' :
  con_round c <= con_round c' -> config c' = config c -> window_min c <= window_min c'.
Proof. intros Hr Hcfg. unfold window_min, retained_before, saturating_sub. rewrite Hcfg. lia. Qed.

Lemma progress_enter c round :
  con_round c <= round -> round < max_rounds_per_height (config c) ->
  progress c (prune_caches (set_round_phase round PhasePropose c)).
Proof.
  intros Hle Hmax []. unfold prune_caches. split_and!; [by split|split; simpl|].
  - done.
  - lia.
  - intros r [x [_ Hx]%map_lookup_filter_Some]. exact Hx.
  - intros r p [Hp _]%map_lookup_filter_Some. by apply wf_proposal0.
  - intros r k [x [_ Hx]%map_lookup_filter_Some]. exact Hx.
  - intros r k m v sv [Hm _]%map_lookup_filter_Some. by apply wf_vote0.
  - intros r [Hr Hin]%elem_of_filter. destruct (wf_requested0 r Hin). split; [done|lia].
  - by apply map_filter_subseteq_mono.
  - intros key [x [Hx _]%map_lookup_filter_Some]. transitivity (con_round c); [|done]. apply wf_decisions0. by exists x.
  - done.
  - intros key [Hp Hdec]. unfold settled. simpl. split; [apply map_lookup_filter_None; by left|].
    set (c1 := set_pending_persistence _ _). assert (window_min c <= window_min c1) as Hmin by by apply window_min_mono.
    destruct Hdec as [[x Hx]|Hlt]; [|right; lia].
    assert (key_round key <= con_round c) as Hkey by (apply wf_decisions0; by exists x).
    destruct (decide (round_is_cacheable c1 (key_round key) = true)) as [Hc|Hc].
    + left. exists x. by apply map_lookup_filter_Some.
    + right. apply not_true_iff_false, andb_false_iff in Hc as [Hc%Z.leb_gt|Hc%Z.leb_gt]; [done|].
      destruct wf_config0 as [[] ? ?]. unfold window_max, saturating_add in Hc. simpl in Hc. lia.
Qed.

(** ** Quorums of cached votes *)

Lemma quorum_votes_sound c r k value l :
  engine_wf c -> quorum_votes c r k = Some (value, l) ->
  quorum (vset c) <= Z.of_nat (length l) /\ NoDup ((v_validator ∘ sv_vote) <$> l) /\
  (forall sv, sv ∈ l -> v_validator (sv_vote sv) ∈ validators (vset c) /\ mv_validate_vote sv = Ok () /\
    sv_vote sv = mk_Vote (cfg_chain_id (config c)) (con_height c) r k (v_validator (sv_vote sv)) value).
Proof.
  intros Hwf (m & Hm & Hl & Hq)%quorum_votes_Some. rewrite Hl in *. clear Hl. split_and!; [done|..].
  - apply NoDup_fmap_filter, NoDup_btree_values_keys. intros v sv Hv.
    destruct (wf_vote _ Hwf r k m v sv Hm Hv) as (_ & _ & Heq). simpl. by rewrite Heq.
  - intros sv [Hval [v Hv]%elem_of_btree_values]%list_elem_of_filter.
    destruct (wf_vote _ Hwf r k m v sv Hm Hv) as (Hin & Hok & Heq).
    rewrite Hval in Heq. rewrite Heq. simpl. by rewrite <- Heq.
Qed.

(** ** The methods *)

Lemma from_cast_vote c k value : from c (cast_vote_st k value).
Proof.
  intros c' r. unfold cast_vote_st. destruct (cast_vote k value c) as [c1 l] eqn:Hcast. intros [= <- _].
  apply cast_vote_cases in Hcast as [(_ & -> & _)|(Hnone & -> & _)]; [done|].
  unfold after_cast. etransitivity; [|apply progress_set_phase]. apply progress_decide; [done|].
  intros Hwf. split; [by apply current_round_cacheable|done].
Qed.

Lemma from_evaluate_prevotes c round : from c (evaluate_prevotes round).
Proof.
  apply from_get. destruct (quorum_votes c round Prevote) as [[[|b] proof]|]; [|cbv zeta|apply from_mret].
  - destruct (_ && _); [apply from_cast_vote|apply from_mret].
  - apply from_bind.
    { destruct (_ && _ && _); [apply from_modify, progress_set_valid|apply from_mret]. }
    intros c1 [] _. destruct (_ && _); [|apply from_mret].
    apply from_modify_then; [apply progress_set_locked|apply from_cast_vote].
Qed.

Lemma from_finalize c certificate :
  (engine_wf c -> certificate_sound (vset c) (config c) (con_height c) certificate) ->
  c_height certificate = con_height c -> from c (finalize certificate).
Proof.
  intros Hcert Hh. apply from_get. destruct (finalized c) as [f|] eqn:Hf.
  - case_bool_decide; [apply from_mret|apply from_throw].
  - apply from_modify_then; [by apply progress_finalize|apply from_mret].
Qed.

Lemma from_evaluate_precommits c round : from c (evaluate_precommits round).
Proof.
  apply from_get. destruct (quorum_votes c round Precommit) as [[[|b] l]|] eqn:Hq; [apply from_mret| |apply from_mret].
  apply from_check. intros Hval%map_err_Ok_inv. apply from_finalize; [|done].
  intros Hwf. destruct (quorum_votes_sound _ _ _ _ _ Hwf Hq) as (? & ? & ?). by split.
Qed.

Lemma from_evaluate_round c round : from c (evaluate_round round).
Proof.
  apply from_app; [apply from_evaluate_prevotes|intros c1; apply from_evaluate_precommits].
Qed.

Lemma from_activate_current_round c : from c activate_current_round.
Proof.
  apply from_get, from_bind.
  - case_bool_decide; [|apply from_mret]. destruct (proposals c !! _); [apply from_cast_vote|apply from_mret].
  - intros c1 l1 _. apply from_get, from_bind; [apply from_evaluate_round|]. intros c2 l2 _. apply from_mret.
Qed.

Lemma from_modify_twice {B} c g1 g2 (m : stE Consensus ConsensusError B) :
  progress c (g2 (g1 c)) -> from (g2 (g1 c)) m -> from c (_ ← modify g1; _ ← modify g2; m).
Proof.
  intros Hg Hf c' r Hrun. transitivity (g2 (g1 c)); [done|]. eapply Hf. exact Hrun.
Qed.

Lemma from_enter_round c round : con_round c <= round -> from c (enter_round round).
Proof.
  intros Hle. apply from_get. destruct (Z.leb_spec (max_rounds_per_height (config c)) round); [apply from_throw|].
  apply from_modify_twice; [by apply progress_enter|]. apply from_get.
  set (c1 := prune_caches (set_round_phase round PhasePropose c)).
  assert (con_round c1 = round) as Hr by done. clearbody c1. cbv zeta.
  destruct (proposals c1 !! round).
  { apply from_bind; [apply from_activate_current_round|]. intros c2 l2 _. apply from_mret. }
  case_bool_decide; [|apply from_mret]. apply from_modify_then; [|apply from_mret].
  apply progress_request. rewrite <- Hr. intros Hwf. split; [by apply current_round_cacheable|done].
Qed.

Lemma from_request_persistence c m :
  round_is_cacheable c (key_round (of_signable m)) = true -> key_round (of_signable m) <= con_round c ->
  from c (request_persistence m).
Proof.
  intros Hr Hle. apply from_get. cbv zeta. destruct (local_decisions c !! of_signable m) eqn:Hd.
  - case_bool_decide; [apply from_mret|apply from_throw].
  - apply from_modify_twice; [exact (progress_decide c _ m Hd (fun _ => conj Hr Hle))|]. apply from_get, from_mret.
Qed.

Lemma from_proposal_ready c h r b : from c (proposal_ready h r b).
Proof.
  apply from_wf. intros Hwf. apply from_get. destruct (negb _); [apply from_throw|].
  case_bool_decide as Hr; [apply from_throw|].
  assert (r ∈ requested_proposals c) as [Hin Hle]%(wf_requested _ Hwf) by by destruct (decide (r ∈ requested_proposals c)).
  apply from_modify_then; [apply progress_unrequest|by apply from_request_persistence].
Qed.

Lemma validate_proposal_Ok c p :
  validate_message c (SignedMessageProposal p) = Ok () ->
  let q := sp_proposal p in
  mv_validate_proposal p = Ok () /\ p_chain_id q = cfg_chain_id (config c) /\ p_height q = con_height c /\
  p_proposer q = proposer (vset c) (con_height c) (p_round q).
Proof.
  unfold validate_message. destruct (_ <? _); [done|].
  intros ([] & Hval & Hmv%map_err_Ok_inv)%result_bind_Ok_inv. unfold validate_proposal_structure in Hval.
  apply result_bind_Ok_inv in Hval as ([] & [Hch Hh]%validate_context_Ok & Hval).
  destruct (negb _); [done|]. case_bool_decide as Hp; [done|].
  by split_and!.
Qed.

Lemma validate_vote_Ok c sv :
  validate_message c (SignedMessageVote sv) = Ok () ->
  let w := sv_vote sv in
  mv_validate_vote sv = Ok () /\ v_chain_id w = cfg_chain_id (config c) /\ v_height w = con_height c /\
  v_validator w ∈ validators (vset c).
Proof.
  unfold validate_message. destruct (_ <? _); [done|].
  by intros ([] & (Hch & Hh & Hin & _)%validate_vote_structure_Ok & Hmv%map_err_Ok_inv)%result_bind_Ok_inv.
Qed.

Lemma from_accept_message c m : validate_message c m = Ok () -> from c (accept_validated_message m).
Proof.
  intros Hval. destruct m as [p|sv]; simpl; apply from_get; cbv zeta.
  - destruct (validate_proposal_Ok _ _ Hval) as (? & ? & ? & ?).
    destruct (round_is_cacheable c _) eqn:Hr; [|apply from_mret]. cbn [negb].
    destruct (proposals c !! _); [case_bool_decide; apply from_mret|].
    apply from_modify_then; [by apply progress_set_proposals|].
    destruct (_ =? _); [apply from_activate_current_round|apply from_mret].
  - destruct (validate_vote_Ok _ _ Hval) as (? & ? & ? & ?).
    destruct (round_is_cacheable c _) eqn:Hr; [|apply from_mret]. cbn [negb].
    destruct (default ∅ _ !! _); [case_bool_decide; apply from_mret|].
    apply from_modify_then; [by apply progress_set_votes|apply from_evaluate_round].
Qed.

(** Validation reads only the parts of the state that never change. *)
Lemma check_votes_frame c' c bad r k value signers l :
  config c' = config c -> vset c' = vset c -> con_height c' = con_height c ->
  check_votes c' bad r k value signers l = check_votes c bad r k value signers l.
Proof.
  intros Hcfg Hvs Hh. revert signers. induction l as [|sv l IH]; intros signers; [done|]. simpl.
  unfold validate_vote_structure, validate_context. rewrite Hcfg, Hvs, Hh.
  destruct (_ <? _); [done|]. by rewrite IH.
Qed.

Lemma validate_message_frame c' c m :
  config c' = config c -> vset c' = vset c -> con_height c' = con_height c ->
  validate_message c' m = validate_message c m.
Proof.
  intros Hcfg Hvs Hh. unfold validate_message, validate_proposal_structure, validate_vote_structure, validate_context.
  rewrite Hcfg, Hvs, Hh. destruct (_ <? _); [done|]. destruct m as [p|sv]; [|done].
  destruct (p_valid_round (sp_proposal p)); [|done]. by rewrite (check_votes_frame c' c).
Qed.

Lemma from_receive_message c m : from c (receive_message m).
Proof. apply from_get, from_check. apply from_accept_message. Qed.

Lemma from_persisted c m : from c (persisted m).
Proof.
  apply from_get. cbv zeta. case_bool_decide; [apply from_throw|]. apply from_check. intros Hval.
  apply from_modify_then; [apply progress_stored|].
  apply from_bind; [apply from_accept_message; by rewrite (validate_message_frame _ c)|]. intros c1 l1 _. apply from_mret.
Qed.

Lemma from_handle_timeout c t : from c (handle_timeout t).
Proof.
  apply from_get. destruct (_ || _ || _ || _); [apply from_mret|]. destruct (phase c).
  - apply from_app; [apply from_cast_vote|intros c1; apply from_evaluate_round].
  - apply from_app; [apply from_cast_vote|intros c1; apply from_evaluate_round].
  - apply from_bind; [apply from_lift|]. intros c1 next [= <- Hnext%ok_or_Ok_inv].
    apply checked_add_Some in Hnext as [-> _]. apply from_enter_round. lia.
  - apply from_mret.
Qed.

Lemma validate_certificate_sound c certificate :
  validate_certificate c certificate = Ok () -> certificate_sound (vset c) (config c) (con_height c) certificate.
Proof.
  unfold validate_certificate. intros ([] & [Hch Hh]%validate_context_Ok & Hrun)%result_bind_Ok_inv.
  destruct (_ || _ || _) eqn:Hlen; [done|]. rewrite !orb_false_iff, !Z.ltb_ge in Hlen.
  destruct Hlen as [[_ Hlen] _].
  apply result_bind_Ok_inv in Hrun as ([] & [Hnd Hall]%check_votes_Ok & Hmv%map_err_Ok_inv).
  rewrite Forall_forall in Hall. split; try done. intros sv Hsv. by destruct (Hall sv Hsv) as (_ & ? & ? & ?).
Qed.

(** Every step makes progress. *)
Lemma from_step c e : from c (step e).
Proof.
  apply from_get. destruct e as [|h r b|m|m|t|certificate].
  1: { destruct (started c); [apply from_throw|].
       apply from_modify_then; [apply progress_set_started|]. by apply from_enter_round. }
  5: { apply from_check. intros Hval%validate_certificate_sound. apply from_finalize; [done|by destruct Hval]. }
  all: destruct (negb (started c)); [apply from_throw|]; case_bool_decide; [apply from_mret|].
  - apply from_proposal_ready.
  - apply from_receive_message.
  - apply from_persisted.
  - apply from_handle_timeout.
Qed.

Lemma step_progress e c c' r : step e c = (c', r) -> progress c c'.
Proof. apply from_step. Qed.

(** A run: the engine fed a list of events, whatever each step answers. *)
Definition run_events (c : Consensus) (events : list Event) : Consensus :=
  foldl (fun c e => (step e c).1) c events.

Lemma run_events_progress c events : progress c (run_events c events).
Proof.
  revert c. induction events as [|e events IH]; intros c; [done|]. simpl.
  transitivity (step e c).1; [|apply IH]. destruct (step e c) as [c1 r] eqn:Hs. by eapply step_progress.
Qed.

(** An engine with nothing cached is well formed. *)
Lemma empty_wf c :
  config_ok (config c) -> 0 <= con_round c < max_rounds_per_height (config c) ->
  proposals c = ∅ -> votes c = ∅ -> requested_proposals c = ∅ -> local_decisions c = ∅ ->
  pending_persistence c = ∅ -> finalized c = None -> engine_wf c.
Proof.
  intros Hcfg Hr Hp Hv Hreq Hd Hpend Hf. split; rewrite ?Hp, ?Hv, ?Hreq, ?Hd, ?Hpend, ?Hf; try done.
  - intros r [x Hx]. by destruct (lookup_empty_Some _ _ Hx).
  - intros r k [x Hx]. by destruct (lookup_empty_Some _ _ Hx).
  - intros key [x Hx]. by destruct (lookup_empty_Some _ _ Hx).
Qed.

Lemma consensus_new_wf me vs height cfg c :
  config_ok cfg -> consensus_new me vs height cfg = Ok c -> engine_wf c.
Proof.
  intros Hcfg ->%consensus_new_Ok. apply empty_wf; try done. simpl. destruct Hcfg. lia.
Qed.

(** Every state an engine reaches, whatever it is fed. *)
Lemma run_wf me vs height cfg c0 events :
  config_ok cfg -> consensus_new me vs height cfg = Ok c0 ->
  let c := run_events c0 events in
  engine_wf c /\ local_id c = me /\ vset c = vs /\ config c = cfg /\ con_height c = height.
Proof.
  intros Hcfg Hnew c. pose proof (consensus_new_wf _ _ _ _ _ Hcfg Hnew) as Hwf0.
  destruct (run_events_progress c0 events Hwf0) as ([Hl Hv Hc Hh _ _ _] & Hwf & _).
  fold c in Hl, Hv, Hc, Hh, Hwf.
  clearbody c. apply consensus_new_Ok in Hnew. rewrite Hnew in Hl, Hv, Hc, Hh. by split_and!.
Qed.

(** ** Evaluating a round only adds decisions *)

Definition adds_decisions (c c' : Consensus) : Prop :=
  con_round c' = con_round c /\ local_decisions c ⊆ local_decisions c'.

Lemma adds_decisions_trans c1 c2 c3 : adds_decisions c1 c2 -> adds_decisions c2 c3 -> adds_decisions c1 c3.
Proof. intros [H1 H1'] [H2 H2']. split; [congruence|by etransitivity]. Qed.

Lemma cast_vote_adds k value c c' r : cast_vote_st k value c = (c', r) -> adds_decisions c c'.
Proof.
  unfold cast_vote_st. destruct (cast_vote k value c) as [c1 l] eqn:Hcast. intros [= <- _].
  apply cast_vote_cases in Hcast as [(_ & -> & _)|(Hnone & -> & _)]; split; try done.
  by apply insert_subseteq.
Qed.

Lemma evaluate_prevotes_adds round c c' r : evaluate_prevotes round c = (c', r) -> adds_decisions c c'.
Proof.
  intros Hrun. unfold evaluate_prevotes in Hrun. run_get Hrun.
  destruct (quorum_votes c round Prevote) as [[[|b] proof]|]; cbn beta iota zeta in Hrun.
  - destruct (_ && _); [by eapply cast_vote_adds|by simplify_eq].
  - set (has_proposal := match proposals c !! round with Some _ => _ | None => _ end) in Hrun.
    destruct (has_proposal && (round <=? con_round c) && _); destruct (has_proposal && _ && _);
      try by simplify_eq.
    + apply (adds_decisions_trans _ (set_locked round b (set_valid round b proof c))); [done|by eapply cast_vote_adds].
    + apply (adds_decisions_trans _ (set_locked round b c)); [done|by eapply cast_vote_adds].
  - by simplify_eq.
Qed.

Lemma evaluate_precommits_adds round c c' r : evaluate_precommits round c = (c', r) -> adds_decisions c c'.
Proof.
  intros Hrun. unfold evaluate_precommits, finalize in Hrun. run_get Hrun.
  destruct (quorum_votes c round Precommit) as [[[|b] l]|]; try by simplify_eq.
  destruct (map_err _ _) as [[]|e]; [|by simplify_eq].
  destruct (finalized c); [case_bool_decide|]; by simplify_eq.
Qed.

Lemma evaluate_round_adds round c c' r : evaluate_round round c = (c', r) -> adds_decisions c c'.
Proof.
  unfold evaluate_round, mbind, stE_bind. destruct (evaluate_prevotes round c) as [c1 [l1|e]] eqn:H1.
  - destruct (evaluate_precommits round c1) as [c2 [l2|e]] eqn:H2; intros [= <- _];
      (eapply adds_decisions_trans; [by eapply evaluate_prevotes_adds|by eapply evaluate_precommits_adds]).
  - intros [= <- _]. by eapply evaluate_prevotes_adds.
Qed.

Lemma activate_adds c c' r : activate_current_round c = (c', r) -> adds_decisions c c'.
Proof.
  unfold activate_current_round. intros Hrun. rewrite (bind_run_Ok get _ c c c eq_refl) in Hrun.
  set (cast := if bool_decide _ then _ else _) in Hrun.
  destruct (cast c) as [c1 [l1|e]] eqn:Hcast.
  - assert (adds_decisions c c1) as H1.
    { subst cast. destruct (bool_decide _); [|by injection Hcast as <- _].
      destruct (proposals c !! _); [by eapply cast_vote_adds|by injection Hcast as <- _]. }
    rewrite (bind_run_Ok _ _ _ _ _ Hcast), (bind_run_Ok get _ c1 c1 c1 eq_refl) in Hrun.
    eapply adds_decisions_trans; [exact H1|]. unfold mbind, stE_bind in Hrun.
    destruct (evaluate_round (con_round c1) c1) as [c2 r2] eqn:Heval.
    assert (c' = c2) as -> by (by destruct r2; injection Hrun). by eapply evaluate_round_adds.
  - exfalso. subst cast. destruct (bool_decide _); [|done].
    destruct (proposals c !! _); [|done]. unfold cast_vote_st in Hcast. by destruct (cast_vote _ _ c).
Qed.

(** Casting and then evaluating: the vote is decided. *)
Lemma cast_then_evaluate_decides k value round c c' r :
  local_decisions c !! VoteKey (con_round c) k = None ->
  (effects ← cast_vote_st k value; effects' ← evaluate_round round; mret (effects ++ effects')) c = (c', r) ->
  con_round c' = con_round c /\
  local_decisions c' !! VoteKey (con_round c) k = Some (SignableVote
    (mk_Vote (cfg_chain_id (config c)) (con_height c) (con_round c) k (local_id c) value)).
Proof.
  intros Hnone. unfold mbind, stE_bind, cast_vote_st. destruct (cast_vote k value c) as [c1 l1] eqn:Hcast.
  apply cast_vote_cases in Hcast as [([x Hx] & _)|(_ & -> & _)]; [congruence|].
  set (c1 := after_cast _ _ c). destruct (evaluate_round round c1) as [c2 r2] eqn:Heval.
  destruct (evaluate_round_adds _ _ _ _ Heval) as [Hround Hsub]. intros Hrun.
  assert (c' = c2) as -> by (by destruct r2; injection Hrun). split; [by rewrite Hround|].
  eapply lookup_weaken; [|exact Hsub]. apply lookup_insert_eq.
Qed.

(** A recovered engine is well formed too. *)
Lemma new_with_safety_state_wf me vs height cfg ss c :
  config_ok cfg -> 0 <= ss_round ss -> new_with_safety_state me vs height cfg ss = Ok c ->
  engine_wf c /\ con_round c = ss_round ss + 1.
Proof.
  intros Hcfg Hss. unfold new_with_safety_state. destruct (negb _); [done|].
  intros (round & Hround%ok_or_Ok_inv & Hrun)%result_bind_Ok_inv.
  apply result_bind_Ok_inv in Hrun as (c1 & ->%consensus_new_Ok & Hrun).
  apply result_bind_Ok_inv in Hrun as ([] & _ & [= <-]).
  destruct (checked_add u32_max (ss_round ss) 1) as [r|] eqn:Hr; [|done].
  apply checked_add_Some in Hr as [-> _].
  destruct (Z.ltb_spec (ss_round ss + 1) (max_rounds_per_height cfg)); [|done]. injection Hround as <-.
  split; [|done]. apply empty_wf; try done. simpl. lia.
Qed.

Lemma progress_reserve c m :
  key_round (of_signable m) <= con_round c -> local_decisions c !! of_signable m = None ->
  progress c (set_local_decisions (<[of_signable m := m]> (local_decisions c)) c).
Proof.
  intros Hle Hnone []. split_and!; [by split|..].
  - split; try done; simpl.
    + etransitivity; [done|by apply insert_subseteq].
    + intros key [<-|Hdec]%lookup_insert_is_Some'; [done|by apply wf_decisions0].
  - intros key [Hp Hdec]. split; [done|]. simpl. destruct Hdec as [Hdec|]; [|by right].
    left. apply lookup_insert_is_Some'. by right.
Qed.

Lemma from_restore_local_decision c m : from c (restore_local_decision m).
Proof.
  apply from_get. destruct (started c); [apply from_throw|].
  apply from_bind.
  { destruct m; cbv zeta; [destruct (bool_decide _); [apply from_throw|apply from_mret]|apply from_mret]. }
  intros c1 [[chain h] signer] Hctx.
  assert (c1 = c) as ->.
  { destruct m; cbv zeta in Hctx; [|by injection Hctx]. destruct (bool_decide _); [done|by injection Hctx]. }
  clear Hctx. apply from_check. intros _. case_bool_decide; [apply from_throw|].
  destruct (_ || _) eqn:Hround; [apply from_throw|]. apply orb_false_iff in Hround as [Hround%Z.leb_gt _].
  cbv zeta. destruct (local_decisions c !! of_signable m) eqn:Hd.
  - case_bool_decide; [apply from_mret|apply from_throw].
  - apply from_modify, progress_reserve; [|done]. destruct m; simpl in *; lia.
Qed.
End methods.

(** ** The size of the caches *)

Section bounds.
  Context `{MessageValidator}.

Lemma size_interval (X : gset Z) lo hi :
  lo <= hi + 1 -> (forall r, r ∈ X -> lo <= r <= hi) -> Z.of_nat (size X) <= hi - lo + 1.
Proof.
  intros Hle HX.
  assert (size X <= size (list_to_set (C := gset Z) (seqZ lo (hi - lo + 1))))%nat as Hsize.
  { apply subseteq_size. intros r Hr. apply elem_of_list_to_set, elem_of_seqZ. specialize (HX r Hr). lia. }
  rewrite size_list_to_set in Hsize by apply NoDup_seqZ. rewrite length_seqZ in Hsize. lia.
Qed.

Lemma retained_before_small c : config_ok (config c) -> retained_before c = max_cached_rounds (config c) - 1.
Proof.
  intros []. unfold retained_before, saturating_sub. rewrite Z.max_l by lia.
  apply wrap_small. unfold in_range. lia.
Qed.

Lemma cached_round_count_bound c :
  engine_wf c -> cached_round_count c <= max_cached_rounds (config c) + max_round_ahead (config c).
Proof.
  intros Hwf. pose proof (retained_before_small c (wf_config _ Hwf)) as Hret.
  destruct (wf_config _ Hwf) as [[] ? ?]. destruct (wf_round _ Hwf).
  pose proof (size_interval (dom (proposals c) ∪ set_map fst (dom (votes c))) (window_min c) (window_max c)) as Hsize.
  unfold cached_round_count, window_min, window_max, saturating_sub, saturating_add in *.
  enough (forall r, r ∈ dom (proposals c) ∪ set_map (D := gset Z) fst (dom (votes c)) -> round_is_cacheable c r = true) as Hall.
  { transitivity (Z.min (con_round c + max_round_ahead (config c)) u32_max - Z.max (con_round c - retained_before c) 0 + 1);
      [|lia]. apply Hsize; [lia|].
    intros r Hr%Hall. apply andb_true_iff in Hr as [Hlo%Z.leb_le Hhi%Z.leb_le]. split; [exact Hlo|exact Hhi]. }
  intros r [Hr%elem_of_dom|([r' k] & -> & Hr%elem_of_dom)%elem_of_map]%elem_of_union.
  - by apply (wf_proposals _ Hwf).
  - by apply (wf_votes _ Hwf r' k).
Qed.

Lemma vote_count_bound c r k : engine_wf c -> vote_count c r k <= vs_len (vset c).
Proof.
  intros Hwf. unfold vote_count, vs_len. destruct (votes c !! (r, k)) as [m|] eqn:Hm; [|lia].
  rewrite <- size_dom. apply inj_le. transitivity (size (list_to_set (C := gset ValidatorId) (validators (vset c)))).
  - apply subseteq_size. intros v [sv Hv]%elem_of_dom. apply elem_of_list_to_set.
    by apply (wf_vote _ Hwf r k m v sv).
  - induction (validators (vset c)) as [|v l IH]; simpl; [done|].
    rewrite size_union_alt, size_singleton.
    assert (list_to_set (C := gset ValidatorId) l ∖ {[v]} ⊆ list_to_set l) as Hsub by apply subseteq_difference_l, reflexivity.
    apply subseteq_size in Hsub. lia.
Qed.
End bounds.

(** ** Which effects a method can produce *)

Section effects.
  Context `{MessageValidator}.

(** Every effect [m] produces satisfies [P]. *)
Definition emits (P : Effect -> Prop) (m : stE Consensus ConsensusError (list Effect)) : Prop :=
  forall c c' l, m c = (c', Ok l) -> Forall P l.

Lemma emits_mret (P : Effect -> Prop) l : Forall P l -> emits P (mret l).
Proof. by intros Hl c c' l' [= _ <-]. Qed.

Lemma emits_throw P e : emits P (throw e).
Proof. by intros c c' l. Qed.

Lemma emits_bind {A} P (m : stE Consensus ConsensusError A) f : (forall a, emits P (f a)) -> emits P (m ≫= f).
Proof. intros Hf c c' l (c1 & a & _ & Hrun)%bind_Ok_inv. by eapply Hf. Qed.

Lemma emits_app P m1 m2 :
  emits P m1 -> emits P m2 -> emits P (effects ← m1; effects' ← m2; mret (effects ++ effects')).
Proof.
  intros H1 H2 c c' l (c1 & l1 & Hm1 & Hrun)%bind_Ok_inv.
  apply bind_Ok_inv in Hrun as (c2 & l2 & Hm2 & [= _ <-]). apply Forall_app. split; [by eapply H1|by eapply H2].
Qed.

(** [m], its effects prefixed. *)
Lemma emits_after P l0 m : Forall P l0 -> emits P m -> emits P (effects ← m; mret (l0 ++ effects)).
Proof.
  intros Hl0 Hm c c' l (c1 & l1 & Hm1 & [= _ <-])%bind_Ok_inv. apply Forall_app. split; [done|by eapply Hm].
Qed.

(** The effects of the round machinery: no broadcast and no evidence. *)
Definition quiet (e : Effect) : Prop :=
  match e with Broadcast _ | EvidenceEffect _ => False | _ => True end.

Lemma quiet_cast_vote k value : emits quiet (cast_vote_st k value).
Proof.
  intros c c' l. unfold cast_vote_st, cast_vote. case_bool_decide; intros [= _ <-]; repeat constructor.
Qed.

Lemma quiet_evaluate_round round : emits quiet (evaluate_round round).
Proof.
  apply emits_app.
  - apply emits_bind. intros c. destruct (quorum_votes c round Prevote) as [[[|b] proof]|]; [|cbv zeta|by apply emits_mret].
    + destruct (_ && _); [apply quiet_cast_vote|by apply emits_mret].
    + apply emits_bind. intros []. destruct (_ && _); [|by apply emits_mret].
      apply emits_bind. intros []. apply quiet_cast_vote.
  - apply emits_bind. intros c. destruct (quorum_votes c round Precommit) as [[[|b] l]|]; try by apply emits_mret.
    apply emits_bind. intros []. apply emits_bind. intros c1. destruct (finalized c1).
    + destruct (bool_decide _); [by apply emits_mret|apply emits_throw].
    + apply emits_bind. intros []. apply emits_mret. by repeat constructor.
Qed.

Lemma quiet_activate_current_round : emits quiet activate_current_round.
Proof.
  apply emits_bind. intros c. cbv zeta.
  set (cast := if bool_decide _ then _ else _).
  assert (emits quiet cast) as Hcast.
  { subst cast. destruct (bool_decide _); [|by apply emits_mret].
    destruct (proposals c !! _); [apply quiet_cast_vote|by apply emits_mret]. }
  intros c0 c' l (c1 & l1 & Hm1 & Hrun)%bind_Ok_inv. apply bind_Ok_inv in Hrun as (c2 & c3 & [= <- <-] & Hrun).
  apply bind_Ok_inv in Hrun as (c4 & l2 & Hm2 & [= _ <-]).
  apply Forall_app. split; [by eapply Hcast|by eapply quiet_evaluate_round].
Qed.

Lemma quiet_enter_round round : emits quiet (enter_round round).
Proof.
  apply emits_bind. intros c. destruct (_ <=? _); [apply emits_throw|].
  do 2 (apply emits_bind; intros []). apply emits_bind. intros c1. cbv zeta. destruct (proposals c1 !! round).
  - apply emits_after; [by repeat constructor|apply quiet_activate_current_round].
  - destruct (bool_decide _); [apply emits_bind; intros []|]; apply emits_mret; by repeat constructor.
Qed.

Lemma quiet_proposal_ready h r b : emits quiet (proposal_ready h r b).
Proof.
  apply emits_bind. intros c. destruct (negb _); [apply emits_throw|].
  destruct (bool_decide _); [apply emits_throw|]. apply emits_bind. intros [].
  apply emits_bind. intros c1. cbv zeta. destruct (local_decisions c1 !! _).
  - destruct (bool_decide _); [by apply emits_mret|apply emits_throw].
  - do 2 (apply emits_bind; intros []). apply emits_bind. intros c2. apply emits_mret. by repeat constructor.
Qed.

Lemma quiet_handle_timeout t : emits quiet (handle_timeout t).
Proof.
  apply emits_bind. intros c. destruct (_ || _ || _ || _); [by apply emits_mret|]. destruct (phase c).
  - apply emits_app; [apply quiet_cast_vote|apply quiet_evaluate_round].
  - apply emits_app; [apply quiet_cast_vote|apply quiet_evaluate_round].
  - apply emits_bind. intros next. apply quiet_enter_round.
  - by apply emits_mret.
Qed.

(** What accepting a message can report as evidence: the cached message and
    the new one, different and for the same slot. *)
Definition reports (c : Consensus) (m : SignedMessage) (e : Effect) : Prop :=
  match e with
  | Broadcast _ => False
  | EvidenceEffect (DoubleVote v first second) =>
      m = SignedMessageVote second /\ first <> second /\ v = v_validator (sv_vote second) /\
      exists by_validator, votes c !! (v_round (sv_vote second), v_kind (sv_vote second)) = Some by_validator /\
        by_validator !! v = Some first
  | EvidenceEffect (DoubleProposal v first second) =>
      m = SignedMessageProposal second /\ first <> second /\ v = p_proposer (sp_proposal second) /\
      proposals c !! p_round (sp_proposal second) = Some first
  | _ => True
  end.

Lemma quiet_reports c m l : Forall quiet l -> Forall (reports c m) l.
Proof. intros Hl. eapply Forall_impl; [exact Hl|]. by intros []. Qed.

Lemma accept_message_reports m c c' l :
  accept_validated_message m c = (c', Ok l) -> Forall (reports c m) l.
Proof.
  destruct m as [p|sv]; simpl; intros (c1 & c2 & [= <- <-] & Hrun)%bind_Ok_inv; cbv zeta in Hrun.
  - destruct (negb _); [injection Hrun as _ <-; constructor|].
    destruct (proposals c !! _) as [first|] eqn:Hfirst.
    + case_bool_decide; injection Hrun as _ <-; [constructor|]. apply Forall_singleton. by split_and!.
    + apply quiet_reports. apply bind_Ok_inv in Hrun as (c3 & [] & _ & Hrun).
      destruct (_ =? _); [by eapply quiet_activate_current_round|injection Hrun as _ <-; constructor].
  - destruct (negb _); [injection Hrun as _ <-; constructor|].
    destruct (default ∅ _ !! _) as [first|] eqn:Hfirst.
    + case_bool_decide; injection Hrun as _ <-; [constructor|]. apply Forall_singleton. split_and!; [done..|].
      destruct (votes c !! _) as [by_validator|]; [by exists by_validator|by destruct (lookup_empty_Some _ _ Hfirst)].
    + apply quiet_reports. apply bind_Ok_inv in Hrun as (c3 & [] & _ & Hrun). by eapply quiet_evaluate_round.
Qed.

(** The effects of a step, by its event. *)
Lemma step_effects e c c' l eff :
  step e c = (c', Ok l) -> eff ∈ l ->
  quiet eff \/
  exists m, (e = Message m \/ e = Persisted m) /\ validate_message c m = Ok () /\
    (reports c m eff \/
     e = Persisted m /\ eff = Broadcast m /\ pending_persistence c !! of_signable (signable m) = Some (signable m)).
Proof.
  intros Hstep Heff. apply bind_Ok_inv in Hstep as (c1 & c2 & [= <- <-] & Hrun).
  assert (forall m, emits quiet m -> m c = (c', Ok l) -> quiet eff) as Hquiet.
  { intros m Hm Hmc. specialize (Hm _ _ _ Hmc). rewrite Forall_forall in Hm. by apply Hm. }
  destruct e as [|h r b|m|m|t|certificate].
  1: { destruct (started c); [done|]. left. eapply Hquiet; [|exact Hrun]. apply emits_bind. intros []. apply quiet_enter_round. }
  5: { left. eapply Hquiet; [|exact Hrun]. apply emits_bind. intros []. apply emits_bind. intros c1.
       destruct (finalized c1); [destruct (bool_decide _); [by apply emits_mret|apply emits_throw]|].
       apply emits_bind. intros []. apply emits_mret. by repeat constructor. }
  all: destruct (negb (started c)); [done|]; destruct (bool_decide _);
    [injection Hrun as _ <-; by apply elem_of_nil in Heff|].
  - left. eapply Hquiet; [|exact Hrun]. apply quiet_proposal_ready.
  - right. exists m. split; [by left|]. apply bind_Ok_inv in Hrun as (c1 & c2 & [= <- <-] & Hrun).
    apply bind_Ok_inv in Hrun as (c1 & [] & [= <- Hval] & Hrun). split; [done|].
    apply accept_message_reports in Hrun. rewrite Forall_forall in Hrun. left. by apply Hrun.
  - right. exists m. split; [by right|]. apply bind_Ok_inv in Hrun as (c1 & c2 & [= <- <-] & Hrun). cbv zeta in Hrun.
    case_bool_decide as Hpend; [done|].
    apply bind_Ok_inv in Hrun as (c1 & [] & [= <- Hval] & Hrun). split; [done|].
    apply bind_Ok_inv in Hrun as (c1 & [] & [= <-] & Hrun).
    apply bind_Ok_inv in Hrun as (c1 & l1 & Hacc & [= _ <-]).
    apply elem_of_cons in Heff as [->|Heff]; [by right|]. left.
    apply accept_message_reports in Hacc. rewrite Forall_forall in Hacc. by apply Hacc.
  - left. eapply Hquiet; [|exact Hrun]. apply quiet_handle_timeout.
Qed.
End effects.
