(* ===== verification/Agreement.v ===== *)
(** * Agreement of the network

    The validators that run the engine, connected by an adversary that delivers
    any event in any order, loses and repeats messages, and speaks for every
    other validator. What it cannot do is sign for them: a vote that passes a
    node's check and names an honest validator is one that validator stored
    ([auth]). A decision becomes a signed vote only once it is stored with its
    safety state, and a node may crash at any point and recover from what it
    stored.

    With at most [floor((n-1)/3)] dishonest validators no two honest nodes
    finalize different blocks. *)

From Stdlib Require Import Lia.
From stdpp Require Import relations.
From S2P Require Import Prelude Errors Crypto Transaction Block Commit ConsensusTypes Engine EngineFacts.

(** A node: its engine, the decisions requested and not yet stored, and the
    decisions stored. *)
Record Node : Type := mk_Node {
  engine : Consensus;
  pending : list Decision;
  durable : list Decision
}.

(** The honest nodes, by validator. *)
Abbreviation Network := (gmap ValidatorId Node).

Section network.
  Context `{MessageValidator}.
  Context (vs : ValidatorSet) (cfg : ConsensusConfig) (height : Z).

(** Recovery: a fresh engine, or the last stored safety state with every stored
    decision reserved. *)
Fixpoint restore_decisions (log : list Decision) : stE Consensus ConsensusError () :=
  match log with
  | [] => mret ()
  | d :: log => _ ← restore_local_decision d.1; restore_decisions log
  end.

Definition recover (me : ValidatorId) (log : list Decision) : result ConsensusError Consensus :=
  match last log with
  | None => consensus_new me vs height cfg
  | Some d =>
      c ← new_with_safety_state me vs height cfg d.2;
      let '(c, restored) := restore_decisions log c in
      _ ← restored;
      Ok c
  end.

(** One step of an honest validator: an event it lets through [trusted], its
    next decision stored, or a crash and the recovery from what it stored. *)
Inductive node_step (me : ValidatorId) (trusted : Event -> Prop) (n : Node) : Node -> Prop :=
| step_event e c' r :
    trusted e -> step e (engine n) = (c', r) ->
    node_step me trusted n (mk_Node c' (pending n ++ result_requested r) (durable n))
| step_persist d rest :
    pending n = d :: rest -> node_step me trusted n (mk_Node (engine n) rest (durable n ++ [d]))
| step_restart c' :
    recover me (durable n) = Ok c' -> node_step me trusted n (mk_Node c' [] (durable n)).

(** The steps between two crashes. *)
Inductive running_step (me : ValidatorId) (n : Node) : Node -> Prop :=
| running_event e c' r :
    step e (engine n) = (c', r) -> running_step me n (mk_Node c' (pending n ++ result_requested r) (durable n))
| running_persist d rest :
    pending n = d :: rest -> running_step me n (mk_Node (engine n) rest (durable n ++ [d])).

Definition node_initial (me : ValidatorId) (n : Node) : Prop :=
  consensus_new me vs height cfg = Ok (engine n) /\ pending n = [] /\ durable n = [].

(** Unforgeability: a vote of an honest validator has been stored by it. *)
Definition auth (net : Network) (w : Vote) : Prop :=
  forall n, net !! v_validator w = Some n -> w ∈ votes_of (durable n).

Inductive net_step (net : Network) : Network -> Prop :=
| net_node v n n' :
    net !! v = Some n -> node_step v (event_ok (auth net)) n n' -> net_step net (<[v := n']> net).

Definition net_initial (net : Network) : Prop := map_Forall node_initial net.

Definition net_inv (net : Network) : Prop :=
  map_Forall (fun v n => node_inv v vs cfg height (auth net) (durable n ++ pending n) (engine n)) net.

(** ** The invariant of one validator over its lifetime *)

Lemma restore_decisions_inv me Auth log l c c' r :
  node_inv me vs cfg height Auth log c -> started c = false -> restore_decisions l c = (c', r) ->
  node_inv me vs cfg height Auth log c'.
Proof.
  revert c. induction l as [|d l IH]; intros c Hc Hs; simpl.
  { by intros [= <- _]. }
  unfold mbind, stE_bind. destruct (restore_local_decision d.1 c) as [c1 r1] eqn:Hr1.
  destruct (restore_local_decision_inv _ _ _ _ _ _ _ _ _ _ Hc Hs Hr1) as [Hc1 Hs1].
  destruct r1; [by apply IH|by intros [= <- _]].
Qed.

Lemma recover_inv me Auth n c :
  node_inv me vs cfg height Auth (durable n ++ pending n) (engine n) ->
  recover me (durable n) = Ok c -> node_inv me vs cfg height Auth (durable n) c.
Proof.
  intros Hn%node_inv_weaken. unfold recover. destruct (durable n) as [|[m ss] log _] eqn:Hd using rev_ind.
  - by intros [Hc _]%(consensus_new_inv me vs cfg height Auth).
  - rewrite last_snoc. intros (c1 & Hc1 & Hrun)%result_bind_Ok_inv.
    destruct (restore_decisions _ _) as [c2 r2] eqn:Hr. apply result_bind_Ok_inv in Hrun as ([] & -> & [= <-]).
    destruct (restored_inv _ _ _ _ _ _ _ _ _ _ Hn Hc1) as [Hinv Hs]. by eapply restore_decisions_inv.
Qed.

Lemma node_initial_inv me Auth n :
  node_initial me n -> node_inv me vs cfg height Auth (durable n ++ pending n) (engine n).
Proof. intros (Hnew & -> & ->). by eapply consensus_new_inv. Qed.

Lemma node_step_inv me Auth n n' :
  node_inv me vs cfg height Auth (durable n ++ pending n) (engine n) -> node_step me (event_ok Auth) n n' ->
  node_inv me vs cfg height Auth (durable n' ++ pending n') (engine n').
Proof.
  intros Hn [e c' r He Hrun|d rest Hd|c' Hrec]; simpl.
  - rewrite app_assoc. by eapply step_inv.
  - rewrite <- app_assoc. simpl. by rewrite <- Hd.
  - rewrite app_nil_r. by eapply recover_inv.
Qed.

Lemma node_run_inv me Auth n n' :
  node_inv me vs cfg height Auth (durable n ++ pending n) (engine n) ->
  rtc (node_step me (event_ok Auth)) n n' ->
  node_inv me vs cfg height Auth (durable n' ++ pending n') (engine n').
Proof. intros Hn Hrun. induction Hrun; [done|]. eauto using node_step_inv. Qed.

Lemma running_node_step me n n' : running_step me n n' -> node_step me (fun _ => True) n n'.
Proof. intros [e c' r Hs|d rest Hd]; [by econstructor|by constructor]. Qed.

(** Without a crash nothing that was handed out is lost. *)
Lemma running_requested me n n' :
  rtc (running_step me) n n' -> durable n ++ pending n `prefix_of` durable n' ++ pending n'.
Proof.
  induction 1 as [n|n1 n2 n3 Hs _ IH]; [done|]. etrans; [|exact IH].
  destruct Hs as [e c' r _|d rest Hd]; simpl.
  - rewrite app_assoc. by apply prefix_app_r.
  - by rewrite Hd, <- app_assoc.
Qed.

Lemma node_steps_durable me trusted n n' : rtc (node_step me trusted) n n' -> durable n `prefix_of` durable n'.
Proof.
  induction 1 as [n|n1 n2 n3 Hs _ IH]; [done|]. etrans; [|exact IH].
  destruct Hs; simpl; [done|by apply prefix_app_r|done].
Qed.

Lemma node_step_durable me trusted n n' : node_step me trusted n n' -> durable n `prefix_of` durable n'.
Proof. intros [ | |]; simpl; [done|by apply prefix_app_r|done]. Qed.

(** ** The invariant of the network *)

Lemma net_step_durable net net' v n :
  net_step net net' -> net !! v = Some n ->
  exists n', net' !! v = Some n' /\ durable n `prefix_of` durable n'.
Proof.
  intros [v' n1 n2 Hv' Hstep] Hn. destruct (decide (v' = v)) as [->|].
  - rewrite Hv' in Hn. injection Hn as ->. exists n2. rewrite lookup_insert_eq. eauto using node_step_durable.
  - exists n. by rewrite lookup_insert_ne.
Qed.

Lemma net_step_dom net net' : net_step net net' -> dom net' = dom net.
Proof. intros [v n n' Hv _]. apply dom_insert_lookup_L. by exists n. Qed.

Lemma net_step_auth net net' w : net_step net net' -> auth net w -> auth net' w.
Proof.
  intros Hstep Hw n' Hn'. assert (is_Some (net !! v_validator w)) as [n Hn].
  { apply elem_of_dom. rewrite <- (net_step_dom _ _ Hstep). apply elem_of_dom. by exists n'. }
  destruct (net_step_durable _ _ _ _ Hstep Hn) as (n2 & Hn2 & [k Hk]).
  rewrite Hn' in Hn2. injection Hn2 as <-. rewrite Hk, votes_of_app. apply elem_of_app. left. by apply Hw.
Qed.

Lemma net_step_inv net net' : net_inv net -> net_step net net' -> net_inv net'.
Proof.
  intros Hinv Hstep v n' Hn'. pose proof (net_step_auth net net') as Hauth.
  destruct Hstep as [u n1 n2 Hu Hnode] eqn:Heq.
  apply (node_inv_mono _ _ _ _ (auth net)); [eauto|].
  apply lookup_insert_Some in Hn' as [[<- <-]|[_ Hn']]; [|by apply Hinv].
  eapply node_step_inv; [by apply Hinv|done].
Qed.

Lemma net_initial_inv net : net_initial net -> net_inv net.
Proof. intros Hinit v n Hn. apply node_initial_inv, Hinit, Hn. Qed.

Lemma net_reachable net net' :
  net_inv net -> rtc net_step net net' ->
  net_inv net' /\ dom net' = dom net /\ (forall w, auth net w -> auth net' w).
Proof.
  intros Hinv Hreach. induction Hreach as [net|net0 net1 net Hstep _ IH]; [done|].
  destruct IH as (Hinv' & Hdom & Hauth); [by eapply net_step_inv|].
  rewrite <- (net_step_dom _ _ Hstep). split_and!; [done..|]. eauto using net_step_auth.
Qed.

(** ** Schedules, executable *)

Inductive Action : Type := Deliver (e : Event) | Store | Crash.

(** One action of a validator that lets through the events [trusted] admits. *)
Definition node_act (me : ValidatorId) (trusted : Event -> bool) (n : Node) (a : Action) : option Node :=
  match a with
  | Deliver e =>
      if trusted e then
        let '(c, r) := step e (engine n) in
        Some (mk_Node c (pending n ++ result_requested r) (durable n))
      else None
  | Store =>
      match pending n with
      | d :: rest => Some (mk_Node (engine n) rest (durable n ++ [d]))
      | [] => None
      end
  | Crash =>
      match recover me (durable n) with
      | Ok c => Some (mk_Node c [] (durable n))
      | Err _ => None
      end
  end.

Fixpoint node_run (me : ValidatorId) (trusted : Event -> bool) (n : Node) (l : list Action) : option Node :=
  match l with
  | [] => Some n
  | a :: l => n' ← node_act me trusted n a; node_run me trusted n' l
  end.

Definition authb (net : Network) (w : Vote) : bool :=
  match net !! v_validator w with
  | Some n => bool_decide (w ∈ votes_of (durable n))
  | None => true
  end.

Definition event_okb (auth : Vote -> bool) (e : Event) : bool :=
  forallb (fun sv => negb (is_ok (mv_validate_vote sv)) || auth (sv_vote sv)) (event_votes e).

Fixpoint net_run (net : Network) (l : list (ValidatorId * Action)) : option Network :=
  match l with
  | [] => Some net
  | (v, a) :: l =>
      n ← net !! v;
      n' ← node_act v (event_okb (authb net)) n a;
      net_run (<[v := n']> net) l
  end.

Lemma event_okb_ok authb (Auth : Vote -> Prop) e :
  (forall w, authb w = true -> Auth w) -> event_okb authb e = true -> event_ok Auth e.
Proof.
  unfold event_okb, event_ok. rewrite forallb_forall. intros Hauth Hall. apply Forall_forall.
  intros sv Hsv%list_elem_of_In Hval. specialize (Hall sv Hsv). rewrite Hval in Hall. by apply Hauth.
Qed.

Lemma node_act_step me (trusted : Event -> bool) (P : Event -> Prop) n a n' :
  (forall e, trusted e = true -> P e) -> node_act me trusted n a = Some n' -> node_step me P n n'.
Proof.
  intros HP. destruct a as [e| |]; simpl.
  - destruct (trusted e) eqn:He; [|done]. destruct (step e (engine n)) as [c r] eqn:Hs. intros [= <-].
    apply (step_event _ _ _ e); [by apply HP|done].
  - destruct (pending n) as [|d rest] eqn:Hp; [done|]. intros [= <-]. by constructor.
  - destruct (recover me (durable n)) as [c|] eqn:Hr; [|done]. intros [= <-]. by constructor.
Qed.

Lemma node_run_reachable me (trusted : Event -> bool) (P : Event -> Prop) n l n' :
  (forall e, trusted e = true -> P e) -> node_run me trusted n l = Some n' -> rtc (node_step me P) n n'.
Proof.
  intros HP. revert n. induction l as [|a l IH]; intros n; simpl; [by intros [= ->]|].
  destruct (node_act me trusted n a) as [n1|] eqn:Ha; [|done]. intros Hrun.
  eapply rtc_l; [by eapply node_act_step|by apply IH].
Qed.

Lemma net_run_reachable net l net' : net_run net l = Some net' -> rtc net_step net net'.
Proof.
  revert net. induction l as [|[v a] l IH]; intros net; simpl; [by intros [= ->]|].
  destruct (net !! v) as [n|] eqn:Hn; [|done]. simpl.
  destruct (node_act v _ n a) as [n'|] eqn:Ha; [|done]. simpl. intros Hrun.
  eapply rtc_l; [|by apply IH]. apply (net_node _ v n); [done|]. eapply node_act_step; [|done].
  intros e. apply event_okb_ok. intros w Hw u Hu. unfold authb in Hw. rewrite Hu in Hw.
  by apply bool_decide_eq_true in Hw.
Qed.

(** ** Quorums meet in an honest validator *)

Definition few_byzantine (net : Network) : Prop :=
  Z.of_nat (length (filter (fun v => v ∉ dom net) (validators vs))) <= (vs_len vs - 1) / 3.

Lemma quorums_meet net r1 k1 x1 r2 k2 x2 :
  validator_set_ok vs -> few_byzantine net ->
  vote_quorum vs cfg height (auth net) r1 k1 x1 -> vote_quorum vs cfg height (auth net) r2 k2 x2 ->
  exists v n, net !! v = Some n /\ the_vote cfg height r1 k1 v x1 ∈ votes_of (durable n) /\
    the_vote cfg height r2 k2 v x2 ∈ votes_of (durable n).
Proof.
  intros Hvs Hbyz (q1 & Hnd1 & Hsub1 & Hq1 & Ha1) (q2 & Hnd2 & Hsub2 & Hq2 & Ha2).
  pose proof (vs_len_pos vs Hvs) as Hpos. pose proof (quorum_size_overlap _ Hpos) as Hover.
  pose proof (NoDup_intersection_length (validators vs) q1 q2 Hnd1 Hnd2 Hsub1 Hsub2) as Hlen.
  unfold few_byzantine, quorum, vs_len in *. set (meet := filter (fun v => v ∈ q2) q1) in *.
  destruct (decide (Exists (fun v => v ∈ dom net) meet)) as [Hex|Hnone].
  - apply Exists_exists in Hex as (v & [Hv2 Hv1]%list_elem_of_filter & [n Hn]%elem_of_dom).
    rewrite Forall_forall in Ha1, Ha2. exists v, n.
    split_and!; [done|by apply (Ha1 v Hv1)|by apply (Ha2 v Hv2)].
  - exfalso. apply not_Exists_Forall in Hnone; [|intros v; apply _].
    assert (length meet <= length (filter (fun v => v ∉ dom net) (validators vs)))%nat; [|lia].
    apply submseteq_length, NoDup_submseteq; [by apply NoDup_filter|].
    rewrite Forall_forall in Hnone. intros v Hv. apply list_elem_of_filter.
    split; [by apply Hnone|]. apply list_elem_of_filter in Hv as [_ Hv]. by apply Hsub1.
Qed.

(** ** Agreement *)

Section agreement.
  Context (net : Network) (Hinv : net_inv net) (Hvs : validator_set_ok vs) (Hbyz : few_byzantine net).

(** The votes an honest node stored obey the rules of its invariant. *)
Lemma stored_vote v n w :
  net !! v = Some n -> w ∈ votes_of (durable n) -> w ∈ votes_of (durable n ++ pending n).
Proof. rewrite votes_of_app. set_solver. Qed.

(** A certified block won a prevote quorum in its round. *)
Lemma committed_polka r b :
  vote_quorum vs cfg height (auth net) r Precommit (BlockValue b) -> polka vs cfg height (auth net) r b.
Proof.
  intros Hq. destruct (quorums_meet _ _ _ _ _ _ _ Hvs Hbyz Hq Hq) as (v & n & Hn & Hw & _).
  apply (ni_hist_polka _ _ _ _ _ _ _ (Hinv v n Hn)). by eapply stored_vote.
Qed.

Lemma polka_unique r b b' :
  polka vs cfg height (auth net) r b -> polka vs cfg height (auth net) r b' -> b = b'.
Proof.
  intros Hp Hp'. destruct (quorums_meet _ _ _ _ _ _ _ Hvs Hbyz Hp Hp') as (v & n & Hn & Hw & Hw').
  pose proof (ni_hist_unique _ _ _ _ _ _ _ (Hinv v n Hn) _ _ (stored_vote _ _ _ Hn Hw)
    (stored_vote _ _ _ Hn Hw') eq_refl eq_refl) as Heq.
  by injection Heq.
Qed.

(** Once a block is certified no other block can win a later prevote quorum. *)
Lemma committed_locks r b :
  vote_quorum vs cfg height (auth net) r Precommit (BlockValue b) ->
  forall r' b', r <= r' -> polka vs cfg height (auth net) r' b' -> b' = b.
Proof.
  intros Hq r'. remember (Z.to_nat (r' - r)) as d eqn:Hd. revert r' Hd.
  induction d as [d IH] using lt_wf_ind. intros r' Hd b' Hle Hp.
  destruct (decide (r' = r)) as [->|Hne]; [eapply polka_unique; [done|by apply committed_polka]|].
  destruct (decide (b' = b)) as [|Hbne]; [done|]. exfalso.
  destruct (quorums_meet _ _ _ _ _ _ _ Hvs Hbyz Hq Hp) as (v & n & Hn & Hw & Hw').
  destruct (ni_hist_rule _ _ _ _ _ _ _ (Hinv v n Hn) r b r' b' (stored_vote _ _ _ Hn Hw)
    (stored_vote _ _ _ Hn Hw')) as (vr & Hvr & Hpvr); [lia|congruence|].
  apply Hbne. apply (IH (Z.to_nat (vr - r))) with (r' := vr); [lia|done|lia|done].
Qed.

Lemma commits_agree r1 b1 r2 b2 :
  vote_quorum vs cfg height (auth net) r1 Precommit (BlockValue b1) ->
  vote_quorum vs cfg height (auth net) r2 Precommit (BlockValue b2) -> b1 = b2.
Proof.
  intros H1 H2. destruct (Z.le_ge_cases r1 r2) as [Hle|Hle].
  - symmetry. by eapply (committed_locks r1); [|done|apply committed_polka].
  - by eapply (committed_locks r2); [|done|apply committed_polka].
Qed.
End agreement.
End network.
