(* ===== verification/Simulation.v ===== *)
(** * The virtual network

    [crates/kcoin-consensus/src/simulation.rs]: the deterministic single-threaded
    network the crate's tests and demos run the engine in, with its virtual
    clock, links and fake signatures. A panic is an error of its own; the
    [assert!] on the number of processed items is the fuel of [process]. *)

From S2P Require Import Prelude Errors Crypto Transaction Block Commit ConsensusTypes Engine.

(** ** The fake signature scheme *)

Definition validate_signature (signer : ValidatorId) (signature : bytes) :
    result EngineValidationError () :=
  if bool_decide (signature = as_bytes signer) then Ok () else Err EngineInvalidSignature.

(** [DeterministicValidator]; the certificate check is the trait's default. *)
Definition DeterministicValidator : MessageValidator := {|
  mv_validate_proposal p := validate_signature (p_proposer (sp_proposal p)) (sp_signature p);
  mv_validate_vote v := validate_signature (v_validator (sv_vote v)) (sv_signature v);
  mv_validate_certificate _ := Ok ()
|}.

Definition sim_sign (m : SignableMessage) : SignedMessage :=
  match m with
  | SignableProposal p => SignedMessageProposal (mk_SignedProposal p (as_bytes (p_proposer p)))
  | SignableVote v => SignedMessageVote (mk_SignedVote v (as_bytes (v_validator v)))
  end.

Definition validator_id (index : byte) : ValidatorId := array_fill 32 index.

(** [expect]: the four ids are distinct ([four_validators_Ok]). *)
Definition four_validators : ValidatorSet :=
  match validator_set_new (validator_id <$> [x00; x01; x02; x03]) with
  | Ok s => s
  | Err _ => mk_ValidatorSet []
  end.

Definition deterministic_block (height round : Z) : BlockId :=
  array_resize 32 (to_be_bytes 8 height ++ to_be_bytes 4 round).

(** ** State *)

Record ScheduledTimeout : Type := mk_ScheduledTimeout {
  st_at : Z;
  st_node : ValidatorId;
  st_timeout : Timeout
}.

Inductive Work : Type :=
| WorkEvent (node : ValidatorId) (e : Event)
| WorkEffect (node : ValidatorId) (e : Effect).

Record VirtualNetwork : Type := mk_VirtualNetwork {
  vn_nodes : gmap ValidatorId Consensus;
  vn_online : gset ValidatorId;
  vn_started : gset ValidatorId;
  vn_links : gset (ValidatorId * ValidatorId);
  vn_timers : list ScheduledTimeout;
  vn_now : Z;
  vn_finalizations : gmap ValidatorId Finalization;
  vn_broadcast_log : list (ValidatorId * SignedMessage);
  vn_effect_log : list (ValidatorId * Effect)
}.

Inductive SimError : Type := SimConsensus (e : ConsensusError) | SimPanic.

Definition vn_set_nodes x n := mk_VirtualNetwork x (vn_online n) (vn_started n) (vn_links n)
  (vn_timers n) (vn_now n) (vn_finalizations n) (vn_broadcast_log n) (vn_effect_log n).
Definition vn_set_online x n := mk_VirtualNetwork (vn_nodes n) x (vn_started n) (vn_links n)
  (vn_timers n) (vn_now n) (vn_finalizations n) (vn_broadcast_log n) (vn_effect_log n).
Definition vn_set_started x n := mk_VirtualNetwork (vn_nodes n) (vn_online n) x (vn_links n)
  (vn_timers n) (vn_now n) (vn_finalizations n) (vn_broadcast_log n) (vn_effect_log n).
Definition vn_set_links x n := mk_VirtualNetwork (vn_nodes n) (vn_online n) (vn_started n) x
  (vn_timers n) (vn_now n) (vn_finalizations n) (vn_broadcast_log n) (vn_effect_log n).
Definition vn_set_timers x t n := mk_VirtualNetwork (vn_nodes n) (vn_online n) (vn_started n) (vn_links n)
  x t (vn_finalizations n) (vn_broadcast_log n) (vn_effect_log n).
Definition vn_set_finalizations x n := mk_VirtualNetwork (vn_nodes n) (vn_online n) (vn_started n) (vn_links n)
  (vn_timers n) (vn_now n) x (vn_broadcast_log n) (vn_effect_log n).
Definition vn_set_broadcasts x n := mk_VirtualNetwork (vn_nodes n) (vn_online n) (vn_started n) (vn_links n)
  (vn_timers n) (vn_now n) (vn_finalizations n) x (vn_effect_log n).
Definition vn_set_effects x n := mk_VirtualNetwork (vn_nodes n) (vn_online n) (vn_started n) (vn_links n)
  (vn_timers n) (vn_now n) (vn_finalizations n) (vn_broadcast_log n) x.

(** In-order iteration of a [BTreeSet] of validators. *)
Definition btree_set (s : gset ValidatorId) : list ValidatorId := sort_by array_leb (elements s).

Definition fully_linked (group : list ValidatorId) : list (ValidatorId * ValidatorId) :=
  filter (fun p => p.1 <> p.2) (from ← group; to ← group; [(from, to)]).

Fixpoint new_nodes (vs : ValidatorSet) (height : Z) (cfg : ConsensusConfig) (l : list ValidatorId) :
    result ConsensusError (gmap ValidatorId Consensus) :=
  match l with
  | [] => Ok ∅
  | v :: l =>
      c ← consensus_new v vs height cfg;
      nodes ← new_nodes vs height cfg l;
      Ok (<[v := c]> nodes)
  end.

Definition network_new (vs : ValidatorSet) (height : Z) (cfg : ConsensusConfig) :
    result ConsensusError VirtualNetwork :=
  nodes ← new_nodes vs height cfg (validators vs);
  Ok (mk_VirtualNetwork nodes (list_to_set (validators vs)) ∅
        (list_to_set (fully_linked (validators vs))) [] 0 ∅ [] []).

(** ** Processing *)

(** One effect: what it enqueues. *)
Definition process_effect (node : ValidatorId) (effect : Effect) (net : VirtualNetwork) :
    VirtualNetwork * list Work :=
  let net := vn_set_effects (vn_effect_log net ++ [(node, effect)]) net in
  if bool_decide (node ∉ vn_online net) then (net, [])
  else
  match effect with
  | RequestProposal height round valid_block _ =>
      (net, [WorkEvent node (ProposalReady height round
               (default (deterministic_block height round) valid_block))])
  | PersistBeforeBroadcast message _ => (net, [WorkEvent node (Persisted (sim_sign message))])
  | Broadcast message =>
      let net := vn_set_broadcasts (vn_broadcast_log net ++ [(node, message)]) net in
      let recipients :=
        filter (fun r => r <> node /\ (node, r) ∈ vn_links net) (btree_set (vn_online net)) in
      (net, (fun r => WorkEvent r (Message message)) <$> recipients)
  | ScheduleTimeout t =>
      (vn_set_timers (vn_timers net ++
         [mk_ScheduledTimeout (saturating_add DURATION_MAX (vn_now net) (to_after t)) node t]) (vn_now net) net, [])
  | Finalize f => (vn_set_finalizations (<[node := f]> (vn_finalizations net)) net, [])
  | EvidenceEffect _ => (net, [])
  end.

(** [nodes.get_mut(&node).expect(..).step(event, &self.verifier)?]. *)
Definition step_node (node : ValidatorId) (e : Event) : stE VirtualNetwork SimError (list Effect) :=
  fun net =>
    match vn_nodes net !! node with
    | None => (net, Err SimPanic)
    | Some c =>
        let '(c, r) := step (H := DeterministicValidator) e c in
        (vn_set_nodes (<[node := c]> (vn_nodes net)) net, map_err SimConsensus r)
    end.

Fixpoint process (fuel : nat) (queue : list Work) : stE VirtualNetwork SimError () :=
  match queue with
  | [] => mret ()
  | work :: queue =>
      match fuel with
      | O => throw SimPanic
      | S fuel =>
          match work with
          | WorkEvent node e =>
              net ← get;
              if bool_decide (node ∉ vn_online net) then process fuel queue
              else
                effects ← step_node node e;
                process fuel (queue ++ (WorkEffect node <$> effects))
          | WorkEffect node effect =>
              net ← get;
              let '(net, work) := process_effect node effect net in
              _ ← put net;
              process fuel (queue ++ work)
          end
      end
  end.

(** [processed < 100_000]. *)
Definition PROCESS_LIMIT : nat := Z.to_nat 99999.
Definition process_all (queue : list Work) : stE VirtualNetwork SimError () := process PROCESS_LIMIT queue.

(** ** The public operations *)

Definition set_online (v : ValidatorId) (online : bool) : stE VirtualNetwork SimError () :=
  net ← get;
  if online then
    _ ← modify (fun net => vn_set_online ({[v]} ∪ vn_online net) net);
    if bool_decide (v ∈ vn_started net) then mret ()
    else
      _ ← modify (fun net => vn_set_started ({[v]} ∪ vn_started net) net);
      process_all [WorkEvent v Start]
  else modify (fun net => vn_set_online (vn_online net ∖ {[v]}) net).

Definition connect (a b : ValidatorId) (net : VirtualNetwork) : VirtualNetwork :=
  vn_set_links ({[(a, b)]} ∪ {[(b, a)]} ∪ vn_links net) net.

Definition disconnect (a b : ValidatorId) (net : VirtualNetwork) : VirtualNetwork :=
  vn_set_links (vn_links net ∖ {[(a, b)]} ∖ {[(b, a)]}) net.

Definition connect_all (net : VirtualNetwork) : VirtualNetwork :=
  vn_set_links (list_to_set (fully_linked (btree_set (dom (vn_nodes net))))) net.

Definition partition (groups : list (list ValidatorId)) (net : VirtualNetwork) : VirtualNetwork :=
  vn_set_links (list_to_set (groups ≫= fully_linked)) net.

(** The loop of [start] over the online validators, its effects collected. *)
Fixpoint start_nodes (nodes : list ValidatorId) : stE VirtualNetwork SimError (list Work) :=
  match nodes with
  | [] => mret []
  | v :: nodes =>
      net ← get;
      if bool_decide (v ∈ vn_started net) then start_nodes nodes
      else
        _ ← modify (fun net => vn_set_started ({[v]} ∪ vn_started net) net);
        emitted ← step_node v Start;
        rest ← start_nodes nodes;
        mret ((WorkEffect v <$> emitted) ++ rest)
  end.

Definition start : stE VirtualNetwork SimError () :=
  net ← get;
  effects ← start_nodes (btree_set (vn_online net));
  process_all effects.

Definition inject (recipient : ValidatorId) (m : SignedMessage) : stE VirtualNetwork SimError () :=
  process_all [WorkEvent recipient (Message m)].

Definition deliver_certificate (recipient : ValidatorId) (c : ConsensusCertificate) :
    stE VirtualNetwork SimError () :=
  process_all [WorkEvent recipient (Certificate c)].

Definition min_list (l : list Z) : option Z :=
  match l with [] => None | x :: l => Some (foldl Z.min x l) end.

Definition advance_to_next_timeout : stE VirtualNetwork SimError bool :=
  net ← get;
  let online := filter (fun t => st_node t ∈ vn_online net) (vn_timers net) in
  match min_list ((fun t => Z.max (st_at t) (vn_now net)) <$> online) with
  | None => mret false
  | Some next =>
      let is_due t := st_at t <= next /\ st_node t ∈ vn_online net in
      let due := filter is_due (vn_timers net) in
      let retained := filter (fun t => ~ is_due t) (vn_timers net) in
      _ ← put (vn_set_timers retained next net);
      let due := sort_by (fun a b => array_leb (st_node a) (st_node b)) due in
      _ ← process_all ((fun t => WorkEvent (st_node t) (TimeoutEvent (st_timeout t))) <$> due);
      mret true
  end.

(** ** A first run *)

Lemma four_validators_Ok :
  validator_set_new (validator_id <$> [x00; x01; x02; x03]) = Ok four_validators.
Proof. vm_compute. reflexivity. Qed.

Definition four_nodes : VirtualNetwork :=
  match network_new four_validators 1 (for_chain (str "kcoin-test")) with
  | Ok net => net
  | Err _ => mk_VirtualNetwork ∅ ∅ ∅ ∅ [] 0 ∅ [] []
  end.

(** A scenario: operations run one after the other; [None] on the first error. *)
Definition run_op {A} (m : stE VirtualNetwork SimError A) (net : option VirtualNetwork) : option VirtualNetwork :=
  net ← net;
  match m net with (net, Ok _) => Some net | (_, Err _) => None end.

Fixpoint timeouts (n : nat) (net : option VirtualNetwork) : option VirtualNetwork :=
  match n with O => net | S n => timeouts n (run_op advance_to_next_timeout net) end.

Definition finalized_blocks (net : VirtualNetwork) : list (option BlockId) :=
  (fun v => f_block_id <$> vn_finalizations net !! v) <$> validators four_validators.
