(* ===== verification/ConsensusReference.v ===== *)
(** * Concrete consensus messages for the witnesses

    Codecs for the consensus types, an engine validator that checks the toy
    signatures of [Reference], and signed messages of the fixture validators. *)

From Stdlib Require Import Lia.
From S2P Require Import Prelude Errors Crypto Transaction Block Commit ConsensusTypes Engine Reference Fixtures.

Program Definition vote_codec : codec Vote :=
  retract_codec
    (fun v => ((v_chain_id v, (v_height v, v_round v)), (v_kind v, (v_validator v, v_value v))))
    (fun '((c, (h, r)), (k, (i, x))) => Some (mk_Vote c h r k i x)) _
    (pair_codec (pair_codec ustring_codec (pair_codec Z_codec Z_codec))
       (pair_codec (countable_codec VoteKind) (pair_codec (array_codec 32)
          (retract_codec (fun v => match v with Nil => None | BlockValue b => Some b end)
             (fun o => Some (match o with Some b => BlockValue b | None => Nil end)) _
             (option_codec (array_codec 32)))))).
Next Obligation. by intros []. Qed.
Next Obligation. by intros []. Qed.

Program Definition signed_vote_codec : codec SignedVote :=
  retract_codec (fun v => (sv_vote v, sv_signature v)) (fun '(v, s) => Some (mk_SignedVote v s)) _
    (pair_codec vote_codec bytes_codec).
Next Obligation. by intros []. Qed.

Program Definition proposal_codec : codec Proposal :=
  retract_codec
    (fun p => ((p_chain_id p, (p_height p, p_round p)),
               ((p_proposer p, p_block_id p), (p_valid_round p, p_valid_round_proof p))))
    (fun '((c, (h, r)), ((p, b), (vr, vp))) => Some (mk_Proposal c h r p b vr vp)) _
    (pair_codec (pair_codec ustring_codec (pair_codec Z_codec Z_codec))
       (pair_codec (pair_codec (array_codec 32) (array_codec 32))
          (pair_codec (option_codec Z_codec) (list_codec signed_vote_codec)))).
Next Obligation. by intros []. Qed.

Program Definition signed_proposal_codec : codec SignedProposal :=
  retract_codec (fun p => (sp_proposal p, sp_signature p)) (fun '(p, s) => Some (mk_SignedProposal p s)) _
    (pair_codec proposal_codec bytes_codec).
Next Obligation. by intros []. Qed.

Program Definition signable_codec : codec SignableMessage :=
  retract_codec (fun m => match m with SignableProposal p => inl p | SignableVote v => inr v end)
    (fun s => Some (match s with inl p => SignableProposal p | inr v => SignableVote v end)) _
    (sum_codec proposal_codec vote_codec).
Next Obligation. by intros []. Qed.

Program Definition signed_message_codec : codec SignedMessage :=
  retract_codec (fun m => match m with SignedMessageProposal p => inl p | SignedMessageVote v => inr v end)
    (fun s => Some (match s with inl p => SignedMessageProposal p | inr v => SignedMessageVote v end)) _
    (sum_codec signed_proposal_codec signed_vote_codec).
Next Obligation. by intros []. Qed.

Program Definition safety_state_codec : codec SafetyState :=
  retract_codec
    (fun s => ((ss_height s, ss_round s), ((ss_locked_round s, ss_locked_block s),
               ((ss_valid_round s, ss_valid_block s), ss_valid_round_proof s))))
    (fun '((h, r), ((lr, lb), ((vr, vb), vp))) => Some (mk_SafetyState h r lr lb vr vb vp)) _
    (pair_codec (pair_codec Z_codec Z_codec)
       (pair_codec (pair_codec (option_codec Z_codec) (option_codec (array_codec 32)))
          (pair_codec (pair_codec (option_codec Z_codec) (option_codec (array_codec 32)))
             (list_codec signed_vote_codec)))).
Next Obligation. by intros []. Qed.

Module ConsensusRef.
#[export] Instance signable_borsh : Borsh SignableMessage := codec_borsh signable_codec.
#[export] Instance signed_message_borsh : Borsh SignedMessage := codec_borsh signed_message_codec.
#[export] Instance safety_state_borsh : Borsh SafetyState := codec_borsh safety_state_codec.
#[export] Instance signable_laws : BorshLaws SignableMessage := codec_borsh_laws signable_codec.
#[export] Instance signed_message_laws : BorshLaws SignedMessage := codec_borsh_laws signed_message_codec.
#[export] Instance safety_state_laws : BorshLaws SafetyState := codec_borsh_laws safety_state_codec.
End ConsensusRef.
Export ConsensusRef.

(** Signatures checked, everything else accepted. *)
Definition Ed25519Validator : MessageValidator := {|
  mv_validate_proposal := verify_ed25519_proposal;
  mv_validate_vote := verify_ed25519_vote;
  mv_validate_certificate _ := Ok ()
|}.

Definition sign_signable (k : array 32) (m : SignableMessage) : bytes :=
  match signing_bytes m with
  | Ok b => as_bytes (ed_sign (Ed25519 := ed25519) k b)
  | Err _ => []
  end.

Definition ed_vote (k : array 32) (height round : Z) (kind : VoteKind) (value : VoteValue) : SignedVote :=
  let v := mk_Vote (str "kcoin-test") height round kind k value in
  mk_SignedVote v (sign_signable k (SignableVote v)).

Definition ed_set : ValidatorSet := mk_ValidatorSet validators4.
Definition ed_config : ConsensusConfig := for_chain (str "kcoin-test").

Lemma ed_set_new : validator_set_new validators4 = Ok ed_set.
Proof. vm_compute. reflexivity. Qed.

Definition ed_engine : Consensus :=
  match consensus_new (key x14) ed_set 1 ed_config with
  | Ok c => c
  | Err _ => mk_Consensus (key x14) ed_set ed_config 1 0 PhasePropose false None None None None None [] ∅ ∅ ∅ ∅ ∅
  end.

Lemma ed_engine_new : consensus_new (key x14) ed_set 1 ed_config = Ok ed_engine.
Proof. vm_compute. reflexivity. Qed.

(** The precommits of the other three validators. *)
Definition ed_events (b : BlockId) : list Event :=
  Start :: ((fun k => Message (SignedMessageVote (ed_vote k 1 0 Precommit (BlockValue b)))) <$> [key x11; key x12; key x13]).
