(* ===== verification/ConsensusSpec.v ===== *)
(** * What the consensus engine guarantees

    Agreement of the network, the voting discipline of one validator across
    crashes, the ordering of storage and broadcast, bounded memory, and the
    certificates the engine hands to the protocol crate. *)

From Stdlib Require Import Lia.
From stdpp Require Import relations.
From S2P Require Import Prelude Errors Crypto Transaction Block Commit ConsensusTypes Engine EngineFacts EngineRules Agreement Simulation Reference Fixtures.

(** ** Runs used by the witnesses *)

Definition v0 : ValidatorId := validator_id x00.
Definition v1 : ValidatorId := validator_id x01.
Definition v2 : ValidatorId := validator_id x02.
Definition v3 : ValidatorId := validator_id x03.
Definition test_config : ConsensusConfig := for_chain (str "kcoin-test").
Definition block_a : BlockId := deterministic_block 1 0.
Definition block_b : BlockId := deterministic_block 1 7.

Definition fresh (v : ValidatorId) : Consensus :=
  match consensus_new v four_validators 1 test_config with
  | Ok c => c
  | Err _ => mk_Consensus v four_validators test_config 1 0 PhasePropose false None None None None None [] ∅ ∅ ∅ ∅ ∅
  end.

(** Three honest validators; the fourth is the adversary. *)
Definition honest : list ValidatorId := [v0; v1; v2].
Definition net_start : Network := list_to_map ((fun v => (v, mk_Node (fresh v) [] [])) <$> honest).

Definition proposal_of (v : ValidatorId) (round : Z) (b : BlockId) : SignedMessage :=
  sim_sign (SignableProposal (mk_Proposal (str "kcoin-test") 1 round v b None [])).
Definition signed_vote (v : ValidatorId) (round : Z) (k : VoteKind) (value : VoteValue) : SignedVote :=
  mk_SignedVote (mk_Vote (str "kcoin-test") 1 round k v value) (as_bytes v).
Definition vote_of (v : ValidatorId) (round : Z) (k : VoteKind) (value : VoteValue) : SignedMessage :=
  SignedMessageVote (signed_vote v round k value).
Definition timeout_event (p : Phase) (round : Z) : Event :=
  TimeoutEvent (mk_Timeout 1 round p (timeout_for test_config p round)).
Definition timeout_at (p : Phase) (round : Z) : Action := Deliver (timeout_event p round).

(** Validators store their next decision and hear of it; a message reaches
    several validators. *)
Definition store_all (m : ValidatorId -> SignedMessage) (l : list ValidatorId) : list (ValidatorId * Action) :=
  l ≫= fun v => [(v, Store); (v, Deliver (Persisted (m v)))].
Definition deliver_all (l : list ValidatorId) (m : SignedMessage) : list (ValidatorId * Action) :=
  (fun v => (v, Deliver (Message m))) <$> l.

(** The adversary proposes nothing, sends conflicting prevotes, and the honest
    validators finalize block [a] in round 0. *)
Definition schedule : list (ValidatorId * Action) :=
  ((fun v => (v, Deliver Start)) <$> honest) ++
  [(v0, Deliver (ProposalReady 1 0 block_a))] ++
  store_all (fun v => proposal_of v 0 block_a) [v0] ++
  deliver_all [v1; v2] (proposal_of v0 0 block_a) ++
  store_all (fun v => vote_of v 0 Prevote (BlockValue block_a)) honest ++
  deliver_all [v1] (vote_of v3 0 Prevote (BlockValue block_b)) ++
  deliver_all [v0; v2] (vote_of v3 0 Prevote (BlockValue block_a)) ++
  deliver_all [v1; v2] (vote_of v0 0 Prevote (BlockValue block_a)) ++
  deliver_all [v0; v2] (vote_of v1 0 Prevote (BlockValue block_a)) ++
  deliver_all [v0; v1] (vote_of v2 0 Prevote (BlockValue block_a)) ++
  store_all (fun v => vote_of v 0 Precommit (BlockValue block_a)) honest ++
  deliver_all [v1; v2] (vote_of v0 0 Precommit (BlockValue block_a)) ++
  deliver_all [v0; v2] (vote_of v1 0 Precommit (BlockValue block_a)).

(** [v2] has finalized; it crashes and recovers, and the others finalize. *)
Definition schedule_after : list (ValidatorId * Action) :=
  (v2, Crash) :: deliver_all [v0; v1] (vote_of v2 0 Precommit (BlockValue block_a)).


#[local] Existing Instance DeterministicValidator.

Definition run_net (net : Network) (l : list (ValidatorId * Action)) : Network :=
  default ∅ (net_run four_validators test_config 1 net l).
Definition net_mid : Network := run_net net_start schedule.
Definition net_end : Network := run_net net_mid schedule_after.

Definition is_some {A} (o : option A) : bool := match o with Some _ => true | None => false end.

Lemma run_net_reach net l :
  is_some (net_run four_validators test_config 1 net l) = true ->
  rtc (net_step four_validators test_config 1) net (run_net net l).
Proof.
  unfold run_net. destruct (net_run _ _ _ net l) as [net'|] eqn:Hrun; [|done].
  intros _. by eapply net_run_reachable.
Qed.

Lemma fresh_initial v : v ∈ validators four_validators -> node_initial four_validators test_config 1 v (mk_Node (fresh v) [] []).
Proof.
  intros Hv. split; [|done]. cbn [engine].
  repeat (apply elem_of_cons in Hv as [->|Hv]; [vm_compute; reflexivity|]). by apply elem_of_nil in Hv.
Qed.

Lemma net_start_initial : net_initial four_validators test_config 1 net_start.
Proof.
  intros v n Hn. apply elem_of_list_to_map_2, list_elem_of_fmap in Hn as (v' & [= -> ->] & Hv).
  apply fresh_initial. apply elem_of_cons in Hv as [->|Hv]; [decide_now|].
  apply elem_of_cons in Hv as [->|Hv]; [decide_now|]. apply list_elem_of_singleton in Hv as ->. decide_now.
Qed.

Lemma net_start_few : few_byzantine four_validators net_start.
Proof. vm_compute. discriminate. Qed.

(** ** Agreement *)

Section agreement.
  Context `{MessageValidator}.

(** C1. Agreement. While at most a third of the validators, rounded down, is
    dishonest, honest validators never finalize different blocks at a height:
    not at the same time and not at different times, under any delivery order,
    loss, repetition, forged content or crash and recovery. *)
Theorem agreement l vs cfg height net0 net1 net2 u w m n f g :
  validator_set_new l = Ok vs -> few_byzantine vs net0 -> net_initial vs cfg height net0 ->
  rtc (net_step vs cfg height) net0 net1 -> rtc (net_step vs cfg height) net1 net2 ->
  net1 !! u = Some m -> finalized (engine m) = Some f ->
  net2 !! w = Some n -> finalized (engine n) = Some g -> f_block_id f = f_block_id g.
Proof.
  intros (-> & Hne & Hnd)%validator_set_new_Ok Hbyz Hinit%net_initial_inv Hrun1 Hrun2 Hu Hf Hw Hg.
  destruct (net_reachable _ _ _ _ _ Hinit Hrun1) as (Hinv1 & Hdom1 & _).
  destruct (net_reachable _ _ _ _ _ Hinv1 Hrun2) as (Hinv2 & Hdom2 & Hauth).
  unshelve eapply (commits_agree (mk_ValidatorSet l) cfg height net2 Hinv2 _ _ (f_round f) _ (f_round g)).
  - by split.
  - unfold few_byzantine in *. by rewrite Hdom2, Hdom1.
  - eapply vote_quorum_mono; [exact Hauth|]. by apply (ni_final _ _ _ _ _ _ _ (Hinv1 u m Hu)).
  - by apply (ni_final _ _ _ _ _ _ _ (Hinv2 w n Hw)).
Qed.

(** ** The votes of one validator *)




(** C7. The lock: a validator that precommitted a block in some round
    prevotes a different block later only for a proposal that more than two
    thirds of the validators prevoted in a round after its precommit; [Auth] is
    any set of votes that holds every validly signed vote it received. *)
Theorem lock_respected me vs cfg height Auth n0 n r1 b r2 b' :
  node_initial vs cfg height me n0 -> rtc (node_step vs cfg height me (event_ok Auth)) n0 n ->
  the_vote cfg height r1 Precommit me (BlockValue b) ∈ votes_of (durable n ++ pending n) ->
  the_vote cfg height r2 Prevote me (BlockValue b') ∈ votes_of (durable n ++ pending n) ->
  r1 < r2 -> b <> b' ->
  exists vr signers, r1 < vr < r2 /\ NoDup signers /\ signers ⊆ validators vs /\
    quorum vs <= Z.of_nat (length signers) /\
    Forall (fun v => Auth (the_vote cfg height vr Prevote v (BlockValue b'))) signers.
Proof.
  intros Hinit Hrun H1 H2 Hlt Hne.
  assert (node_inv me vs cfg height Auth (durable n ++ pending n) (engine n)) as Hinv.
  { eapply node_run_inv; [by apply (node_initial_inv vs cfg height me), Hinit|done]. }
  destruct (ni_hist_rule _ _ _ _ _ _ _ Hinv _ _ _ _ H1 H2 Hlt Hne) as (vr & Hvr & q & Hq). by exists vr, q.
Qed.

(** ** Storage before broadcast *)

End agreement.

(** ** Witnesses *)

Definition finalized_block (net : Network) (v : ValidatorId) : option BlockId :=
  n ← net !! v; f_block_id <$> finalized (engine n).

Lemma finalized_block_Some net v b :
  finalized_block net v = Some b ->
  exists n f, net !! v = Some n /\ finalized (engine n) = Some f /\ b = f_block_id f.
Proof.
  unfold finalized_block. destruct (net !! v) as [n|] eqn:Hn; [|done]. simpl.
  destruct (finalized (engine n)) as [f|] eqn:Hf; [|done]. simpl. intros [= <-]. by exists n, f.
Qed.

(** [v2] finalized before its crash what [v0] finalizes after it. *)
Lemma agreement_witness :
  finalized_block net_mid v2 = Some block_a /\ finalized_block net_mid v0 = None /\
  exists m n f g, net_mid !! v2 = Some m /\ finalized (engine m) = Some f /\
    net_end !! v0 = Some n /\ finalized (engine n) = Some g /\ f_block_id f = f_block_id g.
Proof.
  split; [decide_now|]. split; [decide_now|].
  destruct (finalized_block_Some net_mid v2 block_a) as (m & f & Hm & Hf & _); [decide_now|].
  destruct (finalized_block_Some net_end v0 block_a) as (n & g & Hn & Hg & _); [decide_now|].
  exists m, n, f, g. split_and!; [done..|].
  apply (agreement _ four_validators test_config 1 net_start net_mid net_end v2 v0 m n f g
    four_validators_Ok net_start_few net_start_initial); [apply run_net_reach; vm_compute; reflexivity..|done|done|done|done].
Defined.


(** The life of [v1]: it precommits [a] in round 0, crashes, times out through
    round 1, and in round 2 prevotes [b] for a proof that [b] had a quorum of
    prevotes in round 1. *)
Definition polka_b : list SignedVote :=
  (fun v => signed_vote v 1 Prevote (BlockValue block_b)) <$> [v0; v2; v3].
Definition reproposal : SignedMessage :=
  sim_sign (SignableProposal (mk_Proposal (str "kcoin-test") 1 2 v2 block_b (Some 1) polka_b)).
Definition life : list Action :=
  [Deliver Start; Deliver (Message (proposal_of v0 0 block_a));
   Store; Deliver (Persisted (vote_of v1 0 Prevote (BlockValue block_a)));
   Deliver (Message (vote_of v0 0 Prevote (BlockValue block_a)));
   Deliver (Message (vote_of v2 0 Prevote (BlockValue block_a)));
   Store; Crash; Deliver Start;
   timeout_at PhasePropose 1; timeout_at PhasePrevote 1; timeout_at PhasePrecommit 1;
   Deliver (Message reproposal); Store].

Definition life_votes : list Vote :=
  sv_vote <$> (polka_b ++ ((fun v => signed_vote v 0 Prevote (BlockValue block_a)) <$> [v0; v1; v2])).
Definition life_start : Node := mk_Node (fresh v1) [] [].
Definition run_life (n : Node) (l : list Action) : option Node :=
  node_run four_validators test_config 1 v1 (event_okb (fun w => bool_decide (w ∈ life_votes))) n l.
Definition life_end : Node := default life_start (run_life life_start life).

Lemma run_life_reach n l :
  is_some (run_life n l) = true ->
  rtc (node_step four_validators test_config 1 v1 (event_ok (fun w => w ∈ life_votes))) n (default n (run_life n l)).
Proof.
  destruct (run_life n l) as [n'|] eqn:Hrun; [|done]. intros _.
  eapply node_run_reachable; [|exact Hrun]. intros e. apply event_okb_ok. intros w. apply bool_decide_eq_true_1.
Qed.



Lemma life_initial : node_initial four_validators test_config 1 v1 life_start.
Proof. apply fresh_initial. decide_now. Qed.

Lemma life_end_reach :
  rtc (node_step four_validators test_config 1 v1 (event_ok (fun w => w ∈ life_votes))) life_start life_end.
Proof. apply (run_life_reach life_start life). vm_compute. reflexivity. Qed.






Lemma lock_respected_witness :
  exists vr signers, 0 < vr < 2 /\ NoDup signers /\ signers ⊆ validators four_validators /\
    quorum four_validators <= Z.of_nat (length signers) /\
    Forall (fun v => the_vote test_config 1 vr Prevote v (BlockValue block_b) ∈ life_votes) signers.
Proof.
  apply (lock_respected v1 four_validators test_config 1 (fun w => w ∈ life_votes) life_start life_end
    0 block_a 2 block_b life_initial life_end_reach); [decide_now|decide_now|lia|].
  intros Heq. apply (bool_decide_eq_true_2 (block_a = block_b)) in Heq. vm_compute in Heq. discriminate.
Defined.

