(* ===== verification/EngineSpec.v ===== *)
(** * What one engine guarantees

    Finality and errors of a single engine, its memory, its quorum counting,
    evidence, timeouts and proposers, and the two-way bridge between its
    certificates and those of the protocol crate. *)

From Stdlib Require Import Lia.
From S2P Require Import Prelude Errors Crypto Transaction Block Commit ConsensusTypes Engine EngineFacts EngineRules Agreement Simulation Reference Fixtures ConsensusReference ConsensusSpec.

Section engine.
  Context `{MessageValidator}.

(** An engine never regresses: fed any events, it keeps its identity,
    configuration and height, its round never decreases and stays below the
    configured limit, and a finalization, once there, stays for ever. *)
Theorem engine_never_regresses me vs height cfg c0 events events' :
  config_ok cfg -> consensus_new me vs height cfg = Ok c0 ->
  let c := run_events c0 events in
  let c' := run_events c events' in
  local_id c' = me /\ vset c' = vs /\ config c' = cfg /\ con_height c' = height /\
  0 <= con_round c <= con_round c' /\ con_round c' < max_rounds_per_height cfg /\
  (forall f, finalized c = Some f -> finalized c' = Some f).
Proof.
  intros Hcfg Hnew c c'. destruct (run_wf _ _ _ _ _ events Hcfg Hnew) as (Hwf & Hl & Hv & Hc & Hh).
  fold c in Hwf, Hl, Hv, Hc, Hh.
  destruct (run_events_progress c events' Hwf) as ([] & Hwf' & _).
  subst c'. set (c' := run_events c events') in *. clearbody c' c.
  pose proof (wf_round _ Hwf). pose proof (wf_round _ Hwf') as Hmax.
  rewrite ev_config, Hc in Hmax. split_and!; try congruence; try lia; done.
Qed.

(** A finalized engine is frozen: it ignores every further event, except
    that a valid certificate for another block is reported as a conflict; its
    state never changes again. *)
Theorem finalized_engine_frozen c f e :
  finalized c = Some f -> started c = true ->
  step e c = (c, match e with
                 | Start => Err AlreadyStarted
                 | Certificate certificate =>
                     _ ← validate_certificate c certificate;
                     if bool_decide (f_block_id f = c_block_id certificate) then Ok []
                     else Err (ConflictingCommit (f_block_id f) (c_block_id certificate))
                 | _ => Ok []
                 end).
Proof.
  intros Hf Hs. unfold step. rewrite (bind_run_Ok get _ c c c eq_refl).
  destruct e; rewrite ?Hs; cbn [negb]; rewrite ?(bool_decide_eq_true_2 (is_Some (finalized c))) by (by exists f); try done.
  destruct (validate_certificate c c0) as [[]|e] eqn:Hval; [|done].
  rewrite (bind_run_Ok (lift _) _ c c () eq_refl). unfold finalize.
  rewrite (bind_run_Ok get _ c c c eq_refl), Hf. by destruct (bool_decide _).
Qed.

(** ** Memory *)

(** Memory is bounded, whatever the network sends: at most
    [max_cached_rounds + max_round_ahead] rounds are cached, with at most one
    proposal and, for each kind, one vote per validator in each. *)
Theorem memory_bounded me vs height cfg c0 events :
  config_ok cfg -> consensus_new me vs height cfg = Ok c0 ->
  let c := run_events c0 events in
  cached_round_count c <= max_cached_rounds cfg + max_round_ahead cfg /\
  forall round kind, vote_count c round kind <= vs_len vs.
Proof.
  intros Hcfg Hnew c. destruct (run_wf _ _ _ _ _ events Hcfg Hnew) as (Hwf & Hl & Hv & Hc & Hh).
  fold c in Hwf, Hl, Hv, Hc, Hh.
  rewrite <- Hc, <- Hv. split; [by apply cached_round_count_bound|]. intros round kind. by apply vote_count_bound.
Qed.

(** ** Counting votes *)

(** The cached votes of a round and kind, and those for a value. *)
Definition cached (c : Consensus) (r : Z) (k : VoteKind) : gmap ValidatorId SignedVote :=
  default ∅ (votes c !! (r, k)).
Definition votes_for (c : Consensus) (r : Z) (k : VoteKind) (value : VoteValue) : list SignedVote :=
  filter (fun sv => v_value (sv_vote sv) = value) (btree_values array_leb (cached c r k)).

Lemma votes_for_none c r k value : votes c !! (r, k) = None -> votes_for c r k value = [].
Proof.
  intros Hnone. unfold votes_for, cached. rewrite Hnone. unfold btree_values, btree_entries. simpl. by rewrite map_to_list_empty.
Qed.

Lemma quorum_votes_votes_for c r k value l :
  quorum_votes c r k = Some (value, l) -> l = votes_for c r k value /\ quorum (vset c) <= Z.of_nat (length l).
Proof. intros (m & Hm & -> & Hq)%quorum_votes_Some. unfold votes_for, cached. by rewrite Hm. Qed.

Lemma group_votes_is l value :
  filter (fun sv => v_value (sv_vote sv) = value) l <> [] ->
  group_votes l !! value = Some (filter (fun sv => v_value (sv_vote sv) = value) l).
Proof.
  intros Hne. unfold group_votes. rewrite group_votes_lookup.
  by destruct (decide (filter _ l = [])); [|rewrite lookup_empty].
Qed.

Lemma votes_for_disjoint c r k value value' :
  value <> value' -> engine_wf c ->
  Z.of_nat (length (votes_for c r k value)) + Z.of_nat (length (votes_for c r k value')) <= vs_len (vset c).
Proof.
  intros Hne Hwf. pose proof (vote_count_bound c r k Hwf) as Hbound. unfold vote_count in Hbound.
  destruct (votes c !! (r, k)) as [m|] eqn:Hm; [|rewrite !votes_for_none by done; simpl; lia].
  unfold votes_for, cached. rewrite Hm. simpl.
  transitivity (Z.of_nat (length (btree_values array_leb m))).
  - rewrite <- Nat2Z.inj_add. apply inj_le. generalize (btree_values array_leb m) as l.
    induction l as [|sv l IH]; [done|]. rewrite !filter_cons.
    destruct (decide (v_value (sv_vote sv) = value)), (decide (v_value (sv_vote sv) = value')); simpl; try lia.
    congruence.
  - enough (length (btree_values array_leb m) = size m) by lia.
    unfold btree_values, btree_entries. by rewrite length_fmap, sort_by_Permutation, length_map_to_list.
Qed.

(** Quorum counting is exact: a value is reported, with all its votes,
    exactly when it has at least a quorum of the cached votes of its round and
    kind; so at most one value is ever reported. *)
Theorem quorum_votes_exact c r k value l :
  engine_wf c -> validator_set_ok (vset c) ->
  quorum_votes c r k = Some (value, l) <->
  l = votes_for c r k value /\ quorum (vset c) <= Z.of_nat (length l).
Proof.
  intros Hwf Hvs. split; [apply quorum_votes_votes_for|]. intros [-> Hq].
  pose proof (vs_len_pos _ Hvs) as Hpos. pose proof (quorum_size_range _ Hpos) as Hrange. unfold quorum in *.
  destruct (quorum_votes c r k) as [[value' l']|] eqn:Hfound.
  - destruct (quorum_votes_votes_for _ _ _ _ _ Hfound) as [-> Hq']. unfold quorum in Hq'.
    destruct (decide (value' = value)) as [->|Hne]; [done|].
    pose proof (votes_for_disjoint c r k _ _ Hne Hwf). pose proof (quorum_size_overlap _ Hpos). 
    assert (0 <= (vs_len (vset c) - 1) / 3) by (apply Z.div_pos; lia). lia.
  - exfalso. destruct (votes c !! (r, k)) as [m|] eqn:Hm; [|rewrite votes_for_none in Hq by done; simpl in Hq; lia].
    assert (votes_for c r k value = filter (fun sv => v_value (sv_vote sv) = value) (btree_values array_leb m)) as Heq
      by (unfold votes_for, cached; by rewrite Hm).
    rewrite Heq in Hq. unfold quorum_votes in Hfound. rewrite Hm in Hfound. simpl in Hfound.
    pose proof (find_none _ _ Hfound (value, filter (fun sv => v_value (sv_vote sv) = value) (btree_values array_leb m))) as Hnone.
    apply Z.leb_le in Hq. unfold quorum in Hnone. cbn [snd] in Hnone. rewrite Hq in Hnone.
    cut (true = false); [done|]. apply Hnone, list_elem_of_In, elem_of_btree_entries, group_votes_is.
    intros Hnil. rewrite Hnil in Hq. apply Z.leb_le in Hq. simpl in Hq. lia.
Qed.

(** ** Evidence *)

(** Evidence is sound: an engine accuses a validator only with two
    different messages, both carrying a signature that passed the check, for
    the same chain, height and round, and of the same kind. *)
Theorem evidence_sound me vs height cfg c0 events e c' l evidence :
  config_ok cfg -> consensus_new me vs height cfg = Ok c0 ->
  step e (run_events c0 events) = (c', Ok l) -> EvidenceEffect evidence ∈ l ->
  match evidence with
  | DoubleVote v first second =>
      first <> second /\ mv_validate_vote first = Ok () /\ mv_validate_vote second = Ok () /\
      v ∈ validators vs /\ exists r k x y,
        sv_vote first = mk_Vote (cfg_chain_id cfg) height r k v x /\
        sv_vote second = mk_Vote (cfg_chain_id cfg) height r k v y
  | DoubleProposal v first second =>
      first <> second /\ mv_validate_proposal first = Ok () /\ mv_validate_proposal second = Ok () /\
      let p := sp_proposal first in let q := sp_proposal second in
      p_proposer p = v /\ p_proposer q = v /\ p_chain_id p = p_chain_id q /\ p_height p = height /\
      p_height q = height /\ p_round p = p_round q /\ v = proposer vs height (p_round p)
  end.
Proof.
  intros Hcfg Hnew Hstep Hin. destruct (run_wf _ _ _ _ _ events Hcfg Hnew) as (Hwf & Hl & Hvs & Hc & Hheight).
  set (c := run_events c0 events) in *.
  destruct (step_effects _ _ _ _ _ Hstep Hin) as [[]|(m & _ & Hval & [Hrep|(_ & [=] & _)])].
  destruct evidence as [v first second|v first second]; simpl in Hrep.
  - destruct Hrep as (-> & Hne & -> & by_validator & Hm & Hfirst).
    apply validate_vote_Ok in Hval as (Hval & Hch & Hh & Hv).
    destruct (wf_vote _ Hwf _ _ _ _ _ Hm Hfirst) as (_ & Hval' & Heq).
    rewrite Hc, Hheight in Heq. rewrite Hvs in Hv. rewrite Hc in Hch. rewrite Hheight in Hh.
    split_and!; [done..|]. exists (v_round (sv_vote second)), (v_kind (sv_vote second)), (v_value (sv_vote first)), (v_value (sv_vote second)).
    split; [done|]. rewrite <- Hch, <- Hh. by destruct (sv_vote second).
  - destruct Hrep as (-> & Hne & -> & Hfirst).
    apply validate_proposal_Ok in Hval as (Hval & Hch & Hh & Hp).
    destruct (wf_proposal _ Hwf _ _ Hfirst) as (Hr & Hval' & Hch' & Hh' & Hp').
    rewrite Hvs, Hheight in *. cbv zeta. split_and!; congruence.
Qed.

(** ** Timeouts *)

Lemma current_timeout c t :
  negb (to_height t =? con_height c) || negb (to_round t =? con_round c) ||
  bool_decide (to_phase t <> phase c) || negb (to_after t =? timeout_for (config c) (phase c) (con_round c)) =
  negb (bool_decide (t = timeout c (phase c))).
Proof.
  destruct t as [h r p a]. unfold timeout. simpl.
  destruct (decide (mk_Timeout h r p a = mk_Timeout (con_height c) (con_round c) (phase c)
    (timeout_for (config c) (phase c) (con_round c)))) as [[= -> -> -> ->]|Hne].
  - rewrite !Z.eqb_refl, (bool_decide_eq_true_2 (mk_Timeout _ _ _ _ = _)) by done.
    by rewrite (bool_decide_eq_false_2 (_ <> _)) by tauto.
  - rewrite (bool_decide_eq_false_2 (mk_Timeout _ _ _ _ = _)) by done. apply not_false_iff_true. intros Hall. apply Hne.
    rewrite !orb_false_iff, !negb_false_iff, !Z.eqb_eq, bool_decide_eq_false in Hall.
    destruct Hall as [[[-> ->] ->%dec_stable] ->]. done.
Qed.

Lemma enter_round_round c round :
  round < max_rounds_per_height (config c) -> forall c' r, enter_round round c = (c', r) -> con_round c' = round.
Proof.
  intros Hmax c' r Hrun. unfold enter_round in Hrun.
  rewrite (bind_run_Ok get _ c c c eq_refl) in Hrun. cbn beta in Hrun.
  rewrite (proj2 (Z.leb_gt _ _)) in Hrun by done.
  rewrite (bind_run_Ok (modify _) _ c (set_round_phase round PhasePropose c) () eq_refl) in Hrun.
  set (c0 := set_round_phase round PhasePropose c) in Hrun.
  rewrite (bind_run_Ok (modify _) _ c0 (prune_caches c0) () eq_refl) in Hrun.
  assert (con_round (prune_caches c0) = round) as Hr1 by done.
  set (c1 := prune_caches c0) in *. clearbody c1.
  rewrite (bind_run_Ok get _ c1 c1 c1 eq_refl) in Hrun. cbn beta zeta in Hrun. destruct (proposals c1 !! round).
  - run_get Hrun. destruct (activate_current_round c1) as [c2 r2] eqn:Hact.
    assert (c' = c2) as -> by (by destruct r2; injection Hrun).
    rewrite <- Hr1. eapply activate_adds; exact Hact.
  - destruct (bool_decide _); run_get Hrun; by injection Hrun as <- _.
Qed.

(** Timeouts drive the round forward: a timeout for another height,
    round, phase or duration is ignored; the current one makes an engine
    without a decision vote nil, or, after its precommit, enter the next round
    or report the round limit. *)
Theorem timeouts_drive_rounds c t :
  engine_wf c -> started c = true -> finalized c = None ->
  if bool_decide (t = timeout c (phase c)) then
    match phase c with
    | PhasePropose =>
        local_decisions c !! VoteKey (con_round c) Prevote = None ->
        local_decisions (step (TimeoutEvent t) c).1 !! VoteKey (con_round c) Prevote =
          Some (SignableVote (the_vote (config c) (con_height c) (con_round c) Prevote (local_id c) Nil))
    | PhasePrevote =>
        local_decisions c !! VoteKey (con_round c) Precommit = None ->
        local_decisions (step (TimeoutEvent t) c).1 !! VoteKey (con_round c) Precommit =
          Some (SignableVote (the_vote (config c) (con_height c) (con_round c) Precommit (local_id c) Nil))
    | PhasePrecommit =>
        if con_round c + 1 <? max_rounds_per_height (config c)
        then con_round (step (TimeoutEvent t) c).1 = con_round c + 1
        else step (TimeoutEvent t) c = (c, Err (RoundLimitReached (con_round c + 1)))
    | PhaseFinalized => True
    end
  else step (TimeoutEvent t) c = (c, Ok []).
Proof.
  intros Hwf Hs Hf. unfold step. rewrite (bind_run_Ok get _ c c c eq_refl), Hs, Hf. cbn [negb].
  rewrite (bool_decide_eq_false_2 (is_Some None)) by apply is_Some_None. unfold handle_timeout.
  rewrite (bind_run_Ok get _ c c c eq_refl), current_timeout.
  destruct (bool_decide (t = timeout c (phase c))); [|done]. cbn [negb]. destruct (phase c).
  - intros Hnone. match goal with |- context [(?m c).1] => destruct (m c) as [c' r] eqn:Hrun end. eapply cast_then_evaluate_decides in Hrun as [_ Hdec]; done.
  - intros Hnone. match goal with |- context [(?m c).1] => destruct (m c) as [c' r] eqn:Hrun end. eapply cast_then_evaluate_decides in Hrun as [_ Hdec]; done.
  - destruct (wf_round _ Hwf) as [Hr Hmax]. destruct (wf_config _ Hwf) as [_ _ [_ Hu32]].
    assert (checked_add u32_max (con_round c) 1 = Some (con_round c + 1)) as -> by (apply checked_add_Some; lia).
    cbn [ok_or]. rewrite (bind_run_Ok (lift _) _ c c (con_round c + 1) eq_refl).
    destruct (Z.ltb_spec (con_round c + 1) (max_rounds_per_height (config c))).
    + destruct (enter_round _ c) as [c' r] eqn:Hrun. by eapply enter_round_round.
    + unfold enter_round. rewrite (bind_run_Ok get _ c c c eq_refl). by rewrite (proj2 (Z.leb_le _ _)).
  - done.
Qed.
End engine.

(** ** Certificates, to and from the protocol crate *)

Section certificates.
  Context `{MessageValidator, Ed25519, !Borsh CommitVote, !Borsh CommitCertificate, !Borsh SignableMessage}.

(** The precommit the engine counts carries a protocol commit signature. *)
Lemma precommit_to_protocol_sound c sv vs chain :
  chain_id_new (c_chain_id c) = Ok chain -> v_validator (sv_vote sv) ∈ vs ->
  sv_vote sv = mk_Vote (c_chain_id c) (c_height c) (c_round c) Precommit (v_validator (sv_vote sv))
    (BlockValue (c_block_id c)) ->
  verify_ed25519_vote sv = Ok () ->
  exists s, precommit_to_protocol c sv = Ok s /\ cs_validator s = v_validator (sv_vote sv) /\
    signature_ok vs (commit_vote_new chain (c_height c) (c_round c) (hash_from_block_id (c_block_id c))) s.
Proof.
  intros Hchain Hin Hvote Hverify. destruct sv as [w signature]. simpl in *.
  set (v := v_validator w) in *. clearbody v. subst w.
  unfold verify_ed25519_vote, verify_ed25519 in Hverify. simpl in Hverify.
  apply result_bind_Ok_inv in Hverify as (sig & Hsig%ok_or_Ok_inv & Hverify).
  destruct (vk_valid v) eqn:Hkey; [|done]. simpl in Hverify. rewrite Hchain in Hverify. simpl in Hverify.
  destruct (verify_strict _ _ _) eqn:Hstrict; [|done].
  exists (mk_CommitSignature v sig). split_and!; [|done|by split_and!].
  unfold precommit_to_protocol. simpl. rewrite !Z.eqb_refl.
  rewrite !bool_decide_eq_false_2 by tauto. simpl. by rewrite Hsig.
Qed.

Lemma precommits_to_protocol_sound c vs chain l :
  chain_id_new (c_chain_id c) = Ok chain ->
  (forall sv, sv ∈ l -> v_validator (sv_vote sv) ∈ vs /\ verify_ed25519_vote sv = Ok () /\
    sv_vote sv = mk_Vote (c_chain_id c) (c_height c) (c_round c) Precommit (v_validator (sv_vote sv))
      (BlockValue (c_block_id c))) ->
  exists sigs, try_collect (precommit_to_protocol c) l = Ok sigs /\
    cs_validator <$> sigs = (v_validator ∘ sv_vote) <$> l /\
    Forall (signature_ok vs (commit_vote_new chain (c_height c) (c_round c) (hash_from_block_id (c_block_id c)))) sigs.
Proof.
  intros Hchain. induction l as [|sv l IH]; intros Hall; [by exists []|].
  destruct (Hall sv) as (Hin & Hverify & Hvote); [by left|].
  destruct (precommit_to_protocol_sound c sv vs chain Hchain Hin Hvote Hverify) as (s & Hs & Hval & Hok).
  destruct IH as (sigs & Hsigs & Hvals & Hoks); [intros sv' Hsv'; apply Hall; by right|].
  exists (s :: sigs). split_and!; [|by rewrite !fmap_cons, Hval, Hvals|by constructor].
  simpl. rewrite Hs. simpl. by rewrite Hsigs.
Qed.

(** A new engine and one restored from the decisions it had stored start well
    formed, in their own identity. *)
Lemma consensus_new_facts me vs height cfg c :
  consensus_new me vs height cfg = Ok c ->
  local_id c = me /\ vset c = vs /\ config c = cfg /\ con_height c = height /\
  is_ok (chain_id_new (cfg_chain_id cfg)) = true.
Proof.
  intros Hnew. pose proof (consensus_new_Ok _ _ _ _ _ Hnew) as Hc. unfold consensus_new in Hnew.
  destruct (height =? 0); [done|]. destruct (negb (vs_contains _ _)); [done|].
  destruct (is_ok (chain_id_new _)); [|done]. by rewrite Hc.
Qed.

Lemma restore_decisions_progress log c c' r : restore_decisions log c = (c', r) -> progress c c'.
Proof.
  revert c. induction log as [|d log IH]; intros c; simpl; [by intros [= <- _]|].
  unfold mbind, stE_bind. destruct (restore_local_decision d.1 c) as [c1 r1] eqn:E.
  pose proof (from_restore_local_decision c d.1 _ _ E). destruct r1; [|by intros [= <- _]].
  intros Hr%IH. by etrans.
Qed.

Lemma recover_wf me vs height cfg (log : list Decision) c :
  config_ok cfg -> Forall (fun d : Decision => 0 <= ss_round d.2) log -> recover vs cfg height me log = Ok c ->
  engine_wf c /\ local_id c = me /\ vset c = vs /\ config c = cfg /\ con_height c = height /\
  is_ok (chain_id_new (cfg_chain_id cfg)) = true.
Proof.
  intros Hcfg Hlog. unfold recover. destruct (last log) as [d|] eqn:Hd.
  - assert (0 <= ss_round d.2) as Hss.
    { apply (Forall_lookup_1 _ _ (pred (length log)) _ Hlog). by rewrite <- last_lookup. }
    intros (c1 & Hc1 & Hr)%result_bind_Ok_inv. destruct (restore_decisions log c1) as [c2 r2] eqn:E.
    apply result_bind_Ok_inv in Hr as ([] & -> & [= <-]).
    destruct (new_with_safety_state_wf _ _ _ _ _ _ Hcfg Hss Hc1) as [Hwf1 _].
    destruct (restore_decisions_progress _ _ _ _ E Hwf1) as ([] & Hwf & _). split; [done|].
    unfold new_with_safety_state in Hc1. destruct (negb _); [done|].
    apply result_bind_Ok_inv in Hc1 as (round & _ & Hc1). apply result_bind_Ok_inv in Hc1 as (c0 & Hnew & Hc1).
    apply result_bind_Ok_inv in Hc1 as ([] & _ & [= <-]).
    destruct (consensus_new_facts _ _ _ _ _ Hnew) as (? & ? & ? & ? & ?). simpl in *. split_and!; congruence.
  - intros Hnew. split; [by eapply consensus_new_wf|by apply consensus_new_facts].
Qed.

(** C34. What the engine finalizes, the protocol accepts: with Ed25519-checked
    votes, for a new engine (an empty log) or one restored from the decisions it
    stored before a crash, the certificate of a finalization converts to a
    protocol certificate on exactly the finalized block. That certificate
    verifies against the validator set, unless its encoding is larger than a
    certificate may be, which the engine does not look at: such a one is refused
    for its size. *)
Theorem finalization_certificate_verifies me l vs height cfg (log : list Decision) c0 events f :
  (forall sv, mv_validate_vote sv = Ok () -> verify_ed25519_vote sv = Ok ()) ->
  config_ok cfg -> validator_set_new l = Ok vs -> Forall (fun d : Decision => 0 <= ss_round d.2) log ->
  recover vs cfg height me log = Ok c0 -> finalized (run_events c0 events) = Some f ->
  exists chain certificate,
    chain_id_new (cfg_chain_id cfg) = Ok chain /\ to_protocol (f_certificate f) = Ok certificate /\
    certificate_vote certificate = commit_vote_new chain height (f_round f) (hash_from_block_id (f_block_id f)) /\
    certificate_verify certificate (validators vs) =
      if MAX_COMMIT_CERTIFICATE_BYTES <? Z.of_nat (length (to_vec certificate)) then Err PayloadTooLarge else Ok ().
Proof.
  intros Hmv Hcfg (-> & Hne & Hnd)%validator_set_new_Ok Hlog Hrec Hf.
  destruct (recover_wf _ _ _ _ _ _ Hcfg Hlog Hrec) as (Hwf0 & _ & Hvs0 & Hc0 & Hh0 & Hok).
  destruct (run_events_progress c0 events Hwf0) as ([_ Hvs Hc Hh _ _ _] & Hwf & _).
  rewrite Hvs0 in Hvs. rewrite Hc0 in Hc. rewrite Hh0 in Hh.
  destruct (wf_final _ Hwf _ Hf) as ([Hchain Hheight Hq Hdistinct Hvotes _] & _ & -> & ->).
  rewrite Hc in Hchain. rewrite Hh in Hheight. rewrite Hvs in Hq.
  destruct (chain_id_new (cfg_chain_id cfg)) as [chain|] eqn:Hnewchain; [|done]. clear Hok.
  set (certificate := f_certificate f) in *.
  destruct (precommits_to_protocol_sound certificate l chain (c_precommits certificate)) as (sigs & Hsigs & Hvals & Hoks).
  { by rewrite Hchain. }
  { intros sv Hsv. destruct (Hvotes sv Hsv) as (Hin & Hval & Heq).
    rewrite Hvs in Hin. rewrite Hc, Hh in Heq. rewrite Hchain, Hheight. split_and!; [done|by apply Hmv|done]. }
  eexists chain, (certificate_new _ sigs). split; [done|]. split.
  { unfold to_protocol. rewrite Hchain, Hnewchain. cbn [map_err mbind result_bind]. by rewrite Hsigs. }
  split; [by rewrite Hheight|]. destruct (Z.ltb_spec MAX_COMMIT_CERTIFICATE_BYTES
    (Z.of_nat (length (to_vec (certificate_new (commit_vote_new chain (c_height certificate) (c_round certificate)
       (hash_from_block_id (c_block_id certificate))) sigs))))) as [Hsize|Hsize].
  { unfold certificate_verify. by rewrite (proj2 (Z.ltb_lt _ _)). }
  apply certificate_verify_iff.
  apply chain_id_new_Ok_inv in Hnewchain as [_ Hvalid]. split; try done; cbn [certificate_new cc_signatures].
  - apply Forall_forall. intros s Hs. rewrite sort_by_Permutation in Hs. rewrite Forall_forall in Hoks. by apply Hoks.
  - apply sorted_signatures. by rewrite Hvals.
  - rewrite sort_by_Permutation. apply (f_equal length) in Hvals. rewrite !length_fmap in Hvals. by rewrite Hvals.
Qed.

Lemma check_votes_complete c bad r k value signers l :
  NoDup ((v_validator ∘ sv_vote) <$> l) ->
  (forall sv, sv ∈ l -> v_validator (sv_vote sv) ∉ signers /\ v_validator (sv_vote sv) ∈ validators (vset c) /\
    sv_vote sv = mk_Vote (cfg_chain_id (config c)) (con_height c) r k (v_validator (sv_vote sv)) value /\
    Z.of_nat (length (sv_signature sv)) <= max_signature_bytes (config c) /\ mv_validate_vote sv = Ok ()) ->
  r < max_rounds_per_height (config c) ->
  check_votes c bad r k value signers l = Ok ().
Proof.
  intros Hnd Hall Hr. revert signers Hnd Hall. induction l as [|sv l IH]; intros signers Hnd Hall; [done|].
  apply NoDup_cons in Hnd as [Hnin Hnd]. destruct (Hall sv) as (Hs & Hin & Hvote & Hsize & Hval); [by left|]. simpl.
  rewrite (proj2 (Z.ltb_ge _ _)) by done.
  rewrite (proj2 (validate_vote_structure_Ok c sv)); [|rewrite Hvote; by split_and!]. cbn [mbind result_bind].
  rewrite Hvote. cbn [v_round v_kind v_value v_validator]. rewrite Z.eqb_refl.
  rewrite !bool_decide_eq_false_2 by (try tauto; done). cbn [negb orb]. rewrite Hval. cbn [map_err mbind result_bind].
  apply IH; [done|]. intros sv' Hsv'. destruct (Hall sv') as (Hs' & Hrest); [by right|]. split; [|done].
  apply not_elem_of_union. split; [|done]. intros Heq%elem_of_singleton. apply Hnin, list_elem_of_fmap.
  exists sv'. split; [|done]. simpl. congruence.
Qed.

Lemma signed_precommit s (vs : list ValidatorId) vote :
  signature_ok vs vote s -> chain_id_validate (cv_chain_id vote) = Ok () -> cv_protocol_version vote = PROTOCOL_VERSION ->
  verify_ed25519_vote (mk_SignedVote
    (mk_Vote (as_str (cv_chain_id vote)) (cv_height vote) (cv_round vote) Precommit (cs_validator s)
      (BlockValue (block_id_from_hash (cv_block_hash vote)))) (as_bytes (cs_signature s))) = Ok ().
Proof.
  intros (_ & Hkey & Hstrict) Hchain Hver. unfold verify_ed25519_vote, verify_ed25519. simpl.
  rewrite array_try_from_as_bytes. simpl. rewrite Hkey. simpl. unfold chain_id_new.
  destruct vote as [version [chain] h r hash]. simpl in *. rewrite Hchain. simpl.
  unfold commit_vote_new. subst version. unfold hash_from_block_id, block_id_from_hash. by rewrite Hstrict.
Qed.

Lemma signatures_round_trip (c : CommitCertificate) l :
  chain_id_validate (cc_chain_id c) = Ok () ->
  try_collect (precommit_to_protocol (from_protocol c))
    ((fun s => mk_SignedVote
        (mk_Vote (as_str (cc_chain_id c)) (cc_height c) (cc_round c) Precommit (cs_validator s)
           (BlockValue (block_id_from_hash (cc_block_hash c)))) (as_bytes (cs_signature s))) <$> l) = Ok l.
Proof.
  intros Hchain. induction l as [|s l IH]; [done|]. rewrite fmap_cons. cbn [try_collect]. rewrite IH.
  unfold precommit_to_protocol. simpl. rewrite !Z.eqb_refl, !bool_decide_eq_false_2 by tauto. simpl.
  rewrite array_try_from_as_bytes. simpl. by destruct s.
Qed.

(** Sorting an already strictly sorted list changes nothing. *)
Lemma sort_sorted_signatures l :
  StronglySorted signature_lt l -> sort_by (fun a b => array_leb (cs_validator a) (cs_validator b)) l = l.
Proof.
  induction 1 as [|s l Hs IH Hlt]; [done|]. set (leb := fun a b => _) in *.
  change (insert_by leb s (sort_by leb l) = s :: l). rewrite IH. subst leb.
  destruct l as [|s' l]; [done|]. simpl. apply Forall_cons in Hlt as [Hlt _].
  assert (array_leb (cs_validator s) (cs_validator s') = true) as ->; [|done].
  unfold signature_lt, array_ltb in Hlt. unfold array_leb. by destruct (array_compare _ _).
Qed.

Lemma signers_within (vs : list ValidatorId) vote sigs :
  Forall (signature_ok vs vote) sigs -> StronglySorted signature_lt sigs -> (length sigs <= length vs)%nat.
Proof.
  intros Hok Hsort%signature_lt_NoDup. rewrite <- (length_fmap cs_validator sigs).
  apply submseteq_length, NoDup_submseteq; [done|].
  intros v (s & -> & Hs)%list_elem_of_fmap. rewrite Forall_forall in Hok. by apply Hok.
Qed.

(** What the protocol accepts, the engine finalizes: a verified commit
    certificate for the engine's chain and height converts to a consensus
    certificate that, with Ed25519-checked votes, an engine that has not
    finalized accepts and finalizes; converting it back gives the same
    certificate. *)
Theorem verified_certificate_finalizes c (certificate : CommitCertificate) :
  (forall sv, verify_ed25519_vote sv = Ok () -> mv_validate_vote sv = Ok ()) ->
  mv_validate_certificate (from_protocol certificate) = Ok () ->
  certificate_verify certificate (validators (vset c)) = Ok () ->
  as_str (cc_chain_id certificate) = cfg_chain_id (config c) -> cc_height certificate = con_height c ->
  cc_round certificate < max_rounds_per_height (config c) -> 64 <= max_signature_bytes (config c) ->
  finalized c = None ->
  let f := mk_Finalization (cc_height certificate) (cc_round certificate)
    (block_id_from_hash (cc_block_hash certificate)) (from_protocol certificate) in
  step (Certificate (from_protocol certificate)) c = (set_finalized f c, Ok [Finalize f]) /\
  to_protocol (from_protocol certificate) = Ok certificate.
Proof.
  intros Hmv Hcert [Hsize Hver Hvalid [Hne Hnd] Hsigs Hsort Hq]%certificate_verify_iff Hchain Hh Hr Hsz Hnone f.
  split.
  - unfold step. rewrite (bind_run_Ok get _ c c c eq_refl).
    enough (validate_certificate c (from_protocol certificate) = Ok ()) as Hok.
    { rewrite (bind_run_Ok (lift _) _ c c () (f_equal (pair c) Hok)). unfold finalize.
      by rewrite (bind_run_Ok get _ c c c eq_refl), Hnone. }
    unfold validate_certificate. rewrite (proj2 (validate_context_Ok c _ _)) by done. cbn [mbind result_bind].
    pose proof (signers_within _ _ _ Hsigs Hsort) as Hlen.
    unfold from_protocol at 1 2 3. cbn [c_round c_precommits]. rewrite length_fmap.
    unfold quorum, vs_len. rewrite (proj2 (Z.leb_gt _ _)), !(proj2 (Z.ltb_ge _ _)) by lia. cbn [orb].
    rewrite check_votes_complete.
    + cbn [mbind result_bind]. by rewrite Hcert.
    + simpl. rewrite <- list_fmap_compose. by apply signature_lt_NoDup.
    + simpl. intros sv (s & -> & Hs)%list_elem_of_fmap. simpl. rewrite Forall_forall in Hsigs.
      split_and!; [set_solver|by apply Hsigs|by rewrite Hchain, Hh|by rewrite length_as_bytes|].
      apply Hmv. pose proof (signed_precommit s _ _ (Hsigs s Hs) Hvalid Hver) as Hsigned. exact Hsigned.
    + done.
  - unfold to_protocol. cbn [from_protocol c_chain_id c_height c_round c_block_id].
    destruct certificate as [version [chain] h r hash sigs]. simpl in *.
    unfold chain_id_new. rewrite Hvalid. cbn [map_err mbind result_bind].
    pose proof (signatures_round_trip (mk_CommitCertificate version (mk_ChainId chain) h r hash sigs) sigs Hvalid) as Hrt.
    simpl in Hrt. rewrite Hrt. cbn [mbind result_bind]. unfold certificate_new. rewrite sort_sorted_signatures by done.
    simpl. by rewrite Hver.
Qed.
End certificates.

(** ** Proposers *)

(** The proposer role rotates: over any window of as many rounds as there
    are validators (inside [u64] arithmetic) every validator proposes in
    exactly one. *)
Theorem proposer_rotates s height round v :
  validator_set_ok s -> 1 <= height -> 0 <= round -> height - 1 + round + (vs_len s - 1) <= u64_max ->
  v ∈ validators s ->
  exists i, 0 <= i < vs_len s /\ proposer s height (round + i) = v /\
    forall j, 0 <= j < vs_len s -> proposer s height (round + j) = v -> j = i.
Proof.
  intros Hs Hh Hr Hmax Hv. pose proof (vs_len_pos s Hs) as Hlen. set (n := vs_len s) in *.
  assert (forall j, 0 <= j < n ->
    validators s !! Z.to_nat ((height - 1 + (round + j)) mod n) = Some (proposer s height (round + j))) as Hat
    by (intros j Hj; apply proposer_lookup; [done|lia..]).
  apply list_elem_of_lookup in Hv as [k Hk]. pose proof (lookup_lt_Some _ _ _ Hk) as Hkn.
  assert (Z.of_nat k < n) as Hkn' by (unfold n, vs_len; lia).
  assert (forall j, 0 <= j < n -> proposer s height (round + j) = v -> (height - 1 + (round + j)) mod n = Z.of_nat k) as Hinv.
  { intros j Hj Hp. specialize (Hat j Hj). rewrite Hp in Hat.
    pose proof (NoDup_lookup _ _ _ _ (vs_distinct s Hs) Hat Hk) as Heq.
    pose proof (Z.mod_pos_bound (height - 1 + (round + j)) n). lia. }
  exists ((Z.of_nat k - (height - 1 + round)) mod n).
  pose proof (Z.mod_pos_bound (Z.of_nat k - (height - 1 + round)) n ltac:(lia)) as Hi.
  assert ((height - 1 + (round + (Z.of_nat k - (height - 1 + round)) mod n)) mod n = Z.of_nat k) as Hmod.
  { rewrite (Z.add_assoc (height - 1)), Zplus_mod_idemp_r.
    replace (height - 1 + round + (Z.of_nat k - (height - 1 + round))) with (Z.of_nat k) by lia.
    apply Z.mod_small. lia. }
  split_and!; [lia..| |].
  - specialize (Hat _ Hi). rewrite Hmod, Nat2Z.id, Hk in Hat. by injection Hat.
  - intros j Hj Hp. specialize (Hinv j Hj Hp). rewrite <- Hmod in Hinv.
    set (i := (Z.of_nat k - _) mod n) in *. clearbody i. clear - Hinv Hj Hi Hlen.
    assert ((j - i) mod n = 0) as Hz.
    { replace (j - i) with ((height - 1 + (round + j)) - (height - 1 + (round + i))) by lia.
      rewrite Zminus_mod, Hinv, Z.sub_diag. apply Z.mod_0_l. lia. }
    apply Z.mod_divide in Hz as [q Hq]; [|lia]. clear Hinv. clearbody n.
    assert (-n < q * n < n) as Hqn by lia. assert (q = 0) as -> by nia. lia.
Qed.

Section proposers.
  Context `{Blake3, Ed25519, !Borsh CommitVote, !Borsh CommitCertificate, !Borsh BlockHeader}.

(** The engine and the protocol crate elect the same proposer: a block
    whose certificate verifies was proposed by the engine's proposer of its
    height and round (inside [u64] arithmetic). *)
Theorem certified_block_by_proposer s certificate b :
  validator_set_ok s -> 1 <= bh_height (header b) -> 0 <= bh_round (header b) ->
  bh_height (header b) - 1 + bh_round (header b) <= u64_max ->
  verify_for_block certificate b (validators s) = Ok () ->
  bh_proposer (header b) = proposer s (bh_height (header b)) (bh_round (header b)).
Proof.
  intros Hs Hh Hr Hmax. pose proof (vs_len_pos s Hs) as Hlen. unfold verify_for_block.
  destruct (_ || _); [done|]. destruct (_ =? 0); [done|]. case_bool_decide as Hp; [done|]. intros _.
  unfold saturating_sub in Hp. rewrite Z.max_l, <- Zplus_mod in Hp by lia.
  rewrite (proposer_lookup s) in Hp by done. by injection Hp.
Qed.

(** The engine adds height and round before reducing, and the sum wraps. *)
Definition three : list ValidatorId := validator_id <$> [x00; x01; x02].

(** The agreement of the two needs the bound: at the last height the
    engine's sum wraps, and it elects another proposer than the protocol. *)
Theorem proposer_wraps :
  proposer (mk_ValidatorSet three) u64_max 2 = validator_id x00 /\
  three !! Z.to_nat (((u64_max - 1) mod 3 + 2 mod 3) mod 3) = Some (validator_id x01).
Proof. split; decide_now. Qed.
End proposers.

(** ** Witnesses *)

#[local] Existing Instance DeterministicValidator.

Lemma four_validators_ok : validator_set_ok four_validators.
Proof. pose proof four_validators_Ok as (_ & Hne & Hnd)%validator_set_new_Ok. by split. Qed.

Lemma test_config_ok : config_ok test_config.
Proof. split; vm_compute; split; discriminate. Qed.

Lemma fresh_v1 : consensus_new v1 four_validators 1 test_config = Ok (fresh v1).
Proof. vm_compute. reflexivity. Qed.

(** Three precommits finalize [a] at [v1]. *)
Definition precommits_a : list Event :=
  (fun v => Message (vote_of v 0 Precommit (BlockValue block_a))) <$> [v0; v2; v3].
Definition done_v1 : Consensus := run_events (fresh v1) (Start :: precommits_a).

Lemma done_v1_finalized : exists f, finalized done_v1 = Some f /\ f_block_id f = block_a.
Proof.
  assert (bool_decide (f_block_id <$> finalized done_v1 = Some block_a) = true) as Hb by (vm_compute; reflexivity).
  apply bool_decide_eq_true in Hb. destruct (finalized done_v1) as [f|]; [|done]. exists f. by injection Hb.
Qed.

Lemma engine_never_regresses_witness :
  is_some (finalized done_v1) = true /\ finalized (run_events done_v1 [timeout_event PhasePropose 0]) = finalized done_v1.
Proof.
  split; [vm_compute; reflexivity|].
  destruct (engine_never_regresses v1 four_validators 1 test_config (fresh v1) (Start :: precommits_a)
    [timeout_event PhasePropose 0] test_config_ok fresh_v1) as (_ & _ & _ & _ & _ & _ & Hkeep).
  fold done_v1 in Hkeep. destruct (finalized done_v1) as [f|] eqn:Hf.
  - by apply Hkeep.
  - exfalso. destruct done_v1_finalized as (f & Hf' & _). congruence.
Defined.

Lemma finalized_engine_frozen_witness :
  step (Message (proposal_of v0 0 block_b)) done_v1 = (done_v1, Ok []).
Proof.
  destruct done_v1_finalized as (f & Hf & _).
  exact (finalized_engine_frozen done_v1 f (Message (proposal_of v0 0 block_b)) Hf
    (bool_decide_unpack (started done_v1 = true) ltac:(vm_compute; exact I))).
Defined.

Lemma memory_bounded_witness : vote_count done_v1 0 Precommit = 3 /\ vote_count done_v1 0 Precommit <= vs_len four_validators.
Proof.
  split; [vm_compute; reflexivity|].
  exact (proj2 (memory_bounded v1 four_validators 1 test_config (fresh v1) (Start :: precommits_a) test_config_ok fresh_v1)
    0 Precommit).
Defined.

Lemma done_v1_wf : engine_wf done_v1 /\ vset done_v1 = four_validators.
Proof.
  destruct (run_wf v1 four_validators 1 test_config (fresh v1) (Start :: precommits_a) test_config_ok fresh_v1)
    as (Hwf & _ & Hvs & _). exact (conj Hwf Hvs).
Qed.

Lemma quorum_votes_exact_witness :
  quorum_votes done_v1 0 Precommit =
    Some (BlockValue block_a, votes_for done_v1 0 Precommit (BlockValue block_a)).
Proof.
  destruct done_v1_wf as [Hwf Hvs]. apply quorum_votes_exact; [exact Hwf| |].
  - rewrite Hvs. exact four_validators_ok.
  - split; [reflexivity|]. vm_compute. discriminate.
Defined.

(** [v3] voted twice. *)
Lemma evidence_sound_witness :
  let events := [Start; Message (vote_of v3 0 Prevote (BlockValue block_a))] in
  exists l first second, (step (Message (vote_of v3 0 Prevote (BlockValue block_b))) (run_events (fresh v1) events)).2 = Ok l /\
    EvidenceEffect (DoubleVote v3 first second) ∈ l /\ first <> second /\
    validate_signature v3 (sv_signature first) = Ok ().
Proof.
  intros events. set (e := Message (vote_of v3 0 Prevote (BlockValue block_b))).
  set (first := signed_vote v3 0 Prevote (BlockValue block_a)).
  set (second := signed_vote v3 0 Prevote (BlockValue block_b)).
  destruct (run_Ok (step e) (run_events (fresh v1) events)) as [l Hstep]; [vm_compute; reflexivity|].
  assert (EvidenceEffect (DoubleVote v3 first second) ∈ l) as Hin.
  { assert (match (step e (run_events (fresh v1) events)).2 with
            | Ok l => bool_decide (EvidenceEffect (DoubleVote v3 first second) ∈ l) | Err _ => false end = true) as Hb
      by (vm_compute; reflexivity). rewrite Hstep in Hb. by apply bool_decide_eq_true in Hb. }
  destruct (evidence_sound v1 four_validators 1 test_config (fresh v1) events e _ l _ test_config_ok fresh_v1 Hstep Hin)
    as (Hne & Hval & _).
  exists l, first, second. split_and!; [by rewrite Hstep|done|done|exact Hval].
Defined.

Lemma timeouts_drive_rounds_witness :
  local_decisions (step (timeout_event PhasePropose 0) (run_events (fresh v1) [Start])).1 !! VoteKey 0 Prevote =
    Some (SignableVote (the_vote test_config 1 0 Prevote v1 Nil)).
Proof.
  pose proof (timeouts_drive_rounds (run_events (fresh v1) [Start])
    (mk_Timeout 1 0 PhasePropose (timeout_for test_config PhasePropose 0))) as Hthm.
  destruct (run_wf v1 four_validators 1 test_config (fresh v1) [Start] test_config_ok fresh_v1) as [Hwf _].
  specialize (Hthm Hwf ltac:(vm_compute; reflexivity) ltac:(vm_compute; reflexivity)).
  rewrite bool_decide_eq_true_2 in Hthm by (vm_compute; reflexivity).
  exact (Hthm (bool_decide_unpack (local_decisions (run_events (fresh v1) [Start]) !! VoteKey 0 Prevote = None)
    ltac:(vm_compute; exact I))).
Defined.

Lemma proposer_rotates_witness : exists i, 0 <= i < 4 /\ proposer four_validators 7 (2 + i) = v3.
Proof.
  destruct (proposer_rotates four_validators 7 2 v3 four_validators_ok) as (i & Hi & Hp & _);
    [lia|lia|vm_compute; discriminate|decide_now|]. exists i. by split.
Defined.

(** An engine that prevoted nil in round 0, stored it, crashed and recovered;
    then the precommits of the others arrive. *)
Definition ed_requests (events : list Event) : list Decision :=
  (foldl (fun '(c, l) e => let '(c, r) := step (H := Ed25519Validator) e c in (c, l ++ result_requested r))
     (ed_engine, []) events).2.
Definition ed_log : list Decision :=
  ed_requests [Start; TimeoutEvent (mk_Timeout 1 0 PhasePropose (timeout_for ed_config PhasePropose 0))].
Definition ed_recovered : result ConsensusError Consensus := recover ed_set ed_config 1 (key x14) ed_log.

(** The finalization, its protocol certificate, and whether that is small. *)
Definition ed_small (c : Consensus) : bool :=
  match finalized (run_events (H := Ed25519Validator) c (ed_events block_a)) with
  | Some f =>
      bool_decide (f_block_id f = block_a) &&
      match to_protocol (f_certificate f) with
      | Ok certificate => negb (MAX_COMMIT_CERTIFICATE_BYTES <? Z.of_nat (length (to_vec certificate)))
      | Err _ => false
      end
  | None => false
  end.

Lemma ed_recovered_small :
  length ed_log = 1%nat /\ Forall (fun d : Decision => 0 <= ss_round d.2) ed_log /\
  exists c, ed_recovered = Ok c /\ con_round c = 1 /\ ed_small c = true.
Proof.
  split; [vm_compute; reflexivity|]. split.
  { apply (bool_decide_unpack _). vm_compute. exact I. }
  assert (match ed_recovered with Ok c => (con_round c =? 1) && ed_small c | Err _ => false end = true) as K
    by (vm_compute; reflexivity).
  destruct ed_recovered as [c|]; [|discriminate K]. apply andb_prop in K as [K1%Z.eqb_eq K2]. by exists c.
Qed.

Lemma finalization_certificate_verifies_witness :
  exists c f certificate, ed_recovered = Ok c /\ con_round c = 1 /\
    finalized (run_events (H := Ed25519Validator) c (ed_events block_a)) = Some f /\
    to_protocol (f_certificate f) = Ok certificate /\ cc_block_hash certificate = block_a /\
    certificate_verify certificate validators4 = Ok ().
Proof.
  destruct ed_recovered_small as (_ & Hlog & c & Hc & Hround & Hsmall). unfold ed_small in Hsmall.
  destruct (finalized (run_events (H := Ed25519Validator) c (ed_events block_a))) as [f|] eqn:Hf; [|discriminate Hsmall].
  apply andb_prop in Hsmall as [Hb%bool_decide_eq_true Hsmall].
  assert (forall sv, mv_validate_vote (MessageValidator := Ed25519Validator) sv = Ok () -> verify_ed25519_vote sv = Ok ())
    as Hmv by (intros sv Hsv; exact Hsv).
  destruct (finalization_certificate_verifies (H := Ed25519Validator) (key x14) validators4 ed_set 1 ed_config ed_log c
    (ed_events block_a) f Hmv ltac:(split; vm_compute; split; discriminate) ed_set_new Hlog Hc Hf)
    as (chain & certificate & _ & Hto & Hvote & Hverify).
  rewrite Hto in Hsmall. apply negb_true_iff in Hsmall. rewrite Hsmall in Hverify.
  exists c, f, certificate. split; [exact Hc|]. split; [exact Hround|]. split; [exact Hf|]. split; [exact Hto|].
  split; [|exact Hverify]. apply (f_equal cv_block_hash) in Hvote. rewrite <- Hb. exact Hvote.
Defined.

Lemma verified_certificate_finalizes_witness :
  to_protocol (from_protocol certificate0) = Ok certificate0 /\
  is_ok (step (H := Ed25519Validator) (Certificate (from_protocol certificate0)) ed_engine).2 = true.
Proof.
  destruct (verified_certificate_finalizes (H := Ed25519Validator) ed_engine certificate0) as [Hstep Hto];
    [done|reflexivity|vm_compute; reflexivity|vm_compute; reflexivity|vm_compute; reflexivity
    |vm_compute; reflexivity|vm_compute; discriminate|vm_compute; reflexivity|].
  split; [exact Hto|]. rewrite Hstep. reflexivity.
Defined.

Lemma certified_block_by_proposer_witness : bh_proposer (header block0) = proposer ed_set 1 0.
Proof.
  assert (validator_set_ok ed_set) as Hok by (pose proof ed_set_new as (_ & ? & ?)%validator_set_new_Ok; by split).
  exact (certified_block_by_proposer ed_set certificate0 block0 Hok ltac:(vm_compute; discriminate)
    ltac:(vm_compute; discriminate) ltac:(vm_compute; discriminate) ltac:(vm_compute; reflexivity)).
Defined.
