(* ===== verification/SimulationSpec.v ===== *)
(** * The virtual network: runs and virtual time *)

From Stdlib Require Import Lia.
From S2P Require Import Prelude Errors Crypto Transaction Block Commit ConsensusTypes Engine Simulation Fixtures.

(** ** Virtual time *)

Lemma step_node_now node e net net' r : step_node node e net = (net', r) -> vn_now net' = vn_now net.
Proof.
  unfold step_node. destruct (vn_nodes net !! node); [|by intros [= <- _]].
  destruct (step e c) as [c' r']. by intros [= <- _].
Qed.

Lemma process_effect_now node effect net net' work :
  process_effect node effect net = (net', work) -> vn_now net' = vn_now net.
Proof. unfold process_effect. destruct (bool_decide _); [|destruct effect]; by intros [= <- _]. Qed.

Lemma process_now fuel queue net net' r : process fuel queue net = (net', r) -> vn_now net' = vn_now net.
Proof.
  revert queue net. induction fuel as [|fuel IH]; intros [|work queue] net; simpl; [by intros [= <- _]..|].
  destruct work as [node e|node effect]; unfold mbind, stE_bind, get, put.
  - destruct (bool_decide _); [apply IH|]. destruct (step_node node e net) as [net1 [l|err]] eqn:Hs.
    + intros Hrun%IH. rewrite Hrun. by eapply step_node_now.
    + intros [= <- _]. by eapply step_node_now.
  - destruct (process_effect node effect net) as [net1 work] eqn:Hp. intros Hrun%IH.
    rewrite Hrun. by eapply process_effect_now.
Qed.

Lemma min_list_lower l x : min_list l = Some x -> x ∈ l.
Proof.
  destruct l as [|y l]; [done|]. intros [= <-]. revert y. induction l as [|z l IH]; intros y; simpl; [by left|].
  destruct (Z.min_spec y z) as [[_ ->]|[_ ->]]; specialize (IH y) as H1 || specialize (IH z) as H1.
  - set_solver.
  - specialize (IH z). set_solver.
Qed.

(** Virtual time never goes back: advancing to the next timeout moves
    the clock forward or leaves it, even when a timer of a validator that was
    offline is overdue; a failed advance has not moved it back either. *)
Theorem virtual_time_monotone net net' r :
  advance_to_next_timeout net = (net', r) -> vn_now net <= vn_now net'.
Proof.
  unfold advance_to_next_timeout, mbind, stE_bind, get, put. 
  destruct (min_list _) as [next|] eqn:Hnext; [|by intros [= <- _]].
  apply min_list_lower, list_elem_of_fmap in Hnext as (t & -> & _).
  destruct (process_all _ _) as [net1 r1] eqn:Hp. apply process_now in Hp. simpl in Hp. intros Hrun.
  assert (net' = net1) as -> by (by destruct r1; injection Hrun). lia.
Qed.

(** ** Runs *)

Definition all_finalize (b : BlockId) : list (option BlockId) := replicate 4 (Some b).

(** The engine makes progress in the virtual network: without faults all
    four validators finalize the first proposal at time zero; with the first
    proposer offline the other three finalize the next proposer's block after
    two timeouts; a network split in two halves finalizes nothing, and nine
    timeouts after it heals all four have finalized the same block, at the
    first round whose growing timeouts cover the skew of the halves. *)
Theorem simulation_finalizes :
  let offline := run_op start (run_op (set_online (validator_id x00) false) (Some four_nodes)) in
  let halves := [[validator_id x00; validator_id x01]; [validator_id x02; validator_id x03]] in
  let split := timeouts 6 (run_op start (Some (partition halves four_nodes))) in
  finalized_blocks <$> run_op start (Some four_nodes) = Some (all_finalize (deterministic_block 1 0)) /\
  finalized_blocks <$> timeouts 2 offline = Some (None :: replicate 3 (Some (deterministic_block 1 1))) /\
  finalized_blocks <$> split = Some (replicate 4 None) /\
  finalized_blocks <$> timeouts 9 (connect_all <$> split) = Some (all_finalize (deterministic_block 1 3)).
Proof. cbv zeta. split_and!; decide_now. Qed.

(** An overdue timer: the clock stands at 1500 ms when a validator that was
    offline comes back with a timer set for 800 ms. *)
Definition overdue : VirtualNetwork :=
  vn_set_timers (vn_timers four_nodes ++
    [mk_ScheduledTimeout (from_millis 800) (validator_id x00)
       (mk_Timeout 1 0 PhasePropose (from_millis 800))]) (from_millis 1500) four_nodes.

Lemma virtual_time_monotone_witness :
  is_ok (advance_to_next_timeout overdue).2 = true \/
  from_millis 1500 <= vn_now (advance_to_next_timeout overdue).1.
Proof.
  right. apply (virtual_time_monotone overdue _ (advance_to_next_timeout overdue).2).
  by destruct (advance_to_next_timeout overdue).
Defined.
