(* ===== verification/Sqlite.v ===== *)
(** * The database connection of the node's store

    The parts of [crates/kcoin-node/src/storage.rs] every operation goes
    through: the mutex around the connection, the SQL transaction that commits
    or is rolled back when its guard is dropped, and the conversion of Rust
    integers to and from SQL's signed 64-bit integers.

    A statement is a function on the database.  Whether SQLite can execute it
    is up to its environment (the disk, other connections): [faults] scripts,
    for each coming statement or commit, the error it fails with; every theorem
    holds for all scripts.  A failed statement leaves the database as it was, a
    failed or absent commit loses the transaction: these are SQLite's
    guarantees. *)

From S2P Require Import Prelude.

(** [rusqlite::Error], by what the store can meet. *)
Inductive SqliteError : Type :=
| ConstraintViolation
| ToSqlConversionFailure
| IntegralValueOutOfRange
| DatabaseFull
| SqliteFailure (code : Z).

#[export] Instance SqliteError_eq_dec : EqDecision SqliteError.
Proof. solve_decision. Defined.

Inductive StorageError : Type :=
| Sqlite (e : SqliteError)
| Poisoned
| ConflictingFinality (height : Z)
| ConflictingSignature (slot : ustring)
| ConflictingSafetyState (slot : ustring)
| ConflictingSignedMessage (slot : ustring)
| ConflictingProposal (height round : Z)
| MalformedSignerSlot (slot : ustring).

#[export] Instance StorageError_eq_dec : EqDecision StorageError.
Proof. solve_decision. Defined.

(** ** Integers: [impl ToSql for u64], [impl FromSql for u64] and [u32] *)

Definition to_sql_u64 (v : Z) : result SqliteError Z :=
  if v <=? i64_max then Ok v else Err ToSqlConversionFailure.

Definition from_sql_u64 (v : Z) : result SqliteError Z :=
  if 0 <=? v then Ok v else Err IntegralValueOutOfRange.

Definition from_sql_u32 (v : Z) : result SqliteError Z :=
  if (0 <=? v) && (v <=? u32_max) then Ok v else Err IntegralValueOutOfRange.

Lemma to_sql_u64_Ok v w : to_sql_u64 v = Ok w <-> w = v /\ v <= i64_max.
Proof. unfold to_sql_u64. destruct (Z.leb_spec v i64_max); naive_solver lia. Qed.

Lemma from_sql_u64_Ok v w : from_sql_u64 v = Ok w <-> w = v /\ 0 <= v.
Proof. unfold from_sql_u64. destruct (Z.leb_spec 0 v); naive_solver lia. Qed.

Lemma from_sql_u32_Ok v w : from_sql_u32 v = Ok w <-> w = v /\ is_u32 v.
Proof.
  unfold from_sql_u32, in_range.
  destruct (Z.leb_spec 0 v), (Z.leb_spec v u32_max); naive_solver lia.
Qed.

(** ** The connection *)

Section connection.
Context {Database : Type}.

(** [Store]: [Arc<Mutex<Connection>>]. [working] is the state seen inside an
    open transaction. *)
Record Store : Type := mk_Store {
  poisoned : bool;
  faults : list (option SqliteError);
  durable : Database;
  working : option Database
}.

Definition set_durable (db : Database) (s : Store) : Store :=
  mk_Store (poisoned s) (faults s) db (working s).
Definition set_working (w : option Database) (s : Store) : Store :=
  mk_Store (poisoned s) (faults s) (durable s) w.
Definition next_faults (s : Store) : Store :=
  mk_Store (poisoned s) (tail (faults s)) (durable s) (working s).

(** The state a statement sees, and where its result goes: without an open
    transaction every statement commits by itself. *)
Definition view (s : Store) : Database := default (durable s) (working s).
Definition write (db : Database) (s : Store) : Store :=
  match working s with
  | Some _ => set_working (Some db) s
  | None => set_durable db s
  end.

(** [self.connection()?]: the lock. *)
Definition connection : stE Store StorageError () := fun s =>
  if poisoned s then (s, Err Poisoned) else (s, Ok ()).

(** [execute] of a statement that changes the database. *)
Definition execute {A} (statement : Database -> result SqliteError (Database * A)) :
    stE Store StorageError A := fun s =>
  match head (faults s) with
  | Some (Some e) => (next_faults s, Err (Sqlite e))
  | _ =>
      match statement (view s) with
      | Ok (db, a) => (write db (next_faults s), Ok a)
      | Err e => (next_faults s, Err (Sqlite e))
      end
  end.

(** [query_row], or [prepare], [query_map] and [collect]. *)
Definition query {A} (select : Database -> result SqliteError A) : stE Store StorageError A :=
  fun s =>
  match head (faults s) with
  | Some (Some e) => (next_faults s, Err (Sqlite e))
  | _ => (next_faults s, map_err Sqlite (select (view s)))
  end.

(** [SQLITE_ERROR], which [BEGIN] answers inside a transaction. *)
Definition SQLITE_ERROR : Z := 1.

(** [connection.transaction()?], [BEGIN IMMEDIATE]. *)
Definition begin_transaction : stE Store StorageError () := fun s =>
  match head (faults s), working s with
  | Some (Some e), _ => (next_faults s, Err (Sqlite e))
  | _, Some _ => (next_faults s, Err (Sqlite (SqliteFailure SQLITE_ERROR)))
  | _, None => (set_working (Some (durable s)) (next_faults s), Ok ())
  end.

(** [transaction.commit()?]. *)
Definition commit : stE Store StorageError () := fun s =>
  match head (faults s) with
  | Some (Some e) => (next_faults s, Err (Sqlite e))
  | _ => (set_working None (set_durable (view s) (next_faults s)), Ok ())
  end.

(** The scope of a [Transaction]: dropped without a commit it rolls back. *)
Definition with_transaction {A} (body : stE Store StorageError A) : stE Store StorageError A :=
  fun s =>
  match begin_transaction s with
  | (s, Ok _) => let '(s, outcome) := body s in (set_working None s, outcome)
  | (s, Err e) => (s, Err e)
  end.

(** ** Frames *)

(** Between two operations no transaction is open. *)
Definition idle (s : Store) : Prop := working s = None.

Definition same_durable (s s' : Store) : Prop := durable s' = durable s /\ poisoned s' = poisoned s.

#[export] Instance same_durable_preorder : PreOrder same_durable.
Proof. split; [by intros s; split|]. intros s1 s2 s3 [??] [??]. split; congruence. Qed.

Lemma connection_Ok s s' : connection s = (s', Ok ()) -> s' = s /\ poisoned s = false.
Proof. unfold connection. destruct (poisoned s); naive_solver. Qed.

Lemma connection_frame s s' r : connection s = (s', r) -> s' = s.
Proof. unfold connection. destruct (poisoned s); naive_solver. Qed.

Lemma query_frame {A} (select : Database -> result SqliteError A) s s' r :
  query select s = (s', r) -> s' = next_faults s.
Proof. unfold query. destruct (head (faults s)) as [[e|]|]; naive_solver. Qed.

Lemma query_Ok {A} (select : Database -> result SqliteError A) s s' a :
  query select s = (s', Ok a) -> s' = next_faults s /\ select (view s) = Ok a.
Proof.
  unfold query. destruct (head (faults s)) as [[e|]|]; intros [= <- H]; auto.
  all: split; [done|]; by eapply map_err_Ok_inv.
Qed.

(** What a query answers when the environment lets it run. *)
Lemma query_no_fault {A} (select : Database -> result SqliteError A) s :
  faults s = [] -> query select s = (next_faults s, map_err Sqlite (select (view s))).
Proof. unfold query. by intros ->. Qed.

(** A statement outside a transaction either happens on the durable database
    or does nothing. *)
Lemma execute_idle {A} (st : Database -> result SqliteError (Database * A)) s s' r :
  idle s -> execute st s = (s', r) ->
  idle s' /\ poisoned s' = poisoned s /\
  match r with
  | Ok a => st (durable s) = Ok (durable s', a)
  | Err _ => durable s' = durable s
  end.
Proof.
  unfold idle, execute, write, view. intros Hi.
  destruct (head (faults s)) as [[e|]|]; [intros [= <- <-]; done|..];
    rewrite Hi; simpl; destruct (st (durable s)) as [[db a]|e] eqn:E;
    intros [= <- <-]; simpl; rewrite ?Hi; done.
Qed.

(** A statement inside a transaction touches only the working copy. *)
Lemma execute_open {A} (st : Database -> result SqliteError (Database * A)) s s' r w :
  working s = Some w -> execute st s = (s', r) ->
  same_durable s s' /\
  match r with
  | Ok a => exists w', working s' = Some w' /\ st w = Ok (w', a)
  | Err _ => working s' = Some w
  end.
Proof.
  unfold same_durable, execute, write, view. intros Hw.
  destruct (head (faults s)) as [[e|]|]; [intros [= <- <-]; done|..];
    rewrite Hw; simpl; destruct (st w) as [[db a]|e] eqn:E;
    intros [= <- <-]; simpl; rewrite ?Hw; naive_solver.
Qed.

Lemma commit_open s s' r w :
  working s = Some w -> commit s = (s', r) ->
  poisoned s' = poisoned s /\
  match r with
  | Ok _ => working s' = None /\ durable s' = w
  | Err _ => working s' = Some w /\ durable s' = durable s
  end.
Proof.
  unfold commit, view. intros Hw.
  destruct (head (faults s)) as [[e|]|]; [intros [= <- <-]; done|..];
    rewrite Hw; simpl; intros [= <- <-]; done.
Qed.

Lemma begin_transaction_open s s' r :
  idle s -> begin_transaction s = (s', r) ->
  same_durable s s' /\
  match r with
  | Ok _ => working s' = Some (durable s)
  | Err _ => idle s'
  end.
Proof.
  unfold idle, same_durable, begin_transaction. intros Hi. rewrite Hi.
  destruct (head (faults s)) as [[e|]|]; intros [= <- <-]; done.
Qed.

Lemma begin_transaction_nested s s' r w :
  working s = Some w -> begin_transaction s = (s', r) ->
  exists e, r = Err e /\ same_durable s s' /\ working s' = Some w.
Proof.
  unfold same_durable, begin_transaction. intros Hw. rewrite Hw.
  destruct (head (faults s)) as [[e|]|]; intros [= <- <-]; eauto.
Qed.

(** ** Statements inside a transaction, composed

    [transacts P m]: [m], run inside a transaction, leaves the durable database
    alone and the transaction open; on success the transaction's contents
    before and after, and the result, are related by [P]. *)
Definition transacts {A} (P : Database -> Database -> A -> Prop) (m : stE Store StorageError A) : Prop :=
  forall s s' r w, working s = Some w -> m s = (s', r) ->
    same_durable s s' /\ is_Some (working s') /\
    forall a, r = Ok a -> exists w', working s' = Some w' /\ P w w' a.

Lemma transacts_execute {A} (st : Database -> result SqliteError (Database * A)) :
  transacts (fun w w' a => st w = Ok (w', a)) (execute st).
Proof.
  intros s s' r w Hw Hr. destruct (execute_open st s s' r w Hw Hr) as [Hd Hres].
  split; [done|]. destruct r as [a|e].
  - destruct Hres as (w' & Hw' & Hst). split; [by eexists|]. intros ? [= <-]. eauto.
  - split; [by eexists|done].
Qed.

Lemma transacts_query {A} (select : Database -> result SqliteError A) :
  transacts (fun w w' a => w' = w /\ select w = Ok a) (query select).
Proof.
  intros s s' r w Hw Hr. pose proof (query_frame select s s' r Hr) as ->.
  split; [done|]. split; [by eexists|]. intros a ->.
  apply query_Ok in Hr as [_ Hs]. unfold view in Hs. rewrite Hw in Hs. simpl. eauto.
Qed.

Lemma transacts_bind {A B} P Q (m : stE Store StorageError A) (f : A -> stE Store StorageError B) :
  transacts P m -> (forall a, transacts (Q a) (f a)) ->
  transacts (fun w w'' b => exists a w', P w w' a /\ Q a w' w'' b) (m ≫= f).
Proof.
  intros Hm Hf s s' r w Hw Hr. unfold mbind, stE_bind in Hr.
  destruct (m s) as [s1 [a|e]] eqn:E1.
  - destruct (Hm s s1 (Ok a) w Hw E1) as (Hd1 & _ & Hok). destruct (Hok a eq_refl) as (w1 & Hw1 & HP).
    destruct (Hf a s1 s' r w1 Hw1 Hr) as (Hd2 & Hopen & Hok2). split; [by etrans|].
    split; [done|]. intros b ->. destruct (Hok2 b eq_refl) as (w2 & Hw2 & HQ). eauto 6.
  - injection Hr as <- <-. destruct (Hm s s1 (Err e) w Hw E1) as (Hd1 & Hopen & _).
    split; [done|]. split; [done|]. done.
Qed.

Lemma transacts_ret {A} (a : A) : transacts (fun w w' b => w' = w /\ b = a) (mret a).
Proof. intros s s' r w Hw [= <- <-]. split; [done|]. split; [by eexists|]. naive_solver. Qed.

Lemma transacts_throw {A} (P : Database -> Database -> A -> Prop) e : transacts P (throw e).
Proof. intros s s' r w Hw [= <- <-]. split; [done|]. split; [by eexists|]. naive_solver. Qed.

Lemma transacts_weaken {A} (P Q : Database -> Database -> A -> Prop) m :
  transacts P m -> (forall w w' a, P w w' a -> Q w w' a) -> transacts Q m.
Proof.
  intros Hm HPQ s s' r w Hw Hr. destruct (Hm s s' r w Hw Hr) as (Hd & Ho & Hok).
  split; [done|]. split; [done|]. intros a ->. destruct (Hok a eq_refl) as (w' & Hw' & HP). eauto.
Qed.

(** ** What an operation does to the durable database

    [updates P m]: between transactions, a success of [m] takes the durable
    database to one related to it by [P], and an error leaves it unchanged;
    while a transaction is left open nothing durable changes. *)
Definition updates {A} (P : Database -> Database -> A -> Prop) (m : stE Store StorageError A) : Prop :=
  forall s s' r, m s = (s', r) ->
    poisoned s' = poisoned s /\
    (~ idle s -> ~ idle s' /\ durable s' = durable s) /\
    (idle s -> match r with
               | Ok a => idle s' /\ P (durable s) (durable s') a
               | Err _ => durable s' = durable s
               end).

(** [commits P m]: [m], run as the body of a transaction, ends either without
    a durable change or with what it committed. *)
Definition commits {A} (P : Database -> Database -> A -> Prop) (m : stE Store StorageError A) : Prop :=
  forall s s' r w, working s = Some w -> durable s = w -> m s = (s', r) ->
    poisoned s' = poisoned s /\
    match r with
    | Ok a => P w (durable s') a
    | Err _ => durable s' = w
    end.

Lemma updates_with_transaction {A} P (m : stE Store StorageError A) :
  commits P m -> updates P (with_transaction m).
Proof.
  intros Hm s s' r Hr. unfold with_transaction in Hr.
  destruct (begin_transaction s) as [s0 [[]|e0]] eqn:E0.
  - destruct (working s) as [w|] eqn:Hi;
      [by destruct (begin_transaction_nested s s0 _ w Hi E0) as (? & ? & _)|].
    pose proof (begin_transaction_open s s0 _ Hi E0) as [[Hd0 Hp0] Hw0].
    destruct (m s0) as [s1 r1] eqn:E1. destruct (Hm s0 s1 r1 _ Hw0 Hd0 E1) as [Hp1 Hr1].
    injection Hr as <- <-. unfold idle; simpl. split_and!; [congruence|tauto|]. intros _. by destruct r1.
  - injection Hr as <- <-. destruct (working s) as [w|] eqn:Hi.
    + destruct (begin_transaction_nested s s0 _ w Hi E0) as (? & _ & [??] & ?).
      unfold idle. split_and!; try congruence. intros. split; congruence.
    + pose proof (begin_transaction_open s s0 _ Hi E0) as [[??] ?]. split_and!; try tauto; congruence.
Qed.

(** Statements and then the commit: all of them are done, or none is. *)
Lemma commits_commit {A B} P (m : stE Store StorageError A) (b : A -> B) :
  transacts P m -> commits (fun w w' x => exists a, P w w' a /\ x = b a) (a ← m; _ ← commit; mret (b a)).
Proof.
  intros Hm s s' r w Hw Hd Hr. unfold mbind, stE_bind in Hr.
  destruct (m s) as [s1 [a|e1]] eqn:E1; destruct (Hm s s1 _ _ Hw E1) as ([Hd1 Hp1] & _ & Hok);
    [|injection Hr as <- <-; split; congruence].
  destruct (Hok a eq_refl) as (w1 & Hw1 & HP).
  destruct (commit s1) as [s2 [[]|e2]] eqn:E2;
    pose proof (commit_open s1 s2 _ w1 Hw1 E2) as [Hp2 [Hres1 Hres2]];
    injection Hr as <- <-; (split; [congruence|]); [|congruence].
  rewrite Hres2. eauto.
Qed.

Lemma commits_read {A B} P (select : Database -> result SqliteError A) (f : A -> stE Store StorageError B) :
  (forall a, commits (fun w w' b => select w = Ok a -> P w w' b) (f a)) -> commits P (query select ≫= f).
Proof.
  intros Hf s s' r w Hw Hd Hr. unfold mbind, stE_bind in Hr.
  destruct (query select s) as [s1 [a|e]] eqn:E1.
  - destruct (query_Ok _ _ _ _ E1) as [-> Hs]. unfold view in Hs. rewrite Hw in Hs.
    destruct (Hf a (next_faults s) s' r w Hw Hd Hr) as [Hp Hres]. split; [done|].
    destruct r; auto.
  - injection Hr as <- <-. apply query_frame in E1 as ->. split; [done|]. done.
Qed.

Lemma commits_ret {A} (a : A) : commits (fun w w' b => w' = w /\ b = a) (mret a).
Proof. intros s s' r w Hw Hd [= <- <-]. done. Qed.

Lemma commits_throw {A} (P : Database -> Database -> A -> Prop) e : commits P (throw e).
Proof. intros s s' r w Hw Hd [= <- <-]. done. Qed.

Lemma commits_weaken {A} (P Q : Database -> Database -> A -> Prop) m :
  commits P m -> (forall w w' a, P w w' a -> Q w w' a) -> commits Q m.
Proof.
  intros Hm HPQ s s' r w Hw Hd Hr. destruct (Hm s s' r w Hw Hd Hr) as [Hp Hres]. split; [done|].
  destruct r; auto.
Qed.

Lemma commits_ext {A} {P : Database -> Database -> A -> Prop} (m m' : stE Store StorageError A) :
  (forall s, m s = m' s) -> commits P m -> commits P m'.
Proof. intros Hmm Hm s s' r w Hw Hd Hr. rewrite <- Hmm in Hr. eauto. Qed.

Lemma updates_ext {A} {P : Database -> Database -> A -> Prop} (m m' : stE Store StorageError A) :
  (forall s, m s = m' s) -> updates P m -> updates P m'.
Proof. intros Hmm Hm s s' r Hr. rewrite <- Hmm in Hr. eauto. Qed.

Lemma updates_execute {A} (st : Database -> result SqliteError (Database * A)) :
  updates (fun db db' a => st db = Ok (db', a)) (execute st).
Proof.
  intros s s' r Hr. destruct (working s) as [w|] eqn:Hi.
  - destruct (execute_open st s s' r w Hi Hr) as [[Hd Hp] Hres].
    assert (is_Some (working s')) as [w' Hw'] by (destruct r; [naive_solver|eauto]).
    unfold idle. split_and!; try congruence. intros _. split; congruence.
  - destruct (execute_idle st s s' r Hi Hr) as (Hi' & Hp & Hres).
    split_and!; [done|tauto|]. intros _. destruct r; auto.
Qed.

Lemma updates_query {A} (select : Database -> result SqliteError A) :
  updates (fun db db' a => db' = db /\ select db = Ok a) (query select).
Proof.
  intros s s' r Hr. pose proof (query_frame select s s' r Hr) as ->.
  split_and!; [done|tauto|]. intros Hi. destruct r as [a|e]; [|done].
  apply query_Ok in Hr as [_ Hs]. unfold view in Hs. unfold idle in Hi. rewrite Hi in Hs. done.
Qed.

Lemma updates_connection : updates (fun db db' _ => db' = db) connection.
Proof.
  intros s s' r Hr. pose proof (connection_frame s s' r Hr) as ->.
  split_and!; [done|tauto|]. intros Hi. by destruct r.
Qed.

Lemma updates_weaken {A} (P Q : Database -> Database -> A -> Prop) m :
  updates P m -> (forall db db' a, P db db' a -> Q db db' a) -> updates Q m.
Proof.
  intros Hm HPQ s s' r Hr. destruct (Hm s s' r Hr) as (Hp & Hn & Hi). split_and!; [done..|].
  intros Hidle. specialize (Hi Hidle). destruct r; [|done]. destruct Hi. auto.
Qed.

(** After a read, or a step that only fails, the rest of an operation. *)
Lemma updates_read {A B} (Q : Database -> A -> Prop) P (m : stE Store StorageError A)
    (f : A -> stE Store StorageError B) :
  updates (fun db db' a => db' = db /\ Q db a) m ->
  (forall a, updates (fun db db' b => Q db a -> P db db' b) (f a)) ->
  updates P (m ≫= f).
Proof.
  intros Hm Hf s s' r Hr. unfold mbind, stE_bind in Hr.
  destruct (m s) as [s1 [a|e]] eqn:E1; destruct (Hm s s1 _ E1) as (Hp1 & Hn1 & Hi1).
  - destruct (Hf a s1 s' r Hr) as (Hp2 & Hn2 & Hi2). split_and!; [congruence| |].
    + intros Hn. destruct (Hn1 Hn) as [Hn' Hd1]. destruct (Hn2 Hn') as [? Hd2]. split; [done|congruence].
    + intros Hi. destruct (Hi1 Hi) as (Hi' & Hd1 & HQ). specialize (Hi2 Hi'). rewrite Hd1 in Hi2.
      destruct r; [|done]. destruct Hi2. auto.
  - injection Hr as <- <-. done.
Qed.

Lemma updates_then {A B} P (m : stE Store StorageError A) (f : A -> stE Store StorageError B) :
  updates (fun db db' _ => db' = db) m -> (forall a, updates P (f a)) -> updates P (m ≫= f).
Proof.
  intros Hm Hf. apply (updates_read (fun _ _ => True)).
  - eapply updates_weaken; [exact Hm|]. auto.
  - intros a. eapply updates_weaken; [apply Hf|]. auto.
Qed.

Lemma updates_ret {A} (a : A) : updates (fun db db' b => db' = db /\ b = a) (mret a).
Proof. intros s s' r [= <- <-]. split_and!; [done|tauto|done]. Qed.

Lemma updates_throw {A} (P : Database -> Database -> A -> Prop) e : updates P (throw e).
Proof. intros s s' r [= <- <-]. split_and!; [done|tauto|done]. Qed.

Lemma updates_lift {A} (x : result StorageError A) :
  updates (fun db db' a => db' = db /\ x = Ok a) (lift x).
Proof. intros s s' r [= <- <-]. split_and!; [done|tauto|]. by destruct x. Qed.

End connection.
Arguments Store Database : clear implicits.
