(* ===== verification/Store.v ===== *)
(** * The node's store

    [crates/kcoin-node/src/storage.rs]: the tables of [SCHEMA] and every
    operation of [impl Store].  An operation is a computation on the
    connection of [Sqlite]; each SQL statement of the source is one definition
    on the tables, with the constraints of the schema (primary keys, [UNIQUE],
    [REFERENCES]) and its [WHERE], [ORDER BY] and [LIMIT].

    A table with an integer or text primary key is a finite map; [signer_state]
    and [consensus_wal] are lists in [rowid] order, the order their readers
    use. *)

From S2P Require Import Prelude Crypto Sqlite.

(** [blake3::hash(bytes).to_hex().to_string()], of the BLAKE3 crate. *)
Class Blake3Checksum : Type := blake3_checksum : bytes -> ustring.

(** ** Rows and projections *)

Record TransactionProjection : Type := mk_TransactionProjection {
  tp_id : ustring;
  tp_index : Z;
  tp_kind : ustring;
  tp_sender : ustring;
  tp_recipient : option ustring;
  tp_amount_atoms : Z;
  tp_nonce : Z
}.

Record AccountProjection : Type := mk_AccountProjection {
  ap_address : ustring;
  ap_balance_atoms : Z;
  ap_nonce : Z;
  ap_display_name : option ustring;
  ap_transaction_count : Z
}.

Record FinalizedProjection : Type := mk_FinalizedProjection {
  fp_height : Z;
  fp_block_hash : ustring;
  fp_parent_hash : ustring;
  fp_state_root : ustring;
  fp_proposer : ustring;
  fp_round : Z;
  fp_timestamp_ms : Z;
  fp_block_bytes : bytes;
  fp_certificate_bytes : bytes;
  fp_transactions : list TransactionProjection;
  fp_changed_accounts : list AccountProjection;
  fp_issued_supply_atoms : Z;
  fp_challenge_json : ustring
}.

Record BlockRow : Type := mk_BlockRow {
  br_height : Z;
  br_block_hash : ustring;
  br_parent_hash : ustring;
  br_state_root : ustring;
  br_proposer : ustring;
  br_round : Z;
  br_timestamp_ms : Z;
  br_transaction_count : Z;
  br_block_bytes : bytes;
  br_certificate_bytes : bytes
}.

Record TransactionRow : Type := mk_TransactionRow {
  tw_id : ustring;
  tw_block_height : Z;
  tw_index : Z;
  tw_kind : ustring;
  tw_sender : ustring;
  tw_recipient : option ustring;
  tw_amount_atoms : Z;
  tw_nonce : Z
}.

Record PersistedConsensusDecision : Type := mk_PersistedConsensusDecision {
  pd_slot : ustring;
  pd_sign_bytes : bytes;
  pd_signature : bytes;
  pd_safety_state : bytes;
  pd_signed_message : bytes
}.

Record PersistedConsensusProposal : Type := mk_PersistedConsensusProposal {
  pp_height : Z;
  pp_round : Z;
  pp_block_id : bytes;
  pp_block_bytes : bytes;
  pp_signed_proposal : bytes
}.

(** A row of [accounts]: the projection and [last_height]. *)
Record AccountRow : Type := mk_AccountRow { aw_account : AccountProjection; aw_last_height : Z }.

Record WalRow : Type := mk_WalRow {
  wal_sequence : Z;
  wal_kind : ustring;
  wal_bytes : bytes;
  wal_checksum : ustring
}.

#[export] Instance TransactionProjection_eq_dec : EqDecision TransactionProjection.
Proof. solve_decision. Defined.
#[export] Instance AccountProjection_eq_dec : EqDecision AccountProjection.
Proof. solve_decision. Defined.
#[export] Instance BlockRow_eq_dec : EqDecision BlockRow.
Proof. solve_decision. Defined.
#[export] Instance TransactionRow_eq_dec : EqDecision TransactionRow.
Proof. solve_decision. Defined.
#[export] Instance PersistedConsensusDecision_eq_dec : EqDecision PersistedConsensusDecision.
Proof. solve_decision. Defined.
#[export] Instance PersistedConsensusProposal_eq_dec : EqDecision PersistedConsensusProposal.
Proof. solve_decision. Defined.

(** [SCHEMA]. *)
Record Database : Type := mk_Database {
  blocks : gmap Z BlockRow;
  transactions : gmap ustring TransactionRow;
  accounts : gmap ustring AccountRow;
  metadata : gmap ustring ustring;
  consensus_wal : list WalRow;
  signer_state : list PersistedConsensusDecision;
  consensus_safety : option (Z * bytes);
  consensus_proposals : gmap (Z * Z) PersistedConsensusProposal
}.

Definition empty_database : Database := mk_Database ∅ ∅ ∅ ∅ [] [] None ∅.

Definition set_blocks (f : gmap Z BlockRow -> gmap Z BlockRow) (db : Database) : Database :=
  mk_Database (f (blocks db)) (transactions db) (accounts db) (metadata db) (consensus_wal db)
    (signer_state db) (consensus_safety db) (consensus_proposals db).
Definition set_transactions (f : gmap ustring TransactionRow -> gmap ustring TransactionRow) (db : Database) : Database :=
  mk_Database (blocks db) (f (transactions db)) (accounts db) (metadata db) (consensus_wal db)
    (signer_state db) (consensus_safety db) (consensus_proposals db).
Definition set_accounts (f : gmap ustring AccountRow -> gmap ustring AccountRow) (db : Database) : Database :=
  mk_Database (blocks db) (transactions db) (f (accounts db)) (metadata db) (consensus_wal db)
    (signer_state db) (consensus_safety db) (consensus_proposals db).
Definition set_metadata (f : gmap ustring ustring -> gmap ustring ustring) (db : Database) : Database :=
  mk_Database (blocks db) (transactions db) (accounts db) (f (metadata db)) (consensus_wal db)
    (signer_state db) (consensus_safety db) (consensus_proposals db).
Definition set_consensus_wal (f : list WalRow -> list WalRow) (db : Database) : Database :=
  mk_Database (blocks db) (transactions db) (accounts db) (metadata db) (f (consensus_wal db))
    (signer_state db) (consensus_safety db) (consensus_proposals db).
Definition set_signer_state (f : list PersistedConsensusDecision -> list PersistedConsensusDecision)
    (db : Database) : Database :=
  mk_Database (blocks db) (transactions db) (accounts db) (metadata db) (consensus_wal db)
    (f (signer_state db)) (consensus_safety db) (consensus_proposals db).
Definition set_consensus_safety (f : option (Z * bytes) -> option (Z * bytes)) (db : Database) : Database :=
  mk_Database (blocks db) (transactions db) (accounts db) (metadata db) (consensus_wal db)
    (signer_state db) (f (consensus_safety db)) (consensus_proposals db).
Definition set_consensus_proposals
    (f : gmap (Z * Z) PersistedConsensusProposal -> gmap (Z * Z) PersistedConsensusProposal)
    (db : Database) : Database :=
  mk_Database (blocks db) (transactions db) (accounts db) (metadata db) (consensus_wal db)
    (signer_state db) (consensus_safety db) (f (consensus_proposals db)).

(** ** The statements of [persist_finalized] and [refresh_block_projection] *)

Definition select_block_hash (height : Z) (db : Database) : result SqliteError (option ustring) :=
  height ← to_sql_u64 height;
  Ok (br_block_hash <$> blocks db !! height).

(** Whether another block has the hash: [block_hash TEXT NOT NULL UNIQUE]. *)
Definition hash_taken (height : Z) (hash : ustring) (db : Database) : bool :=
  bool_decide (map_Exists (fun h row => h <> height /\ br_block_hash row = hash) (blocks db)).

(** The columns both statements bind: [u64]s that do not fit fail. *)
Definition block_row (block : FinalizedProjection) : result SqliteError BlockRow :=
  height ← to_sql_u64 (fp_height block);
  timestamp_ms ← to_sql_u64 (fp_timestamp_ms block);
  transaction_count ← to_sql_u64 (Z.of_nat (length (fp_transactions block)));
  Ok (mk_BlockRow height (fp_block_hash block) (fp_parent_hash block) (fp_state_root block)
        (fp_proposer block) (fp_round block) timestamp_ms transaction_count
        (fp_block_bytes block) (fp_certificate_bytes block)).

Definition insert_block (block : FinalizedProjection) (db : Database) :
    result SqliteError (Database * ()) :=
  row ← block_row block;
  if bool_decide (is_Some (blocks db !! br_height row)) || hash_taken (br_height row) (br_block_hash row) db
  then Err ConstraintViolation
  else Ok (set_blocks <[br_height row := row]> db, ()).

(** [INSERT .. ON CONFLICT(id) DO UPDATE]: [UNIQUE(block_height, tx_index)] and
    the foreign key remain. *)
Definition upsert_transaction (height : Z) (tx : TransactionProjection) (db : Database) :
    result SqliteError (Database * ()) :=
  height ← to_sql_u64 height;
  amount_atoms ← to_sql_u64 (tp_amount_atoms tx);
  nonce ← to_sql_u64 (tp_nonce tx);
  if bool_decide (map_Exists
       (fun id row => id <> tp_id tx /\ tw_block_height row = height /\ tw_index row = tp_index tx)
       (transactions db)) ||
     bool_decide (blocks db !! height = None)
  then Err ConstraintViolation
  else Ok (set_transactions
             <[tp_id tx := mk_TransactionRow (tp_id tx) height (tp_index tx) (tp_kind tx)
                 (tp_sender tx) (tp_recipient tx) amount_atoms nonce]> db, ()).

Definition upsert_account (height : Z) (account : AccountProjection) (db : Database) :
    result SqliteError (Database * ()) :=
  balance_atoms ← to_sql_u64 (ap_balance_atoms account);
  nonce ← to_sql_u64 (ap_nonce account);
  transaction_count ← to_sql_u64 (ap_transaction_count account);
  height ← to_sql_u64 height;
  Ok (set_accounts
        <[ap_address account := mk_AccountRow
            (mk_AccountProjection (ap_address account) balance_atoms nonce (ap_display_name account)
               transaction_count) height]> db, ()).

Definition upsert_metadata (key value : ustring) (db : Database) : result SqliteError (Database * ()) :=
  Ok (set_metadata <[key := value]> db, ()).

Definition delete_consensus_safety (height : Z) (db : Database) : result SqliteError (Database * ()) :=
  height ← to_sql_u64 height;
  Ok (set_consensus_safety
        (fun row => match row with
                    | Some (h, _) => if h =? height then None else row
                    | None => None
                    end) db, ()).

(** [UPDATE blocks .. WHERE height = ?1 AND block_bytes = ?9 AND
    certificate_bytes = ?10]: the number of rows changed. *)
Definition update_block_projection (block : FinalizedProjection) (db : Database) :
    result SqliteError (Database * Z) :=
  row ← block_row block;
  match blocks db !! br_height row with
  | Some existing =>
      if bool_decide (br_block_bytes existing = br_block_bytes row) &&
         bool_decide (br_certificate_bytes existing = br_certificate_bytes row)
      then
        if hash_taken (br_height row) (br_block_hash row) db then Err ConstraintViolation
        else Ok (set_blocks <[br_height row := row]> db, 1)
      else Ok (db, 0)
  | None => Ok (db, 0)
  end.

(** ** Finalized blocks *)

Abbreviation storeM := (stE (Store Database) StorageError).

(** [for x in l { transaction.execute(..)?; }]. *)
Fixpoint execute_all {A} (statement : A -> Database -> result SqliteError (Database * ()))
    (l : list A) : storeM () :=
  match l with
  | [] => mret ()
  | x :: l => _ ← execute (statement x); execute_all statement l
  end.

(** The five rows [persist_finalized] keeps in [metadata]. *)
Definition finalized_metadata (block : FinalizedProjection) : list (ustring * ustring) :=
  [(str "tip_height", to_string (fp_height block));
   (str "tip_hash", fp_block_hash block);
   (str "state_root", fp_state_root block);
   (str "issued_supply_atoms", to_string (fp_issued_supply_atoms block));
   (str "challenge", fp_challenge_json block)].

(** The statements of [persist_finalized] up to its commit. *)
Definition finalized_statements (block : FinalizedProjection) : storeM () :=
  existing ← query (select_block_hash (fp_height block));
  block_exists ← match existing with
                 | Some existing_hash =>
                     if bool_decide (existing_hash = fp_block_hash block) then mret true
                     else throw (ConflictingFinality (fp_height block))
                 | None => mret false
                 end;
  _ ← (if (block_exists : bool) then mret () else execute (insert_block block));
  _ ← execute_all (upsert_transaction (fp_height block)) (fp_transactions block);
  _ ← execute_all (upsert_account (fp_height block)) (fp_changed_accounts block);
  _ ← execute_all (fun kv => upsert_metadata kv.1 kv.2) (finalized_metadata block);
  execute (delete_consensus_safety (fp_height block)).

Definition persist_finalized (block : FinalizedProjection) : storeM () :=
  _ ← connection;
  with_transaction
    (done ← finalized_statements block;
     _ ← commit;
     mret done).

Definition refresh_block_projection (block : FinalizedProjection) : storeM () :=
  _ ← connection;
  changed ← execute (update_block_projection block);
  if bool_decide (changed <> 1) then throw (ConflictingFinality (fp_height block)) else mret ().

(** ** Reads of blocks *)

Definition block_from_row (row : BlockRow) : result SqliteError BlockRow :=
  height ← from_sql_u64 (br_height row);
  round ← from_sql_u32 (br_round row);
  timestamp_ms ← from_sql_u64 (br_timestamp_ms row);
  transaction_count ← from_sql_u64 (br_transaction_count row);
  Ok (mk_BlockRow height (br_block_hash row) (br_parent_hash row) (br_state_root row)
        (br_proposer row) round timestamp_ms transaction_count
        (br_block_bytes row) (br_certificate_bytes row)).

(** [optional()] of a [query_row]. *)
Definition optional_row {A B} (from_row : A -> result SqliteError B) (row : option A) :
    result SqliteError (option B) :=
  match row with
  | Some row => row ← from_row row; Ok (Some row)
  | None => Ok None
  end.

Definition limit {A} (n : Z) (l : list A) : list A := take (Z.to_nat n) l.
(** [u32::clamp]. *)
Definition clamp (lo hi n : Z) : Z := Z.min (Z.max n lo) hi.

(** [FROM blocks ORDER BY height ASC]. *)
Definition blocks_ascending (db : Database) : list BlockRow := btree_values Z.leb (blocks db).

Definition tip : storeM (option BlockRow) :=
  _ ← connection;
  query (fun db => optional_row block_from_row (head (reverse (blocks_ascending db)))).

Definition block_by_height (height : Z) : storeM (option BlockRow) :=
  _ ← connection;
  query (fun db =>
    height ← to_sql_u64 height;
    optional_row block_from_row (blocks db !! height)).

Definition block_by_hash (hash : ustring) : storeM (option BlockRow) :=
  _ ← connection;
  query (fun db =>
    optional_row block_from_row
      (head (filter (fun row => br_block_hash row = hash) (blocks_ascending db)))).

(** [Option<u64>] bound to [?1]. *)
Definition to_sql_option (v : option Z) : result SqliteError (option Z) :=
  match v with
  | Some v => v ← to_sql_u64 v; Ok (Some v)
  | None => Ok None
  end.

(** [?1 IS NULL OR height < ?1]. *)
Definition is_before (before : option Z) (row : BlockRow) : Prop :=
  match before with Some b => br_height row < b | None => True end.

#[export] Instance is_before_dec before row : Decision (is_before before row).
Proof. destruct before; simpl; apply _. Defined.

Definition list_blocks (before : option Z) (limit_ : Z) : storeM (list BlockRow) :=
  _ ← connection;
  query (fun db =>
    before ← to_sql_option before;
    try_collect block_from_row
      (limit (clamp 1 101 limit_)
         (filter (is_before before) (reverse (blocks_ascending db))))).

Definition canonical_blocks : storeM (list bytes) :=
  _ ← connection;
  query (fun db => Ok (br_block_bytes <$> blocks_ascending db)).

Definition canonical_block_rows : storeM (list BlockRow) :=
  _ ← connection;
  query (fun db => try_collect block_from_row (blocks_ascending db)).

Definition finalized_range (from_height limit_ : Z) : storeM (list BlockRow) :=
  _ ← connection;
  query (fun db =>
    from_height ← to_sql_u64 from_height;
    try_collect block_from_row
      (limit (Z.min limit_ 128)
         (filter (fun row => from_height <= br_height row) (blocks_ascending db)))).

(** ** Reads of transactions, accounts and metadata *)

Definition transaction_from_row (row : TransactionRow) : result SqliteError TransactionRow :=
  block_height ← from_sql_u64 (tw_block_height row);
  index ← from_sql_u32 (tw_index row);
  amount_atoms ← from_sql_u64 (tw_amount_atoms row);
  nonce ← from_sql_u64 (tw_nonce row);
  Ok (mk_TransactionRow (tw_id row) block_height index (tw_kind row) (tw_sender row)
        (tw_recipient row) amount_atoms nonce).

(** [ORDER BY block_height DESC, tx_index DESC]. *)
Definition newer_transaction (a b : TransactionRow) : bool :=
  (tw_block_height b <? tw_block_height a) ||
  ((tw_block_height b =? tw_block_height a) && (tw_index b <=? tw_index a)).

Definition transactions_descending (db : Database) : list TransactionRow :=
  sort_by newer_transaction (map_to_list (transactions db)).*2.

Definition transaction (id : ustring) : storeM (option TransactionRow) :=
  _ ← connection;
  query (fun db => optional_row transaction_from_row (transactions db !! id)).

(** [?1 IS NULL OR block_height < ?1 OR (block_height = ?1 AND tx_index < ?2)]. *)
Definition is_before_transaction (height index : option Z) (row : TransactionRow) : Prop :=
  match height, index with
  | Some height, Some index =>
      tw_block_height row < height \/ (tw_block_height row = height /\ tw_index row < index)
  | _, _ => True
  end.

#[export] Instance is_before_transaction_dec height index row :
  Decision (is_before_transaction height index row).
Proof. destruct height, index; simpl; apply _. Defined.

Definition list_transactions (before : option (Z * Z)) (limit_ : Z) : storeM (list TransactionRow) :=
  _ ← connection;
  query (fun db =>
    before_height ← to_sql_option (fst <$> before);
    let before_index := snd <$> before in
    try_collect transaction_from_row
      (limit (clamp 1 101 limit_)
         (filter (is_before_transaction before_height before_index) (transactions_descending db)))).

(** [WHERE sender = ?1 OR recipient = ?1]. *)
Definition involves (address : ustring) (row : TransactionRow) : Prop :=
  tw_sender row = address \/ tw_recipient row = Some address.

#[export] Instance involves_dec address row : Decision (involves address row).
Proof. unfold involves. apply _. Defined.

Definition address_transactions (address : ustring) (limit_ : Z) : storeM (list TransactionRow) :=
  _ ← connection;
  query (fun _db =>
    try_collect transaction_from_row
      (limit (clamp 1 100 limit_) (filter (involves address) (transactions_descending _db)))).

(** [SELECT MIN(block_height)]: [NULL] over no row. *)
Definition minimum (l : list Z) : option Z :=
  match l with
  | [] => None
  | x :: l => Some (foldr Z.min x l)
  end.

Definition account_first_seen_height (address : ustring) : storeM (option Z) :=
  _ ← connection;
  query (fun db =>
    optional_row from_sql_u64
      (minimum (tw_block_height <$> filter (involves address) (map_to_list (transactions db)).*2))).

Definition account_from_row (row : AccountRow) : result SqliteError AccountProjection :=
  let account := aw_account row in
  balance_atoms ← from_sql_u64 (ap_balance_atoms account);
  nonce ← from_sql_u64 (ap_nonce account);
  transaction_count ← from_sql_u64 (ap_transaction_count account);
  Ok (mk_AccountProjection (ap_address account) balance_atoms nonce (ap_display_name account)
        transaction_count).

Definition account (address : ustring) : storeM (option AccountProjection) :=
  _ ← connection;
  query (fun db => optional_row account_from_row (accounts db !! address)).

(** SQLite's [BINARY] collation compares the UTF-8 bytes. *)
Fixpoint text_compare (a b : list Z) : comparison :=
  match a, b with
  | [], [] => Eq
  | [], _ :: _ => Lt
  | _ :: _, [] => Gt
  | x :: a, y :: b => match x ?= y with Eq => text_compare a b | c => c end
  end.

(** [ORDER BY balance_atoms DESC, address ASC]. *)
Definition richer (a b : AccountRow) : bool :=
  let a := aw_account a in
  let b := aw_account b in
  match ap_balance_atoms b ?= ap_balance_atoms a with
  | Lt => true
  | Gt => false
  | Eq => match text_compare (utf8 (ap_address a)) (utf8 (ap_address b)) with Gt => false | _ => true end
  end.

Definition leaderboard_page (limit_ offset : Z) : storeM (list AccountProjection) :=
  _ ← connection;
  query (fun db =>
    try_collect account_from_row
      (limit (clamp 1 101 limit_)
         (drop (Z.to_nat offset)
            (sort_by richer
               (filter (fun row => 0 < ap_balance_atoms (aw_account row))
                  (map_to_list (accounts db)).*2))))).

Definition leaderboard (limit_ : Z) : storeM (list AccountProjection) := leaderboard_page limit_ 0.

Definition metadata_value (key : ustring) : storeM (option ustring) :=
  _ ← connection;
  query (fun db => Ok (metadata db !! key)).

(** ** The consensus log *)

(** [INTEGER PRIMARY KEY AUTOINCREMENT]: one more than any sequence ever used;
    rows are never deleted. *)
Definition last_sequence (db : Database) : Z := default 0 (wal_sequence <$> last (consensus_wal db)).

Definition insert_wal (kind : ustring) (b : bytes) (checksum : ustring) (db : Database) :
    result SqliteError (Database * Z) :=
  if i64_max <=? last_sequence db then Err DatabaseFull
  else
    let sequence := last_sequence db + 1 in
    Ok (set_consensus_wal (fun wal => wal ++ [mk_WalRow sequence kind b checksum]) db, sequence).

Definition append_consensus_event `{Blake3Checksum} (kind : ustring) (b : bytes) : storeM Z :=
  let checksum := blake3_checksum b in
  _ ← connection;
  execute (insert_wal kind b checksum).

(** ** Signing decisions *)

(** [slot.split('/').next().and_then(|height| height.parse::<u64>().ok())]. *)
Definition slot_height (slot : ustring) : option Z := parse_uint u64_max (split_first 47 slot).

Definition select_decision (slot : ustring) (db : Database) :
    result SqliteError (option PersistedConsensusDecision) :=
  Ok (head (filter (fun d => pd_slot d = slot) (signer_state db))).

Definition set_decision_message (slot : ustring) (signed_message : bytes) (d : PersistedConsensusDecision) :
    PersistedConsensusDecision :=
  if bool_decide (pd_slot d = slot)
  then mk_PersistedConsensusDecision (pd_slot d) (pd_sign_bytes d) (pd_signature d)
         (pd_safety_state d) signed_message
  else d.

Definition update_signed_message (slot : ustring) (signed_message : bytes) (db : Database) :
    result SqliteError (Database * ()) :=
  Ok (set_signer_state (fmap (set_decision_message slot signed_message)) db, ()).

Definition insert_decision (d : PersistedConsensusDecision) (db : Database) :
    result SqliteError (Database * ()) :=
  if bool_decide (pd_slot d ∈ (pd_slot <$> signer_state db)) then Err ConstraintViolation
  else Ok (set_signer_state (fun l => l ++ [d]) db, ()).

Definition upsert_consensus_safety (height : Z) (safety_state : bytes) (db : Database) :
    result SqliteError (Database * ()) :=
  height ← to_sql_u64 height;
  Ok (set_consensus_safety (fun _ => Some (height, safety_state)) db, ()).

Definition persist_consensus_decision (slot : ustring)
    (sign_bytes signature safety_state signed_message : bytes) : storeM bytes :=
  safety_height ← lift (ok_or (slot_height slot) (MalformedSignerSlot slot));
  _ ← connection;
  with_transaction
    (existing ← query (select_decision slot);
     match existing with
     | Some existing =>
         if bool_decide (pd_sign_bytes existing <> sign_bytes) then throw (ConflictingSignature slot)
         else if bool_decide (pd_safety_state existing <> safety_state)
         then throw (ConflictingSafetyState slot)
         else if bool_decide (pd_signed_message existing <> []) &&
                 bool_decide (signed_message <> []) &&
                 bool_decide (pd_signed_message existing <> signed_message)
         then throw (ConflictingSignedMessage slot)
         else if bool_decide (pd_signed_message existing = []) && bool_decide (signed_message <> [])
         then
           _ ← execute (update_signed_message slot signed_message);
           _ ← commit;
           mret (pd_signature existing)
         else mret (pd_signature existing)
     | None =>
         _ ← execute (insert_decision
               (mk_PersistedConsensusDecision slot sign_bytes signature safety_state signed_message));
         _ ← execute (upsert_consensus_safety safety_height safety_state);
         _ ← commit;
         mret signature
     end).

Definition persist_consensus_signature (slot : ustring) (sign_bytes signature safety_state : bytes) :
    storeM bytes :=
  persist_consensus_decision slot sign_bytes signature safety_state [].

Definition persist_signed_message (slot : ustring) (sign_bytes signature : bytes) : storeM () :=
  _ ← persist_consensus_signature slot sign_bytes signature [];
  mret ().

Definition consensus_safety_state : storeM (option (Z * bytes)) :=
  _ ← connection;
  query (fun db =>
    optional_row (fun '(height, safety_state) => height ← from_sql_u64 height; Ok (height, safety_state))
      (consensus_safety db)).

(** [slot LIKE '<height>/%']: the pattern has no letter, [_] or other [%], so
    it is a prefix test. *)
Definition slot_of_height (height : Z) (slot : ustring) : Prop :=
  (to_string height ++ [47]) `prefix_of` slot.

#[export] Instance slot_of_height_dec height slot : Decision (slot_of_height height slot).
Proof. unfold slot_of_height. apply _. Defined.

Definition consensus_decisions (height : Z) : storeM (list PersistedConsensusDecision) :=
  _ ← connection;
  query (fun db =>
    Ok (filter (fun d => slot_of_height height (pd_slot d) /\ pd_signed_message d <> [])
          (signer_state db))).

(** ** Proposals *)

Definition insert_proposal (p : PersistedConsensusProposal) (db : Database) :
    result SqliteError (Database * ()) :=
  height ← to_sql_u64 (pp_height p);
  if bool_decide (is_Some (consensus_proposals db !! (height, pp_round p))) then Err ConstraintViolation
  else Ok (set_consensus_proposals <[(height, pp_round p) := p]> db, ()).

Definition persist_consensus_proposal (proposal : PersistedConsensusProposal) : storeM () :=
  _ ← connection;
  existing ← query (fun db =>
    height ← to_sql_u64 (pp_height proposal);
    Ok (consensus_proposals db !! (height, pp_round proposal)));
  match existing with
  | Some p =>
      if bool_decide (pp_block_id p = pp_block_id proposal) &&
         bool_decide (pp_block_bytes p = pp_block_bytes proposal) &&
         bool_decide (pp_signed_proposal p = pp_signed_proposal proposal)
      then mret ()
      else throw (ConflictingProposal (pp_height proposal) (pp_round proposal))
  | None => execute (insert_proposal proposal)
  end.

(** [WHERE height = ?1 ORDER BY round ASC]. *)
Definition proposals_of (height : Z) (db : Database) : list PersistedConsensusProposal :=
  sort_by (fun a b => pp_round a <=? pp_round b)
    (filter (fun p => pp_height p = height) (map_to_list (consensus_proposals db)).*2).

Definition proposal_from_row (p : PersistedConsensusProposal) :
    result SqliteError PersistedConsensusProposal :=
  height ← from_sql_u64 (pp_height p);
  round ← from_sql_u32 (pp_round p);
  Ok (mk_PersistedConsensusProposal height round (pp_block_id p) (pp_block_bytes p) (pp_signed_proposal p)).

Definition consensus_proposals_at (height : Z) : storeM (list PersistedConsensusProposal) :=
  _ ← connection;
  query (fun db =>
    height ← to_sql_u64 height;
    try_collect proposal_from_row (proposals_of height db)).

(** ** Projections

    The batch opens its transaction itself: when one of its statements fails,
    nothing rolls it back and the connection keeps the transaction open. *)
Definition clear_projections : storeM () :=
  _ ← connection;
  _ ← begin_transaction;
  _ ← execute (fun db => Ok (set_transactions (fun _ => ∅) db, ()));
  _ ← execute (fun db => Ok (set_accounts (fun _ => ∅) db, ()));
  _ ← execute (fun db => Ok (set_metadata (fun _ => ∅) db, ()));
  commit.
