(* ===== verification/StoreFacts.v ===== *)
(** * What the store's operations do to the tables

    For every operation of [Store] that writes, the durable database after a
    success as a function of the one before ([updates]); an error leaves it
    unchanged.  [StoreOp] puts the operations and the crash of the process in
    one type, for the theorems about every sequence of them. *)

From S2P Require Import Prelude Crypto Sqlite Store.

(** ** Specification of the writes *)

Definition projected_block (b : FinalizedProjection) : BlockRow :=
  mk_BlockRow (fp_height b) (fp_block_hash b) (fp_parent_hash b) (fp_state_root b) (fp_proposer b)
    (fp_round b) (fp_timestamp_ms b) (Z.of_nat (length (fp_transactions b))) (fp_block_bytes b)
    (fp_certificate_bytes b).

Definition projected_transaction (height : Z) (tx : TransactionProjection) : TransactionRow :=
  mk_TransactionRow (tp_id tx) height (tp_index tx) (tp_kind tx) (tp_sender tx) (tp_recipient tx)
    (tp_amount_atoms tx) (tp_nonce tx).

(** The later entry wins, as the statements run in order. *)
Definition insert_all {K V} `{Countable K} (entries : list (K * V)) (m : gmap K V) : gmap K V :=
  foldl (fun m kv => <[kv.1 := kv.2]> m) m entries.

Definition transaction_entries (b : FinalizedProjection) : list (ustring * TransactionRow) :=
  (fun tx => (tp_id tx, projected_transaction (fp_height b) tx)) <$> fp_transactions b.
Definition account_entries (b : FinalizedProjection) : list (ustring * AccountRow) :=
  (fun a => (ap_address a, mk_AccountRow a (fp_height b))) <$> fp_changed_accounts b.

Definition superseded (height : Z) (safety : option (Z * bytes)) : option (Z * bytes) :=
  match safety with
  | Some (h, _) => if h =? height then None else safety
  | None => None
  end.

(** The database once a block is finalized in it. *)
Definition finalized_database (b : FinalizedProjection) (db : Database) : Database :=
  mk_Database
    (if bool_decide (is_Some (blocks db !! fp_height b)) then blocks db
     else <[fp_height b := projected_block b]> (blocks db))
    (insert_all (transaction_entries b) (transactions db))
    (insert_all (account_entries b) (accounts db))
    (insert_all (finalized_metadata b) (metadata db))
    (consensus_wal db) (signer_state db)
    (superseded (fp_height b) (consensus_safety db)) (consensus_proposals db).

(** No other block is finalized at the height, or under the hash. *)
Definition agrees (b : FinalizedProjection) (db : Database) : Prop :=
  match blocks db !! fp_height b with
  | Some row => br_block_hash row = fp_block_hash b
  | None => hash_taken (fp_height b) (fp_block_hash b) db = false
  end.

#[export] Instance agrees_dec b db : Decision (agrees b db).
Proof. unfold agrees. destruct (blocks db !! fp_height b); apply _. Defined.

Section insert_all.
Context {K V : Type} `{Countable K}.
Implicit Types (m : gmap K V) (l : list (K * V)).

Lemma insert_all_app l1 l2 m : insert_all (l1 ++ l2) m = insert_all l2 (insert_all l1 m).
Proof. apply foldl_app. Qed.

Lemma lookup_insert_all_ne l m k : k ∉ l.*1 -> insert_all l m !! k = m !! k.
Proof.
  revert m. induction l as [|[k' v] l IH]; intros m Hk; simpl; [done|].
  simpl in Hk. apply not_elem_of_cons in Hk as [Hne Hk]. unfold insert_all in *; simpl.
  rewrite IH by done. by apply lookup_insert_ne.
Qed.

Lemma lookup_insert_all l m k v : NoDup l.*1 -> (k, v) ∈ l -> insert_all l m !! k = Some v.
Proof.
  revert m. induction l as [|[k' v'] l IH]; intros m Hnd Hin; [by apply elem_of_nil in Hin|].
  simpl in Hnd. apply NoDup_cons in Hnd as [Hk Hnd].
  apply elem_of_cons in Hin as [[= <- <-]|Hin].
  - change (insert_all ((k, v) :: l) m) with (insert_all l (<[k := v]> m)).
    rewrite lookup_insert_all_ne by done. apply lookup_insert_eq.
  - by apply IH.
Qed.
End insert_all.

(** ** [persist_finalized] *)

Lemma transacts_loop {A} (st : A -> Database -> result SqliteError (Database * ()))
    (g : A -> Database -> Database) l :
  (forall x w w' u, st x w = Ok (w', u) -> w' = g x w) ->
  transacts (fun w w' _ => w' = foldl (fun w x => g x w) w l) (execute_all st l).
Proof.
  intros Hst. induction l as [|x l IH]; simpl.
  - eapply transacts_weaken; [apply transacts_ret|]. naive_solver.
  - eapply transacts_weaken.
    + apply transacts_bind; [apply transacts_execute|]. intros u. exact IH.
    + simpl. intros w w' [] (u & w1 & H1%Hst & H2). by subst.
Qed.

Ltac sql_ok :=
  repeat match goal with
  | H : context [map_err] |- _ => apply map_err_Ok_inv in H
  | H : mbind _ (to_sql_u64 _) = Ok _ |- _ =>
      apply result_bind_Ok_inv in H; destruct H as (? & (-> & ?)%to_sql_u64_Ok & H)
  | H : mbind _ (block_row _) = Ok _ |- _ =>
      apply result_bind_Ok_inv in H; destruct H as (? & ? & H)
  end.

Lemma block_row_Ok b row :
  block_row b = Ok row -> row = projected_block b /\ fp_height b <= i64_max.
Proof. unfold block_row. intros Hr. sql_ok. by injection Hr as <-. Qed.

Lemma insert_block_Ok b w w' u :
  insert_block b w = Ok (w', u) ->
  w' = set_blocks <[fp_height b := projected_block b]> w /\
  hash_taken (fp_height b) (fp_block_hash b) w = false.
Proof.
  unfold insert_block. intros Hr. sql_ok. apply block_row_Ok in H as [-> _].
  change (br_height (projected_block b)) with (fp_height b) in Hr.
  change (br_block_hash (projected_block b)) with (fp_block_hash b) in Hr.
  destruct (hash_taken _ _ _); [by rewrite orb_true_r in Hr|]. rewrite orb_false_r in Hr.
  by case_bool_decide; simplify_eq.
Qed.

Lemma upsert_transaction_Ok h tx w w' u :
  upsert_transaction h tx w = Ok (w', u) ->
  w' = set_transactions <[tp_id tx := projected_transaction h tx]> w.
Proof.
  unfold upsert_transaction. intros Hr. sql_ok. by destruct (_ || _); simplify_eq.
Qed.

Lemma upsert_account_Ok h a w w' u :
  upsert_account h a w = Ok (w', u) ->
  w' = set_accounts <[ap_address a := mk_AccountRow a h]> w.
Proof. unfold upsert_account. intros Hr. sql_ok. simplify_eq. by destruct a. Qed.

Lemma delete_consensus_safety_Ok h w w' u :
  delete_consensus_safety h w = Ok (w', u) ->
  w' = set_consensus_safety (superseded h) w.
Proof. unfold delete_consensus_safety. intros Hr. sql_ok. by simplify_eq. Qed.

(** The loops over the fields of one table. *)
Lemma foldl_transactions h l w :
  foldl (fun w tx => set_transactions <[tp_id tx := projected_transaction h tx]> w) w l =
  set_transactions (insert_all ((fun tx => (tp_id tx, projected_transaction h tx)) <$> l)) w.
Proof. revert w. induction l as [|x l IH]; intros w; simpl; [by destruct w|]. by rewrite IH. Qed.

Lemma foldl_accounts h l w :
  foldl (fun w a => set_accounts <[ap_address a := mk_AccountRow a h]> w) w l =
  set_accounts (insert_all ((fun a => (ap_address a, mk_AccountRow a h)) <$> l)) w.
Proof. revert w. induction l as [|x l IH]; intros w; simpl; [by destruct w|]. by rewrite IH. Qed.

Lemma foldl_metadata l w :
  foldl (fun w kv => set_metadata <[kv.1 := kv.2]> w) w l = set_metadata (insert_all l) w.
Proof. revert w. induction l as [|x l IH]; intros w; simpl; [by destruct w|]. by rewrite IH. Qed.

(** The check of the height and the insertion of its block. *)
Definition place_block (block : FinalizedProjection) : storeM () :=
  existing ← query (select_block_hash (fp_height block));
  block_exists ← match existing with
                 | Some existing_hash =>
                     if bool_decide (existing_hash = fp_block_hash block) then mret true
                     else throw (ConflictingFinality (fp_height block))
                 | None => mret false
                 end;
  if (block_exists : bool) then mret () else execute (insert_block block).

Lemma finalized_statements_alt block s :
  finalized_statements block s =
  (_ ← place_block block;
   _ ← execute_all (upsert_transaction (fp_height block)) (fp_transactions block);
   _ ← execute_all (upsert_account (fp_height block)) (fp_changed_accounts block);
   _ ← execute_all (fun kv => upsert_metadata kv.1 kv.2) (finalized_metadata block);
   execute (delete_consensus_safety (fp_height block))) s.
Proof.
  unfold finalized_statements, place_block, mbind, stE_bind.
  destruct (query _ s) as [s1 [[h|]|e]]; [case_bool_decide| |]; done.
Qed.

Lemma select_block_hash_Ok h w r :
  select_block_hash h w = Ok r -> r = br_block_hash <$> blocks w !! h /\ h <= i64_max.
Proof. unfold select_block_hash. intros Hr. sql_ok. by simplify_eq. Qed.

Lemma place_block_transacts b :
  transacts (fun w w' _ =>
    agrees b w /\ fp_height b <= i64_max /\
    w' = if bool_decide (is_Some (blocks w !! fp_height b)) then w
         else set_blocks <[fp_height b := projected_block b]> w) (place_block b).
Proof.
  unfold place_block. eapply transacts_weaken.
  - apply transacts_bind; [apply transacts_query|]. intros existing.
    instantiate (1 := fun existing w w' _ =>
      match existing with
      | Some h => h = fp_block_hash b /\ w' = w
      | None => insert_block b w = Ok (w', ())
      end).
    destruct existing as [h|]; [case_bool_decide as Hh|].
    + eapply transacts_weaken; [apply (transacts_ret ())|]. naive_solver.
    + intros s s' r w Hw Hr. injection Hr as <- <-. split_and!; [done|by eexists|done].
    + eapply transacts_weaken; [apply transacts_execute|]. by intros w w' [].
  - simpl. intros w w' [] (existing & w1 & [-> [Hex Hle]%select_block_hash_Ok] & Hres). subst existing.
    unfold agrees. destruct (blocks w !! fp_height b) as [row|] eqn:E; simpl in Hres.
    + destruct Hres as [-> ->]. split_and!; [done..|]. by rewrite bool_decide_eq_true_2 by eauto.
    + apply insert_block_Ok in Hres as [-> Ht]. split_and!; [done..|].
      by rewrite bool_decide_eq_false_2 by (intros [? ?]; done).
Qed.

Lemma finalized_statements_transacts b :
  transacts (fun w w' _ => agrees b w /\ fp_height b <= i64_max /\ w' = finalized_database b w)
    (finalized_statements b).
Proof.
  intros s s' r w Hw Hr. rewrite finalized_statements_alt in Hr. revert s s' r w Hw Hr.
  eapply transacts_weaken.
  - apply transacts_bind; [apply place_block_transacts|]. intros u1.
    apply transacts_bind; [apply transacts_loop; intros ????; apply upsert_transaction_Ok|]. intros u2.
    apply transacts_bind; [apply transacts_loop; intros ????; apply upsert_account_Ok|]. intros u3.
    apply transacts_bind;
      [apply (transacts_loop _ (fun kv => set_metadata <[kv.1 := kv.2]>)); intros ????; by intros [= <-]|].
    intros u4. apply transacts_execute.
  - simpl. intros w w' [] ([] & w1 & (Ha & Hle & H1) & [] & w2 & H2 & [] & w3 & H3 & [] & w4 & H4 & H5).
    split_and!; [done..|]. apply delete_consensus_safety_Ok in H5. subst w'.
    rewrite foldl_transactions in H2. rewrite foldl_accounts in H3.
    change (w4 = foldl (fun w kv => set_metadata <[kv.1 := kv.2]> w) w3 (finalized_metadata b)) in H4.
    rewrite foldl_metadata in H4. subst.
    unfold finalized_database. by case_bool_decide; destruct w.
Qed.

Lemma persist_finalized_updates b :
  updates (fun db db' _ => agrees b db /\ fp_height b <= i64_max /\ db' = finalized_database b db)
    (persist_finalized b).
Proof.
  unfold persist_finalized. apply updates_then; [apply updates_connection|]. intros u.
  apply updates_with_transaction. eapply commits_weaken.
  - apply (commits_commit (fun w w' _ => agrees b w /\ fp_height b <= i64_max /\ w' = finalized_database b w)
             _ (fun d => d)), finalized_statements_transacts.
  - simpl. naive_solver.
Qed.

(** ** The other writes *)

Definition decision_of (slot : ustring) (db : Database) : option PersistedConsensusDecision :=
  head (filter (fun d => pd_slot d = slot) (signer_state db)).

Lemma refresh_block_projection_updates b :
  updates (fun db db' _ =>
      exists row, blocks db !! fp_height b = Some row /\
        br_block_bytes row = fp_block_bytes b /\ br_certificate_bytes row = fp_certificate_bytes b /\
        hash_taken (fp_height b) (fp_block_hash b) db = false /\
        db' = set_blocks <[fp_height b := projected_block b]> db)
    (refresh_block_projection b).
Proof.
  unfold refresh_block_projection. apply updates_then; [apply updates_connection|]. intros u s s' r Hr.
  unfold mbind, stE_bind in Hr. destruct (execute (update_block_projection b) s) as [s1 [n|e]] eqn:E;
    destruct (updates_execute _ _ _ _ E) as (Hp & Hn & Hi); [|by injection Hr as <- <-].
  assert (s' = s1) as -> by (case_bool_decide; by injection Hr).
  split_and!; [done..|]. intros Hidle. destruct (Hi Hidle) as [Hi' Hu].
  unfold update_block_projection in Hu. sql_ok. apply block_row_Ok in H as [-> _].
  change (br_height (projected_block b)) with (fp_height b) in Hu.
  change (br_block_hash (projected_block b)) with (fp_block_hash b) in Hu.
  destruct (blocks (durable s) !! fp_height b) as [row|].
  - destruct (bool_decide (br_block_bytes row = _)) eqn:H1, (bool_decide (br_certificate_bytes row = _)) eqn:H2;
      simpl in Hu; try (injection Hu as Hd <-; by injection Hr as <-).
    apply bool_decide_eq_true in H1, H2. destruct (hash_taken _ _ _) eqn:Ht; [done|].
    injection Hu as Hd <-. injection Hr as <-. split; [done|]. exists row. by rewrite <- Hd.
  - injection Hu as Hd <-. by injection Hr as <-.
Qed.

Definition decision_recorded (slot : ustring) (height : Z)
    (sign_bytes signature safety_state signed_message : bytes) (db : Database) : Database :=
  set_consensus_safety (fun _ => Some (height, safety_state))
    (set_signer_state (fun l => l ++
       [mk_PersistedConsensusDecision slot sign_bytes signature safety_state signed_message]) db).

(** The effect of [persist_consensus_decision], and the signature it returns. *)
Definition decision_effect (slot : ustring) (sign_bytes signature safety_state signed_message : bytes)
    (db db' : Database) (returned : bytes) : Prop :=
  exists height, slot_height slot = Some height /\
  match decision_of slot db with
  | Some d =>
      pd_sign_bytes d = sign_bytes /\ pd_safety_state d = safety_state /\ returned = pd_signature d /\
      (db' = db \/
       (pd_signed_message d = [] /\
        db' = set_signer_state (fmap (set_decision_message slot signed_message)) db))
  | None =>
      returned = signature /\ height <= i64_max /\
      db' = decision_recorded slot height sign_bytes signature safety_state signed_message db
  end.

Lemma persist_consensus_decision_updates slot sb sig ss sm :
  updates (decision_effect slot sb sig ss sm) (persist_consensus_decision slot sb sig ss sm).
Proof.
  unfold persist_consensus_decision.
  apply (updates_read (fun _ h => slot_height slot = Some h)).
  { eapply updates_weaken; [apply updates_lift|]. intros db db' h [-> Hh%ok_or_Ok_inv]. done. }
  intros h. apply updates_then; [apply updates_connection|]. intros u.
  apply updates_with_transaction, commits_read. intros existing.
  unfold decision_effect.
  apply (commits_weaken (fun w w' b => match existing with
    | Some d => pd_sign_bytes d = sb /\ pd_safety_state d = ss /\ b = pd_signature d /\
        (w' = w \/ (pd_signed_message d = [] /\ w' = set_signer_state (fmap (set_decision_message slot sm)) w))
    | None => b = sig /\ h <= i64_max /\ w' = decision_recorded slot h sb sig ss sm w
    end)); [|intros w w' b Hb Hs Hh; injection Hs as <-; by exists h].
  destruct existing as [d|].
  - case_bool_decide as H1; [by apply commits_throw|]. case_bool_decide as H2; [by apply commits_throw|].
    destruct (_ && _ && _); [apply commits_throw|].
    destruct (bool_decide (pd_signed_message d = []) && _) eqn:Hm.
    + apply andb_true_iff in Hm as [Hm%bool_decide_eq_true _].
      eapply commits_weaken.
      * apply (commits_commit (fun w w' a => update_signed_message slot sm w = Ok (w', a)) _
          (fun _ => pd_signature d)), transacts_execute.
      * simpl. intros w w' b (a & Ha & ->). injection Ha as <- _. split_and!; auto.
    + eapply commits_weaken; [apply commits_ret|]. simpl. naive_solver.
  - apply (commits_ext (_ ← (_ ← execute (insert_decision (mk_PersistedConsensusDecision slot sb sig ss sm));
                             execute (upsert_consensus_safety h ss)); _ ← commit; mret sig)).
    { intros s. unfold mbind, stE_bind. by destruct (execute (insert_decision _) s) as [? [|]]. }
    eapply commits_weaken.
    + apply (commits_commit (fun w w' a => exists (a' : ()) w1,
          insert_decision (mk_PersistedConsensusDecision slot sb sig ss sm) w = Ok (w1, a') /\
          upsert_consensus_safety h ss w1 = Ok (w', a)) _ (fun _ => sig)).
      apply (transacts_bind _ (fun _ w w' a => upsert_consensus_safety h ss w = Ok (w', a)));
        [apply transacts_execute|]. intros ?. apply transacts_execute.
    + intros w0 w' b (a & (a' & w1 & H1 & H2) & ->). unfold insert_decision in H1.
      case_bool_decide; [done|]. injection H1 as <- _. unfold upsert_consensus_safety in H2. sql_ok.
      by injection H2 as <-.
Qed.

Lemma persist_consensus_proposal_updates p :
  updates (fun db db' _ =>
      match consensus_proposals db !! (pp_height p, pp_round p) with
      | Some q => pp_block_id q = pp_block_id p /\ pp_block_bytes q = pp_block_bytes p /\
                  pp_signed_proposal q = pp_signed_proposal p /\ db' = db
      | None => db' = set_consensus_proposals <[(pp_height p, pp_round p) := p]> db
      end) (persist_consensus_proposal p).
Proof.
  unfold persist_consensus_proposal. apply updates_then; [apply updates_connection|]. intros u.
  apply (updates_read (fun db a => consensus_proposals db !! (pp_height p, pp_round p) = a)).
  { eapply updates_weaken; [apply updates_query|]. intros db db' a [-> Ha]. split; [done|].
    sql_ok. by injection Ha. }
  intros [q|].
  - destruct (bool_decide _) eqn:H1; [|apply updates_throw].
    destruct (bool_decide (pp_block_bytes q = _)) eqn:H2; [|apply updates_throw].
    destruct (bool_decide (pp_signed_proposal q = _)) eqn:H3; [|apply updates_throw].
    apply bool_decide_eq_true in H1, H2, H3. eapply updates_weaken; [apply updates_ret|].
    simpl. intros db db' a [-> _] ->. done.
  - eapply updates_weaken; [apply updates_execute|]. intros db db' a Ha ->.
    unfold insert_proposal in Ha. sql_ok. by case_bool_decide; simplify_eq.
Qed.

Lemma append_consensus_event_updates `{Blake3Checksum} kind b :
  updates (fun db db' n => n = last_sequence db + 1 /\
      db' = set_consensus_wal (fun wal => wal ++ [mk_WalRow n kind b (blake3_checksum b)]) db)
    (append_consensus_event kind b).
Proof.
  unfold append_consensus_event. apply updates_then; [apply updates_connection|]. intros u.
  eapply updates_weaken; [apply updates_execute|]. simpl. intros db db' n Hn.
  unfold insert_wal in Hn. case_match; by simplify_eq.
Qed.

Lemma updates_read_only {A} (select : Database -> result SqliteError A) :
  updates (fun db db' a => db' = db /\ select db = Ok a) (_ ← connection; query select).
Proof. apply updates_then; [apply updates_connection|]. intros u. apply updates_query. Qed.

Definition projections_cleared (db : Database) : Database :=
  mk_Database (blocks db) ∅ ∅ ∅ (consensus_wal db) (signer_state db) (consensus_safety db)
    (consensus_proposals db).

Definition delete_projections : storeM () :=
  _ ← execute (fun db => Ok (set_transactions (fun _ => ∅) db, ()));
  _ ← execute (fun db => Ok (set_accounts (fun _ => ∅) db, ()));
  execute (fun db => Ok (set_metadata (fun _ => ∅) db, ())).

Lemma delete_projections_transacts :
  transacts (fun w w' _ => w' = projections_cleared w) delete_projections.
Proof.
  eapply transacts_weaken.
  - apply transacts_bind; [apply transacts_execute|]. intros a1.
    apply transacts_bind; [apply transacts_execute|]. intros a2. apply transacts_execute.
  - simpl. intros w w' a (? & ? & Ha & ? & ? & Hb & Hc).
    injection Ha as <- _. injection Hb as <- _. injection Hc as <- _. by destruct w.
Qed.

Lemma clear_projections_alt s :
  clear_projections s = (_ ← connection; _ ← begin_transaction; _ ← delete_projections; commit) s.
Proof.
  unfold clear_projections, delete_projections, mbind, stE_bind.
  repeat case_match; simplify_eq; congruence.
Qed.

Lemma clear_projections_updates :
  updates (fun db db' _ => db' = projections_cleared db) clear_projections.
Proof.
  apply (updates_ext (_ ← connection; _ ← begin_transaction; _ ← delete_projections; commit));
    [intros s; symmetry; apply clear_projections_alt|].
  apply updates_then; [apply updates_connection|]. intros u s s' r Hr.
  unfold mbind, stE_bind in Hr. destruct (begin_transaction s) as [s0 r0] eqn:E0.
  destruct (working s) as [w|] eqn:Hi.
  - destruct (begin_transaction_nested s s0 r0 w Hi E0) as (e & -> & [Hd Hp] & Hw).
    injection Hr as <- <-. unfold idle. split_and!; [done| |congruence]. intros _. split; congruence.
  - destruct (begin_transaction_open s s0 r0 Hi E0) as [[Hd0 Hp0] Hr0].
    destruct r0 as [[]|e0]; [|injection Hr as <- <-; split_and!; [done|tauto|done]].
    destruct (delete_projections s0) as [s1 [[]|e1]] eqn:E1;
      destruct (delete_projections_transacts s0 s1 _ _ Hr0 E1) as ([Hd1 Hp1] & _ & Hok);
      [|injection Hr as <- <-; split_and!; [congruence|tauto|congruence]].
    destruct (Hok () eq_refl) as (w1 & Hw1 & ->).
    destruct (commit_open s1 s' r _ Hw1 Hr) as [Hp2 Hr2].
    split_and!; [congruence|tauto|]. intros _. unfold idle. destruct r; [tauto|].
    destruct Hr2. congruence.
Qed.

(** ** Sequences of operations *)

Inductive StoreOp : Type :=
| PersistFinalized (b : FinalizedProjection)
| RefreshBlockProjection (b : FinalizedProjection)
| PersistConsensusDecision (slot : ustring) (sign_bytes signature safety_state signed_message : bytes)
| PersistConsensusProposal (p : PersistedConsensusProposal)
| AppendConsensusEvent (kind : ustring) (b : bytes)
| ClearProjections
| Reopen (faults : list (option SqliteError)).

Inductive StoreReply : Type :=
| Done
| Signature (b : bytes)
| Sequence (n : Z).

Section sequences.
Context `{Blake3Checksum}.

(** [Reopen] is the death of the process at that point and a new connection:
    what was not committed is gone. *)
Definition perform (op : StoreOp) : storeM StoreReply :=
  match op with
  | PersistFinalized b => _ ← persist_finalized b; mret Done
  | RefreshBlockProjection b => _ ← refresh_block_projection b; mret Done
  | PersistConsensusDecision slot sb sig ss sm =>
      s ← persist_consensus_decision slot sb sig ss sm; mret (Signature s)
  | PersistConsensusProposal p => _ ← persist_consensus_proposal p; mret Done
  | AppendConsensusEvent kind b => n ← append_consensus_event kind b; mret (Sequence n)
  | ClearProjections => _ ← clear_projections; mret Done
  | Reopen fs => fun s => (mk_Store false fs (durable s) None, Ok Done)
  end.

(** What the durable database becomes when an operation succeeds. *)
Definition effect (op : StoreOp) (db db' : Database) (reply : StoreReply) : Prop :=
  match op with
  | PersistFinalized b => agrees b db /\ fp_height b <= i64_max /\ db' = finalized_database b db
  | RefreshBlockProjection b =>
      exists row, blocks db !! fp_height b = Some row /\
        br_block_bytes row = fp_block_bytes b /\ br_certificate_bytes row = fp_certificate_bytes b /\
        hash_taken (fp_height b) (fp_block_hash b) db = false /\
        db' = set_blocks <[fp_height b := projected_block b]> db
  | PersistConsensusDecision slot sb sig ss sm =>
      exists returned, reply = Signature returned /\ decision_effect slot sb sig ss sm db db' returned
  | PersistConsensusProposal p =>
      match consensus_proposals db !! (pp_height p, pp_round p) with
      | Some q => pp_block_id q = pp_block_id p /\ pp_block_bytes q = pp_block_bytes p /\
                  pp_signed_proposal q = pp_signed_proposal p /\ db' = db
      | None => db' = set_consensus_proposals <[(pp_height p, pp_round p) := p]> db
      end
  | AppendConsensusEvent kind b =>
      exists n, reply = Sequence n /\ n = last_sequence db + 1 /\
        db' = set_consensus_wal
                (fun wal => wal ++ [mk_WalRow n kind b (blake3_checksum b)]) db
  | ClearProjections => db' = projections_cleared db
  | Reopen _ => db' = db
  end.

Lemma updates_reply {A} (P : Database -> Database -> A -> Prop) (m : storeM A) (f : A -> StoreReply) :
  updates P m -> updates (fun db db' x => exists a, P db db' a /\ x = f a) (a ← m; mret (f a)).
Proof.
  intros Hm s s' r Hr. unfold mbind, stE_bind in Hr.
  destruct (m s) as [s1 [a|e]] eqn:E; destruct (Hm s s1 _ E) as (Hp & Hn & Hi);
    injection Hr as <- <-; split_and!; try done.
  intros Hidle. destruct (Hi Hidle). eauto.
Qed.

Lemma perform_updates op :
  (forall fs, op <> Reopen fs) -> updates (effect op) (perform op).
Proof.
  intros Hop. destruct op; simpl; [..|by destruct (Hop faults)].
  all: eapply updates_weaken;
    [apply updates_reply;
     first [apply persist_finalized_updates|apply refresh_block_projection_updates
           |apply persist_consensus_decision_updates|apply persist_consensus_proposal_updates
           |apply append_consensus_event_updates|apply clear_projections_updates]|].
  all: simpl; intros db db' x (a & HP & ->); eauto; tauto.
Qed.

(** Whatever happens, an operation leaves the durable database alone or has its
    effect on it. *)
Lemma perform_durable op s s' r :
  perform op s = (s', r) ->
  durable s' = durable s \/ exists a, r = Ok a /\ effect op (durable s) (durable s') a.
Proof.
  intros Hr.
  assert ((exists fs, op = Reopen fs) \/ forall fs, op <> Reopen fs) as [[fs ->]|Hop] by (destruct op; eauto).
  { left. by injection Hr as <- _. }
  destruct (perform_updates op Hop s s' r Hr) as (_ & Hn & Hi).
  destruct (decide (working s = None)) as [Hw|Hw]; [|left; by apply Hn].
  specialize (Hi Hw). destruct r as [a|e]; [|by left]. right. exists a. by destruct Hi.
Qed.

Fixpoint run_ops (ops : list StoreOp) (s : Store Database) :
    Store Database * list (StoreOp * result StorageError StoreReply) :=
  match ops with
  | [] => (s, [])
  | op :: ops =>
      let '(s, reply) := perform op s in
      let '(s, log) := run_ops ops s in
      (s, (op, reply) :: log)
  end.

(** A property every effect preserves holds after any sequence. *)
Lemma run_ops_invariant_of (C : StoreOp -> Prop) (I : Database -> Prop) ops s s' log :
  (forall op db db' a, C op -> I db -> effect op db db' a -> I db') ->
  Forall C ops -> run_ops ops s = (s', log) -> I (durable s) -> I (durable s').
Proof.
  intros Hstep HC. revert s log. induction HC as [|op ops Hop _ IH]; intros s log Hr HI; simpl in Hr.
  - by injection Hr as <- _.
  - destruct (perform op s) as [s1 r1] eqn:E1. destruct (run_ops ops s1) as [s2 log2] eqn:E2.
    injection Hr as <- _. apply (IH _ _ E2). destruct (perform_durable _ _ _ _ E1) as [->|(a & _ & He)]; eauto.
Qed.

Lemma run_ops_invariant (I : Database -> Prop) ops s s' log :
  (forall op db db' a, I db -> effect op db db' a -> I db') ->
  run_ops ops s = (s', log) -> I (durable s) -> I (durable s').
Proof.
  intros Hstep. apply (run_ops_invariant_of (fun _ => True)); [eauto|]. by apply Forall_true.
Qed.
End sequences.

(** ** What no operation undoes *)

(** A slot is decided: its row will answer every later request. *)
Definition decided (slot sign_bytes safety_state signature : list _) (db : Database) : Prop :=
  exists d, decision_of slot db = Some d /\ pd_sign_bytes d = sign_bytes /\
    pd_safety_state d = safety_state /\ pd_signature d = signature.

(** A height holds a block: its bytes and certificate. *)
Definition holds_block (height : Z) (block_bytes certificate_bytes : bytes) (db : Database) : Prop :=
  exists row, blocks db !! height = Some row /\
    br_block_bytes row = block_bytes /\ br_certificate_bytes row = certificate_bytes.

(** The row of [consensus_safety], when there is one, is that of the last decision. *)
Definition safety_is_latest (db : Database) : Prop :=
  forall h safety, consensus_safety db = Some (h, safety) ->
    exists d, last (signer_state db) = Some d /\ slot_height (pd_slot d) = Some h /\
      pd_safety_state d = safety.

Definition holds_proposal (height round : Z) (block_id block_bytes signed : bytes) (db : Database) : Prop :=
  exists p, consensus_proposals db !! (height, round) = Some p /\ pp_block_id p = block_id /\
    pp_block_bytes p = block_bytes /\ pp_signed_proposal p = signed.

Lemma set_decision_message_slot slot sm d : pd_slot (set_decision_message slot sm d) = pd_slot d.
Proof. unfold set_decision_message. by case_bool_decide. Qed.
Lemma set_decision_message_safety slot sm d :
  pd_safety_state (set_decision_message slot sm d) = pd_safety_state d.
Proof. unfold set_decision_message. by case_bool_decide. Qed.
Lemma set_decision_message_signed slot sm d :
  pd_sign_bytes (set_decision_message slot sm d) = pd_sign_bytes d /\
  pd_signature (set_decision_message slot sm d) = pd_signature d.
Proof. unfold set_decision_message. by case_bool_decide. Qed.

Lemma decision_of_message slot slot' sm db :
  decision_of slot (set_signer_state (fmap (set_decision_message slot' sm)) db) =
  set_decision_message slot' sm <$> decision_of slot db.
Proof.
  unfold decision_of. simpl. induction (signer_state db) as [|d l IH]; [done|].
  rewrite fmap_cons, !filter_cons, set_decision_message_slot.
  destruct (decide (pd_slot d = slot)); simpl; auto.
Qed.

Lemma decision_of_app slot db d :
  decision_of slot (set_signer_state (fun l => l ++ [d]) db) =
  match decision_of slot db with
  | Some d' => Some d'
  | None => if decide (pd_slot d = slot) then Some d else None
  end.
Proof.
  unfold decision_of. simpl. rewrite filter_app, head_app.
  destruct (head (filter _ (signer_state db))); simpl; [done|].
  rewrite filter_cons. by destruct (decide (pd_slot d = slot)).
Qed.

Lemma decision_effect_decided slot sb sig ss sm db db' returned :
  decision_effect slot sb sig ss sm db db' returned -> decided slot sb ss returned db'.
Proof.
  intros (h & _ & Hd). unfold decided. destruct (decision_of slot db) as [d|] eqn:E.
  - destruct Hd as (<- & <- & -> & [->|[_ ->]]); [by eauto|].
    rewrite decision_of_message, E. simpl. eexists. split; [done|].
    rewrite set_decision_message_safety. pose proof (set_decision_message_signed slot sm d). tauto.
  - destruct Hd as (-> & _ & ->). exists (mk_PersistedConsensusDecision slot sb sig ss sm).
    split_and!; [|done..]. change (decision_of slot (set_signer_state (fun l => l ++
      [mk_PersistedConsensusDecision slot sb sig ss sm]) db) = Some (mk_PersistedConsensusDecision slot sb sig ss sm)).
    rewrite decision_of_app, E. by rewrite decide_True.
Qed.

Lemma decided_functional slot sb ss sig sb' ss' sig' db :
  decided slot sb ss sig db -> decided slot sb' ss' sig' db -> sb = sb' /\ ss = ss' /\ sig = sig'.
Proof. intros (d & E & ? & ? & ?) (d' & E' & ? & ? & ?). simplify_eq. done. Qed.

Section permanence.
Context `{Blake3Checksum}.

(** Only decisions touch [signer_state], only finalization and its refresh
    [blocks]. *)
Lemma effect_signer_state op db db' a :
  effect op db db' a -> signer_state db' = signer_state db \/
  (exists slot sb sig ss sm r, op = PersistConsensusDecision slot sb sig ss sm /\
     decision_effect slot sb sig ss sm db db' r).
Proof.
  destruct op; simpl; intros He; try (left; naive_solver); [|].
  - right. destruct He as (r & _ & He). eauto 10.
  - left. destruct (consensus_proposals db !! _); naive_solver.
Qed.

Lemma effect_decided slot sb ss sig op db db' a :
  decided slot sb ss sig db -> effect op db db' a -> decided slot sb ss sig db'.
Proof.
  intros Hd [Heq|(slot' & sb' & sig' & ss' & sm' & r & -> & h & _ & He)]%effect_signer_state.
  - unfold decided, decision_of in *. by rewrite Heq.
  - destruct Hd as (d & E & Hd).
    assert (decision_of slot db' = Some d \/
      decision_of slot db' = Some (set_decision_message slot' sm' d)) as [E'|E'].
    { destruct (decision_of slot' db) eqn:E2.
      - destruct He as (_ & _ & _ & [->|[_ ->]]); [by left|]. rewrite decision_of_message, E. by right.
      - destruct He as (_ & _ & ->). left.
        change (decision_of slot (set_signer_state (fun l => l ++
          [mk_PersistedConsensusDecision slot' sb' sig' ss' sm']) db) = Some d).
        by rewrite decision_of_app, E. }
    + by exists d.
    + exists (set_decision_message slot' sm' d). rewrite set_decision_message_safety.
      pose proof (set_decision_message_signed slot' sm' d). naive_solver.
Qed.

Lemma effect_safety_is_latest op db db' a :
  safety_is_latest db -> effect op db db' a -> safety_is_latest db'.
Proof.
  intros HI He. destruct op; simpl in He.
  - destruct He as (_ & _ & ->). intros h ss. simpl. unfold superseded.
    destruct (consensus_safety db) as [[h0 ss0]|] eqn:E; [|done]. case_match; [done|].
    intros [= <- <-]. by apply HI.
  - destruct He as (row & _ & _ & _ & _ & ->). exact HI.
  - destruct He as (r & -> & h & Hh & He). destruct (decision_of slot db) as [d|] eqn:E.
    + destruct He as (_ & _ & _ & [->|[_ ->]]); [exact HI|]. intros h' ss'. simpl. intros Hs.
      destruct (HI h' ss' Hs) as (d' & Hl & ? & ?). rewrite fmap_last, Hl. simpl. eexists. split; [done|].
      by rewrite set_decision_message_slot, set_decision_message_safety.
    + destruct He as (_ & _ & ->). intros h' ss'. simpl. intros [= <- <-].
      rewrite last_snoc. eauto.
  - destruct (consensus_proposals db !! _); [by destruct He as (_ & _ & _ & ->)|]. subst db'. exact HI.
  - destruct He as (n & _ & _ & ->). exact HI.
  - subst db'. exact HI.
  - subst db'. exact HI.
Qed.

Lemma effect_holds_block h bb cb op db db' a :
  holds_block h bb cb db -> effect op db db' a -> holds_block h bb cb db'.
Proof.
  intros (row & E & Hb & Hc) He. unfold holds_block.
  destruct op; simpl in He;
    try (destruct_and?; naive_solver).
  - destruct He as (_ & _ & ->). simpl. case_bool_decide as Hn; [eauto|].
    destruct (decide (fp_height b = h)) as [<-|Hne]; [by destruct Hn; eexists|].
    rewrite lookup_insert_ne by done. eauto.
  - destruct He as (row' & E' & Hb' & Hc' & _ & ->). simpl.
    destruct (decide (fp_height b = h)) as [<-|Hne].
    + rewrite lookup_insert_eq. eexists. split; [done|]. simpl. naive_solver.
    + rewrite lookup_insert_ne by done. eauto.
  - destruct He as (r & -> & h' & _ & He). destruct (decision_of slot db).
    + destruct He as (_ & _ & _ & [->|[_ ->]]); eauto.
    + destruct He as (_ & _ & ->). eauto.
  - destruct (consensus_proposals db !! _); naive_solver.
Qed.

Lemma effect_holds_proposal h r bi bb sp op db db' a :
  holds_proposal h r bi bb sp db -> effect op db db' a -> holds_proposal h r bi bb sp db'.
Proof.
  intros (p & E & Hp) He. unfold holds_proposal.
  destruct op; simpl in He; try (destruct_and?; naive_solver).
  - destruct He as (x & -> & h' & _ & He). destruct (decision_of slot db).
    + destruct He as (_ & _ & _ & [->|[_ ->]]); eauto.
    + destruct He as (_ & _ & ->). eauto.
  - destruct (consensus_proposals db !! (pp_height p0, pp_round p0)) eqn:E2; [naive_solver|].
    subst db'. simpl. exists p. rewrite lookup_insert_ne by congruence. done.
Qed.
End permanence.

(** A reachable log position: the stores around that operation. *)
Lemma run_ops_lookup `{Blake3Checksum} ops s s' log i op r :
  run_ops ops s = (s', log) -> log !! i = Some (op, r) ->
  exists s1 s2, run_ops (take i ops) s = (s1, take i log) /\ perform op s1 = (s2, r) /\
    run_ops (drop (S i) ops) s2 = (s', drop (S i) log).
Proof.
  revert ops s log. induction i as [|i IH]; intros [|op0 ops] s log Hr Hl; simpl in Hr.
  all: try (injection Hr as <- <-; done).
  all: destruct (perform op0 s) as [s1 r1] eqn:E1; destruct (run_ops ops s1) as [s2 log2] eqn:E2;
    injection Hr as <- <-; simpl in Hl.
  - injection Hl as -> ->. exists s, s1. done.
  - destruct (IH ops s1 log2 E2 Hl) as (t1 & t2 & H1 & H2 & H3). exists t1, t2.
    simpl. rewrite E1, H1. done.
Qed.

(** ** Operations that need a transaction *)

Lemma with_transaction_idle {A} (m : storeM A) s s' a : with_transaction m s = (s', Ok a) -> idle s.
Proof.
  unfold with_transaction. intros Hr. destruct (begin_transaction s) as [s0 [[]|e]] eqn:E; [|done].
  destruct (working s) as [w|] eqn:Hw; [|done].
  by destruct (begin_transaction_nested s s0 _ w Hw E) as (? & ? & _).
Qed.

Lemma persist_consensus_decision_idle slot sb sig ss sm s s' r :
  persist_consensus_decision slot sb sig ss sm s = (s', Ok r) -> idle s.
Proof.
  intros (s1 & h & H1 & H)%bind_Ok_inv. injection H1 as <- _.
  apply bind_Ok_inv in H as (s2 & [] & [-> _]%connection_Ok & H). by apply with_transaction_idle in H.
Qed.

Lemma persist_finalized_idle b s s' u : persist_finalized b s = (s', Ok u) -> idle s.
Proof. intros (s2 & [] & [-> _]%connection_Ok & H)%bind_Ok_inv. by apply with_transaction_idle in H. Qed.

(** A signature that is returned is durable. *)
Lemma persist_consensus_decision_effect slot sb sig ss sm s s' r :
  persist_consensus_decision slot sb sig ss sm s = (s', Ok r) ->
  decision_effect slot sb sig ss sm (durable s) (durable s') r /\ idle s'.
Proof.
  intros Hr. pose proof (persist_consensus_decision_idle _ _ _ _ _ _ _ _ Hr) as Hi.
  by destruct (persist_consensus_decision_updates _ _ _ _ _ _ _ _ Hr) as (_ & _ & [? ?]%(fun H => H Hi)).
Qed.

(** ** Runs without a fault *)

(** A store inside a transaction with contents [w], and between transactions. *)
Definition inside (db w : Database) : Store Database := mk_Store false [] db (Some w).
Definition settled (db : Database) : Store Database := mk_Store false [] db None.

Lemma idle_settled db : idle (settled db).
Proof. done. Qed.

Lemma execute_inside {A} (st : Database -> result SqliteError (Database * A)) db w w' a :
  st w = Ok (w', a) -> execute st (inside db w) = (inside db w', Ok a).
Proof. intros H. unfold execute; simpl. unfold view; simpl. by rewrite H. Qed.

Lemma query_inside {A} (q : Database -> result SqliteError A) db w a :
  q w = Ok a -> query q (inside db w) = (inside db w, Ok a).
Proof. intros H. unfold query; simpl. unfold view; simpl. by rewrite H. Qed.

Lemma execute_all_inside {B} (st : B -> Database -> result SqliteError (Database * ()))
    (g : B -> Database -> Database) (I : list B -> Database -> Prop) db w l :
  (forall x l w, I (x :: l) w -> st x w = Ok (g x w, ()) /\ I l (g x w)) -> I l w ->
  execute_all st l (inside db w) = (inside db (foldl (fun w x => g x w) w l), Ok ()).
Proof.
  intros Hst. revert w. induction l as [|x l IH]; intros w HI; simpl; [done|].
  destruct (Hst x l w HI) as [Hx HI']. rewrite (bind_run_Ok _ _ _ _ _ (execute_inside _ db w _ _ Hx)).
  apply IH, HI'.
Qed.

Lemma to_sql_u64_fits v : v <= i64_max -> to_sql_u64 v = Ok v.
Proof. intros H. by apply to_sql_u64_Ok. Qed.

(** Every number of the projection is one SQLite can store. *)
Definition fits (b : FinalizedProjection) : Prop :=
  fp_height b <= i64_max /\ fp_timestamp_ms b <= i64_max /\
  Z.of_nat (length (fp_transactions b)) <= i64_max /\
  Forall (fun tx => tp_amount_atoms tx <= i64_max /\ tp_nonce tx <= i64_max) (fp_transactions b) /\
  Forall (fun a => ap_balance_atoms a <= i64_max /\ ap_nonce a <= i64_max /\
                   ap_transaction_count a <= i64_max) (fp_changed_accounts b).

(** No stored transaction competes for a position in the block. *)
Definition positions_free (b : FinalizedProjection) (db : Database) : Prop :=
  NoDup (tp_index <$> fp_transactions b) /\
  map_Forall (fun _ row => tw_block_height row <> fp_height b) (transactions db).

Lemma block_row_fits b : fits b -> block_row b = Ok (projected_block b).
Proof.
  intros (H1 & H2 & H3 & _). unfold block_row. by rewrite !to_sql_u64_fits.
Qed.

Lemma place_block_inside b db :
  fits b -> agrees b db ->
  exists w, place_block b (inside db db) = (inside db w, Ok ()) /\
    is_Some (blocks w !! fp_height b) /\ transactions w = transactions db.
Proof.
  intros Hf Ha. unfold place_block. pose proof (proj1 Hf) as Hh.
  assert (select_block_hash (fp_height b) db = Ok (br_block_hash <$> blocks db !! fp_height b)) as Hq
    by (unfold select_block_hash; by rewrite to_sql_u64_fits).
  rewrite (bind_run_Ok _ _ _ _ _ (query_inside _ db db _ Hq)).
  unfold agrees in Ha. destruct (blocks db !! fp_height b) as [row|] eqn:E; simpl.
  - rewrite bool_decide_eq_true_2 by done. exists db. eauto.
  - exists (set_blocks <[fp_height b := projected_block b]> db). split_and!.
    + apply (execute_inside (insert_block b)). unfold insert_block. rewrite block_row_fits by done. simpl.
      by rewrite E, Ha, bool_decide_eq_false_2 by (intros [? ?]; done).
    + simpl. rewrite lookup_insert_eq. by eexists.
    + done.
Qed.

Lemma transactions_inside b db w :
  fits b -> positions_free b w -> is_Some (blocks w !! fp_height b) ->
  exists w', execute_all (upsert_transaction (fp_height b)) (fp_transactions b) (inside db w) =
    (inside db w', Ok ()).
Proof.
  intros (Hh & _ & _ & Hl & _) [Hnd Hfree] Hb. eexists.
  apply (execute_all_inside _ (fun tx => set_transactions <[tp_id tx := projected_transaction (fp_height b) tx]>)
    (fun l w => NoDup (tp_index <$> l) /\
       Forall (fun tx => tp_amount_atoms tx <= i64_max /\ tp_nonce tx <= i64_max) l /\
       is_Some (blocks w !! fp_height b) /\
       forall id row tx, transactions w !! id = Some row -> tw_block_height row = fp_height b ->
         tx ∈ l -> tw_index row <> tp_index tx)).
  - clear w Hl Hnd Hfree Hb. intros x l w (Hnd & Hl & Hb & Hfree).
    apply NoDup_cons in Hnd as [Hx Hnd]. apply Forall_cons in Hl as [[Ha Hn] Hl]. split.
    + unfold upsert_transaction. rewrite !to_sql_u64_fits by done. unfold mbind, result_bind.
      rewrite bool_decide_eq_false_2, bool_decide_eq_false_2; [done| |].
      * by destruct Hb as [? ->].
      * intros (id & row & E & Hne & Eh & Ei). apply (Hfree id row x); [done..|set_solver|done].
    + simpl. split_and!; [done..|]. intros id row tx E Eh Htx.
      destruct (decide (tp_id x = id)) as [<-|Hne].
      * rewrite lookup_insert_eq in E. injection E as <-. simpl. intros Heq. apply Hx.
        rewrite Heq. by apply list_elem_of_fmap_2.
      * rewrite lookup_insert_ne in E by done. apply (Hfree id row tx); [done..|set_solver].
  - split_and!; [done..|]. intros id row tx E Eh _. by destruct (Hfree id row E).
Qed.

Lemma accounts_inside b db w :
  fits b ->
  exists w', execute_all (upsert_account (fp_height b)) (fp_changed_accounts b) (inside db w) =
    (inside db w', Ok ()).
Proof.
  intros (Hh & _ & _ & _ & Hl). eexists.
  apply (execute_all_inside _ (fun a => set_accounts <[ap_address a := mk_AccountRow a (fp_height b)]>)
    (fun l _ => Forall (fun a => ap_balance_atoms a <= i64_max /\ ap_nonce a <= i64_max /\
                   ap_transaction_count a <= i64_max) l)); [|done].
  intros x l w' ((? & ? & ?) & Hl')%Forall_cons. split; [|done].
  unfold upsert_account. rewrite !to_sql_u64_fits by done. by destruct x.
Qed.

Lemma finalized_statements_inside b db :
  fits b -> agrees b db -> positions_free b db ->
  exists w, finalized_statements b (inside db db) = (inside db w, Ok ()).
Proof.
  intros Hf Ha [Hnd Hfree]. rewrite finalized_statements_alt.
  destruct (place_block_inside b db Hf Ha) as (w1 & E1 & Hb & Ht).
  rewrite (bind_run_Ok _ _ _ _ _ E1).
  destruct (transactions_inside b db w1 Hf) as [w2 E2]; [by split; rewrite ?Ht|done|].
  rewrite (bind_run_Ok _ _ _ _ _ E2).
  destruct (accounts_inside b db w2 Hf) as [w3 E3]. rewrite (bind_run_Ok _ _ _ _ _ E3).
  rewrite (bind_run_Ok _ _ _ _ _ (execute_all_inside (fun kv => upsert_metadata kv.1 kv.2)
    (fun kv => set_metadata <[kv.1 := kv.2]>) (fun _ _ => True) db w3 (finalized_metadata b)
    (fun x l w _ => conj eq_refl I) I)).
  eexists. apply execute_inside. unfold delete_consensus_safety.
  rewrite to_sql_u64_fits by apply Hf. done.
Qed.

Lemma persist_finalized_settled b db :
  fits b -> agrees b db -> positions_free b db ->
  persist_finalized b (settled db) = (settled (finalized_database b db), Ok ()).
Proof.
  intros Hf Ha Hp. destruct (finalized_statements_inside b db Hf Ha Hp) as [w E].
  assert (persist_finalized b (settled db) = (settled w, Ok ())) as Hr.
  { unfold persist_finalized. rewrite (bind_run_Ok _ _ (settled db) (settled db) ()) by done.
    unfold with_transaction. change (begin_transaction (settled db)) with (inside db db, @Ok StorageError _ ()).
    cbn beta iota. by rewrite (bind_run_Ok _ _ _ _ _ E). }
  destruct (persist_finalized_updates b _ _ _ Hr) as (_ & _ & [_ (_ & _ & Hd)]%(fun H => H (idle_settled db))).
  simpl in Hd. by rewrite Hr, Hd.
Qed.

Lemma metadata_value_settled key db : metadata_value key (settled db) = (settled db, Ok (metadata db !! key)).
Proof. done. Qed.

Lemma finalized_metadata_NoDup b : NoDup (finalized_metadata b).*1.
Proof. apply (bool_decide_unpack _). vm_compute. exact I. Qed.

(** ** Slots that name their height *)

(** A slot as [signer_slot] writes it. *)
Definition canonical_slot (height : Z) (slot : ustring) : Prop :=
  is_u64 height /\ exists rest, slot = to_string height ++ 47 :: rest.

Lemma canonical_slot_height h slot : canonical_slot h slot -> slot_height slot = Some h.
Proof.
  intros [Hh [rest ->]]. unfold slot_height. rewrite split_first_app.
  - apply parse_uint_to_string; [done|apply Hh].
  - intros Hin. pose proof (to_string_digits h 47 (proj1 Hh) Hin). lia.
Qed.

Lemma canonical_slot_of_height h slot : canonical_slot h slot -> slot_of_height h slot.
Proof.
  intros [_ [rest ->]]. exists rest. by rewrite <- app_assoc.
Qed.

Lemma last_filter {A} (P : A -> Prop) `{forall x, Decision (P x)} (l : list A) x :
  last l = Some x -> P x -> last (filter P l) = Some x.
Proof.
  intros [l' ->]%last_Some Hx. rewrite filter_app, filter_cons_True, filter_nil by done. by rewrite last_snoc.
Qed.

(** The node's own requests: a canonical slot and an encoded message. *)
Definition signs_canonically (op : StoreOp) : Prop :=
  match op with
  | PersistConsensusDecision slot _ _ _ sm => (exists h, canonical_slot h slot) /\ sm <> []
  | _ => True
  end.

Definition decisions_canonical (db : Database) : Prop :=
  Forall (fun d => (exists h, canonical_slot h (pd_slot d)) /\ pd_signed_message d <> []) (signer_state db).

Lemma effect_decisions_canonical `{Blake3Checksum} op db db' a :
  signs_canonically op -> decisions_canonical db -> effect op db db' a -> decisions_canonical db'.
Proof.
  unfold decisions_canonical. intros Hop HI [->|(slot & sb & sig & ss & sm & r & -> & h & _ & He)]%effect_signer_state; [done|].
  simpl in Hop. destruct (decision_of slot db).
  - destruct He as (_ & _ & _ & [->|[_ ->]]); [done|]. simpl. apply Forall_fmap.
    eapply Forall_impl; [exact HI|]. intros d [Hc Hm]. unfold compose. rewrite set_decision_message_slot.
    split; [done|]. unfold set_decision_message. case_bool_decide; [apply Hop|done].
  - destruct He as (_ & _ & ->). simpl. apply Forall_app. split; [done|]. by constructor.
Qed.

(** ** Operations between transactions leave none open *)

Definition keeps_idle {A} (m : storeM A) : Prop := forall s s' r, idle s -> m s = (s', r) -> idle s'.

Lemma keeps_idle_bind {A B} (m : storeM A) (f : A -> storeM B) :
  keeps_idle m -> (forall a, keeps_idle (f a)) -> keeps_idle (m ≫= f).
Proof.
  intros Hm Hf s s' r Hi Hr. unfold mbind, stE_bind in Hr.
  destruct (m s) as [s1 [a|e]] eqn:E; pose proof (Hm _ _ _ Hi E).
  - by eapply Hf.
  - by injection Hr as <- _.
Qed.

Lemma keeps_idle_connection : keeps_idle connection.
Proof. by intros s s' r Hi ->%connection_frame. Qed.
Lemma keeps_idle_query {A} (q : Database -> result SqliteError A) : keeps_idle (query q).
Proof. by intros s s' r Hi ->%query_frame. Qed.
Lemma keeps_idle_execute {A} (st : Database -> result SqliteError (Database * A)) : keeps_idle (execute st).
Proof. intros s s' r Hi Hr. by destruct (execute_idle _ _ _ _ Hi Hr). Qed.
Lemma keeps_idle_pure {A} (x : result StorageError A) : keeps_idle (lift x).
Proof. by intros s s' r Hi [= <- _]. Qed.
Lemma keeps_idle_ret {A} (a : A) : keeps_idle (mret a).
Proof. by intros s s' r Hi [= <- _]. Qed.
Lemma keeps_idle_throw {A} e : keeps_idle (throw e : storeM A).
Proof. by intros s s' r Hi [= <- _]. Qed.
Lemma keeps_idle_with_transaction {A} (m : storeM A) : keeps_idle (with_transaction m).
Proof.
  intros s s' r Hi Hr. unfold with_transaction in Hr.
  destruct (begin_transaction s) as [s0 [[]|e]] eqn:E.
  - destruct (m s0). by injection Hr as <- _.
  - injection Hr as <- _. by destruct (begin_transaction_open _ _ _ Hi E).
Qed.

#[export] Hint Resolve keeps_idle_bind keeps_idle_connection keeps_idle_query keeps_idle_execute
  keeps_idle_pure keeps_idle_ret keeps_idle_throw keeps_idle_with_transaction : kcoin.

Lemma persist_finalized_keeps_idle b : keeps_idle (persist_finalized b).
Proof. unfold persist_finalized. auto with kcoin. Qed.

Lemma persist_consensus_decision_keeps_idle slot sb sig ss sm :
  keeps_idle (persist_consensus_decision slot sb sig ss sm).
Proof. unfold persist_consensus_decision. auto 6 with kcoin. Qed.

Lemma refresh_block_projection_keeps_idle b : keeps_idle (refresh_block_projection b).
Proof.
  unfold refresh_block_projection. apply keeps_idle_bind; [auto with kcoin|]. intros _.
  apply keeps_idle_bind; [auto with kcoin|]. intros n. case_bool_decide; auto with kcoin.
Qed.

Lemma persist_consensus_proposal_keeps_idle p : keeps_idle (persist_consensus_proposal p).
Proof.
  unfold persist_consensus_proposal. apply keeps_idle_bind; [auto with kcoin|]. intros _.
  apply keeps_idle_bind; [auto with kcoin|]. intros [q|]; [|auto with kcoin].
  destruct (_ && _); auto with kcoin.
Qed.

Lemma append_consensus_event_keeps_idle `{Blake3Checksum} kind b : keeps_idle (append_consensus_event kind b).
Proof. unfold append_consensus_event. auto with kcoin. Qed.

#[export] Hint Resolve persist_finalized_keeps_idle persist_consensus_decision_keeps_idle
  refresh_block_projection_keeps_idle persist_consensus_proposal_keeps_idle
  append_consensus_event_keeps_idle : kcoin.

Lemma perform_idle `{Blake3Checksum} op s s' r :
  op <> ClearProjections -> idle s -> perform op s = (s', r) -> idle s'.
Proof.
  intros Hop Hi Hr.
  assert (keeps_idle (perform op) \/ exists fs, op = Reopen fs) as [Hk|[fs ->]].
  - destruct op; [..|done|by right; eexists]; left; simpl; auto with kcoin.
  - by eapply Hk.
  - by injection Hr as <- _.
Qed.

Lemma run_ops_idle `{Blake3Checksum} ops s s' log :
  Forall (fun op => op <> ClearProjections) ops -> idle s -> run_ops ops s = (s', log) -> idle s'.
Proof.
  intros Hops. revert s log. induction Hops as [|op ops Hop _ IH]; intros s log Hi Hr; simpl in Hr.
  - by injection Hr as <- _.
  - destruct (perform op s) as [s1 r1] eqn:E1. destruct (run_ops ops s1) as [s2 log2] eqn:E2.
    injection Hr as <- _. eapply IH; [|exact E2]. by eapply perform_idle.
Qed.

(** ** Rows read back *)

Lemma try_collect_identity {A} (f : A -> result SqliteError A) l ys :
  (forall x y, f x = Ok y -> y = x) -> try_collect f l = Ok ys -> ys = l.
Proof.
  intros Hf H%try_collect_Ok. induction H as [|x y l ys Hx _ IH]; [done|]. f_equal; [by apply Hf|done].
Qed.

Lemma block_from_row_same row row' : block_from_row row = Ok row' -> row' = row.
Proof.
  unfold block_from_row. intros H.
  apply result_bind_Ok_inv in H as (? & [-> _]%from_sql_u64_Ok & H).
  apply result_bind_Ok_inv in H as (? & [-> _]%from_sql_u32_Ok & H).
  apply result_bind_Ok_inv in H as (? & [-> _]%from_sql_u64_Ok & H).
  apply result_bind_Ok_inv in H as (? & [-> _]%from_sql_u64_Ok & [= <-]). by destruct row.
Qed.

(** A read between transactions answers from the durable database. *)
Lemma read_Ok {A} (select : Database -> result SqliteError A) s s' a :
  idle s -> (_ ← connection; query select) s = (s', Ok a) ->
  idle s' /\ durable s' = durable s /\ select (durable s) = Ok a.
Proof.
  intros Hi Hr. destruct (updates_read_only _ _ _ _ Hr) as (_ & _ & [? [? ?]]%(fun H => H Hi)). by split_and!.
Qed.

(** The same, seen from the store after the read. *)
Lemma read_idle {A} (select : Database -> result SqliteError A) s s' a :
  (_ ← connection; query select) s = (s', Ok a) -> idle s' -> select (durable s') = Ok a.
Proof.
  intros (s1 & [] & [-> _]%connection_Ok & [-> Hr]%query_Ok)%bind_Ok_inv Hi.
  revert Hr. unfold view. by rewrite (Hi : working s = None).
Qed.

Lemma canonical_block_rows_Ok s s' rows :
  idle s -> canonical_block_rows s = (s', Ok rows) -> rows = blocks_ascending (durable s).
Proof.
  intros Hi (_ & _ & Hr)%read_Ok; [|done]. by apply try_collect_identity in Hr; [|exact block_from_row_same].
Qed.

(** ** One decision per slot *)

Definition slots_unique (db : Database) : Prop := NoDup (pd_slot <$> signer_state db).

Lemma effect_slots_unique `{Blake3Checksum} op db db' a : slots_unique db -> effect op db db' a -> slots_unique db'.
Proof.
  unfold slots_unique. intros Hu [->|(slot & sb & sig & ss & sm & r & -> & h & _ & He)]%effect_signer_state; [done|].
  destruct (decision_of slot db) eqn:E.
  - destruct He as (_ & _ & _ & [->|[_ ->]]); [done|]. simpl. rewrite <- list_fmap_compose.
    erewrite list_fmap_ext; [exact Hu|]. intros i d _. apply set_decision_message_slot.
  - destruct He as (_ & _ & ->). simpl. rewrite fmap_app. simpl. apply NoDup_app. split_and!; [done| |apply NoDup_singleton].
    intros x (d & -> & Hd)%list_elem_of_fmap Hx%list_elem_of_singleton.
    unfold decision_of in E. apply head_None in E.
    assert (d ∈ filter (fun d => pd_slot d = slot) (signer_state db)) as Hin by (by apply list_elem_of_filter).
    rewrite E in Hin. by apply elem_of_nil in Hin.
Qed.

(** With unique slots every row of the table decides its slot. *)
Lemma stored_decided db d :
  slots_unique db -> d ∈ signer_state db ->
  decided (pd_slot d) (pd_sign_bytes d) (pd_safety_state d) (pd_signature d) db.
Proof.
  unfold slots_unique, decided, decision_of. intros Hu Hd. exists d. split; [|done].
  induction (signer_state db) as [|x l IH]; [by apply elem_of_nil in Hd|].
  rewrite fmap_cons in Hu. apply NoDup_cons in Hu as [Hx Hu]. rewrite filter_cons.
  apply elem_of_cons in Hd as [->|Hd]; [by rewrite decide_True|].
  rewrite decide_False; [by apply IH|]. intros Heq. apply Hx. rewrite Heq. by apply list_elem_of_fmap_2.
Qed.
