(* ===== verification/StoreSpec.v ===== *)
(** * Correctness of the node's store

    Atomicity and immutability of finality, the signer's one decision per slot,
    what a restarting node reads back, and the explorer's pages, for any
    behaviour of SQLite's environment. *)

From S2P Require Import Prelude Crypto Sqlite Store StoreFacts.

(** ** Concrete inputs for the witnesses *)

Definition sample_transaction (index : Z) : TransactionProjection :=
  mk_TransactionProjection (str "tx" ++ to_string index) index (str "transfer") (str "alice")
    (Some (str "bob")) 5 index.

Definition sample_block (height : Z) (hash : string) : FinalizedProjection :=
  mk_FinalizedProjection height (str hash) (str "parent") (str "root") (str "proposer") 0 1000
    [x01] [x02] [sample_transaction 0; sample_transaction 1]
    [mk_AccountProjection (str "alice") 90 2 None 2; mk_AccountProjection (str "bob") 10 0 None 2]
    100 (str "{}").

Definition fresh_store (faults : list (option SqliteError)) : Store Database :=
  mk_Store false faults empty_database None.

(** The disk is full at the third statement. *)
Definition disk_full : list (option SqliteError) := [None; None; Some (SqliteFailure 13)].

#[local] Instance no_checksum : Blake3Checksum := fun _ => [].

Definition sample_slot : ustring := str "7/0/prevote".

(** ** Finalized blocks *)

(** C13. [persist_finalized] is a transaction: it succeeds exactly
    into the database with the block, its transactions, accounts and metadata
    and without the safety state of that height, at a height that held no other
    block; on any error nothing is durable. *)
Theorem persist_finalized_atomic (b : FinalizedProjection) (s s' : Store Database) (r : result StorageError ()) :
  idle s -> persist_finalized b s = (s', r) ->
  match r with
  | Ok _ => idle s' /\ agrees b (durable s) /\ durable s' = finalized_database b (durable s)
  | Err _ => durable s' = durable s
  end.
Proof.
  intros Hi Hr. destruct (persist_finalized_updates b s s' r Hr) as (_ & _ & H). specialize (H Hi).
  destruct r; [|done]. tauto.
Qed.

Lemma persist_finalized_atomic_witness :
  durable (persist_finalized (sample_block 1 "h1") (fresh_store [])).1 =
    finalized_database (sample_block 1 "h1") empty_database /\
  durable (persist_finalized (sample_block 1 "h1") (fresh_store disk_full)).1 = empty_database.
Proof.
  split.
  - destruct (persist_finalized (sample_block 1 "h1") (fresh_store [])) as [s' r] eqn:E.
    assert (r = Ok ()) as -> by (transitivity ((s', r).2); [reflexivity | rewrite <- E; vm_compute; reflexivity]).
    apply persist_finalized_atomic in E; [exact (proj2 (proj2 E))|reflexivity].
  - destruct (persist_finalized (sample_block 1 "h1") (fresh_store disk_full)) as [s' r] eqn:E.
    assert (r = Err (Sqlite (SqliteFailure 13))) as ->
      by (transitivity ((s', r).2); [reflexivity | rewrite <- E; vm_compute; reflexivity]).
    apply persist_finalized_atomic in E; [exact E|reflexivity].
Defined.

(** With a working disk a block is finalized whenever no other block has its
    height or hash, its numbers fit SQLite's integers and its transactions
    occupy distinct positions. *)
Theorem persist_finalized_succeeds (b : FinalizedProjection) (db : Database) :
  fits b -> agrees b db -> positions_free b db ->
  persist_finalized b (settled db) = (settled (finalized_database b db), Ok ()).
Proof.
  apply persist_finalized_settled.
Qed.

Lemma persist_finalized_succeeds_witness :
  persist_finalized (sample_block 1 "h1") (settled empty_database) =
  (settled (finalized_database (sample_block 1 "h1") empty_database), Ok ()).
Proof.
  apply persist_finalized_succeeds.
  - unfold fits, i64_max; simpl. split_and!; try lia; repeat constructor; simpl; lia.
  - reflexivity.
  - split; [apply (bool_decide_unpack _); vm_compute; exact I | apply map_Forall_empty].
Defined.

(** A block at a height that holds a different block is refused. *)
Theorem conflicting_finality_refused (b : FinalizedProjection) (s s' : Store Database) r row :
  idle s -> blocks (durable s) !! fp_height b = Some row -> br_block_hash row <> fp_block_hash b ->
  persist_finalized b s = (s', r) ->
  durable s' = durable s /\ exists e, r = Err e /\
    (faults s = [] -> poisoned s = false -> fp_height b <= i64_max -> e = ConflictingFinality (fp_height b)).
Proof.
  intros Hi E Hne Hr. pose proof (persist_finalized_atomic b s s' r Hi Hr) as Ha.
  destruct r as [u|e]; [unfold agrees in Ha; rewrite E in Ha; naive_solver|].
  split; [done|]. exists e. split; [done|]. intros Hf Hp Hh.
  unfold idle in Hi. destruct s as [p f db w]; simpl in *; subst p f w.
  assert (finalized_statements b (inside db db) = (inside db db, Err (ConflictingFinality (fp_height b)))) as Hs.
  { unfold finalized_statements.
    assert (select_block_hash (fp_height b) db = Ok (Some (br_block_hash row))) as Hq
      by (unfold select_block_hash; rewrite to_sql_u64_fits by done; simpl; by rewrite E).
    rewrite (bind_run_Ok _ _ _ _ _ (query_inside _ db db _ Hq)).
    by rewrite bool_decide_eq_false_2. }
  unfold persist_finalized in Hr. rewrite (bind_run_Ok _ _ (settled db) (settled db) ()) in Hr by done.
  unfold with_transaction in Hr.
  change (begin_transaction (settled db)) with (inside db db, @Ok StorageError _ ()) in Hr.
  cbn beta iota in Hr. rewrite (bind_run_Err _ _ _ _ _ Hs) in Hr. by injection Hr as _ <-.
Qed.

Lemma conflicting_finality_refused_witness :
  (persist_finalized (sample_block 1 "h2")
     (settled (finalized_database (sample_block 1 "h1") empty_database))).2 = Err (ConflictingFinality 1).
Proof.
  destruct (persist_finalized (sample_block 1 "h2") _) as [s' r] eqn:E. simpl.
  eapply conflicting_finality_refused in E as [_ (e & -> & He)]; [|reflexivity|vm_compute; reflexivity|discriminate].
  f_equal. apply He; [reflexivity..|unfold i64_max; simpl; lia].
Defined.

(** C8. Once a block is finalized in the store, its bytes and its certificate are
    never changed or removed: not by any later sequence of operations, whatever
    the environment does, and not by a crash. *)
Theorem finality_permanent (ops : list StoreOp) (s s' : Store Database) log :
  run_ops ops s = (s', log) ->
  (forall h bb cb, holds_block h bb cb (durable s) -> holds_block h bb cb (durable s')) /\
  (forall i b, log !! i = Some (PersistFinalized b, Ok Done) ->
     exists bb cb, holds_block (fp_height b) bb cb (durable s')).
Proof.
  intros Hr. split.
  - intros h bb cb. revert Hr. apply (run_ops_invariant (holds_block h bb cb)).
    intros op db db' a. apply effect_holds_block.
  - intros i b Hl. destruct (run_ops_lookup ops s s' log i _ _ Hr Hl) as (s1 & s2 & _ & Hp & Hrest).
    simpl in Hp. apply bind_Ok_inv in Hp as (s3 & u & Hp & [= <-]).
    pose proof (persist_finalized_idle _ _ _ _ Hp) as Hi.
    destruct (persist_finalized_atomic _ _ _ _ Hi Hp) as (_ & _ & Hd).
    assert (exists bb cb, holds_block (fp_height b) bb cb (durable s3)) as (bb & cb & Hh).
    { rewrite Hd. unfold holds_block. simpl. case_bool_decide as Hs.
      - destruct Hs as [row ?]. eauto 6.
      - rewrite lookup_insert_eq. eauto 6. }
    exists bb, cb. revert Hrest Hh. apply run_ops_invariant. intros ????. apply effect_holds_block.
Qed.

(** A run with a finalization, a failing disk, a refresh and a crash. *)
Definition finality_ops : list StoreOp :=
  [PersistFinalized (sample_block 1 "h1"); PersistFinalized (sample_block 1 "h2");
   Reopen disk_full; PersistFinalized (sample_block 2 "h2"); ClearProjections; Reopen [];
   RefreshBlockProjection (sample_block 1 "h9")].

Lemma finality_permanent_witness :
  exists s' bb cb, (run_ops finality_ops (fresh_store [])).1 = s' /\ holds_block 1 bb cb (durable s').
Proof.
  destruct (run_ops finality_ops (fresh_store [])) as [s' log] eqn:E.
  assert (log !! 0%nat = Some (PersistFinalized (sample_block 1 "h1"), Ok Done)) as Hl
    by (transitivity ((run_ops finality_ops (fresh_store [])).2 !! 0%nat); [by rewrite E|vm_compute; reflexivity]).
  destruct (finality_permanent _ _ _ _ E) as [_ H].
  destruct (H _ _ Hl) as (bb & cb & Hh). exists s', bb, cb. split; [reflexivity|exact Hh].
Defined.

(** ** The signer *)

(** C9. Whatever happens in between — other decisions, failures, crashes — two
    signatures returned for one signer slot are the same signature, over the
    same bytes and with the same safety state. *)
Theorem signer_never_equivocates (ops : list StoreOp) (s s' : Store Database) log
    i j slot sb1 sig1 ss1 sm1 r1 sb2 sig2 ss2 sm2 r2 :
  run_ops ops s = (s', log) ->
  log !! i = Some (PersistConsensusDecision slot sb1 sig1 ss1 sm1, Ok (Signature r1)) ->
  log !! j = Some (PersistConsensusDecision slot sb2 sig2 ss2 sm2, Ok (Signature r2)) ->
  sb1 = sb2 /\ ss1 = ss2 /\ r1 = r2.
Proof.
  intros Hr. revert i j sb1 sig1 ss1 sm1 r1 sb2 sig2 ss2 sm2 r2.
  enough (forall i j sb1 sig1 ss1 sm1 r1 sb2 sig2 ss2 sm2 r2, (i < j)%nat ->
    log !! i = Some (PersistConsensusDecision slot sb1 sig1 ss1 sm1, Ok (Signature r1)) ->
    log !! j = Some (PersistConsensusDecision slot sb2 sig2 ss2 sm2, Ok (Signature r2)) ->
    sb1 = sb2 /\ ss1 = ss2 /\ r1 = r2) as Hlt.
  { intros i j sb1 sig1 ss1 sm1 r1 sb2 sig2 ss2 sm2 r2 Hi Hj. destruct (Nat.lt_trichotomy i j) as [Hij|[->|Hij]].
    - by eapply (Hlt i j).
    - rewrite Hi in Hj. by injection Hj.
    - destruct (Hlt j i _ _ _ _ _ _ _ _ _ _ Hij Hj Hi) as (? & ? & ?). done. }
  intros i j sb1 sig1 ss1 sm1 r1 sb2 sig2 ss2 sm2 r2 Hij Hi Hj.
  destruct (run_ops_lookup ops s s' log i _ _ Hr Hi) as (s1 & s2 & _ & Hp & Hrest).
  assert (drop (S i) log !! (j - S i)%nat = Some (PersistConsensusDecision slot sb2 sig2 ss2 sm2, Ok (Signature r2)))
    as Hj' by (rewrite lookup_drop; rewrite <- Hj; f_equal; lia).
  destruct (run_ops_lookup _ s2 s' _ _ _ _ Hrest Hj') as (s3 & s4 & Hmid & Hp2 & _).
  simpl in Hp, Hp2.
  apply bind_Ok_inv in Hp as (? & ? & Hp & [= -> ->]). apply bind_Ok_inv in Hp2 as (? & ? & Hp2 & [= -> ->]).
  destruct (persist_consensus_decision_effect _ _ _ _ _ _ _ _ Hp) as [He _].
  destruct (persist_consensus_decision_effect _ _ _ _ _ _ _ _ Hp2) as [He2 _].
  apply decision_effect_decided in He.
  assert (decided slot sb1 ss1 r1 (durable s3)) as Hd.
  { revert Hmid He. apply run_ops_invariant. intros ????. apply effect_decided. }
  assert (decided slot sb1 ss1 r1 (durable s4)) as Hd2.
  { apply (effect_decided slot sb1 ss1 r1 (PersistConsensusDecision slot sb2 sig2 ss2 sm2) (durable s3) _ (Signature r2)); [done|].
    exists r2. done. }
  apply decision_effect_decided in He2. by eapply decided_functional.
Qed.

(** A signer that decides, crashes, is asked for a conflicting vote, and then
    for the first one again. *)
Definition signer_ops : list StoreOp :=
  [PersistConsensusDecision sample_slot [x01] [x0a] [x10] [x11];
   Reopen [None; Some (SqliteFailure 10)];
   PersistConsensusDecision sample_slot [x02] [x0b] [x10] [x12];
   PersistConsensusDecision sample_slot [x02] [x0b] [x10] [x12];
   PersistConsensusDecision sample_slot [x01] [x0c] [x10] []].

Lemma signer_never_equivocates_witness :
  (run_ops signer_ops (fresh_store [])).2.*2 =
    [Ok (Signature [x0a]); Ok Done; Err (Sqlite (SqliteFailure 10));
     Err (ConflictingSignature sample_slot); Ok (Signature [x0a])] /\ [x0a] = [x0a].
Proof.
  split; [vm_compute; reflexivity|].
  destruct (run_ops signer_ops (fresh_store [])) as [s' log] eqn:E.
  assert (log !! 0%nat = Some (PersistConsensusDecision sample_slot [x01] [x0a] [x10] [x11], Ok (Signature [x0a])))
    as H0 by (transitivity ((run_ops signer_ops (fresh_store [])).2 !! 0%nat); [by rewrite E|vm_compute; reflexivity]).
  assert (log !! 4%nat = Some (PersistConsensusDecision sample_slot [x01] [x0c] [x10] [], Ok (Signature [x0a])))
    as H4 by (transitivity ((run_ops signer_ops (fresh_store [])).2 !! 4%nat); [by rewrite E|vm_compute; reflexivity]).
  exact (proj2 (proj2 (signer_never_equivocates _ _ _ _ _ _ _ _ _ _ _ _ _ _ _ _ _ E H0 H4))).
Defined.

(** Restarting after any history of a node's operations: when
    the stored safety state is that of height [h], the decisions read back for
    [h] are not empty and the last of them carries exactly that safety state. *)
Theorem restart_finds_last_decision (ops : list StoreOp) (s0 s s1 s2 : Store Database) log h safety decisions :
  durable s0 = empty_database -> Forall signs_canonically ops ->
  run_ops ops s0 = (s, log) -> idle s ->
  consensus_safety_state s = (s1, Ok (Some (h, safety))) ->
  consensus_decisions h s1 = (s2, Ok decisions) ->
  exists d, last decisions = Some d /\ pd_safety_state d = safety /\ slot_height (pd_slot d) = Some h.
Proof.
  intros H0 Hops Hr Hi Hs Hd.
  destruct (updates_read_only _ _ _ _ Hs) as (_ & _ & [Hi1 [Hd1 Hq]]%(fun H => H Hi)).
  destruct (updates_read_only _ _ _ _ Hd) as (_ & _ & [_ [_ Hq2]]%(fun H => H Hi1)).
  rewrite Hd1 in Hq2. injection Hq2 as <-.
  assert (consensus_safety (durable s) = Some (h, safety)) as Hsafety.
  { destruct (consensus_safety (durable s)) as [[h0 ss0]|]; [|done]. simpl in Hq.
    apply result_bind_Ok_inv in Hq as ([h1 ss1] & Hq & [= -> ->]).
    apply result_bind_Ok_inv in Hq as (h2 & [-> _]%from_sql_u64_Ok & [= -> ->]). done. }
  assert (safety_is_latest (durable s)) as Hlatest.
  { apply (run_ops_invariant _ _ _ _ _ (fun op db db' a => effect_safety_is_latest op db db' a) Hr).
    rewrite H0. by intros ??. }
  assert (decisions_canonical (durable s)) as Hcanon.
  { apply (run_ops_invariant_of signs_canonically _ _ _ _ _ effect_decisions_canonical Hops Hr).
    rewrite H0. constructor. }
  destruct (Hlatest h safety Hsafety) as (d & Hl & Hh & Hss). exists d. split; [|done].
  apply last_filter; [done|].
  assert (d ∈ signer_state (durable s)) as Hin by (apply last_Some in Hl as [l' ->]; set_solver).
  destruct (proj1 (Forall_forall _ _) Hcanon d Hin) as [[h' Hc] Hm].
  rewrite (canonical_slot_height _ _ Hc) in Hh. injection Hh as ->.
  split; [by apply canonical_slot_of_height|done].
Qed.

(** Two decisions, then a crash. *)
Definition crashed_ops : list StoreOp :=
  [PersistConsensusDecision (str "7/0/proposal") [x01] [x0a] [x10] [x11];
   PersistConsensusDecision sample_slot [x02] [x0b] [x20] [x12]; Reopen []].

Lemma restart_finds_last_decision_witness :
  exists d, last [mk_PersistedConsensusDecision (str "7/0/proposal") [x01] [x0a] [x10] [x11];
                  mk_PersistedConsensusDecision sample_slot [x02] [x0b] [x20] [x12]] = Some d /\
    pd_safety_state d = [x20] /\ slot_height (pd_slot d) = Some 7.
Proof.
  eapply (restart_finds_last_decision crashed_ops (fresh_store [])).
  - reflexivity.
  - repeat constructor; try discriminate; exists 7; (split; [unfold in_range, u64_max; lia|]);
      eexists; reflexivity.
  - reflexivity.
  - reflexivity.
  - vm_compute. reflexivity.
  - vm_compute. reflexivity.
Defined.

(** ** Proposals *)

(** Two proposals accepted for one height and round are the same proposal, and
    it is still stored at the end. *)
Theorem proposal_stored_once (ops : list StoreOp) (s s' : Store Database) log i j p q :
  Forall (fun op => op <> ClearProjections) ops -> idle s ->
  run_ops ops s = (s', log) ->
  log !! i = Some (PersistConsensusProposal p, Ok Done) ->
  log !! j = Some (PersistConsensusProposal q, Ok Done) ->
  pp_height p = pp_height q -> pp_round p = pp_round q ->
  pp_block_id p = pp_block_id q /\ pp_block_bytes p = pp_block_bytes q /\
  pp_signed_proposal p = pp_signed_proposal q /\
  holds_proposal (pp_height p) (pp_round p) (pp_block_id p) (pp_block_bytes p) (pp_signed_proposal p)
    (durable s').
Proof.
  intros Hops Hi Hr Hlp Hlq Hh Hrd.
  enough (forall i p, log !! i = Some (PersistConsensusProposal p, Ok Done) ->
    holds_proposal (pp_height p) (pp_round p) (pp_block_id p) (pp_block_bytes p) (pp_signed_proposal p)
      (durable s')) as Hall.
  { pose proof (Hall _ _ Hlp) as Hp. destruct (Hall _ _ Hlq) as (p2 & E2 & ? & ? & ?).
    split_and!; [..|exact Hp]; destruct Hp as (p1 & E1 & ? & ? & ?); rewrite <- Hh, <- Hrd in E2;
      rewrite E1 in E2; congruence. }
  clear - Hops Hi Hr. intros i p Hl.
  destruct (run_ops_lookup ops s s' log i _ _ Hr Hl) as (s1 & s2 & Hpre & Hp & Hrest).
  assert (idle s1) as Hi1 by (eapply run_ops_idle; [|exact Hi|exact Hpre]; by apply Forall_take).
  simpl in Hp. apply bind_Ok_inv in Hp as (s3 & u & Hp & [= <-]).
  destruct (persist_consensus_proposal_updates p _ _ _ Hp) as (_ & _ & [_ He]%(fun H => H Hi1)).
  eapply run_ops_invariant; [intros ????; apply effect_holds_proposal|exact Hrest|].
  unfold holds_proposal. destruct (consensus_proposals (durable s1) !! _) as [q|] eqn:E.
  - destruct He as (? & ? & ? & ->). eauto.
  - rewrite He. simpl. rewrite lookup_insert_eq. eauto.
Qed.

Definition proposal_ops : list StoreOp :=
  [PersistConsensusProposal (mk_PersistedConsensusProposal 7 0 [x01] [x02] [x03]);
   PersistConsensusProposal (mk_PersistedConsensusProposal 7 0 [x01] [x02] [x04]); Reopen [];
   PersistConsensusProposal (mk_PersistedConsensusProposal 7 0 [x01] [x02] [x03])].

Lemma proposal_stored_once_witness :
  (run_ops proposal_ops (fresh_store [])).2.*2 !! 1%nat = Some (Err (ConflictingProposal 7 0)) /\
  holds_proposal 7 0 [x01] [x02] [x03] (durable (run_ops proposal_ops (fresh_store [])).1).
Proof.
  split; [vm_compute; reflexivity|].
  destruct (run_ops proposal_ops (fresh_store [])) as [s' log] eqn:E.
  set (p := mk_PersistedConsensusProposal 7 0 [x01] [x02] [x03]).
  assert (log !! 0%nat = Some (PersistConsensusProposal p, Ok Done)) as H0
    by (transitivity ((run_ops proposal_ops (fresh_store [])).2 !! 0%nat); [by rewrite E|vm_compute; reflexivity]).
  assert (log !! 3%nat = Some (PersistConsensusProposal p, Ok Done)) as H3
    by (transitivity ((run_ops proposal_ops (fresh_store [])).2 !! 3%nat); [by rewrite E|vm_compute; reflexivity]).
  refine (proj2 (proj2 (proj2 (proposal_stored_once _ _ _ _ _ _ _ _ _ _ E H0 H3 eq_refl eq_refl)))).
  - repeat constructor; discriminate.
  - reflexivity.
Defined.

(** ** Reading back *)

(** The fields of a projection are Rust's unsigned integers. *)
Definition typed (b : FinalizedProjection) : Prop :=
  Forall (fun tx => is_u32 (tp_index tx) /\ 0 <= tp_amount_atoms tx /\ 0 <= tp_nonce tx) (fp_transactions b) /\
  Forall (fun a => 0 <= ap_balance_atoms a /\ 0 <= ap_nonce a /\ 0 <= ap_transaction_count a)
    (fp_changed_accounts b) /\
  0 <= fp_height b /\ is_u32 (fp_round b) /\ 0 <= fp_timestamp_ms b.

Lemma transaction_from_row_typed row :
  0 <= tw_block_height row -> is_u32 (tw_index row) -> 0 <= tw_amount_atoms row -> 0 <= tw_nonce row ->
  transaction_from_row row = Ok row.
Proof.
  intros H1 H2 H3 H4. unfold transaction_from_row.
  rewrite (proj2 (from_sql_u64_Ok (tw_block_height row) _)) by done.
  rewrite (proj2 (from_sql_u32_Ok (tw_index row) _)) by done.
  rewrite (proj2 (from_sql_u64_Ok (tw_amount_atoms row) _)) by done.
  rewrite (proj2 (from_sql_u64_Ok (tw_nonce row) _)) by done. by destruct row.
Qed.

Lemma account_from_row_typed row :
  0 <= ap_balance_atoms (aw_account row) -> 0 <= ap_nonce (aw_account row) ->
  0 <= ap_transaction_count (aw_account row) -> account_from_row row = Ok (aw_account row).
Proof.
  intros H1 H2 H3. unfold account_from_row.
  rewrite (proj2 (from_sql_u64_Ok (ap_balance_atoms (aw_account row)) _)) by done.
  rewrite (proj2 (from_sql_u64_Ok (ap_nonce (aw_account row)) _)) by done.
  rewrite (proj2 (from_sql_u64_Ok (ap_transaction_count (aw_account row)) _)) by done.
  by destruct row as [[]].
Qed.

Lemma block_from_row_typed row :
  0 <= br_height row -> is_u32 (br_round row) -> 0 <= br_timestamp_ms row -> 0 <= br_transaction_count row ->
  block_from_row row = Ok row.
Proof.
  intros H1 H2 H3 H4. unfold block_from_row.
  rewrite (proj2 (from_sql_u64_Ok (br_height row) _)) by done.
  rewrite (proj2 (from_sql_u32_Ok (br_round row) _)) by done.
  rewrite (proj2 (from_sql_u64_Ok (br_timestamp_ms row) _)) by done.
  rewrite (proj2 (from_sql_u64_Ok (br_transaction_count row) _)) by done. by destruct row.
Qed.

(** What the explorer reads after a block is finalized is what was projected:
    every transaction, every account, the new block and the tip. *)
Theorem finalized_block_reads_back (b : FinalizedProjection) (db : Database) :
  fits b -> agrees b db -> positions_free b db -> typed b ->
  NoDup (tp_id <$> fp_transactions b) -> NoDup (ap_address <$> fp_changed_accounts b) ->
  let s := (persist_finalized b (settled db)).1 in
  (forall tx, tx ∈ fp_transactions b ->
     (transaction (tp_id tx) s).2 = Ok (Some (projected_transaction (fp_height b) tx))) /\
  (forall a, a ∈ fp_changed_accounts b -> (account (ap_address a) s).2 = Ok (Some a)) /\
  (blocks db !! fp_height b = None -> (block_by_height (fp_height b) s).2 = Ok (Some (projected_block b))) /\
  (metadata_value (str "tip_height") s).2 = Ok (Some (to_string (fp_height b))) /\
  (metadata_value (str "tip_hash") s).2 = Ok (Some (fp_block_hash b)).
Proof.
  intros Hf Ha Hp (Htx & Hac & Hh & Hrd & Hts) Hids Hads s. subst s.
  rewrite (persist_finalized_settled b db Hf Ha Hp).
  split_and!.
  - intros tx Hin. unfold transaction. unfold mbind, stE_bind; simpl. unfold query; simpl. unfold view; simpl.
    rewrite (lookup_insert_all _ _ (tp_id tx) (projected_transaction (fp_height b) tx)); simpl.
    + destruct (proj1 (Forall_forall _ _) Htx tx Hin) as (H1 & H2 & H3).
      by rewrite transaction_from_row_typed.
    + unfold transaction_entries. by rewrite <- list_fmap_compose.
    + unfold transaction_entries. apply list_elem_of_fmap. eauto.
  - intros a Hin. unfold account. unfold mbind, stE_bind; simpl. unfold query; simpl. unfold view; simpl.
    rewrite (lookup_insert_all _ _ (ap_address a) (mk_AccountRow a (fp_height b))); simpl.
    + destruct (proj1 (Forall_forall _ _) Hac a Hin) as (H1 & H2 & H3).
      by rewrite account_from_row_typed.
    + unfold account_entries. by rewrite <- list_fmap_compose.
    + unfold account_entries. apply list_elem_of_fmap. eauto.
  - intros Hn. unfold block_by_height. unfold mbind, stE_bind; simpl. unfold query; simpl. unfold view; simpl.
    rewrite to_sql_u64_fits by apply Hf. simpl.
    rewrite bool_decide_eq_false_2 by (rewrite Hn; by intros [? ?]). rewrite lookup_insert_eq. simpl.
    rewrite block_from_row_typed; simpl; [done..|lia].
  - cbn [fst]. rewrite metadata_value_settled.
    change (metadata (finalized_database b db)) with (insert_all (finalized_metadata b) (metadata db)).
    by rewrite (lookup_insert_all _ _ _ (to_string (fp_height b)) (finalized_metadata_NoDup b)) by set_solver.
  - cbn [fst]. rewrite metadata_value_settled.
    change (metadata (finalized_database b db)) with (insert_all (finalized_metadata b) (metadata db)).
    by rewrite (lookup_insert_all _ _ _ (fp_block_hash b) (finalized_metadata_NoDup b)) by set_solver.
Qed.

Lemma finalized_block_reads_back_witness :
  (account (str "bob") (persist_finalized (sample_block 1 "h1") (settled empty_database)).1).2 =
    Ok (Some (mk_AccountProjection (str "bob") 10 0 None 2)).
Proof.
  refine (proj1 (proj2 (finalized_block_reads_back (sample_block 1 "h1") empty_database _ _ _ _ _ _))
    (mk_AccountProjection (str "bob") 10 0 None 2) _).
  - unfold fits, i64_max; simpl. split_and!; try lia; repeat constructor; simpl; lia.
  - reflexivity.
  - split; [apply (bool_decide_unpack _); vm_compute; exact I | apply map_Forall_empty].
  - unfold typed, in_range, u32_max; simpl. split_and!; try lia; repeat constructor; simpl; lia.
  - apply (bool_decide_unpack _); vm_compute; exact I.
  - apply (bool_decide_unpack _); vm_compute; exact I.
  - apply elem_of_cons; right; apply list_elem_of_singleton; reflexivity.
Defined.

(** A page of the explorer: [list_blocks] answers the highest blocks below the
    cursor, newest first, at most [limit] of them (clamped to 1..101), and
    leaves out only blocks older than all of the page. *)
Theorem list_blocks_pages (before : option Z) (n : Z) (db : Database) rows :
  map_Forall (fun h row => br_height row = h) (blocks db) ->
  (list_blocks before n (settled db)).2 = Ok rows ->
  StronglySorted (fun a b => br_height b < br_height a) rows /\
  Z.of_nat (length rows) <= clamp 1 101 n /\
  (forall row, row ∈ rows -> blocks db !! br_height row = Some row /\ is_before before row) /\
  (forall h row, blocks db !! h = Some row -> is_before before row ->
     row ∈ rows \/ (Z.of_nat (length rows) = clamp 1 101 n /\ forall r, r ∈ rows -> h < br_height r)).
Proof.
  intros Hk Hr. unfold list_blocks in Hr. unfold mbind, stE_bind in Hr; simpl in Hr.
  unfold query in Hr; simpl in Hr. unfold view in Hr; simpl in Hr.
  apply map_err_Ok_inv, result_bind_Ok_inv in Hr as (before' & Hb & Hr).
  assert (before' = before) as ->.
  { destruct before; simpl in Hb; [|by injection Hb].
    apply result_bind_Ok_inv in Hb as (? & [-> _]%to_sql_u64_Ok & [= <-]). done. }
  apply try_collect_identity in Hr; [|exact block_from_row_same]. subst rows. unfold limit.
  set (k := Z.to_nat (clamp 1 101 n)). assert (Z.of_nat k = clamp 1 101 n) as Hkn by (unfold k, clamp; lia).
  assert (StronglySorted (fun a b => br_height b < br_height a)
            (filter (is_before before) (reverse (blocks_ascending db)))) as Hs.
  { eapply StronglySorted_sublist; [|apply sublist_filter].
    exact (StronglySorted_reverse _ _ (btree_values_sorted br_height _ Hk)). }
  split_and!.
  - eapply StronglySorted_sublist; [exact Hs|]. apply sublist_take.
  - rewrite length_take. lia.
  - intros row Hin. apply elem_of_take in Hin as (i & Hin & _). apply list_elem_of_lookup_2 in Hin.
    apply list_elem_of_filter in Hin as [Hbe Hin]. split; [|done].
    rewrite elem_of_reverse in Hin. apply (elem_of_btree_values Z.leb) in Hin as [h Hh].
    by rewrite (Hk h row Hh).
  - intros h row Hh Hbe.
    assert (row ∈ filter (is_before before) (reverse (blocks_ascending db))) as Hin.
    { apply list_elem_of_filter. split; [done|]. rewrite elem_of_reverse.
      apply (elem_of_btree_values Z.leb). eauto. }
    destruct (take_sorted_complete _ k _ row Hs Hin) as [Ht|[Hl Ht]]; [by left|right].
    split; [lia|]. intros r Hr. specialize (Ht r Hr). by rewrite (Hk h row Hh) in Ht.
Qed.

Definition two_blocks : Database :=
  finalized_database (sample_block 2 "h2") (finalized_database (sample_block 1 "h1") empty_database).

Lemma list_blocks_pages_witness :
  (list_blocks (Some 2) 0 (settled two_blocks)).2 = Ok [projected_block (sample_block 1 "h1")] /\
  StronglySorted (fun a b => br_height b < br_height a) [projected_block (sample_block 1 "h1")].
Proof.
  assert ((list_blocks (Some 2) 0 (settled two_blocks)).2 = Ok [projected_block (sample_block 1 "h1")]) as E
    by (vm_compute; reflexivity).
  split; [exact E|]. refine (proj1 (list_blocks_pages (Some 2) 0 two_blocks _ _ E)).
  apply (bool_decide_unpack _). vm_compute. exact I.
Defined.
