(* ===== verification/NodeTypes.v ===== *)
(** * The node's messages and pure helpers

    The configuration of [crates/kcoin-node/src/config.rs], the
    request and response types of [network.rs], and from [runtime.rs] the wire
    types, the checks of synchronization responses, the signer slot, the choice
    of a peer, and the embedding of the ledger into the consensus engine
    ([NodeMessageValidator]). *)

From S2P Require Import Prelude Errors Crypto Transaction Block Commit Ledger ConsensusTypes Engine Sqlite Store.

(** ** Third-party crates *)

(** [libp2p::PeerId]. *)
Class Libp2p : Type := {
  PeerId : Type;
  PeerId_eq_dec :: EqDecision PeerId;
  PeerId_countable :: Countable PeerId;
  peer_to_bytes : PeerId -> bytes
}.

(** [hex::encode]. *)
Class Hex : Type := hex_encode : bytes -> ustring.
Class HexLaws `{Hex} : Prop := hex_encode_inj : forall a b, hex_encode a = hex_encode b -> a = b.

(** [serde_json::to_vec] and [from_slice] of a type's derived instances. *)
Class SerdeJson (T : Type) : Type := {
  json_to_vec : T -> option bytes;
  json_from_slice : bytes -> option T
}.
Class SerdeJsonLaws (T : Type) `{SerdeJson T} : Prop :=
  json_from_to : forall (x : T) b, json_to_vec x = Some b -> json_from_slice b = Some x.

(** [ed25519_dalek::SigningKey::from_bytes]. *)
Class SigningKeyBytes `{Ed25519} : Type := signing_key_from_bytes : array 32 -> SigningKey.

(** ** Errors

    [anyhow::Error]: the source of an error under its contexts; the values
    formatted into a message are dropped. *)
Inductive AnyError : Type :=
| Bail (message : string)
| StoreFailed (e : StorageError)
| ProtocolFailed (e : ValidationError)
| ConsensusFailed (e : ConsensusError)
| ValidatorSetFailed (e : ValidatorSetError)
| MessageInvalid (e : EngineValidationError)
| CertificateInvalid (e : ProtocolCertificateError)
| SigningFailed (e : SigningBytesError)
| JsonFailed
| NetworkFailed
| IoFailed
| BudgetExhausted
| WithContext (message : string) (e : AnyError).

(** [.context(message)] of a [Result] and of an [Option]. *)
Definition with_context {A} (message : string) (m : result AnyError A) : result AnyError A :=
  map_err (WithContext message) m.
Definition some_context {A} (o : option A) (message : string) : result AnyError A :=
  ok_or o (Bail message).

(** ** Configuration *)

Inductive NodeRole : Type := RoleValidator | RoleObserver | RoleStandalone.
#[export] Instance NodeRole_eq_dec : EqDecision NodeRole.
Proof. solve_decision. Defined.

(** [std::net::SocketAddr]. *)
Inductive IpAddr : Type := IpV4 (bits : Z) | IpV6 (bits : Z).
Record SocketAddr : Type := mk_SocketAddr { sock_ip : IpAddr; sock_port : Z }.

(** [std::path::PathBuf] by its components, a leading root directory apart. *)
Record Path : Type := mk_Path { path_root : bool; path_components : list ustring }.
#[export] Instance Path_eq_dec : EqDecision Path.
Proof. solve_decision. Defined.

Record NodeConfig : Type := mk_NodeConfig {
  cfg_node_chain_id : ustring;
  cfg_role : NodeRole;
  cfg_validator_index : option Z;
  cfg_api_addr : SocketAddr;
  cfg_p2p_port : Z;
  cfg_db_path : Path;
  cfg_peers : list ustring;
  cfg_heartbeat_ms : Z;
  cfg_demo : bool
}.

(** ** Messages *)

Definition MAX_SYNC_RESPONSE_BYTES : Z := 8 * 1024 * 1024.

Inductive SyncRequest : Type :=
| SyncStatus
| SyncBlocks (from_height limit : Z).

Definition OutboundSyncRequestId : Type := Z.

Inductive SyncResponse : Type :=
| StatusResponse (height : Z) (block_hash state_root : ustring) (syncing : bool)
    (finalized_tip : option bytes)
| BlocksResponse (records : list bytes)
| ErrorResponse (code message : ustring).

Record FinalizedWireRecord : Type := mk_FinalizedWireRecord {
  fw_block : Block;
  fw_certificate : CommitCertificate
}.

Inductive ConsensusWireMessage : Type :=
| WireProposal (signed : SignedProposal) (block : Block)
| WireVote (signed : SignedVote).

Record ValidatorStatusMessage : Type := mk_ValidatorStatusMessage {
  vs_chain_id : ustring;
  vs_validator : ValidatorId;
  vs_index : Z;
  vs_height : Z;
  vs_round : Z;
  vs_phase : ustring;
  vs_block_hash : array 32;
  vs_state_root : array 32;
  vs_syncing : bool;
  vs_sync_target : option Z;
  vs_timestamp_ms : Z
}.

Record SignedValidatorStatus : Type := mk_SignedValidatorStatus {
  svs_status : ValidatorStatusMessage;
  svs_signature : bytes
}.

(** ** Slots and messages of the signer *)

Definition vote_kind_name (kind : VoteKind) : ustring :=
  match kind with Prevote => str "prevote" | Precommit => str "precommit" end.

(** [format!("{}/{}/{}", height, round, kind)]. *)
Definition slot_text (height round : Z) (kind : ustring) : ustring :=
  to_string height ++ 47 :: to_string round ++ 47 :: kind.

Definition signer_slot (message : SignableMessage) : ustring :=
  match message with
  | SignableProposal p => slot_text (p_height p) (p_round p) (str "proposal")
  | SignableVote v => slot_text (v_height v) (v_round v) (vote_kind_name (v_kind v))
  end.

Definition signed_message (message : SignableMessage) (signature : bytes) : SignedMessage :=
  match message with
  | SignableProposal proposal => SignedMessageProposal (mk_SignedProposal proposal signature)
  | SignableVote vote => SignedMessageVote (mk_SignedVote vote signature)
  end.

(** [(height - 1) % n + round % n], modulo [n]. *)
Definition expected_protocol_proposer (validators : list ValidatorId) (height round : Z) : option ValidatorId :=
  if bool_decide (validators = []) || (height =? 0) then None
  else
    let n := Z.of_nat (length validators) in
    let height_offset := saturating_sub height 1 mod n in
    let round_offset := round mod n in
    validators !! Z.to_nat ((height_offset + round_offset) mod n).

Definition phase_name (p : Phase) : ustring :=
  match p with
  | PhasePropose => str "proposal"
  | PhasePrevote => str "prevote"
  | PhasePrecommit => str "precommit"
  | PhaseFinalized => str "finalized"
  end.

(** [b"KCOIN_STATUS_V1\0"]. *)
Definition STATUS_SIGNATURE_PREFIX : bytes := String.list_byte_of_string "KCOIN_STATUS_V1" ++ [x00].

Definition validator_status_signing_bytes `{!Borsh ValidatorStatusMessage} (status : ValidatorStatusMessage) :
    bytes := STATUS_SIGNATURE_PREFIX ++ to_vec status.

(** U+2212 and U+00D7. *)
Definition operation_symbol (operation : ChallengeOperation) : ustring :=
  match operation with
  | Add => [43]
  | Subtract => [0x2212]
  | Multiply => [0xD7]
  end.

Definition LOCAL_VALIDATOR_KEY_DOMAIN : string := "kcoin.dev/v1/local-validator-key".

Definition deterministic_dev_validator_keys `{Blake3, SigningKeyBytes} : list SigningKey :=
  (fun index => signing_key_from_bytes (Crypto.finalize (update (new_derive_key LOCAL_VALIDATOR_KEY_DOMAIN)
                                          [byte_of_Z index]))) <$> [1; 2; 3; 4].

(** ** Synchronization *)

Section sync.
Context `{Libp2p}.

Record OutboundSyncIntent : Type := mk_OutboundSyncIntent {
  si_request_id : OutboundSyncRequestId;
  si_peer : PeerId;
  si_request : SyncRequest
}.

(** [min_by_key]: the first element of least key. *)
Fixpoint min_by_bytes (l : list PeerId) : option PeerId :=
  match l with
  | [] => None
  | p :: l =>
      match min_by_bytes l with
      | Some q => match bytes_compare (peer_to_bytes p) (peer_to_bytes q) with Gt => Some q | _ => Some p end
      | None => Some p
      end
  end.

Definition choose_sync_retry_peer (peers : gset PeerId) (failed_peer : PeerId) : option PeerId :=
  match min_by_bytes (filter (fun peer => peer <> failed_peer) (elements peers)) with
  | Some peer => Some peer
  | None => if bool_decide (failed_peer ∈ peers) then Some failed_peer else None
  end.

Definition validate_sync_response_intent (responding_peer : PeerId) (intent : OutboundSyncIntent)
    (response : SyncResponse) (active_request_id : option OutboundSyncRequestId)
    (sync_peer : option PeerId) (syncing : bool) (local_height : Z) : result AnyError () :=
  if bool_decide (responding_peer <> si_peer intent)
  then Err (Bail "sync response peer did not match requested peer")
  else
  match si_request intent with
  | SyncStatus =>
      match response with
      | StatusResponse _ _ _ _ _ | ErrorResponse _ _ => Ok ()
      | BlocksResponse _ => Err (Bail "status request received a blocks response")
      end
  | SyncBlocks from_height limit =>
      if negb syncing then Err (Bail "blocks response arrived while the node was not syncing")
      else if bool_decide (active_request_id <> Some (si_request_id intent))
      then Err (Bail "blocks response did not match the active outbound request")
      else if bool_decide (sync_peer <> Some responding_peer)
      then Err (Bail "blocks response came from a peer that is no longer selected")
      else
        expected_height ← some_context (checked_add u64_max local_height 1) "local height cannot advance";
        if negb (from_height =? expected_height)
        then Err (Bail "blocks response intent does not start at the current range")
        else if limit =? 0 then Err (Bail "blocks response intent had a zero-sized range")
        else
        match response with
        | BlocksResponse records =>
            if Z.of_nat (length records) <=? limit then Ok ()
            else Err (Bail "blocks response contained too many records")
        | ErrorResponse _ _ => Ok ()
        | StatusResponse _ _ _ _ _ => Err (Bail "blocks request received a status response")
        end
  end.
End sync.

(** The [for (offset, record)] loop. *)
Fixpoint validate_sync_batch_from (first_expected offset : Z) (records : list FinalizedWireRecord) :
    result AnyError () :=
  match records with
  | [] => Ok ()
  | record :: records =>
      expected ← some_context (checked_add u64_max first_expected offset) "sync range height overflow";
      if negb (bh_height (header (fw_block record)) =? expected)
      then Err (Bail "sync range expected another height")
      else validate_sync_batch_from first_expected (offset + 1) records
  end.

Definition validate_sync_batch_sequence (records : list FinalizedWireRecord) (local_height : Z) :
    result AnyError () :=
  first_expected ← some_context (checked_add u64_max local_height 1) "local height cannot advance";
  validate_sync_batch_from first_expected 0 records.

(** ** The ledger behind the consensus engine *)

Section validator.
Context `{Blake3, Ed25519, !Borsh UnsignedTransaction, !Borsh SignedTransaction,
          !Borsh BlockHeader, !Borsh Block, !Borsh StateCommitment,
          !Borsh CommitVote, !Borsh CommitCertificate, !Borsh SignableMessage}.

Record NodeMessageValidator : Type := mk_NodeMessageValidator {
  nmv_ledger : LedgerState;
  nmv_blocks : gmap BlockId Block;
  nmv_validators : list ValidatorId
}.

Definition nmv_validate_proposal (self : NodeMessageValidator) (proposal : SignedProposal) :
    result EngineValidationError () :=
  _ ← verify_ed25519_proposal proposal;
  let p := sp_proposal proposal in
  block ← ok_or (nmv_blocks self !! p_block_id p) EngineInvalidProposal;
  if bool_decide (block_id_from_hash (consensus_hash block) <> p_block_id p) ||
     negb (bh_height (header block) =? p_height p) ||
     (p_round p <? bh_round (header block)) ||
     bool_decide (expected_protocol_proposer (nmv_validators self) (bh_height (header block))
                    (bh_round (header block)) <> Some (bh_proposer (header block)))
  then Err EngineInvalidProposal
  else
    let '(_, applied) := apply_block block (nmv_ledger self) in
    _ ← map_err (fun _ => EngineOther) applied;
    Ok ().

Definition nmv_validate_vote (self : NodeMessageValidator) (vote : SignedVote) :
    result EngineValidationError () := verify_ed25519_vote vote.

Definition nmv_validate_certificate (self : NodeMessageValidator) (certificate : ConsensusCertificate) :
    result EngineValidationError () :=
  block ← ok_or (nmv_blocks self !! c_block_id certificate) EngineInvalidCertificate;
  protocol ← map_err (fun _ => EngineOther) (to_protocol certificate);
  map_err (fun _ => EngineOther) (verify_for_block protocol block (nmv_validators self)).

(** [impl MessageValidator for NodeMessageValidator]. *)
Definition node_message_validator (self : NodeMessageValidator) : MessageValidator := {|
  mv_validate_proposal := nmv_validate_proposal self;
  mv_validate_vote := nmv_validate_vote self;
  mv_validate_certificate := nmv_validate_certificate self
|}.
End validator.
