(* ===== verification/Config.v ===== *)
(** * The node's configuration

    [crates/kcoin-node/src/config.rs]: the roles and their names, the command
    line's arguments, and the checked conversion [NodeConfig::try_from].  [clap]
    parses the arguments; the file system answers through [Filesystem]. *)

From S2P Require Import Prelude Errors Crypto Transaction Sqlite Store NodeTypes.

(** ** Roles *)

(** [str::to_ascii_lowercase]. *)
Definition ascii_lowercase (c : Z) : Z := if (65 <=? c) && (c <=? 90) then c + 32 else c.
Definition to_ascii_lowercase (s : ustring) : ustring := ascii_lowercase <$> s.

Definition role_from_str (value : ustring) : result AnyError NodeRole :=
  let lower := to_ascii_lowercase value in
  if bool_decide (lower = str "validator") then Ok RoleValidator
  else if bool_decide (lower = str "observer") then Ok RoleObserver
  else if bool_decide (lower = str "standalone") then Ok RoleStandalone
  else Err (Bail "role must be validator, observer, or standalone").

(** [#[serde(rename_all = "camelCase")]]. *)
Definition role_name (role : NodeRole) : ustring :=
  match role with
  | RoleValidator => str "validator"
  | RoleObserver => str "observer"
  | RoleStandalone => str "standalone"
  end.

(** ** Paths and the file system *)

(** [Path::parent]. *)
Definition parent (p : Path) : option Path :=
  match path_components p with
  | [] => None
  | components => Some (mk_Path (path_root p) (removelast components))
  end.

(** [as_os_str().is_empty()]. *)
Definition path_is_empty (p : Path) : bool := negb (path_root p) && bool_decide (path_components p = []).

(** [Path::new(".")]. *)
Definition current_dir : Path := mk_Path false [str "."].

(** What the file system answers: the canonical form of a path that exists, and
    whether a directory and its parents can be made. *)
Record Filesystem : Type := mk_Filesystem {
  fs_canonicalize : Path -> option Path;
  fs_create_dir_all : Path -> bool
}.

(** [std::fs::create_dir_all]: the empty path needs nothing. *)
Definition create_dir_all (fs : Filesystem) (p : Path) : result AnyError () :=
  if path_is_empty p || fs_create_dir_all fs p then Ok () else Err IoFailed.

(** ** Arguments and configuration *)

Record NodeArgs : Type := mk_NodeArgs {
  arg_chain_id : ustring;
  arg_role : NodeRole;
  arg_validator_index : option Z;
  arg_api_addr : SocketAddr;
  arg_p2p_port : Z;
  arg_db_path : Path;
  arg_peers : list ustring;
  arg_heartbeat_ms : Z;
  arg_demo : bool
}.

(** The [default_value]s of the arguments. *)
Definition default_args : NodeArgs :=
  mk_NodeArgs (str "kcoin-local-1") RoleStandalone None (mk_SocketAddr (IpV4 0x7F000001) 4100) 5100
    (mk_Path false [str ".kcoin"; str "node.db"]) [] 5000 false.

Definition MAX_CONFIG_CHAIN_ID : Z := 50.
Definition MIN_HEARTBEAT_MS : Z := 250.
Definition LOCAL_VALIDATORS : Z := 4.

(** The database path: canonical when it exists, else with its directory made. *)
Definition prepare_db_path (fs : Filesystem) (db_path : Path) : result AnyError Path :=
  match fs_canonicalize fs db_path with
  | Some canonical => Ok canonical
  | None =>
      _ ← create_dir_all fs (default current_dir (parent db_path));
      Ok db_path
  end.

Definition node_config_try_from (fs : Filesystem) (args : NodeArgs) : result AnyError NodeConfig :=
  if bool_decide (arg_chain_id args = []) || (MAX_CONFIG_CHAIN_ID <? Z.of_nat (length (utf8 (arg_chain_id args))))
  then Err (Bail "chain id must be between 1 and 50 characters")
  else if bool_decide (arg_role args = RoleValidator) && bool_decide (arg_validator_index args = None)
  then Err (Bail "validator nodes require --validator-index")
  else if match arg_validator_index args with
          | Some index => (LOCAL_VALIDATORS <=? index) && bool_decide (arg_chain_id args = str "kcoin-local-1")
          | None => false
          end
  then Err (Bail "the default local network has validator indices 0 through 3")
  else
  db_path ← with_context "prepare database path" (prepare_db_path fs (arg_db_path args));
  Ok (mk_NodeConfig (arg_chain_id args) (arg_role args) (arg_validator_index args) (arg_api_addr args)
        (arg_p2p_port args) db_path (arg_peers args) (Z.max (arg_heartbeat_ms args) MIN_HEARTBEAT_MS)
        (arg_demo args)).

(** ** Facts *)

Lemma ascii_lowercase_idemp c : ascii_lowercase (ascii_lowercase c) = ascii_lowercase c.
Proof. unfold ascii_lowercase. destruct (Z.leb_spec 65 c), (Z.leb_spec c 90); simpl; repeat case_match; lia. Qed.

(** The three names in any case, and nothing else. *)
Lemma role_from_str_Ok value role :
  role_from_str value = Ok role <-> to_ascii_lowercase value = role_name role.
Proof.
  unfold role_from_str. repeat case_bool_decide; split; try (intros [= <-]; done).
  all: intros Hv; rewrite Hv in *; destruct role; done.
Qed.

(** Round trip of the names. *)
Lemma role_round_trip role : role_from_str (role_name role) = Ok role.
Proof. by destruct role. Qed.

Lemma prepare_db_path_Ok fs p p' :
  prepare_db_path fs p = Ok p' -> fs_canonicalize fs p = Some p' \/ fs_canonicalize fs p = None /\ p' = p.
Proof.
  unfold prepare_db_path. destruct (fs_canonicalize fs p); [by intros [= ->]; left|].
  intros ([] & _ & [= <-])%result_bind_Ok_inv. by right.
Qed.

(** What an accepted configuration guarantees. *)
Lemma node_config_try_from_Ok fs args config :
  node_config_try_from fs args = Ok config ->
  arg_chain_id args <> [] /\ Z.of_nat (length (utf8 (arg_chain_id args))) <= MAX_CONFIG_CHAIN_ID /\
  (arg_role args = RoleValidator -> is_Some (arg_validator_index args)) /\
  (arg_chain_id args = str "kcoin-local-1" -> forall i, arg_validator_index args = Some i -> i < LOCAL_VALIDATORS) /\
  exists db_path, prepare_db_path fs (arg_db_path args) = Ok db_path /\
    config = mk_NodeConfig (arg_chain_id args) (arg_role args) (arg_validator_index args) (arg_api_addr args)
               (arg_p2p_port args) db_path (arg_peers args) (Z.max (arg_heartbeat_ms args) MIN_HEARTBEAT_MS)
               (arg_demo args).
Proof.
  unfold node_config_try_from. destruct (_ || _) eqn:E1; [done|]. destruct (_ && _) eqn:E2; [done|].
  destruct (match arg_validator_index args with Some _ => _ | None => _ end) eqn:E3; [done|].
  intros (db_path & Hp%map_err_Ok_inv & [= <-])%result_bind_Ok_inv.
  apply orb_false_iff in E1 as [Hne%bool_decide_eq_false Hlen%Z.ltb_ge]. split_and!; try done.
  - intros Hr. rewrite Hr in E2. apply andb_false_iff in E2 as [|E2%bool_decide_eq_false]; [done|].
    destruct (arg_validator_index args); [by eexists|done].
  - intros Hc i Hi. rewrite Hi in E3. rewrite Hc in E3. apply andb_false_iff in E3 as [?%Z.leb_gt|]; [done|].
    by rewrite bool_decide_eq_true_2 in *.
  - eauto.
Qed.
