(* ===== verification/Schema.v ===== *)
(** * Opening the node's database

    [crates/kcoin-node/src/storage.rs]: [SCHEMA], [Store::open] and
    [Store::from_connection].  A database file has the tables and columns it was
    created with; opening it creates the tables it lacks and adds the columns
    that later versions of the program introduced.  Every statement commits by
    itself, so an opening can stop between any two of them. *)

From S2P Require Import Prelude Errors Crypto Transaction Sqlite Store StoreFacts NodeTypes Config.

(** ** Files *)

(** The tables with their columns, the indices, and the rows.  What
    [file_rows] holds for a column its table does not have is not part of the
    file. *)
Record DiskFile : Type := mk_DiskFile {
  file_tables : gmap string (list string);
  file_indexes : gset string;
  file_rows : Database
}.

Definition new_file : DiskFile := mk_DiskFile ∅ ∅ empty_database.

Definition table_info (table : string) (f : DiskFile) : list string := default [] (file_tables f !! table).
Definition has_table (table : string) (f : DiskFile) : bool := bool_decide (is_Some (file_tables f !! table)).
Definition has_column (table column : string) (f : DiskFile) : bool :=
  bool_decide (column ∈ table_info table f).

(** ** The schema *)

Inductive SqlStatement : Type :=
| CreateTable (table : string) (columns : list string)
| CreateIndex (index table : string) (columns : list string).

Definition SCHEMA : list SqlStatement := [
  CreateTable "blocks" ["height"; "block_hash"; "parent_hash"; "state_root"; "proposer"; "round";
                        "timestamp_ms"; "transaction_count"; "block_bytes"; "certificate_bytes"];
  CreateTable "transactions" ["id"; "block_height"; "tx_index"; "kind"; "sender"; "recipient";
                              "amount_atoms"; "nonce"];
  CreateIndex "transactions_sender_idx" "transactions" ["sender"; "block_height"];
  CreateIndex "transactions_recipient_idx" "transactions" ["recipient"; "block_height"];
  CreateTable "accounts" ["address"; "balance_atoms"; "nonce"; "display_name"; "transaction_count"; "last_height"];
  CreateIndex "accounts_balance_idx" "accounts" ["balance_atoms"; "address"];
  CreateTable "metadata" ["key"; "value"];
  CreateTable "consensus_wal" ["sequence"; "kind"; "bytes"; "checksum"];
  CreateTable "signer_state" ["slot"; "sign_bytes"; "signature"; "safety_state"; "signed_message"];
  CreateTable "consensus_safety" ["singleton"; "height"; "safety_state"];
  CreateTable "consensus_proposals" ["height"; "round"; "block_id"; "block_bytes"; "signed_proposal"]
].

(** The rows without those of one table. *)
Definition clear_table (table : string) (db : Database) : Database :=
  mk_Database
    (if bool_decide (table = "blocks") then ∅ else blocks db)
    (if bool_decide (table = "transactions") then ∅ else transactions db)
    (if bool_decide (table = "accounts") then ∅ else accounts db)
    (if bool_decide (table = "metadata") then ∅ else metadata db)
    (if bool_decide (table = "consensus_wal") then [] else consensus_wal db)
    (if bool_decide (table = "signer_state") then [] else signer_state db)
    (if bool_decide (table = "consensus_safety") then None else consensus_safety db)
    (if bool_decide (table = "consensus_proposals") then ∅ else consensus_proposals db).

(** [CREATE TABLE IF NOT EXISTS]: a new table is empty. *)
Definition create_table (table : string) (columns : list string) (f : DiskFile) :
    result SqliteError (DiskFile * ()) :=
  if has_table table f then Ok (f, ())
  else Ok (mk_DiskFile (<[table := columns]> (file_tables f)) (file_indexes f) (clear_table table (file_rows f)), ()).

(** [CREATE INDEX IF NOT EXISTS] fails on a column its table does not have. *)
Definition create_index (index table : string) (columns : list string) (f : DiskFile) :
    result SqliteError (DiskFile * ()) :=
  if bool_decide (index ∈ file_indexes f) then Ok (f, ())
  else if forallb (fun column => has_column table column f) columns
  then Ok (mk_DiskFile (file_tables f) ({[index]} ∪ file_indexes f) (file_rows f), ())
  else Err (SqliteFailure SQLITE_ERROR).

Definition run_statement (statement : SqlStatement) : DiskFile -> result SqliteError (DiskFile * ()) :=
  match statement with
  | CreateTable table columns => create_table table columns
  | CreateIndex index table columns => create_index index table columns
  end.

(** [execute_batch]: the statements in turn, up to the first that fails. *)
Fixpoint execute_batch (statements : list SqlStatement) : stE (Sqlite.Store DiskFile) StorageError () :=
  match statements with
  | [] => mret ()
  | statement :: statements => _ ← execute (run_statement statement); execute_batch statements
  end.

(** ** Added columns *)

(** [ALTER TABLE .. ADD COLUMN .. DEFAULT ..]: [fill] gives every row the
    default; a table that is missing or has the column is an error. *)
Definition add_column (table column : string) (fill : Database -> Database) (f : DiskFile) :
    result SqliteError (DiskFile * ()) :=
  match file_tables f !! table with
  | Some columns =>
      if bool_decide (column ∈ columns) then Err (SqliteFailure SQLITE_ERROR)
      else Ok (mk_DiskFile (<[table := columns ++ [column]]> (file_tables f)) (file_indexes f)
                 (fill (file_rows f)), ())
  | None => Err (SqliteFailure SQLITE_ERROR)
  end.

(** [DEFAULT X''] and [DEFAULT 0]. *)
Definition default_safety_state (d : PersistedConsensusDecision) : PersistedConsensusDecision :=
  mk_PersistedConsensusDecision (pd_slot d) (pd_sign_bytes d) (pd_signature d) [] (pd_signed_message d).
Definition default_signed_message (d : PersistedConsensusDecision) : PersistedConsensusDecision :=
  mk_PersistedConsensusDecision (pd_slot d) (pd_sign_bytes d) (pd_signature d) (pd_safety_state d) [].
Definition default_height (row : Z * bytes) : Z * bytes := (0, row.2).

(** [PRAGMA table_info], then the column if it is not listed. *)
Definition ensure_column (table column : string) (fill : Database -> Database) :
    stE (Sqlite.Store DiskFile) StorageError () :=
  columns ← query (fun f => Ok (table_info table f));
  if bool_decide (column ∈ columns) then mret () else execute (add_column table column fill).

(** ** [Store::from_connection] *)

(** [pragma_update] of a setting of the connection. *)
Definition pragma : stE (Sqlite.Store DiskFile) StorageError () := query (fun _ => Ok ()).

(** [journal_mode], [synchronous], [foreign_keys] and the busy timeout, the
    schema, the columns. *)
Definition from_connection : stE (Sqlite.Store DiskFile) StorageError () :=
  _ ← pragma; _ ← pragma; _ ← pragma; _ ← pragma;
  _ ← execute_batch SCHEMA;
  _ ← ensure_column "signer_state" "safety_state" (set_signer_state (fmap default_safety_state));
  _ ← ensure_column "signer_state" "signed_message" (set_signer_state (fmap default_signed_message));
  ensure_column "consensus_safety" "height" (set_consensus_safety (fmap default_height)).

(** The store of a connection: its statements name the schema's columns. *)
Definition attach (s : Sqlite.Store DiskFile) : Sqlite.Store Database :=
  mk_Store (poisoned s) (faults s) (file_rows (durable s)) None.

(** A connection to [f] whose statements meet [faults]; [refused] is the answer
    of [Connection::open]. *)
Definition connect (refused : option SqliteError) (faults : list (option SqliteError)) (f : DiskFile) :
    DiskFile * result StorageError (Sqlite.Store Database) :=
  match refused with
  | Some e => (f, Err (Sqlite e))
  | None =>
      let '(s, outcome) := from_connection (mk_Store false faults f None) in
      (durable s, _ ← outcome; Ok (attach s))
  end.

(** [Store::open]: what the file holds afterwards, and the store. *)
Definition open (fs : Filesystem) (refused : option SqliteError) (faults : list (option SqliteError))
    (path : Path) (f : DiskFile) : DiskFile * result StorageError (Sqlite.Store Database) :=
  match
    match parent path with
    | Some parent => if path_is_empty parent then Ok () else map_err (fun _ => Poisoned) (create_dir_all fs parent)
    | None => Ok ()
    end
  with
  | Ok _ => connect refused faults f
  | Err e => (f, Err e)
  end.

Definition in_memory (refused : option SqliteError) (faults : list (option SqliteError)) :
    DiskFile * result StorageError (Sqlite.Store Database) := connect refused faults new_file.

(** ** What a file stands for

    The rows the current version of the program finds in a file once it is
    upgraded: none in a table the file lacks, the defaults in added columns. *)

Section meaning.
Context (f : DiskFile).

Definition stored {A} (table : string) (rows none : A) : A := if has_table table f then rows else none.

Definition filled {A} (table column : string) (fill : A -> A) (row : A) : A :=
  if has_column table column f then row else fill row.

Definition upgraded : Database :=
  let db := file_rows f in
  mk_Database
    (stored "blocks" (blocks db) ∅) (stored "transactions" (transactions db) ∅)
    (stored "accounts" (accounts db) ∅) (stored "metadata" (metadata db) ∅)
    (stored "consensus_wal" (consensus_wal db) [])
    (stored "signer_state"
       ((fun d => filled "signer_state" "signed_message" default_signed_message
                    (filled "signer_state" "safety_state" default_safety_state d)) <$> signer_state db) [])
    (stored "consensus_safety"
       (filled "consensus_safety" "height" default_height <$> consensus_safety db) None)
    (stored "consensus_proposals" (consensus_proposals db) ∅).

(** Columns that versions of the program added. *)
Definition added_columns : list (string * string) :=
  [("signer_state", "safety_state"); ("signer_state", "signed_message"); ("consensus_safety", "height")].

Definition statement_columns (table : string) (statement : SqlStatement) : option (list string) :=
  match statement with
  | CreateTable table' columns => if bool_decide (table' = table) then Some columns else None
  | CreateIndex _ _ _ => None
  end.
Definition schema_columns (table : string) : list string :=
  default [] (head (omap (statement_columns table) SCHEMA)).

(** A file of this or an earlier version: its tables lack no other columns. *)
Definition supported : Prop :=
  forall table column, has_table table f = true -> column ∈ schema_columns table ->
    has_column table column f = true \/ (table, column) ∈ added_columns.

(** A file with everything the statements of the store name. *)
Definition complete : Prop :=
  forall table, schema_columns table <> [] ->
    has_table table f = true /\ forall column, column ∈ schema_columns table -> has_column table column f = true.
End meaning.

(** What opening may do to a file. *)
Record upgrades (f f' : DiskFile) : Prop := {
  upgrades_rows : upgraded f' = upgraded f;
  upgrades_tables table : has_table table f = true -> has_table table f' = true;
  upgrades_columns table column : has_column table column f = true -> has_column table column f' = true;
  upgrades_supported : supported f -> supported f'
}.

#[export] Instance upgrades_preorder : PreOrder upgrades.
Proof.
  split; [by split|]. intros f1 f2 f3 [R1 T1 C1 S1] [R2 T2 C2 S2]. split; [by etrans|auto..].
Qed.

(** ** Each statement upgrades *)

Lemma has_column_table table column f : has_column table column f = true -> has_table table f = true.
Proof.
  unfold has_column, has_table, table_info. rewrite !bool_decide_eq_true.
  destruct (file_tables f !! table); [by eexists|set_solver].
Qed.

Lemma table_info_insert table table' columns f indexes rows :
  table_info table (mk_DiskFile (<[table' := columns]> (file_tables f)) indexes rows) =
  if bool_decide (table = table') then columns else table_info table f.
Proof.
  unfold table_info. simpl. case_bool_decide as E; [subst; by rewrite lookup_insert_eq|by rewrite lookup_insert_ne].
Qed.

Lemma has_table_insert table table' columns f indexes rows :
  has_table table (mk_DiskFile (<[table' := columns]> (file_tables f)) indexes rows) =
  bool_decide (table = table') || has_table table f.
Proof.
  unfold has_table. simpl. destruct (decide (table = table')) as [->|Hne].
  - rewrite lookup_insert_eq. by rewrite !bool_decide_eq_true_2 by (done || by eexists).
  - by rewrite lookup_insert_ne, (bool_decide_eq_false_2 (table = table')).
Qed.

Lemma has_column_insert table table' column columns f indexes rows :
  has_column table column (mk_DiskFile (<[table' := columns]> (file_tables f)) indexes rows) =
  if bool_decide (table = table') then bool_decide (column ∈ columns) else has_column table column f.
Proof. unfold has_column. rewrite table_info_insert. by destruct (bool_decide (table = table')). Qed.

Lemma stored_clear {A} f table table' columns indexes db (x e : A) :
  has_table table' f = false ->
  stored (mk_DiskFile (<[table' := columns]> (file_tables f)) indexes db) table
    (if bool_decide (table' = table) then e else x) e = stored f table x e.
Proof.
  intros Hn. unfold stored. rewrite has_table_insert.
  destruct (decide (table = table')) as [->|Hne].
  - by rewrite !bool_decide_eq_true_2, Hn by done.
  - by rewrite !bool_decide_eq_false_2 by congruence.
Qed.

(** A list table maps its rows, an absent one has none. *)
Lemma upgraded_create table columns f :
  has_table table f = false ->
  upgraded (mk_DiskFile (<[table := columns]> (file_tables f)) (file_indexes f) (clear_table table (file_rows f))) =
  upgraded f.
Proof.
  intros Hn. unfold upgraded. cbn [file_rows clear_table blocks transactions accounts metadata consensus_wal
    signer_state consensus_safety consensus_proposals].
  rewrite !(stored_clear _ _ _ _ _ _ _ _ Hn). f_equal.
  - unfold stored, filled. rewrite has_table_insert, !has_column_insert.
    destruct (decide (table = "signer_state")) as [->|Hne].
    + by rewrite !bool_decide_eq_true_2, Hn by done.
    + by rewrite !(bool_decide_eq_false_2 (table = _)), !(bool_decide_eq_false_2 (_ = table)) by congruence.
  - unfold stored, filled. rewrite has_table_insert, !has_column_insert.
    destruct (decide (table = "consensus_safety")) as [->|Hne].
    + by rewrite !bool_decide_eq_true_2, Hn by done.
    + by rewrite !(bool_decide_eq_false_2 (table = _)), !(bool_decide_eq_false_2 (_ = table)) by congruence.
Qed.

Lemma create_table_upgrades table f f' u :
  create_table table (schema_columns table) f = Ok (f', u) ->
  upgrades f f' /\ has_table table f' = true.
Proof.
  unfold create_table. destruct (has_table table f) eqn:Ht; intros [= <- _]; [done|].
  split; [|by rewrite has_table_insert, bool_decide_eq_true_2]. split.
  - by apply upgraded_create.
  - intros t Hh. by rewrite has_table_insert, Hh, orb_true_r.
  - intros t c Hh. rewrite has_column_insert. case_bool_decide as E; [|done].
    subst. apply has_column_table in Hh. congruence.
  - intros Hs t c Hh Hc. rewrite has_table_insert in Hh. rewrite has_column_insert.
    destruct (decide (t = table)) as [->|Hne].
    + rewrite bool_decide_eq_true_2 by done. left. by apply bool_decide_eq_true.
    + rewrite bool_decide_eq_false_2 in Hh |- * by done. by apply Hs.
Qed.

Lemma create_index_upgrades index table columns f f' u :
  create_index index table columns f = Ok (f', u) -> upgrades f f'.
Proof.
  unfold create_index. case_bool_decide; [by intros [= <- _]|]. destruct (forallb _ _); [|done].
  intros [= <- _]. by split.
Qed.

(** The three fills. *)
Inductive added_column : string -> string -> (Database -> Database) -> Prop :=
| added_safety_state :
    added_column "signer_state" "safety_state" (set_signer_state (fmap default_safety_state))
| added_signed_message :
    added_column "signer_state" "signed_message" (set_signer_state (fmap default_signed_message))
| added_height :
    added_column "consensus_safety" "height" (set_consensus_safety (fmap default_height)).

Lemma in_snoc column c (columns : list string) :
  bool_decide (c ∈ columns ++ [column]) = bool_decide (c ∈ columns) || bool_decide (c = column).
Proof.
  apply eq_bool_prop_intro. rewrite orb_True, !bool_decide_spec, elem_of_app, list_elem_of_singleton. done.
Qed.

Lemma upgraded_add table column fill columns f :
  added_column table column fill -> file_tables f !! table = Some columns -> column ∉ columns ->
  upgraded (mk_DiskFile (<[table := columns ++ [column]]> (file_tables f)) (file_indexes f) (fill (file_rows f))) =
  upgraded f.
Proof.
  intros Ha Ht Hc.
  assert (forall t, has_column table t f = bool_decide (t ∈ columns)) as Hcol.
  { intros t. unfold has_column, table_info. by rewrite Ht. }
  assert (has_table table f = true) as Hh by (unfold has_table; rewrite Ht; by apply bool_decide_eq_true; eexists).
  destruct Ha; unfold upgraded, stored, filled;
    rewrite !has_table_insert, !has_column_insert, !Hcol, Hh; simpl; f_equal.
  all: rewrite !in_snoc, (bool_decide_eq_false_2 _ Hc); simpl.
  - rewrite <- list_fmap_compose. apply list_fmap_ext. intros i d _. simpl. by rewrite orb_false_r.
  - rewrite <- list_fmap_compose. apply list_fmap_ext. intros i d _. simpl. rewrite orb_false_r.
    by destruct (bool_decide ("safety_state" ∈ columns)).
  - rewrite <- option_fmap_compose. by destruct (consensus_safety _).
Qed.

Lemma add_column_upgrades table column fill f f' u :
  added_column table column fill -> add_column table column fill f = Ok (f', u) ->
  upgrades f f' /\ has_column table column f' = true.
Proof.
  intros Ha. unfold add_column. destruct (file_tables f !! table) as [columns|] eqn:Ht; [|done].
  case_bool_decide as Hc; [done|]. intros [= <- _].
  assert (forall t, has_column table t f = bool_decide (t ∈ columns)) as Hcol.
  { intros t. unfold has_column, table_info. by rewrite Ht. }
  split; [|rewrite has_column_insert, bool_decide_eq_true_2, bool_decide_eq_true by done; set_solver].
  split.
  - by apply upgraded_add.
  - intros t Hh. by rewrite has_table_insert, Hh, orb_true_r.
  - intros t c. rewrite has_column_insert. case_bool_decide as E; [|done]. subst.
    rewrite Hcol, in_snoc. by intros ->.
  - intros Hs t c Hh Hin. rewrite has_table_insert in Hh. rewrite has_column_insert.
    case_bool_decide as E; [subst t|by apply Hs].
    assert (has_table table f = true) as Hh' by (unfold has_table; rewrite Ht; by apply bool_decide_eq_true; eexists).
    destruct (Hs table c Hh' Hin) as [Hx|Hx]; [left|by right]. rewrite Hcol in Hx. by rewrite in_snoc, Hx.
Qed.

(** ** The opening upgrades *)

(** [opens Q m]: [m], between transactions, whatever fails, upgrades the file;
    when it succeeds the file has [Q], which later upgrades keep. *)
Definition opens (Q : DiskFile -> Prop) (m : stE (Sqlite.Store DiskFile) StorageError ()) : Prop :=
  forall s s' r, idle s -> m s = (s', r) ->
    idle s' /\ poisoned s' = poisoned s /\ upgrades (durable s) (durable s') /\ (r = Ok () -> Q (durable s')).

Definition stable (Q : DiskFile -> Prop) : Prop := forall f f', upgrades f f' -> Q f -> Q f'.

Lemma opens_then Q1 Q2 m1 (m2 : stE (Sqlite.Store DiskFile) StorageError ()) :
  stable Q1 -> opens Q1 m1 -> opens Q2 m2 -> opens (fun f => Q1 f /\ Q2 f) (_ ← m1; m2).
Proof.
  intros Hst H1 H2 s s' r Hi Hr. unfold mbind, stE_bind in Hr. destruct (m1 s) as [s1 [[]|e]] eqn:E1.
  - destruct (H1 _ _ _ Hi E1) as (Hi1 & Hp1 & Hu1 & HQ1). destruct (H2 _ _ _ Hi1 Hr) as (Hi2 & Hp2 & Hu2 & HQ2).
    split_and!; [done|congruence|by etrans|]. intros ->. split; [eapply Hst; eauto|by apply HQ2].
  - injection Hr as <- <-. destruct (H1 _ _ _ Hi E1) as (? & ? & ? & _). by split_and!.
Qed.

Lemma opens_execute Q st :
  (forall f f' u, st f = Ok (f', u) -> upgrades f f' /\ Q f') -> opens Q (execute st).
Proof.
  intros Hst s s' r Hi Hr. destruct (execute_idle _ _ _ _ Hi Hr) as (Hi' & Hp & Hres).
  destruct r as [[]|e]; [|by rewrite Hres].
  destruct (Hst _ _ _ Hres). by split_and!.
Qed.

Lemma opens_read {A} Q (select : DiskFile -> result SqliteError A) m :
  (forall s s' r a, idle s -> select (durable s) = Ok a -> m a s = (s', r) ->
     idle s' /\ poisoned s' = poisoned s /\ upgrades (durable s) (durable s') /\ (r = Ok () -> Q (durable s'))) ->
  opens Q (query select ≫= m).
Proof.
  intros Hm s s' r Hi Hr. unfold mbind, stE_bind in Hr. destruct (query select s) as [s1 [a|e]] eqn:E1.
  - apply query_Ok in E1 as [-> Hs]. unfold view in Hs. rewrite Hi in Hs. by apply (Hm (next_faults s) s' r a).
  - apply query_frame in E1 as ->. injection Hr as <- <-. by split_and!.
Qed.

Lemma opens_ensure table column fill :
  added_column table column fill -> opens (fun f => has_column table column f = true) (ensure_column table column fill).
Proof.
  intros Ha. apply opens_read. intros s s' r columns Hi [= <-]. case_bool_decide as Hc.
  - intros [= <- <-]. split_and!; try done. intros _. by apply bool_decide_eq_true.
  - intros Hr. by apply (opens_execute _ _ (fun f f' u => add_column_upgrades _ _ _ f f' u Ha) s).
Qed.

Definition created (statement : SqlStatement) (f : DiskFile) : Prop :=
  match statement with
  | CreateTable table _ => has_table table f = true
  | CreateIndex _ _ _ => True
  end.

Definition of_schema (statement : SqlStatement) : Prop :=
  match statement with
  | CreateTable table columns => columns = schema_columns table
  | CreateIndex _ _ _ => True
  end.

Lemma schema_of_schema : Forall of_schema SCHEMA.
Proof. by repeat constructor. Qed.

Lemma stable_created statement : stable (created statement).
Proof. intros f f' Hu. destruct statement; simpl; [apply Hu|done]. Qed.

Lemma run_statement_upgrades statement f f' u :
  of_schema statement -> run_statement statement f = Ok (f', u) -> upgrades f f' /\ created statement f'.
Proof.
  destruct statement as [table columns|]; simpl.
  - intros ->. apply create_table_upgrades.
  - intros _ Hr. split; [by eapply create_index_upgrades|done].
Qed.

Lemma opens_batch statements :
  Forall of_schema statements ->
  opens (fun f => Forall (fun statement => created statement f) statements) (execute_batch statements).
Proof.
  induction 1 as [|statement statements Hs _ IH]; simpl.
  { intros s s' r Hi [= <- <-]. by split_and!. }
  intros s s' r Hi Hr.
  destruct (opens_then (created statement) _ _ _ (stable_created statement)
              (opens_execute _ _ (fun f f' u => run_statement_upgrades statement f f' u Hs))
              IH s s' r Hi Hr) as (? & ? & ? & HQ).
  split_and!; [done..|]. intros ->. destruct (HQ eq_refl). by constructor.
Qed.

Lemma opens_pragma m Q : opens Q m -> opens Q (_ ← pragma; m).
Proof. intros Hm. apply opens_read. intros s s' r [] Hi _ Hr. by apply (Hm s). Qed.

(** The tables that have columns in the schema are those it creates. *)
Lemma schema_created table f :
  Forall (fun statement => created statement f) SCHEMA -> schema_columns table <> [] -> has_table table f = true.
Proof.
  intros Hc Hne. unfold schema_columns in Hne.
  destruct (head (omap (statement_columns table) SCHEMA)) as [columns|] eqn:E; [|done].
  destruct (omap (statement_columns table) SCHEMA) as [|c l] eqn:El; [done|].
  assert (c ∈ omap (statement_columns table) SCHEMA) as ([t cs|] & Hin & Ht)%list_elem_of_omap
    by (rewrite El; set_solver); simpl in Ht; [|done].
  case_bool_decide; [subst t|done]. by apply (proj1 (Forall_forall _ _) Hc _ Hin).
Qed.

Lemma opens_from_connection : opens (fun f => supported f -> complete f) from_connection.
Proof.
  unfold from_connection. do 4 apply opens_pragma. intros s s' r Hi Hr.
  assert (forall table column, stable (fun f => has_column table column f = true)) as Hstable
    by (intros t c f f' Hu; apply Hu).
  destruct (opens_then (fun f => Forall (fun statement => created statement f) SCHEMA) _ _ _
              ltac:(intros f f' Hu Hf; eapply Forall_impl; [exact Hf|]; intros st; by apply stable_created)
              (opens_batch SCHEMA schema_of_schema)
              (opens_then _ _ _ _ (Hstable _ _) (opens_ensure _ _ _ added_safety_state)
                 (opens_then _ _ _ _ (Hstable _ _) (opens_ensure _ _ _ added_signed_message)
                    (opens_ensure _ _ _ added_height))) s s' r Hi Hr) as (Hi' & Hp & Hu & HQ).
  split_and!; [done..|]. intros Hok Hsup table Hne. destruct (HQ Hok) as (Hc & H1 & H2 & H3).
  pose proof (schema_created table _ Hc Hne) as Ht. split; [done|]. intros column Hcol.
  destruct (Hsup table column Ht Hcol) as [|Hadd]; [done|].
  unfold added_columns in Hadd. repeat (apply elem_of_cons in Hadd as [[= -> ->]|Hadd]; [done|]).
  by apply elem_of_nil in Hadd.
Qed.

(** A complete file stands for its rows. *)
Lemma complete_upgraded f : complete f -> upgraded f = file_rows f.
Proof.
  intros Hc. assert (forall table, schema_columns table <> [] -> has_table table f = true) as Ht by apply Hc.
  assert (forall table column, column ∈ schema_columns table -> has_column table column f = true) as Hcol.
  { intros t c Hin. apply (Hc t); [|done]. intros E. rewrite E in Hin. by apply elem_of_nil in Hin. }
  unfold upgraded, stored. rewrite !Ht by done. destruct (file_rows f) as [????? signers safety ?]; simpl. f_equal.
  - rewrite <- (list_fmap_id signers) at 2. apply list_fmap_ext. intros i d _. unfold filled.
    by rewrite !Hcol by (vm_compute; set_solver).
  - unfold filled. rewrite Hcol by (vm_compute; set_solver). by destruct safety.
Qed.

(** ** The opening succeeds *)

(** [succeeds P m]: on a connection whose statements run, [m] succeeds from a
    file with [P]. *)
Definition succeeds (P : DiskFile -> Prop) (m : stE (Sqlite.Store DiskFile) StorageError ()) : Prop :=
  forall s, idle s -> faults s = [] -> P (durable s) -> exists s', m s = (s', Ok ()) /\ faults s' = [].

Lemma execute_succeeds {A} (st : DiskFile -> result SqliteError (DiskFile * A)) s f u :
  idle s -> faults s = [] -> st (durable s) = Ok (f, u) ->
  exists s', execute st s = (s', Ok u) /\ faults s' = [] /\ durable s' = f.
Proof.
  unfold idle, execute, write, view, next_faults. destruct s as [p fs db w]; simpl. intros -> -> Hst. simpl.
  rewrite Hst. eexists. by split_and!.
Qed.

(** Every index follows the tables of its columns. *)
Fixpoint indexes_follow (known : list (string * string)) (statements : list SqlStatement) : bool :=
  match statements with
  | [] => true
  | CreateTable table columns :: statements => indexes_follow ((pair table <$> columns) ++ known) statements
  | CreateIndex _ table columns :: statements =>
      forallb (fun column => bool_decide ((table, column) ∈ known) &&
                             negb (bool_decide ((table, column) ∈ added_columns))) columns &&
      indexes_follow known statements
  end.

Definition has_known (known : list (string * string)) (f : DiskFile) : Prop :=
  forall table column, (table, column) ∈ known -> has_column table column f = true \/ (table, column) ∈ added_columns.

Lemma batch_succeeds known statements :
  Forall of_schema statements -> indexes_follow known statements = true ->
  succeeds (fun f => supported f /\ has_known known f) (execute_batch statements).
Proof.
  revert known. induction statements as [|statement statements IH]; intros known Hsch Hk s Hi Hf [Hsup Hkn].
  { exists s. by split. }
  apply Forall_cons in Hsch as [Hs Hsch].
  assert (exists f, run_statement statement (durable s) = Ok (f, ())) as [f Hrun].
  { destruct statement as [t cs|i t cs]; simpl in *; [unfold create_table; destruct (has_table _ _); eauto|].
    apply andb_true_iff in Hk as [Hcols _]. unfold create_index. case_bool_decide; [eauto|].
    replace (forallb _ cs) with true; [eauto|]. symmetry. apply forallb_forall. intros c Hc.
    rewrite forallb_forall in Hcols. specialize (Hcols c Hc).
    apply andb_true_iff in Hcols as [Hin%bool_decide_eq_true Hna%negb_true_iff%bool_decide_eq_false].
    destruct (Hkn _ _ Hin) as [->|]; done. }
  destruct (execute_succeeds _ _ _ _ Hi Hf Hrun) as (s1 & E & Hf1 & Hd1).
  destruct (execute_idle _ _ _ _ Hi E) as (Hi1 & _ & _).
  destruct (run_statement_upgrades _ _ _ _ Hs Hrun) as [Hu Hcr]. simpl.
  rewrite (bind_run_Ok _ _ _ _ _ E).
  assert (supported (durable s1)) as Hsup1 by (rewrite Hd1; by apply (upgrades_supported _ _ Hu)).
  assert (has_known known (durable s1)) as Hkn1.
  { intros t c Hin. rewrite Hd1. destruct (Hkn t c Hin) as [|]; [left; by apply Hu|by right]. }
  destruct statement as [t cs|i t cs]; simpl in Hk.
  - apply (IH ((pair t <$> cs) ++ known)); [done..|]. split; [done|]. intros t' c Hin.
    apply elem_of_app in Hin as [(c' & [= -> ->] & Hc)%list_elem_of_fmap|Hin]; [|by apply Hkn1].
    apply (Hsup1 t c'); [by rewrite Hd1|]. simpl in Hs. by rewrite <- Hs.
  - apply andb_true_iff in Hk as [_ Hk]. by apply (IH known).
Qed.

Lemma ensure_succeeds table column fill :
  succeeds (fun f => has_table table f = true) (ensure_column table column fill).
Proof.
  intros s Hi Hf Ht. unfold ensure_column.
  assert (query (fun f => Ok (table_info table f)) s = (next_faults s, Ok (table_info table (durable s)))) as E.
  { unfold query, view. rewrite Hi. by rewrite Hf. }
  rewrite (bind_run_Ok _ _ _ _ _ E). unfold next_faults. rewrite Hf. case_bool_decide as Hc; [by eexists|].
  apply bool_decide_eq_true in Ht as [columns Hcols]. unfold table_info in Hc. rewrite Hcols in Hc. simpl in Hc.
  edestruct (execute_succeeds (add_column table column fill)) as (s' & E' & Hf' & _); [| | |eauto]; simpl; try done.
  unfold add_column. by rewrite Hcols, bool_decide_eq_false_2.
Qed.

Lemma pragma_succeeds s : idle s -> faults s = [] -> pragma s = (s, Ok ()).
Proof. unfold pragma, query, next_faults. intros _ Hf. rewrite Hf. simpl. by destruct s; simpl in *; subst. Qed.

Lemma from_connection_succeeds : succeeds supported from_connection.
Proof.
  intros s Hi Hf Hs. unfold from_connection. do 4 rewrite (bind_run_Ok _ _ _ _ _ (pragma_succeeds s Hi Hf)).
  destruct (batch_succeeds [] SCHEMA schema_of_schema eq_refl s Hi Hf) as (s1 & E1 & Hf1).
  { split; [done|]. intros t c Hin. by apply elem_of_nil in Hin. }
  destruct (opens_batch SCHEMA schema_of_schema s s1 _ Hi E1) as (Hi1 & _ & Hu1 & HQ). specialize (HQ eq_refl).
  rewrite (bind_run_Ok _ _ _ _ _ E1).
  pose proof (fun table => schema_created table (durable s1) HQ) as Ht.
  destruct (ensure_succeeds "signer_state" "safety_state" (set_signer_state (fmap default_safety_state)) s1 Hi1 Hf1)
    as (s2 & E2 & Hf2); [by apply Ht|].
  destruct (opens_ensure _ _ _ added_safety_state _ _ _ Hi1 E2) as (Hi2 & _ & Hu2 & _).
  rewrite (bind_run_Ok _ _ _ _ _ E2).
  destruct (ensure_succeeds "signer_state" "signed_message" (set_signer_state (fmap default_signed_message)) s2 Hi2 Hf2)
    as (s3 & E3 & Hf3); [by apply Hu2, Ht|].
  destruct (opens_ensure _ _ _ added_signed_message _ _ _ Hi2 E3) as (Hi3 & _ & Hu3 & _).
  rewrite (bind_run_Ok _ _ _ _ _ E3).
  by apply ensure_succeeds; [..|apply Hu3, Hu2, Ht].
Qed.

(** ** [connect] *)

(** An opening that is refused, fails or is cut short leaves a file that stands
    for the same rows; one that succeeds gives a store of those rows. *)
Lemma connect_upgrades refused script f f' r :
  supported f -> connect refused script f = (f', r) ->
  supported f' /\ upgraded f' = upgraded f /\
  forall s, r = Ok s -> complete f' /\ durable s = upgraded f /\ idle s /\ poisoned s = false.
Proof.
  intros Hs Hr. unfold connect in Hr. destruct refused as [e|]; [by injection Hr as <- <-|].
  destruct (from_connection _) as [s1 r1] eqn:E.
  destruct (opens_from_connection (mk_Store false script f None) s1 r1 eq_refl E) as (Hi & Hp & Hu & HQ).
  simpl in Hu. assert (supported (durable s1)) as Hs1 by by apply Hu.
  injection Hr as <- <-. split_and!; [done|apply Hu|]. intros s Hok.
  apply result_bind_Ok_inv in Hok as ([] & -> & [= <-]). pose proof (HQ eq_refl Hs1) as Hc.
  split_and!; try done. simpl. rewrite <- (complete_upgraded _ Hc). apply Hu.
Qed.

Lemma connect_succeeds f :
  supported f -> exists f' s, connect None [] f = (f', Ok s) /\ faults s = [].
Proof.
  intros Hs. unfold connect.
  destruct (from_connection_succeeds (mk_Store false [] f None) eq_refl eq_refl Hs) as (s1 & -> & Hf).
  by exists (durable s1), (attach s1).
Qed.

Lemma connect_settled f :
  supported f -> exists f', connect None [] f = (f', Ok (settled (upgraded f))) /\ complete f' /\ file_rows f' = upgraded f.
Proof.
  intros Hs. destruct (connect_succeeds f Hs) as (f' & s & Hr & Hf).
  destruct (connect_upgrades _ _ _ _ _ Hs Hr) as (_ & Hu & Hok). destruct (Hok s eq_refl) as (Hc & Hd & Hi & Hp).
  exists f'. rewrite <- (complete_upgraded _ Hc). split; [|done]. rewrite Hr. do 2 f_equal.
  destruct s as [p fs db w]. unfold idle in Hi. simpl in *. by subst.
Qed.

(** [Store::open], like its connection. *)
Lemma open_upgrades fs refused script p f f' r :
  supported f -> open fs refused script p f = (f', r) ->
  supported f' /\ upgraded f' = upgraded f /\
  forall s, r = Ok s -> complete f' /\ durable s = upgraded f /\ idle s /\ poisoned s = false.
Proof.
  intros Hs. unfold open. destruct (match parent p with Some _ => _ | None => _ end); [by apply connect_upgrades|].
  by intros [= <- <-].
Qed.

Lemma open_settled fs p f :
  supported f -> (forall p, fs_create_dir_all fs p = true) ->
  exists f', open fs None [] p f = (f', Ok (settled (upgraded f))) /\ complete f' /\ file_rows f' = upgraded f.
Proof.
  intros Hs Hdir. unfold open, create_dir_all. destruct (parent p) as [q|]; [|by apply connect_settled].
  rewrite Hdir, orb_true_r. destruct (path_is_empty q); by apply connect_settled.
Qed.

Lemma supported_new : supported new_file.
Proof. intros table column [columns Ht]%bool_decide_eq_true. simpl in Ht. by rewrite lookup_empty in Ht. Qed.

Lemma supported_complete f : complete f -> supported f.
Proof.
  intros Hc table column _ Hin. left. apply (Hc table); [|done].
  intros E. rewrite E in Hin. by apply elem_of_nil in Hin.
Qed.

(** ** Checking a file *)

Definition supported_test (f : DiskFile) : bool :=
  forallb (fun statement =>
    match statement with
    | CreateTable table columns =>
        negb (has_table table f) ||
        forallb (fun column => has_column table column f || bool_decide ((table, column) ∈ added_columns)) columns
    | CreateIndex _ _ _ => true
    end) SCHEMA.

Lemma schema_columns_statement table :
  schema_columns table <> [] -> CreateTable table (schema_columns table) ∈ SCHEMA.
Proof.
  unfold schema_columns. destruct (omap (statement_columns table) SCHEMA) as [|c l] eqn:El; [done|]. intros _. simpl.
  assert (c ∈ omap (statement_columns table) SCHEMA) as ([t cs|] & Hin & Ht)%list_elem_of_omap
    by (rewrite El; set_solver); simpl in Ht; [|done].
  case_bool_decide; [|done]. by simplify_eq.
Qed.

Lemma supported_tested f : supported_test f = true -> supported f.
Proof.
  intros Hall table column Ht Hc. unfold supported_test in Hall. rewrite forallb_forall in Hall.
  assert (CreateTable table (schema_columns table) ∈ SCHEMA) as Hin.
  { apply schema_columns_statement. intros E. rewrite E in Hc. by apply elem_of_nil in Hc. }
  specialize (Hall _ (proj1 (list_elem_of_In _ _) Hin)). simpl in Hall. rewrite Ht in Hall. simpl in Hall.
  rewrite forallb_forall in Hall. specialize (Hall column (proj1 (list_elem_of_In _ _) Hc)).
  apply orb_true_iff in Hall as [|Hb%bool_decide_eq_true]; auto.
Qed.

(** A file whose tables have the columns [columns table] of their own. *)
Definition file_of (columns : string -> list string -> list string) (db : Database) : DiskFile :=
  mk_DiskFile
    (foldr (fun statement tables =>
       match statement with
       | CreateTable table cs => <[table := columns table cs]> tables
       | CreateIndex _ _ _ => tables
       end) ∅ SCHEMA) ∅ db.
