(* ===== verification/Projection.v ===== *)
(** * Projections, replay and re-indexing

    From [crates/kcoin-node/src/runtime.rs]: what the node derives from a
    finalized block for its explorer tables ([build_projection]), the replay of
    the stored history ([replay_canonical_rows], [verify_store]) and the repair
    of the derived tables ([reindex_store]). *)

From S2P Require Import Prelude Errors Crypto Transaction Block Commit Ledger ConsensusTypes Engine Sqlite Store NodeTypes.

(** The challenge document kept in [metadata], rendered by [serde_json::json!]
    and read back through [serde_json::Value]: the [challenge_id] and
    [issued_at_height] strings, where present. *)
Class ChallengeJson : Type := {
  challenge_to_json : ustring -> ustring -> ustring -> ustring -> ustring;
  challenge_from_json : ustring -> option (option ustring * option ustring)
}.
Class ChallengeJsonLaws `{ChallengeJson} : Prop :=
  challenge_from_to : forall id expression issued reward,
    challenge_from_json (challenge_to_json id expression issued reward) = Some (Some id, Some issued).

(** Functions that use the store and report [anyhow] errors. *)
Abbreviation storeA := (stE (Store Database) AnyError).
Definition from_store {A} (m : storeM A) : storeA A := fun s =>
  let '(s, r) := m s in (s, map_err StoreFailed r).
Definition from_protocol {A} (r : result ValidationError A) : result AnyError A := map_err ProtocolFailed r.

Record ReplayReport : Type := mk_ReplayReport {
  rr_height : Z;
  rr_block_hash : ustring;
  rr_state_root : ustring;
  rr_circulating_supply_atoms : Z;
  rr_account_count : Z;
  rr_transaction_count : Z
}.

Section projection.
Context `{Blake3, Ed25519, !SigningKeyBytes, Hex, Bech32, ChallengeJson,
          !Borsh UnsignedTransaction, !Borsh SignedTransaction, !Borsh BlockHeader, !Borsh Block,
          !Borsh StateCommitment, !Borsh CommitVote, !Borsh CommitCertificate}.

(** [Display for Hash32]. *)
Definition hash_to_string (h : Hash32) : ustring := hex_encode (as_bytes h).

(** ** [build_projection] *)

Definition project_transaction (index : Z) (receipt : TransactionReceipt) : TransactionProjection :=
  let '(kind, recipient, amount_atoms) :=
    match tr_outcome receipt with
    | OutcomeTransfer recipient amount_atoms =>
        (str "transfer", Some (address_to_string recipient), amount_atoms)
    | RewardClaimed _ reward_atoms =>
        (str "claim_reward", Some (address_to_string (tr_sender receipt)), reward_atoms)
    | DisplayNameUpdated _ => (str "set_display_name", None, 0)
    end in
  mk_TransactionProjection (hash_to_string (tr_transaction_id receipt)) (wrap u32_max index) kind
    (address_to_string (tr_sender receipt)) recipient amount_atoms (tr_nonce receipt).

Definition project_transactions (receipts : list TransactionReceipt) : list TransactionProjection :=
  imap (fun i r => project_transaction (Z.of_nat i) r) receipts.

(** [*activity.entry(key).or_default() += 1]. *)
Definition count_activity (key : ustring) (activity : gmap ustring Z) : gmap ustring Z :=
  <[key := default 0 (activity !! key) + 1]> activity.

Definition transaction_activity (activity : gmap ustring Z) (tx : TransactionProjection) : gmap ustring Z :=
  let activity := count_activity (tp_sender tx) activity in
  match tp_recipient tx with
  | Some recipient =>
      if bool_decide (recipient <> tp_sender tx) then count_activity recipient activity else activity
  | None => activity
  end.

Definition block_activity (txs : list TransactionProjection) : gmap ustring Z :=
  foldl transaction_activity ∅ txs.

(** [store.account(..).ok().flatten().map_or(0, ..)]: an error counts as no row. *)
Definition existing_count (address : ustring) : storeA Z := fun s =>
  let '(s, r) := Store.account address s in
  (s, Ok (match r with Ok (Some projection) => ap_transaction_count projection | _ => 0 end)).

Fixpoint project_accounts (activity : gmap ustring Z) (entries : list (Address * AccountState)) :
    storeA (list AccountProjection) :=
  match entries with
  | [] => mret []
  | (address, account) :: entries =>
      let address_string := address_to_string address in
      count ← existing_count address_string;
      rest ← project_accounts activity entries;
      mret (mk_AccountProjection address_string (balance_atoms account) (next_nonce account)
              (ac_display_name account) (count + default 0 (activity !! address_string)) :: rest)
  end.

(** [candidate.accounts().iter()]. *)
Definition account_entries_of (s : LedgerState) : list (Address * AccountState) :=
  btree_entries (K := Address) array_leb (Ledger.accounts s).

(** The [for transaction in block.transactions.iter().rev()] search. *)
Definition issues_challenge (challenge_id : Z) (t : SignedTransaction) : bool :=
  match tx_action (unsigned t) with
  | ClaimReward claimed _ => bool_decide (checked_add u64_max claimed 1 = Some challenge_id)
  | _ => false
  end.

Fixpoint find_challenge_height (challenge_id : Z) (rows : list BlockRow) : result AnyError (option Z) :=
  match rows with
  | [] => Ok None
  | row :: rows =>
      block ← with_context "decode canonical challenge history" (from_protocol (block_decode (br_block_bytes row)));
      if existsb (issues_challenge challenge_id) (reverse (Block.transactions block))
      then Ok (Some (bh_height (header block)))
      else find_challenge_height challenge_id rows
  end.

Definition canonical_challenge_issued_height (challenge_id : Z) : storeA (option Z) :=
  if challenge_id =? 0 then mret (Some 0)
  else
    rows ← from_store canonical_block_rows;
    lift (find_challenge_height challenge_id (reverse rows)).

Definition is_reward_claimed (receipt : TransactionReceipt) : bool :=
  match tr_outcome receipt with RewardClaimed _ _ => true | _ => false end.

(** The height the previous document gives for the same challenge. *)
Definition previous_issued_height (challenge_id : ustring) (previous : option ustring) : option ustring :=
  match previous ≫= challenge_from_json with
  | Some (Some id, issued) => if bool_decide (id = challenge_id) then issued else None
  | _ => None
  end.

Definition challenge_expression (c : Challenge) : ustring :=
  to_string (ch_left c) ++ 32 :: operation_symbol (ch_operation c) ++ 32 :: to_string (ch_right c).

Definition build_projection (candidate : LedgerState) (block : Block) (certificate : CommitCertificate)
    (receipts : list TransactionReceipt) : storeA FinalizedProjection :=
  let transactions := project_transactions receipts in
  let activity := block_activity transactions in
  changed_accounts ← project_accounts activity (account_entries_of candidate);
  let challenge := current_challenge candidate in
  let challenge_id := to_string (ch_id challenge) in
  let challenge_advanced := existsb is_reward_claimed receipts in
  previous ← from_store (metadata_value (str "challenge"));
  issued_at_height ←
    (if challenge_advanced then mret (to_string (height candidate))
     else
       match previous_issued_height challenge_id previous with
       | Some height => mret height
       | None =>
           issued ← canonical_challenge_issued_height (ch_id challenge);
           mret (to_string (default (height candidate) issued))
       end);
  let challenge_json :=
    challenge_to_json challenge_id (challenge_expression challenge) issued_at_height
      (to_string (default 0 (reward_for_supply (total_supply_atoms candidate)))) in
  mret (mk_FinalizedProjection (bh_height (header block)) (hash_to_string (block_hash block))
          (hash_to_string (bh_parent_hash (header block))) (hash_to_string (bh_state_root (header block)))
          (hex_encode (as_bytes (bh_proposer (header block)))) (bh_round (header block))
          (bh_timestamp_ms (header block)) (block_canonical_bytes block)
          (certificate_canonical_bytes certificate) transactions changed_accounts
          (total_supply_atoms candidate) challenge_json).

(** ** Replay of the stored history *)

Definition dev_validators : list ValidatorId :=
  validator_from_signing_key <$> deterministic_dev_validator_keys.

(** The derived columns of a row against its canonical bytes. *)
Definition row_agrees (row : BlockRow) (block : Block) (certificate : CommitCertificate) : bool :=
  (br_height row =? bh_height (header block)) &&
  bool_decide (br_block_hash row = hash_to_string (block_hash block)) &&
  bool_decide (br_parent_hash row = hash_to_string (bh_parent_hash (header block))) &&
  bool_decide (br_state_root row = hash_to_string (bh_state_root (header block))) &&
  bool_decide (br_proposer row = hex_encode (as_bytes (bh_proposer (header block)))) &&
  (br_round row =? bh_round (header block)) &&
  (br_timestamp_ms row =? bh_timestamp_ms (header block)) &&
  (br_transaction_count row =? Z.of_nat (length (Block.transactions block))) &&
  bool_decide (br_block_bytes row = block_canonical_bytes block) &&
  bool_decide (br_certificate_bytes row = certificate_canonical_bytes certificate).

(** The [for row in rows] loop over the ledger. *)
Fixpoint replay_rows (rows : list BlockRow) (verify_derived_columns : bool) :
    stE LedgerState AnyError () :=
  match rows with
  | [] => mret ()
  | row :: rows =>
      block ← lift (with_context "decode canonical block" (from_protocol (block_decode (br_block_bytes row))));
      certificate ← lift (with_context "decode commit certificate"
                            (from_protocol (certificate_decode (br_certificate_bytes row))));
      _ ← (fun ledger =>
             let '(ledger, applied) := apply_finalized_block block certificate dev_validators ledger in
             (ledger, with_context "verify finalized block" (from_protocol applied)));
      if verify_derived_columns && negb (row_agrees row block certificate)
      then throw (Bail "stored block projection disagrees with canonical bytes")
      else replay_rows rows verify_derived_columns
  end.

Definition replay_canonical_rows (rows : list BlockRow) (chain_id : ChainId)
    (verify_derived_columns : bool) : result AnyError LedgerState :=
  let '(ledger, replayed) := replay_rows rows verify_derived_columns (ledger_new chain_id) in
  _ ← replayed;
  Ok ledger.

Definition replay_report (ledger : LedgerState) : ReplayReport :=
  mk_ReplayReport (height ledger) (hash_to_string (tip_hash ledger)) (hash_to_string (state_root ledger))
    (total_supply_atoms ledger) (Z.of_nat (size (Ledger.accounts ledger))) (applied_transaction_count ledger).

Definition verify_store (chain_id : ChainId) : storeA ReplayReport :=
  rows ← from_store canonical_block_rows;
  ledger ← lift (replay_canonical_rows rows chain_id true);
  mret (replay_report ledger).

(** ** [reindex_store] *)

Fixpoint reindex_rows (rows : list BlockRow) (ledger : LedgerState) : storeA LedgerState :=
  match rows with
  | [] => mret ledger
  | row :: rows =>
      block ← lift (from_protocol (block_decode (br_block_bytes row)));
      certificate ← lift (from_protocol (certificate_decode (br_certificate_bytes row)));
      let '(ledger, applied) := apply_finalized_block block certificate dev_validators ledger in
      receipts ← lift (from_protocol applied);
      projection ← build_projection ledger block certificate receipts;
      _ ← from_store (refresh_block_projection projection);
      _ ← from_store (persist_finalized projection);
      reindex_rows rows ledger
  end.

Definition reindex_store (chain_id : ChainId) : storeA ReplayReport :=
  rows ← from_store canonical_block_rows;
  _ ← lift (replay_canonical_rows rows chain_id false);
  _ ← from_store clear_projections;
  ledger ← reindex_rows rows (ledger_new chain_id);
  verify_store (Ledger.chain_id ledger).
End projection.
