(* ===== verification/Recovery.v ===== *)
(** * Recovery of an interrupted consensus height

    [initialize_consensus_recovery] of [crates/kcoin-node/src/runtime.rs] and
    its two helpers: a restarting validator rebuilds its engine from the safety
    state, the proposals and the signing decisions its store holds, checking
    every one of them, and refuses to start when anything disagrees. *)

From S2P Require Import Prelude Errors Crypto Transaction Block Commit Ledger ConsensusTypes Engine Sqlite Store NodeTypes Projection.

Record ConsensusRecovery : Type := mk_ConsensusRecovery {
  rec_consensus : option Consensus;
  rec_proposal_blocks : gmap BlockId Block;
  rec_replay_messages : list SignedMessage;
  rec_rebroadcast_wires : list ConsensusWireMessage
}.

(** What the loop over the stored proposals accumulates. *)
Record RecoveredProposals : Type := mk_RecoveredProposals {
  rp_blocks : gmap BlockId Block;
  rp_variants : gmap (BlockId * Z) Block;
  rp_messages : list SignedMessage
}.

Definition validate_recovered_safety_state (ss : SafetyState) : result AnyError () :=
  if negb (Bool.eqb (bool_decide (is_Some (ss_locked_round ss))) (bool_decide (is_Some (ss_locked_block ss)))) ||
     match ss_locked_round ss with Some locked_round => ss_round ss <? locked_round | None => false end
  then Err (Bail "persisted consensus safety state has an invalid lock")
  else Ok ().

Section recovery.
Context `{Blake3, Ed25519, !SigningKeyBytes,
          !Borsh UnsignedTransaction, !Borsh SignedTransaction, !Borsh BlockHeader, !Borsh Block,
          !Borsh StateCommitment, !Borsh CommitVote, !Borsh CommitCertificate,
          !Borsh SignableMessage, !Borsh SignedMessage, !Borsh SignedProposal, !SerdeJson SafetyState}.

Definition from_engine {A} (r : result ConsensusError A) : result AnyError A := map_err ConsensusFailed r.

Definition validate_persisted_decision (persisted : PersistedConsensusDecision) (height : Z) :
    result AnyError SignedMessage :=
  signed ← some_context (try_from_slice (pd_signed_message persisted))
             "persisted signed consensus message is malformed";
  _ ← with_context "persisted consensus signature is invalid" (map_err MessageInvalid
        (match signed with
         | SignedMessageProposal proposal => verify_ed25519_proposal proposal
         | SignedMessageVote vote => verify_ed25519_vote vote
         end));
  _ ← (if bool_decide (message_signature signed <> pd_signature persisted)
       then Err (Bail "persisted consensus signing record is internally inconsistent")
       else
         sign_bytes ← map_err SigningFailed (signing_bytes (signable signed));
         if bool_decide (sign_bytes <> pd_sign_bytes persisted) ||
            bool_decide (signer_slot (signable signed) <> pd_slot persisted)
         then Err (Bail "persisted consensus signing record is internally inconsistent")
         else Ok ());
  decision_safety ← some_context (json_from_slice (T := SafetyState) (pd_safety_state persisted))
                      "persisted decision safety state is malformed";
  if negb (ss_height decision_safety =? height)
  then Err (Bail "persisted decision belongs to a stale or future height")
  else
    _ ← validate_recovered_safety_state decision_safety;
    Ok signed.

(** One iteration of the loop over [store.consensus_proposals(height)]. *)
Definition recover_proposal (config : NodeConfig) (validators : ValidatorSet)
    (validator_ids : list ValidatorId) (height : Z) (persisted : PersistedConsensusProposal)
    (acc : RecoveredProposals) : result AnyError RecoveredProposals :=
  block_id ← some_context (array_try_from 32 (pp_block_id persisted))
               "persisted proposal block id must be 32 bytes";
  block ← with_context "persisted proposal block bytes are invalid"
            (from_protocol (block_decode (pp_block_bytes persisted)));
  signed ← some_context (try_from_slice (T := SignedProposal) (pp_signed_proposal persisted))
             "persisted signed proposal is malformed";
  _ ← with_context "persisted proposal signature is invalid"
        (map_err MessageInvalid (verify_ed25519_proposal signed));
  let proposal := sp_proposal signed in
  if negb (pp_height persisted =? height) ||
     negb (pp_round persisted =? p_round proposal) ||
     negb (p_height proposal =? height) ||
     bool_decide (p_chain_id proposal <> cfg_node_chain_id config) ||
     bool_decide (p_block_id proposal <> block_id) ||
     bool_decide (block_id_from_hash (consensus_hash block) <> block_id) ||
     bool_decide (proposer validators height (p_round proposal) <> p_proposer proposal) ||
     (p_round proposal <? bh_round (header block)) ||
     bool_decide (expected_protocol_proposer validator_ids (bh_height (header block)) (bh_round (header block))
                    <> Some (bh_proposer (header block)))
  then Err (Bail "persisted proposal context is inconsistent")
  else if match rp_blocks acc !! block_id with
          | Some existing => bool_decide (existing <> block)
          | None => false
          end
  then Err (Bail "persisted proposal bytes conflict for one canonical block id")
  else Ok (mk_RecoveredProposals
             (<[block_id := block]> (rp_blocks acc))
             (<[(block_id, p_round proposal) := block]> (rp_variants acc))
             (rp_messages acc ++ [SignedMessageProposal signed])).

Fixpoint recover_proposals (config : NodeConfig) (validators : ValidatorSet)
    (validator_ids : list ValidatorId) (height : Z) (persisted : list PersistedConsensusProposal)
    (acc : RecoveredProposals) : result AnyError RecoveredProposals :=
  match persisted with
  | [] => Ok acc
  | p :: persisted =>
      acc ← recover_proposal config validators validator_ids height p acc;
      recover_proposals config validators validator_ids height persisted acc
  end.

(** [locked_block.is_some_and(|id| !proposal_blocks.contains_key(&id))]. *)
Definition missing_block (blocks : gmap BlockId Block) (block_id : option BlockId) : bool :=
  match block_id with
  | Some block_id => bool_decide (blocks !! block_id = None)
  | None => false
  end.

Definition check_proposal_message (validator : NodeMessageValidator) (message : SignedMessage) :
    result AnyError () :=
  match message with
  | SignedMessageProposal proposal =>
      with_context "persisted proposal is not application-valid"
        (map_err MessageInvalid (nmv_validate_proposal validator proposal))
  | SignedMessageVote _ => Ok ()
  end.

(** The loop over [decisions]: each is validated and reserved in the engine. *)
Fixpoint restore_persisted_decisions (height : Z) (decisions : list PersistedConsensusDecision)
    (consensus : Consensus) : result AnyError (Consensus * list SignedMessage) :=
  match decisions with
  | [] => Ok (consensus, [])
  | decision :: decisions =>
      signed ← validate_persisted_decision decision height;
      let '(consensus, restored) := restore_local_decision (signable signed) consensus in
      _ ← with_context "persisted local decision conflicts with restored consensus" (from_engine restored);
      '(consensus, messages) ← restore_persisted_decisions height decisions consensus;
      Ok (consensus, signed :: messages)
  end.

(** [if !replay_messages.contains(message) { push }], for every message. *)
Definition merge_messages (replay local : list SignedMessage) : list SignedMessage :=
  foldl (fun replay message => if bool_decide (message ∈ replay) then replay else replay ++ [message])
    replay local.

Definition rebroadcast_wire (variants : gmap (BlockId * Z) Block) (message : SignedMessage) :
    result AnyError ConsensusWireMessage :=
  match message with
  | SignedMessageProposal signed =>
      block ← some_context (variants !! (p_block_id (sp_proposal signed), p_round (sp_proposal signed)))
                "durable local proposal is missing its exact block variant";
      Ok (WireProposal signed block)
  | SignedMessageVote vote => Ok (WireVote vote)
  end.

Definition local_consensus_id (signing_key : SigningKey) : ValidatorId :=
  validator_from_signing_key signing_key.

(** The part after the safety state has been read. *)
Definition recover_consensus (config : NodeConfig) (ledger : LedgerState) (validator_ids : list ValidatorId)
    (local_id : ValidatorId) (validators : ValidatorSet) (height : Z) (safety_bytes : bytes)
    (ss : SafetyState) (persisted : list PersistedConsensusProposal) : storeA ConsensusRecovery :=
  proposals ← lift (recover_proposals config validators validator_ids height persisted
                      (mk_RecoveredProposals ∅ ∅ []));
  if missing_block (rp_blocks proposals) (ss_locked_block ss)
  then throw (Bail "restored lock is missing its persisted proposal block")
  else if missing_block (rp_blocks proposals) (ss_valid_block ss)
  then throw (Bail "restored valid value is missing its persisted proposal block")
  else
  let application_validator := mk_NodeMessageValidator ledger (rp_blocks proposals) validator_ids in
  _ ← lift (try_for_each (check_proposal_message application_validator) (rp_messages proposals));
  consensus ← lift (from_engine
    (new_with_safety_state (H := node_message_validator application_validator)
       local_id validators height (for_chain (cfg_node_chain_id config)) ss));
  decisions ← from_store (consensus_decisions height);
  if bool_decide (decisions = [])
  then throw (Bail "active consensus safety state has no durable signing decision")
  else if match last decisions with
          | Some decision => bool_decide (pd_safety_state decision <> safety_bytes)
          | None => true
          end
  then throw (Bail "active consensus safety state does not match the latest decision")
  else
  '(consensus, local_messages) ← lift (restore_persisted_decisions height decisions consensus);
  rebroadcast_wires ← lift (try_collect (rebroadcast_wire (rp_variants proposals)) local_messages);
  mret (mk_ConsensusRecovery (Some consensus) (rp_blocks proposals)
          (merge_messages (rp_messages proposals) local_messages) rebroadcast_wires).

Definition initialize_consensus_recovery (config : NodeConfig) (ledger : LedgerState)
    (validator_ids consensus_ids : list ValidatorId) (signing_key : option SigningKey) :
    storeA ConsensusRecovery :=
  match signing_key with
  | None => mret (mk_ConsensusRecovery None ∅ [] [])
  | Some signing_key =>
      let local_id := local_consensus_id signing_key in
      let height := Ledger.height ledger + 1 in
      validators ← lift (map_err ValidatorSetFailed (validator_set_new consensus_ids));
      stored ← from_store consensus_safety_state;
      match stored with
      | None =>
          consensus ← lift (from_engine
            (consensus_new local_id validators height (for_chain (cfg_node_chain_id config))));
          mret (mk_ConsensusRecovery (Some consensus) ∅ [] [])
      | Some (stored_safety_height, safety_bytes) =>
          if negb (stored_safety_height =? height)
          then throw (Bail "active consensus safety row belongs to another height")
          else
          ss ← lift (some_context (json_from_slice (T := SafetyState) safety_bytes)
                       "active consensus safety state is malformed");
          if negb (ss_height ss =? height)
          then throw (Bail "active consensus safety state belongs to another height")
          else
          _ ← lift (validate_recovered_safety_state ss);
          persisted ← from_store (consensus_proposals_at height);
          recover_consensus config ledger validator_ids local_id validators height safety_bytes ss persisted
      end
  end.
End recovery.
