(* ===== verification/NodeState.v ===== *)
(** * The state of the node's ledger actor

    [NodeActor] of [crates/kcoin-node/src/runtime.rs] with the records it
    publishes, and what surrounds it: the readings of the clocks and the answers
    of the network task are inputs ([Environment]), what it sends to the network,
    to the explorer's event stream and to itself is collected in [outbox]. *)

From S2P Require Import Prelude Errors Crypto Transaction Block Commit Ledger ConsensusTypes Engine Sqlite Store NodeTypes Projection.

(** A [sync_progress] is the percentage [height / target * 100], clamped to
    [0..100], as an [f32]: the two numbers it is computed from are kept. *)
Record SyncProgress : Type := mk_SyncProgress { progress_height : Z; progress_target : Z }.

Record ValidatorView : Type := mk_ValidatorView {
  vv_id : ustring;
  vv_name : ustring;
  vv_index : Z;
  vv_online : bool;
  vv_phase : ustring;
  vv_height : ustring;
  vv_round : Z;
  vv_block_hash : ustring;
  vv_state_root : ustring;
  vv_sync_progress : option SyncProgress;
  vv_last_seen_ms : Z
}.

Record RuntimeSnapshot : Type := mk_RuntimeSnapshot {
  snap_chain_id : ustring;
  snap_protocol_version : Z;
  snap_height : ustring;
  snap_finalized_hash : ustring;
  snap_state_root : ustring;
  snap_circulating_supply_atoms : ustring;
  snap_max_supply_atoms : ustring;
  snap_mempool_size : Z;
  snap_peer_count : Z;
  snap_block_time_ms : Z;
  snap_validators : list ValidatorView;
  snap_syncing : bool;
  snap_halted : bool
}.

Record ValidatorTelemetry : Type := mk_ValidatorTelemetry {
  vt_height : Z;
  vt_round : Z;
  vt_phase : ustring;
  vt_block_hash : Hash32;
  vt_state_root : Hash32;
  vt_sync_progress : option SyncProgress;
  vt_last_seen_ms : Z
}.

(** ** Snapshots *)

Section snapshot.
Context `{Blake3, Hex, !Borsh StateCommitment}.

Definition role_is (config : NodeConfig) (role : NodeRole) : bool := bool_decide (cfg_role config = role).

(** The view of the validator at [index]. *)
Definition validator_view (config : NodeConfig) (ledger : LedgerState) (sync_target : option Z)
    (halted : bool) (telemetry : gmap ValidatorId ValidatorTelemetry) (now : Z)
    (position : Z) (validator : ValidatorId) : ValidatorView :=
  let syncing := bool_decide (is_Some sync_target) in
  let index := wrap u16_max position in
  let local := bool_decide (cfg_validator_index config = Some index) in
  let status := telemetry !! validator in
  let online :=
    role_is config RoleStandalone || local ||
    match status with
    | Some status => saturating_sub now (vt_last_seen_ms status) <=? 3500
    | None => false
    end in
  mk_ValidatorView (hex_encode (as_bytes validator))
    (str "Validator " ++ to_string (position + 1)) index online
    (if halted && local then str "halted"
     else if syncing && local then str "syncing"
     else if negb online then str "offline"
     else match status with Some status => vt_phase status | None => str "finalized" end)
    (to_string (match status with Some status => vt_height status | None => height ledger end))
    (match status with Some status => vt_round status | None => 0 end)
    (hash_to_string (match status with Some status => vt_block_hash status | None => tip_hash ledger end))
    (hash_to_string (match status with Some status => vt_state_root status | None => state_root ledger end))
    (if syncing && local
     then Some (mk_SyncProgress (height ledger) (Z.max (default (height ledger) sync_target) 1))
     else status ≫= vt_sync_progress)
    (match status with
     | Some status => vt_last_seen_ms status
     | None => if local then now else 0
     end).

Definition snapshot_for (config : NodeConfig) (ledger : LedgerState) (mempool_size peer_count : Z)
    (sync_target : option Z) (halted : bool) (validators : list ValidatorId)
    (telemetry : gmap ValidatorId ValidatorTelemetry) (now : Z) : RuntimeSnapshot :=
  mk_RuntimeSnapshot (cfg_node_chain_id config) PROTOCOL_VERSION (to_string (height ledger))
    (hash_to_string (tip_hash ledger)) (hash_to_string (state_root ledger))
    (to_string (total_supply_atoms ledger)) (to_string MAX_SUPPLY_ATOMS) mempool_size peer_count
    (cfg_heartbeat_ms config)
    (imap (fun i v => validator_view config ledger sync_target halted telemetry now (Z.of_nat i) v) validators)
    (bool_decide (is_Some sync_target)) halted.
End snapshot.

(** ** The actor *)

Section actor.
Context `{Ed25519, Libp2p}.

(** What the actor hands over. *)
Inductive Output : Type :=
| ApiEvent (event_type id : ustring)
| WakeUp
| ScheduledTimeout (t : Timeout)
| GossipTransaction (b : bytes)
| GossipConsensus (wire : ConsensusWireMessage)
| GossipFinalized (record : FinalizedWireRecord)
| GossipStatus (status : SignedValidatorStatus)
| SentRequest (peer : PeerId) (request : SyncRequest)
| SentResponse (token : Z) (response : SyncResponse).

(** [unix_timestamp_ms()] and [Instant::now()] (in nanoseconds), in the order
    they are read; the id the network task gives a request, or its failure;
    whether it takes a response. *)
Record Environment : Type := mk_Environment {
  env_unix_ms : list Z;
  env_instants : list Z;
  env_requests : list (option OutboundSyncRequestId);
  env_responses : list bool
}.

(** The fields of [NodeActor] that never change. *)
Record NodeIdentity : Type := mk_NodeIdentity {
  id_config : NodeConfig;
  id_chain_id : ChainId;
  id_network : bool;
  id_validator_ids : list ValidatorId;
  id_consensus_ids : list ValidatorId;
  id_standalone_keys : list SigningKey;
  id_local_validator_key : option SigningKey
}.

Record NodeActor : Type := mk_NodeActor {
  na_identity : NodeIdentity;
  na_ledger : LedgerState;
  na_mempool : list SignedTransaction;
  na_mempool_ids : gset Hash32;
  na_store : Store Database;
  na_consensus : option Consensus;
  na_consensus_started : bool;
  na_proposal_blocks : gmap BlockId Block;
  na_recovery_messages : list SignedMessage;
  na_recovery_broadcasts : list ConsensusWireMessage;
  na_snapshot : RuntimeSnapshot;
  na_peers : gset PeerId;
  na_validator_telemetry : gmap ValidatorId ValidatorTelemetry;
  na_sync_target : option Z;
  na_sync_peer : option PeerId;
  na_sync_request_id : option OutboundSyncRequestId;
  na_sync_request_deadline : option Z;
  na_halted : bool;
  na_last_block_at : Z;
  na_last_status_at : Z;
  na_last_block_duration_ms : Z;
  na_env : Environment;
  na_outbox : list Output
}.

Definition set_ledger (x : LedgerState) (self : NodeActor) : NodeActor :=
  mk_NodeActor (na_identity self) x (na_mempool self) (na_mempool_ids self) (na_store self) (na_consensus
    self) (na_consensus_started self) (na_proposal_blocks self) (na_recovery_messages self)
    (na_recovery_broadcasts self) (na_snapshot self) (na_peers self) (na_validator_telemetry self)
    (na_sync_target self) (na_sync_peer self) (na_sync_request_id self) (na_sync_request_deadline self)
    (na_halted self) (na_last_block_at self) (na_last_status_at self) (na_last_block_duration_ms self)
    (na_env self) (na_outbox self).
Definition set_mempool (txs : list SignedTransaction) (ids : gset Hash32) (self : NodeActor) : NodeActor :=
  mk_NodeActor (na_identity self) (na_ledger self) txs ids (na_store self) (na_consensus self)
    (na_consensus_started self) (na_proposal_blocks self) (na_recovery_messages self)
    (na_recovery_broadcasts self) (na_snapshot self) (na_peers self) (na_validator_telemetry self)
    (na_sync_target self) (na_sync_peer self) (na_sync_request_id self) (na_sync_request_deadline self)
    (na_halted self) (na_last_block_at self) (na_last_status_at self) (na_last_block_duration_ms self)
    (na_env self) (na_outbox self).
Definition set_store (x : Store Database) (self : NodeActor) : NodeActor :=
  mk_NodeActor (na_identity self) (na_ledger self) (na_mempool self) (na_mempool_ids self) x (na_consensus
    self) (na_consensus_started self) (na_proposal_blocks self) (na_recovery_messages self)
    (na_recovery_broadcasts self) (na_snapshot self) (na_peers self) (na_validator_telemetry self)
    (na_sync_target self) (na_sync_peer self) (na_sync_request_id self) (na_sync_request_deadline self)
    (na_halted self) (na_last_block_at self) (na_last_status_at self) (na_last_block_duration_ms self)
    (na_env self) (na_outbox self).
Definition set_consensus (x : option Consensus) (self : NodeActor) : NodeActor :=
  mk_NodeActor (na_identity self) (na_ledger self) (na_mempool self) (na_mempool_ids self) (na_store self)
    x (na_consensus_started self) (na_proposal_blocks self) (na_recovery_messages self)
    (na_recovery_broadcasts self) (na_snapshot self) (na_peers self) (na_validator_telemetry self)
    (na_sync_target self) (na_sync_peer self) (na_sync_request_id self) (na_sync_request_deadline self)
    (na_halted self) (na_last_block_at self) (na_last_status_at self) (na_last_block_duration_ms self)
    (na_env self) (na_outbox self).
Definition set_consensus_started (x : bool) (self : NodeActor) : NodeActor :=
  mk_NodeActor (na_identity self) (na_ledger self) (na_mempool self) (na_mempool_ids self) (na_store self)
    (na_consensus self) x (na_proposal_blocks self) (na_recovery_messages self) (na_recovery_broadcasts
    self) (na_snapshot self) (na_peers self) (na_validator_telemetry self) (na_sync_target self)
    (na_sync_peer self) (na_sync_request_id self) (na_sync_request_deadline self) (na_halted self)
    (na_last_block_at self) (na_last_status_at self) (na_last_block_duration_ms self) (na_env self)
    (na_outbox self).
Definition set_proposal_blocks (x : gmap BlockId Block) (self : NodeActor) : NodeActor :=
  mk_NodeActor (na_identity self) (na_ledger self) (na_mempool self) (na_mempool_ids self) (na_store self)
    (na_consensus self) (na_consensus_started self) x (na_recovery_messages self) (na_recovery_broadcasts
    self) (na_snapshot self) (na_peers self) (na_validator_telemetry self) (na_sync_target self)
    (na_sync_peer self) (na_sync_request_id self) (na_sync_request_deadline self) (na_halted self)
    (na_last_block_at self) (na_last_status_at self) (na_last_block_duration_ms self) (na_env self)
    (na_outbox self).
Definition set_recovery (messages : list SignedMessage) (wires : list ConsensusWireMessage) (self : NodeActor) : NodeActor :=
  mk_NodeActor (na_identity self) (na_ledger self) (na_mempool self) (na_mempool_ids self) (na_store self)
    (na_consensus self) (na_consensus_started self) (na_proposal_blocks self) messages wires (na_snapshot
    self) (na_peers self) (na_validator_telemetry self) (na_sync_target self) (na_sync_peer self)
    (na_sync_request_id self) (na_sync_request_deadline self) (na_halted self) (na_last_block_at self)
    (na_last_status_at self) (na_last_block_duration_ms self) (na_env self) (na_outbox self).
Definition set_snapshot (x : RuntimeSnapshot) (self : NodeActor) : NodeActor :=
  mk_NodeActor (na_identity self) (na_ledger self) (na_mempool self) (na_mempool_ids self) (na_store self)
    (na_consensus self) (na_consensus_started self) (na_proposal_blocks self) (na_recovery_messages self)
    (na_recovery_broadcasts self) x (na_peers self) (na_validator_telemetry self) (na_sync_target self)
    (na_sync_peer self) (na_sync_request_id self) (na_sync_request_deadline self) (na_halted self)
    (na_last_block_at self) (na_last_status_at self) (na_last_block_duration_ms self) (na_env self)
    (na_outbox self).
Definition set_peers (x : gset PeerId) (self : NodeActor) : NodeActor :=
  mk_NodeActor (na_identity self) (na_ledger self) (na_mempool self) (na_mempool_ids self) (na_store self)
    (na_consensus self) (na_consensus_started self) (na_proposal_blocks self) (na_recovery_messages self)
    (na_recovery_broadcasts self) (na_snapshot self) x (na_validator_telemetry self) (na_sync_target self)
    (na_sync_peer self) (na_sync_request_id self) (na_sync_request_deadline self) (na_halted self)
    (na_last_block_at self) (na_last_status_at self) (na_last_block_duration_ms self) (na_env self)
    (na_outbox self).
Definition set_telemetry (x : gmap ValidatorId ValidatorTelemetry) (self : NodeActor) : NodeActor :=
  mk_NodeActor (na_identity self) (na_ledger self) (na_mempool self) (na_mempool_ids self) (na_store self)
    (na_consensus self) (na_consensus_started self) (na_proposal_blocks self) (na_recovery_messages self)
    (na_recovery_broadcasts self) (na_snapshot self) (na_peers self) x (na_sync_target self) (na_sync_peer
    self) (na_sync_request_id self) (na_sync_request_deadline self) (na_halted self) (na_last_block_at self)
    (na_last_status_at self) (na_last_block_duration_ms self) (na_env self) (na_outbox self).
Definition set_sync_target (x : option Z) (self : NodeActor) : NodeActor :=
  mk_NodeActor (na_identity self) (na_ledger self) (na_mempool self) (na_mempool_ids self) (na_store self)
    (na_consensus self) (na_consensus_started self) (na_proposal_blocks self) (na_recovery_messages self)
    (na_recovery_broadcasts self) (na_snapshot self) (na_peers self) (na_validator_telemetry self) x
    (na_sync_peer self) (na_sync_request_id self) (na_sync_request_deadline self) (na_halted self)
    (na_last_block_at self) (na_last_status_at self) (na_last_block_duration_ms self) (na_env self)
    (na_outbox self).
Definition set_sync_request (peer : option PeerId) (id : option OutboundSyncRequestId) (deadline : option Z) (self : NodeActor) : NodeActor :=
  mk_NodeActor (na_identity self) (na_ledger self) (na_mempool self) (na_mempool_ids self) (na_store self)
    (na_consensus self) (na_consensus_started self) (na_proposal_blocks self) (na_recovery_messages self)
    (na_recovery_broadcasts self) (na_snapshot self) (na_peers self) (na_validator_telemetry self)
    (na_sync_target self) peer id deadline (na_halted self) (na_last_block_at self) (na_last_status_at self)
    (na_last_block_duration_ms self) (na_env self) (na_outbox self).
Definition set_halted (x : bool) (self : NodeActor) : NodeActor :=
  mk_NodeActor (na_identity self) (na_ledger self) (na_mempool self) (na_mempool_ids self) (na_store self)
    (na_consensus self) (na_consensus_started self) (na_proposal_blocks self) (na_recovery_messages self)
    (na_recovery_broadcasts self) (na_snapshot self) (na_peers self) (na_validator_telemetry self)
    (na_sync_target self) (na_sync_peer self) (na_sync_request_id self) (na_sync_request_deadline self) x
    (na_last_block_at self) (na_last_status_at self) (na_last_block_duration_ms self) (na_env self)
    (na_outbox self).
Definition set_last_block (at_ duration_ms : Z) (self : NodeActor) : NodeActor :=
  mk_NodeActor (na_identity self) (na_ledger self) (na_mempool self) (na_mempool_ids self) (na_store self)
    (na_consensus self) (na_consensus_started self) (na_proposal_blocks self) (na_recovery_messages self)
    (na_recovery_broadcasts self) (na_snapshot self) (na_peers self) (na_validator_telemetry self)
    (na_sync_target self) (na_sync_peer self) (na_sync_request_id self) (na_sync_request_deadline self)
    (na_halted self) at_ (na_last_status_at self) duration_ms (na_env self) (na_outbox self).
Definition set_last_status_at (x : Z) (self : NodeActor) : NodeActor :=
  mk_NodeActor (na_identity self) (na_ledger self) (na_mempool self) (na_mempool_ids self) (na_store self)
    (na_consensus self) (na_consensus_started self) (na_proposal_blocks self) (na_recovery_messages self)
    (na_recovery_broadcasts self) (na_snapshot self) (na_peers self) (na_validator_telemetry self)
    (na_sync_target self) (na_sync_peer self) (na_sync_request_id self) (na_sync_request_deadline self)
    (na_halted self) (na_last_block_at self) x (na_last_block_duration_ms self) (na_env self) (na_outbox
    self).
Definition set_env (x : Environment) (self : NodeActor) : NodeActor :=
  mk_NodeActor (na_identity self) (na_ledger self) (na_mempool self) (na_mempool_ids self) (na_store self)
    (na_consensus self) (na_consensus_started self) (na_proposal_blocks self) (na_recovery_messages self)
    (na_recovery_broadcasts self) (na_snapshot self) (na_peers self) (na_validator_telemetry self)
    (na_sync_target self) (na_sync_peer self) (na_sync_request_id self) (na_sync_request_deadline self)
    (na_halted self) (na_last_block_at self) (na_last_status_at self) (na_last_block_duration_ms self) x
    (na_outbox self).
Definition add_output (o : Output) (self : NodeActor) : NodeActor :=
  mk_NodeActor (na_identity self) (na_ledger self) (na_mempool self) (na_mempool_ids self) (na_store self)
    (na_consensus self) (na_consensus_started self) (na_proposal_blocks self) (na_recovery_messages self)
    (na_recovery_broadcasts self) (na_snapshot self) (na_peers self) (na_validator_telemetry self)
    (na_sync_target self) (na_sync_peer self) (na_sync_request_id self) (na_sync_request_deadline self)
    (na_halted self) (na_last_block_at self) (na_last_status_at self) (na_last_block_duration_ms self)
    (na_env self) (na_outbox self ++ [o]).

Definition node_config (self : NodeActor) : NodeConfig := id_config (na_identity self).
Definition node_validators (self : NodeActor) : list ValidatorId := id_validator_ids (na_identity self).
Definition node_key (self : NodeActor) : option SigningKey := id_local_validator_key (na_identity self).
Definition node_role (self : NodeActor) : NodeRole := cfg_role (node_config self).
Definition is_syncing (self : NodeActor) : bool := bool_decide (is_Some (na_sync_target self)).
End actor.
