(* ===== verification/Node.v ===== *)
(** * The node's ledger actor

    [impl NodeActor] of [crates/kcoin-node/src/runtime.rs]: every command
    handler and the helpers they share, in the order of the source.  A handler
    is [stE NodeActor AnyError]: it keeps the changes it made before a [?], as
    the method on [&mut self] does; [dispatch] is one iteration of [run], which
    logs an error and goes on.

    The actor owns its state, so the [.await] points of a handler let other
    tasks run but never another handler.  [tokio::spawn]ed publications are
    outputs; [sleep] has no effect on the state. *)

From S2P Require Import Prelude Errors Crypto Transaction Block Commit Ledger ConsensusTypes Engine Sqlite Store NodeTypes Projection Recovery NodeState.

(** [SubmissionReceipt]. *)
Record SubmissionReceipt : Type := mk_SubmissionReceipt { transaction_id : Hash32 }.

(** [SYNC_REQUEST_WATCHDOG_TIMEOUT], in nanoseconds. *)
Definition SYNC_REQUEST_WATCHDOG_TIMEOUT : Z := from_millis 12000.

(** The events one event can set off: the request for a proposal, the decision
    to propose and to vote twice in the current round.  [process_consensus_event]
    never needs more iterations ([NodeSpec.consensus_event_terminates]). *)
Definition EVENT_BUDGET : nat := 8.

Section node.
Context `{Blake3, Blake3Checksum, Ed25519, !SigningKeyBytes, Hex, Bech32, ChallengeJson, Libp2p,
          !Borsh UnsignedTransaction, !Borsh SignedTransaction, !Borsh BlockHeader, !Borsh Block,
          !Borsh StateCommitment, !Borsh CommitVote, !Borsh CommitCertificate,
          !Borsh SignableMessage, !Borsh SignedMessage, !Borsh SignedProposal,
          !Borsh FinalizedWireRecord, !Borsh ValidatorStatusMessage, !SerdeJson SafetyState}.
(** [format!("{evidence:?}").as_bytes()], through the derived [Debug]. *)
Context (evidence_debug : Evidence -> bytes).

Abbreviation nodeM := (stE NodeActor).

(** ** The actor's surroundings *)

Definition emit {E} (o : Output) : nodeM E () := modify (add_output o).

Definition unix_timestamp_ms {E} : nodeM E Z := fun self =>
  let e := na_env self in
  (set_env (mk_Environment (tail (env_unix_ms e)) (env_instants e) (env_requests e) (env_responses e)) self,
   Ok (default 0 (head (env_unix_ms e)))).

Definition instant_now {E} : nodeM E Z := fun self =>
  let e := na_env self in
  (set_env (mk_Environment (env_unix_ms e) (tail (env_instants e)) (env_requests e) (env_responses e)) self,
   Ok (default 0 (head (env_instants e)))).

(** [network.request(peer, request).await?]. *)
Definition network_request (peer : PeerId) (request : SyncRequest) : nodeM AnyError OutboundSyncRequestId :=
  fun self =>
  let e := na_env self in
  let self := set_env (mk_Environment (env_unix_ms e) (env_instants e) (tail (env_requests e)) (env_responses e)) self in
  match head (env_requests e) with
  | Some (Some id) => (add_output (SentRequest peer request) self, Ok id)
  | _ => (self, Err NetworkFailed)
  end.

(** [network.respond(token, response).await]. *)
Definition network_respond (token : Z) (response : SyncResponse) : nodeM AnyError () := fun self =>
  let e := na_env self in
  let self := set_env (mk_Environment (env_unix_ms e) (env_instants e) (env_requests e) (tail (env_responses e))) self in
  match head (env_responses e) with
  | Some true => (add_output (SentResponse token response) self, Ok ())
  | _ => (self, Err NetworkFailed)
  end.

(** A computation on the store. *)
Definition in_store {A} (m : storeA A) : nodeM AnyError A := fun self =>
  let '(s, r) := m (na_store self) in (set_store s self, r).

(** Where an error is dropped ([let _ =], [if let Err(error) = ..]). *)
Definition ignore {E E' A} (m : nodeM E A) : nodeM E' () := fun self => ((m self).1, Ok ()).

(** ** Publication *)

Definition publish_snapshot {E} : nodeM E () :=
  now ← unix_timestamp_ms;
  _ ← modify (fun self => set_snapshot
        (snapshot_for (node_config self) (na_ledger self) (Z.of_nat (length (na_mempool self)))
           (Z.of_nat (size (na_peers self))) (na_sync_target self) (na_halted self)
           (node_validators self) (na_validator_telemetry self) now) self);
  self ← get;
  emit (ApiEvent (str "validator_status") (to_string (height (na_ledger self)))).

Definition note_validator_activity {E} (validator : ValidatorId) (height : Z) (phase : ustring) : nodeM E () :=
  now ← unix_timestamp_ms;
  modify (fun self => set_telemetry
    (<[validator := mk_ValidatorTelemetry height
         (match na_consensus self with Some c => con_round c | None => 0 end) phase
         (tip_hash (na_ledger self)) (state_root (na_ledger self)) None now]>
       (na_validator_telemetry self)) self).

Definition enter_halted_state {E} : nodeM E () :=
  modify (fun self => set_sync_request None None None
    (set_sync_target None (set_consensus_started false (set_halted true self)))).

(** ** Transactions *)

(** [for pending in &self.mempool { candidate.apply_transaction(..)?; }]. *)
Definition apply_pending (txs : list SignedTransaction) (execution_height : Z) :
    stE LedgerState ValidationError () :=
  _ ← apply_transactions txs execution_height; mret ().

Definition accept_transaction (transaction : SignedTransaction) (gossip : bool) :
    nodeM ValidationError SubmissionReceipt :=
  self ← get;
  if na_halted self || is_syncing self then throw Malformed
  else
  let id := tx_id transaction in
  if bool_decide (id ∈ na_mempool_ids self) || contains_transaction (na_ledger self) id
  then throw DuplicateTransaction
  else
  execution_height ← lift (ok_or (checked_add u64_max (height (na_ledger self)) 1) ArithmeticOverflow);
  let '(candidate, pending) := apply_pending (na_mempool self) execution_height (na_ledger self) in
  _ ← lift pending;
  _ ← lift (validate_transaction candidate transaction execution_height);
  _ ← modify (fun self => set_mempool (na_mempool self ++ [transaction]) ({[id]} ∪ na_mempool_ids self) self);
  _ ← publish_snapshot;
  _ ← emit (ApiEvent (str "transaction") (hash_to_string id));
  _ ← (if gossip && id_network (na_identity self) then emit (GossipTransaction (tx_canonical_bytes transaction))
       else mret ());
  _ ← emit WakeUp;
  mret (mk_SubmissionReceipt id).

(** [while let Some(transaction) = self.mempool.pop_front()]: what is kept. *)
Fixpoint keep_applicable (txs : list SignedTransaction) (execution_height : Z) (candidate : LedgerState) :
    list SignedTransaction :=
  match txs with
  | [] => []
  | t :: txs =>
      match apply_transaction t execution_height candidate with
      | (candidate, Ok _) => t :: keep_applicable txs execution_height candidate
      | (candidate, Err _) => keep_applicable txs execution_height candidate
      end
  end.

Definition revalidate_mempool {E} : nodeM E () :=
  self ← get;
  let execution_height := saturating_add u64_max (height (na_ledger self)) 1 in
  let kept := keep_applicable (na_mempool self) execution_height (na_ledger self) in
  modify (set_mempool kept (list_to_set (tx_id <$> kept))).

(** ** Finalized blocks *)

(** [for signature in &certificate.signatures { self.note_validator_activity(..) }]. *)
Fixpoint note_signers {E} (signatures : list CommitSignature) (height : Z) : nodeM E () :=
  match signatures with
  | [] => mret ()
  | s :: signatures =>
      _ ← note_validator_activity (cs_validator s) height (str "finalized");
      note_signers signatures height
  end.

Fixpoint emit_transactions {E} (txs : list SignedTransaction) : nodeM E () :=
  match txs with
  | [] => mret ()
  | t :: txs =>
      _ ← emit (ApiEvent (str "transaction") (hash_to_string (tx_id t)));
      emit_transactions txs
  end.

Definition commit_finalized (block : Block) (certificate : CommitCertificate) (gossip : bool) :
    nodeM AnyError () :=
  before ← instant_now;
  self ← get;
  let '(candidate, applied) := apply_finalized_block block certificate (node_validators self) (na_ledger self) in
  receipts ← lift (with_context "execute finalized block" (from_protocol applied));
  projection ← in_store (build_projection candidate block certificate receipts);
  _ ← (fun self =>
         let '(self, r) := in_store (from_store (persist_finalized projection)) self in
         (self, with_context "atomically persist finalized block" r));
  _ ← modify (set_ledger candidate);
  _ ← revalidate_mempool;
  after ← instant_now;
  now ← instant_now;
  _ ← modify (set_last_block now (Z.max ((after - before) / 10 ^ 6) 1));
  _ ← note_signers (cc_signatures certificate) (bh_height (header block));
  _ ← publish_snapshot;
  _ ← emit (ApiEvent (str "finalized_block") (hash_to_string (block_hash block)));
  _ ← emit_transactions (Block.transactions block);
  if gossip && id_network (na_identity self)
  then emit (GossipFinalized (mk_FinalizedWireRecord block certificate))
  else mret ().

Definition reset_consensus : nodeM AnyError () :=
  _ ← modify (fun self => set_consensus_started false (set_recovery [] [] (set_proposal_blocks ∅ self)));
  self ← get;
  match node_key self with
  | Some key =>
      validators ← lift (map_err ValidatorSetFailed (validator_set_new (id_consensus_ids (na_identity self))));
      consensus ← lift (from_engine (consensus_new (validator_from_signing_key key) validators
        (height (na_ledger self) + 1) (for_chain (cfg_node_chain_id (node_config self)))));
      modify (set_consensus (Some consensus))
  | None => mret ()
  end.

Definition finish_sync_if_current {E} : nodeM E () :=
  self ← get;
  _ ← (if match na_sync_target self with
          | Some target => target <=? height (na_ledger self)
          | None => false
          end
       then modify (fun self => set_sync_request None None None (set_sync_target None self))
       else mret ());
  publish_snapshot.

(** ** Production and proposals *)

Definition produce_standalone : nodeM AnyError () :=
  self ← get;
  let transactions := take 1000 (na_mempool self) in
  let proposer_index := height (na_ledger self) mod Z.of_nat (length (node_validators self)) in
  timestamp_ms ← unix_timestamp_ms;
  block ← lift (with_context "build standalone proposal" (from_protocol
    (build_block (na_ledger self) (default null_validator (node_validators self !! Z.to_nat proposer_index))
       0 timestamp_ms transactions)));
  let vote := commit_vote_new (id_chain_id (na_identity self)) (bh_height (header block))
                (bh_round (header block)) (consensus_hash block) in
  let signatures := (fun key => commit_sign vote key) <$> take 3 (id_standalone_keys (na_identity self)) in
  let certificate := certificate_new vote signatures in
  _ ← lift (with_context "verify local standalone certificate" (from_protocol
        (verify_for_block certificate block (node_validators self))));
  commit_finalized block certificate true.

(** The transactions of the mempool that apply in order. *)
Definition build_consensus_proposal (round : Z) (valid_block : option BlockId) : nodeM AnyError Block :=
  self ← get;
  match valid_block ≫= fun block_id => na_proposal_blocks self !! block_id with
  | Some block => mret block
  | None =>
      key ← lift (some_context (node_key self) "validator signing key is missing");
      let proposer := validator_from_signing_key key in
      let execution_height := height (na_ledger self) + 1 in
      let transactions := keep_applicable (take 1000 (na_mempool self)) execution_height (na_ledger self) in
      timestamp_ms ← unix_timestamp_ms;
      lift (with_context "build consensus proposal" (from_protocol
        (build_block (na_ledger self) proposer round timestamp_ms transactions)))
  end.

(** ** Signing *)

Definition signer_of (message : SignableMessage) : ValidatorId :=
  match message with
  | SignableProposal proposal => p_proposer proposal
  | SignableVote vote => v_validator vote
  end.

Definition sign_and_persist (message : SignableMessage) (ss : SafetyState) : nodeM AnyError SignedMessage :=
  self ← get;
  signing_key ← lift (some_context (node_key self) "validator signing key is missing");
  let local_id := validator_from_signing_key signing_key in
  if bool_decide (signer_of message <> local_id)
  then throw (Bail "consensus requested a signature for another validator")
  else
  sign_bytes ← lift (map_err SigningFailed (signing_bytes message));
  let generated := as_bytes (ed_sign signing_key sign_bytes) in
  safety_bytes ← lift (ok_or (json_to_vec ss) JsonFailed);
  let slot := signer_slot message in
  let provisional := signed_message message generated in
  let encoded_message := to_vec provisional in
  _ ← (match provisional with
       | SignedMessageProposal signed =>
           let proposal := sp_proposal signed in
           block ← lift (some_context (na_proposal_blocks self !! p_block_id proposal)
                           "local proposal block bytes are unavailable");
           in_store (from_store (persist_consensus_proposal
             (mk_PersistedConsensusProposal (p_height proposal) (p_round proposal)
                (as_bytes (p_block_id proposal)) (block_canonical_bytes block) (to_vec signed))))
       | SignedMessageVote _ => mret ()
       end);
  signature ← in_store (from_store
    (persist_consensus_decision slot sign_bytes generated safety_bytes encoded_message));
  let signed := signed_message message signature in
  _ ← in_store (from_store (append_consensus_event (str "signed") (to_vec signed)));
  mret signed.

Definition publish_consensus_wire (wire : ConsensusWireMessage) : nodeM AnyError () :=
  self ← get;
  if id_network (na_identity self) then emit (GossipConsensus wire) else mret ().

Definition broadcast_consensus (message : SignedMessage) : nodeM AnyError () :=
  self ← get;
  wire ← lift (match message with
               | SignedMessageProposal signed =>
                   block ← some_context (na_proposal_blocks self !! p_block_id (sp_proposal signed))
                             "proposal bytes are unavailable for broadcast";
                   Ok (WireProposal signed block)
               | SignedMessageVote vote => Ok (WireVote vote)
               end);
  publish_consensus_wire wire.

(** ** The consensus driver *)

(** One effect: the events it pushes. *)
Definition process_effect (effect : Effect) : nodeM AnyError (list Event) :=
  match effect with
  | RequestProposal height round valid_block _ =>
      self ← get;
      let locked_block := snd <$> (na_consensus self ≫= locked) in
      block ← build_consensus_proposal round (match valid_block with Some b => Some b | None => locked_block end);
      let block_id := block_id_from_hash (consensus_hash block) in
      _ ← modify (fun self => set_proposal_blocks (<[block_id := block]> (na_proposal_blocks self)) self);
      mret [ProposalReady height round block_id]
  | PersistBeforeBroadcast message ss =>
      signed ← sign_and_persist message ss;
      mret [Persisted signed]
  | Broadcast message => _ ← broadcast_consensus message; mret []
  | ScheduleTimeout t => _ ← emit (ScheduledTimeout t); mret []
  | Finalize finalization =>
      self ← get;
      block ← lift (some_context (na_proposal_blocks self !! f_block_id finalization)
                      "finalized proposal bytes are unavailable");
      certificate ← lift (with_context "convert consensus precommits to protocol certificate"
        (map_err CertificateInvalid (to_protocol (f_certificate finalization))));
      _ ← lift (with_context "verify protocol-compatible consensus certificate" (from_protocol
            (verify_for_block certificate block (node_validators self))));
      _ ← commit_finalized block certificate true;
      _ ← reset_consensus;
      mret []
  | EvidenceEffect evidence =>
      _ ← in_store (from_store (append_consensus_event (str "evidence") (evidence_debug evidence)));
      mret []
  end.

(** [for effect in effects { .. }], the pushed events collected. *)
Fixpoint process_effects (effects : list Effect) : nodeM AnyError (list Event) :=
  match effects with
  | [] => mret []
  | effect :: effects =>
      events ← process_effect effect;
      events' ← process_effects effects;
      mret (events ++ events')
  end.

(** [self.consensus.as_mut()?.step(event, &validator)?]. *)
Definition step_consensus (event : Event) : nodeM AnyError (list Effect) := fun self =>
  match na_consensus self with
  | None => (self, Err (Bail "validator consensus driver is missing"))
  | Some consensus =>
      let validator := mk_NodeMessageValidator (na_ledger self) (na_proposal_blocks self) (node_validators self) in
      let '(consensus, stepped) := step (H := node_message_validator validator) event consensus in
      (set_consensus (Some consensus) self,
       with_context "consensus state transition failed" (from_engine stepped))
  end.

(** The [while let Some(event) = pending_events.pop_front()] loop. *)
Fixpoint process_events (fuel : nat) (pending_events : list Event) : nodeM AnyError () :=
  match pending_events with
  | [] => mret ()
  | event :: pending_events =>
      match fuel with
      | O => throw BudgetExhausted
      | S fuel =>
          effects ← step_consensus event;
          pushed ← process_effects effects;
          process_events fuel (pending_events ++ pushed)
      end
  end.

Definition process_consensus_event (initial : Event) : nodeM AnyError () :=
  self ← get;
  if bool_decide (node_role self <> RoleValidator) || is_syncing self || na_halted self then mret ()
  else
  _ ← process_events EVENT_BUDGET [initial];
  publish_snapshot.

Definition ensure_consensus_started : nodeM AnyError () :=
  self ← get;
  if bool_decide (node_role self <> RoleValidator) || na_consensus_started self || is_syncing self || na_halted self
  then mret ()
  else
  _ ← modify (set_consensus_started true);
  process_consensus_event Start.

Fixpoint publish_wires (wires : list ConsensusWireMessage) : nodeM AnyError () :=
  match wires with
  | [] => mret ()
  | wire :: wires => _ ← publish_consensus_wire wire; publish_wires wires
  end.

Definition resume_interrupted_consensus : nodeM AnyError () :=
  self ← get;
  let rebroadcast_wires := na_recovery_broadcasts self in
  _ ← modify (set_recovery [] []);
  _ ← publish_wires rebroadcast_wires;
  _ ← modify (set_consensus_started true);
  process_consensus_event Start.
End node.
