(* ===== verification/Api.v ===== *)
(** * The HTTP API

    [crates/kcoin-node/src/api.rs]: the handler of every route, from the request
    that axum extracts to the response it serializes.  A handler runs beside the
    actor: between two of its calls on the node's handle the actor may go on, so
    each call first sees what the actor has become ([api_later]).  Routing, the
    rendering of JSON and the event stream are axum's and serde's. *)

From S2P Require Import Prelude Errors Crypto Transaction Block Commit Ledger ConsensusTypes Engine Sqlite Store NodeTypes Projection NodeState Node.

(** [base64::STANDARD]. *)
Class Base64 : Type := {
  base64_encode : bytes -> ustring;
  base64_decode : ustring -> option bytes
}.
Class Base64Laws `{Base64} : Prop :=
  base64_decode_encode : forall b, base64_decode (base64_encode b) = Some b.

(** [chrono::DateTime]. *)
Class Chrono : Type := {
  DateTime : Type;
  from_timestamp_millis : Z -> option DateTime;
  UNIX_EPOCH : DateTime;
  to_rfc3339 : DateTime -> ustring
}.

(** [timestamp_ms as i64]. *)
Definition as_i64 (n : Z) : Z := if n <=? i64_max then n else n - 2 ^ 64.

Definition timestamp_iso `{Chrono} (timestamp_ms : Z) : ustring :=
  to_rfc3339 (default UNIX_EPOCH (from_timestamp_millis (as_i64 timestamp_ms))).

(** ** Errors *)

(** [StatusCode], as its number. *)
Definition OK : Z := 200.
Definition ACCEPTED : Z := 202.
Definition BAD_REQUEST : Z := 400.
Definition NOT_FOUND : Z := 404.
Definition CONFLICT : Z := 409.
Definition UNPROCESSABLE_ENTITY : Z := 422.
Definition INTERNAL_SERVER_ERROR : Z := 500.
Definition SERVICE_UNAVAILABLE : Z := 503.

Record ApiError : Type := mk_ApiError {
  ae_status : Z;
  ae_code : ustring;
  ae_message : ustring
}.

Definition bad_request (code message : ustring) : ApiError := mk_ApiError BAD_REQUEST code message.
Definition not_found (code message : ustring) : ApiError := mk_ApiError NOT_FOUND code message.
Definition unavailable (code message : ustring) : ApiError := mk_ApiError SERVICE_UNAVAILABLE code message.
Definition internal (message : ustring) : ApiError := mk_ApiError INTERNAL_SERVER_ERROR (str "INTERNAL") message.

(** [ApiError::validation]. *)
Definition validation_error (error : ValidationError) : ApiError :=
  let status :=
    match error with
    | DuplicateTransaction => CONFLICT
    | InsufficientBalance _ _ | NonceMismatch _ _ | StaleChallenge _ _ | WrongChallengeAnswer | Expired _ _ =>
        UNPROCESSABLE_ENTITY
    | _ => BAD_REQUEST
    end in
  mk_ApiError status (str (code error)) (error_message error).

(** [From<StorageError>]; the error itself is only logged. *)
Definition from_storage_error (_ : StorageError) : ApiError :=
  internal (str "persistent explorer data is temporarily unavailable").

(** ** Requests and responses *)

Record CursorQuery : Type := mk_CursorQuery { cq_cursor : option ustring; cq_limit : option Z }.

Record Paginated (T : Type) : Type := mk_Paginated { items : list T; next_cursor : option ustring }.
Arguments mk_Paginated {T} _ _.
Arguments items {T} _.
Arguments next_cursor {T} _.

Record ValidatorResponse : Type := mk_ValidatorResponse {
  vr_id : ustring;
  vr_name : ustring;
  vr_index : Z;
  vr_online : bool;
  vr_phase : ustring;
  vr_height : ustring;
  vr_round : Z;
  vr_block_hash : ustring;
  vr_state_root : ustring;
  vr_sync_progress : option SyncProgress;
  vr_last_seen_ms : ustring
}.

Record StatusResponse : Type := mk_StatusResponse {
  sr_chain_id : ustring;
  sr_protocol_version : Z;
  sr_height : ustring;
  sr_finalized_hash : ustring;
  sr_state_root : ustring;
  sr_circulating_supply_atoms : ustring;
  sr_max_supply_atoms : ustring;
  sr_mempool_size : ustring;
  sr_peer_count : ustring;
  sr_block_time_ms : ustring;
  sr_validators : list ValidatorResponse;
  sr_syncing : bool;
  sr_halted : bool
}.

Record ChallengeResponse : Type := mk_ChallengeResponse {
  cr_challenge_id : ustring;
  cr_expression : ustring;
  cr_issued_at_height : ustring;
  cr_reward_atoms : ustring
}.

(** [serde_json::from_str], with the text of its error. *)
Class ChallengeResponseJson : Type := challenge_response_from_str : ustring -> result ustring ChallengeResponse.

Record ExplorerCommitSignature : Type := mk_ExplorerCommitSignature {
  ecs_validator : ustring;
  ecs_signature : ustring
}.

Record ExplorerCertificate : Type := mk_ExplorerCertificate {
  ec_chain_id : ustring;
  ec_height : ustring;
  ec_round : Z;
  ec_consensus_value_hash : ustring;
  ec_signatures : list ExplorerCommitSignature
}.

Record ExplorerTransaction : Type := mk_ExplorerTransaction {
  et_id : ustring;
  et_kind : ustring;
  et_status : ustring;
  et_sender : ustring;
  et_recipient : option ustring;
  et_amount_atoms : ustring;
  et_nonce : ustring;
  et_display_name : option ustring;
  et_block_height : ustring;
  et_block_hash : ustring;
  et_timestamp : ustring
}.

Record ExplorerBlock : Type := mk_ExplorerBlock {
  eb_height : ustring;
  eb_hash : ustring;
  eb_parent_hash : ustring;
  eb_proposer : ustring;
  eb_round : Z;
  eb_header_proposer : ustring;
  eb_header_round : Z;
  eb_timestamp : ustring;
  eb_transaction_count : ustring;
  eb_transaction_root : ustring;
  eb_state_root : ustring;
  eb_signers : list ustring;
  eb_certificate : ExplorerCertificate;
  eb_transactions : option (list ExplorerTransaction)
}.

Record AddressResponse : Type := mk_AddressResponse {
  ar_address : ustring;
  ar_display_name : option ustring;
  ar_balance_atoms : ustring;
  ar_nonce : ustring;
  ar_transaction_count : ustring;
  ar_first_seen_height : option ustring;
  ar_transactions : list ExplorerTransaction
}.

Record LeaderboardEntry : Type := mk_LeaderboardEntry {
  le_rank : Z;
  le_address : ustring;
  le_display_name : option ustring;
  le_balance_atoms : ustring;
  le_share_bps : Z;
  le_transaction_count : ustring
}.

Record Concentration : Type := mk_Concentration { top_1_bps : Z; top_5_bps : Z; top_10_bps : Z }.

Record LeaderboardResponse : Type := mk_LeaderboardResponse {
  lr_entries : list LeaderboardEntry;
  lr_next_cursor : option ustring;
  lr_circulating_supply_atoms : ustring;
  lr_unissued_supply_atoms : ustring;
  lr_concentration : Concentration
}.

Inductive ActionSubmission : Type :=
| SubmitTransfer (recipient amount_atoms : ustring)
| SubmitClaimReward (challenge_id answer : ustring)
| SubmitSetDisplayName (display_name : option ustring).

Record TransactionSubmission : Type := mk_TransactionSubmission {
  ts_protocol_version : Z;
  ts_chain_id : ustring;
  ts_sender_public_key : ustring;
  ts_nonce : ustring;
  ts_expiry_height : ustring;
  ts_action : ActionSubmission;
  ts_signature : ustring
}.

Record SubmissionResponse : Type := mk_SubmissionResponse {
  sub_transaction_id : ustring;
  sub_status : ustring
}.

(** ** Parsing *)

Definition parse_u64 (value field : ustring) : result ApiError Z :=
  ok_or (parse_uint u64_max value)
    (bad_request (str "MALFORMED") (field ++ str " must be an unsigned 64-bit decimal string")).

(** [str::split_once(':')]. *)
Fixpoint split_once (sep : Z) (s : ustring) : option (ustring * ustring) :=
  match s with
  | [] => None
  | c :: s => if c =? sep then Some ([], s) else '(a, b) ← split_once sep s; Some (c :: a, b)
  end.

Definition malformed_cursor (message : ustring) : ApiError := bad_request (str "MALFORMED_CURSOR") message.

Definition parse_transaction_cursor (value : ustring) : result ApiError (Z * Z) :=
  '(height, index) ← ok_or (split_once 58 value)
                       (malformed_cursor (str "transaction cursor must have height:index form"));
  height ← ok_or (parse_uint u64_max height)
             (malformed_cursor (str "transaction cursor height must be an unsigned decimal integer"));
  index ← ok_or (parse_uint u32_max index)
            (malformed_cursor (str "transaction cursor index must be an unsigned decimal integer"));
  Ok (height, index).

Definition basis_points (value total : Z) : Z :=
  if total =? 0 then 0 else Z.min (value * 10000 / total) 10000.

Definition api_operation_symbol (operation : ChallengeOperation) : ustring :=
  match operation with
  | Add => [43]
  | Subtract => [0x2212]
  | Multiply => [0xD7]
  end.

(** [option.map(f).transpose()?]. *)
Definition transpose {A B E} (f : A -> result E B) (o : option A) : result E (option B) :=
  match o with
  | Some a => b ← f a; Ok (Some b)
  | None => Ok None
  end.

(** [query.limit.unwrap_or(n).clamp(1, 100)]. *)
Definition page_limit (query : CursorQuery) (n : Z) : Z := clamp 1 100 (default n (cq_limit query)).

(** [rows.len() > limit], then [rows.truncate(limit)]. *)
Definition has_more {A} (limit : Z) (rows : list A) : bool := limit <? Z.of_nat (length rows).
Definition truncate {A} (limit : Z) (rows : list A) : list A := take (Z.to_nat limit) rows.

Definition decode_fixed `{Base64} (n : nat) (value field : ustring) : result ApiError (array n) :=
  b ← ok_or (base64_decode value) (bad_request (str "MALFORMED") (field ++ str " must be canonical base64"));
  ok_or (array_try_from n b)
    (bad_request (str "MALFORMED") (field ++ str " must contain " ++ to_string (Z.of_nat n) ++ str " bytes")).

(** ** The handlers *)

Section handlers.
Context `{Blake3, Blake3Checksum, Ed25519, !SigningKeyBytes, Hex, Bech32, ChallengeJson, Libp2p,
          !Borsh UnsignedTransaction, !Borsh SignedTransaction, !Borsh BlockHeader, !Borsh Block,
          !Borsh StateCommitment, !Borsh CommitVote, !Borsh CommitCertificate,
          !Borsh SignableMessage, !Borsh SignedMessage, !Borsh SignedProposal,
          !Borsh FinalizedWireRecord, !Borsh ValidatorStatusMessage, !SerdeJson SafetyState}.
Context `{Base64, Chrono, ChallengeResponseJson}.

(** What a handler sees through its [NodeHandle]: the actor, what it becomes
    before each coming call, and whether it still takes commands. *)
Record ApiState : Type := mk_ApiState {
  api_node : NodeActor;
  api_later : list NodeActor;
  api_running : bool
}.

Abbreviation apiM := (stE ApiState ApiError).

(** The actor goes on before a call. *)
Definition advance (s : ApiState) : ApiState :=
  match api_later s with
  | [] => s
  | node :: later => mk_ApiState node later (api_running s)
  end.

Definition set_node (node : NodeActor) (s : ApiState) : ApiState :=
  mk_ApiState node (api_later s) (api_running s).

(** [handle.snapshot()]. *)
Definition snapshot : apiM RuntimeSnapshot := fun s =>
  let s := advance s in (s, Ok (na_snapshot (api_node s))).

(** [handle.store()] and one of its methods. *)
Definition on_store {A} (m : storeM A) : apiM A := fun s =>
  let s := advance s in
  let '(store, r) := m (na_store (api_node s)) in
  (set_node (set_store store (api_node s)) s, map_err from_storage_error r).

(** [handle.submit(..).await]. *)
Definition submit (t : SignedTransaction) : apiM SubmissionReceipt := fun s =>
  let s := advance s in
  if negb (api_running s) then (s, Err (validation_error Malformed))
  else
    let '(node, r) := accept_transaction t true (api_node s) in
    (set_node node s, map_err validation_error r).

(** *** Status *)

Definition status_response (snapshot : RuntimeSnapshot) : StatusResponse :=
  mk_StatusResponse (snap_chain_id snapshot) (snap_protocol_version snapshot) (snap_height snapshot)
    (snap_finalized_hash snapshot) (snap_state_root snapshot) (snap_circulating_supply_atoms snapshot)
    (snap_max_supply_atoms snapshot) (to_string (snap_mempool_size snapshot))
    (to_string (snap_peer_count snapshot)) (to_string (snap_block_time_ms snapshot))
    ((fun v => mk_ValidatorResponse (vv_id v) (vv_name v) (vv_index v) (vv_online v) (vv_phase v) (vv_height v)
                 (vv_round v) (vv_block_hash v) (vv_state_root v) (vv_sync_progress v)
                 (to_string (vv_last_seen_ms v))) <$> snap_validators snapshot)
    (snap_syncing snapshot) (snap_halted snapshot).

Definition get_status : apiM StatusResponse :=
  snapshot ← snapshot;
  mret (status_response snapshot).

Definition get_validators : apiM (list ValidatorResponse) :=
  snapshot ← snapshot;
  mret (sr_validators (status_response snapshot)).

(** [.parse::<u64>().unwrap_or_default()]. *)
Definition parse_supply (s : ustring) : Z := default 0 (parse_uint u64_max s).

Definition get_challenge : apiM ChallengeResponse :=
  stored ← on_store (metadata_value (str "challenge"));
  match stored with
  | Some value =>
      lift (map_err (fun error => internal (str "stored challenge is invalid: " ++ error))
              (challenge_response_from_str value))
  | None =>
      snapshot ← snapshot;
      let challenge := for_id 0 in
      let supply := parse_supply (snap_circulating_supply_atoms snapshot) in
      mret (mk_ChallengeResponse (to_string (ch_id challenge))
              (to_string (ch_left challenge) ++ str " " ++ api_operation_symbol (ch_operation challenge) ++
                 str " " ++ to_string (ch_right challenge))
              (snap_height snapshot) (to_string (default 0 (reward_for_supply supply))))
  end.

(** The status code and the status of [/health/ready]. *)
Definition health_ready : apiM (Z * ustring * ustring) :=
  snapshot ← snapshot;
  if snap_halted snapshot then mret (SERVICE_UNAVAILABLE, str "halted", snap_height snapshot)
  else if snap_syncing snapshot then mret (SERVICE_UNAVAILABLE, str "syncing", snap_height snapshot)
  else mret (OK, str "ready", snap_height snapshot).

(** A line feed. *)
Definition newline : ustring := [10].

Definition metrics : apiM ustring :=
  snapshot ← snapshot;
  mret (str "# TYPE kcoin_chain_height gauge" ++ newline ++
        str "kcoin_chain_height " ++ snap_height snapshot ++ newline ++
        str "# TYPE kcoin_mempool_size gauge" ++ newline ++
        str "kcoin_mempool_size " ++ to_string (snap_mempool_size snapshot) ++ newline ++
        str "# TYPE kcoin_connected_peers gauge" ++ newline ++
        str "kcoin_connected_peers " ++ to_string (snap_peer_count snapshot) ++ newline ++
        str "# TYPE kcoin_circulating_supply_atoms gauge" ++ newline ++
        str "kcoin_circulating_supply_atoms " ++ snap_circulating_supply_atoms snapshot ++ newline).

(** *** The explorer's blocks and transactions *)

Definition explorer_transaction (row : TransactionRow) : apiM ExplorerTransaction :=
  block ← on_store (block_by_height (tw_block_height row));
  block ← lift (ok_or block (internal (str "transaction references a missing block")));
  canonical_block ← lift (map_err validation_error (block_decode (br_block_bytes block)));
  canonical_transaction ← lift (ok_or
    (t ← Block.transactions canonical_block !! Z.to_nat (tw_index row);
     if bool_decide (hash_to_string (tx_id t) = tw_id row) then Some t else None)
    (internal (str "transaction projection disagrees with canonical block history")));
  display_name ←
    match tx_action (unsigned canonical_transaction) with
    | SetDisplayName display_name => mret display_name
    | Transfer _ _ | ClaimReward _ _ =>
        account ← on_store (Store.account (tw_sender row));
        mret (account ≫= ap_display_name)
    end;
  mret (mk_ExplorerTransaction (tw_id row) (tw_kind row) (str "finalized") (tw_sender row) (tw_recipient row)
          (to_string (tw_amount_atoms row)) (to_string (tw_nonce row)) display_name
          (to_string (tw_block_height row)) (br_block_hash block) (timestamp_iso (br_timestamp_ms block))).

Fixpoint explorer_rows (rows : list TransactionRow) : apiM (list ExplorerTransaction) :=
  match rows with
  | [] => mret []
  | row :: rows =>
      transaction ← explorer_transaction row;
      transactions ← explorer_rows rows;
      mret (transaction :: transactions)
  end.

(** The transactions of a block, through their projection. *)
Fixpoint block_explorer_transactions (txs : list SignedTransaction) : apiM (list ExplorerTransaction) :=
  match txs with
  | [] => mret []
  | t :: txs =>
      row ← on_store (Store.transaction (hash_to_string (tx_id t)));
      row ← lift (ok_or row (internal (str "transaction projection is missing from finalized block")));
      transaction ← explorer_transaction row;
      transactions ← block_explorer_transactions txs;
      mret (transaction :: transactions)
  end.

Definition validator_name (v : ValidatorView) : ustring := str "validator-" ++ to_string (vv_index v + 1).

Definition validator_label (snapshot : RuntimeSnapshot) (validator_hex : ustring) : ustring :=
  match head (filter (fun v => vv_id v = validator_hex) (snap_validators snapshot)) with
  | Some v => validator_name v
  | None => validator_hex
  end.

(** The proposer the certificate's round elects, among the snapshot's validators. *)
Definition finality_proposer (snapshot : RuntimeSnapshot) (certificate : CommitCertificate) (row : BlockRow) :
    ustring :=
  let count := Z.of_nat (length (snap_validators snapshot)) in
  if count =? 0 then br_proposer row
  else
    let height_offset := saturating_sub (cc_height certificate) 1 mod count in
    let round_offset := cc_round certificate mod count in
    match snap_validators snapshot !! Z.to_nat ((height_offset + round_offset) mod count) with
    | Some v => validator_name v
    | None => br_proposer row
    end.

Definition certificate_view (certificate : CommitCertificate) : ExplorerCertificate :=
  mk_ExplorerCertificate (as_str (cc_chain_id certificate)) (to_string (cc_height certificate))
    (cc_round certificate) (hash_to_string (cc_block_hash certificate))
    ((fun s => mk_ExplorerCommitSignature (hex_encode (as_bytes (cs_validator s)))
                 (hex_encode (as_bytes (cs_signature s)))) <$> cc_signatures certificate).

Definition explorer_block (row : BlockRow) (include_transactions : bool) : apiM ExplorerBlock :=
  block ← lift (map_err validation_error (block_decode (br_block_bytes row)));
  certificate ← lift (map_err validation_error (certificate_decode (br_certificate_bytes row)));
  snapshot ← snapshot;
  transactions ←
    (if include_transactions
     then transactions ← block_explorer_transactions (Block.transactions block); mret (Some transactions)
     else mret None);
  mret (mk_ExplorerBlock (to_string (br_height row)) (br_block_hash row) (br_parent_hash row)
          (finality_proposer snapshot certificate row) (cc_round certificate)
          (validator_label snapshot (br_proposer row)) (br_round row) (timestamp_iso (br_timestamp_ms row))
          (to_string (Z.of_nat (length (Block.transactions block))))
          (hash_to_string (bh_transactions_root (header block))) (br_state_root row)
          ((fun s => validator_label snapshot (hex_encode (as_bytes (cs_validator s)))) <$>
             cc_signatures certificate)
          (certificate_view certificate) transactions).

Fixpoint explorer_blocks (rows : list BlockRow) : apiM (list ExplorerBlock) :=
  match rows with
  | [] => mret []
  | row :: rows =>
      block ← explorer_block row false;
      blocks ← explorer_blocks rows;
      mret (block :: blocks)
  end.

Definition get_blocks (query : CursorQuery) : apiM (Paginated ExplorerBlock) :=
  before ← lift (transpose
    (fun cursor => ok_or (parse_uint u64_max cursor) (malformed_cursor (str "cursor must be a block height")))
    (cq_cursor query));
  let limit := page_limit query 25 in
  rows ← on_store (list_blocks before (limit + 1));
  let more := has_more limit rows in
  let rows := truncate limit rows in
  let next := if more then (fun row => to_string (br_height row)) <$> last rows else None in
  items ← explorer_blocks rows;
  mret (mk_Paginated items next).

Definition get_block (selector : ustring) : apiM ExplorerBlock :=
  row ← match parse_uint u64_max selector with
        | Some height => on_store (block_by_height height)
        | None => on_store (block_by_hash selector)
        end;
  row ← lift (ok_or row (not_found (str "BLOCK_NOT_FOUND") (str "block was not found")));
  explorer_block row true.

Definition transaction_cursor (row : TransactionRow) : ustring :=
  to_string (tw_block_height row) ++ 58 :: to_string (tw_index row).

Definition get_transactions (query : CursorQuery) : apiM (Paginated ExplorerTransaction) :=
  before ← lift (transpose parse_transaction_cursor (cq_cursor query));
  let limit := page_limit query 25 in
  rows ← on_store (list_transactions before (limit + 1));
  let more := has_more limit rows in
  let rows := truncate limit rows in
  let next := if more then transaction_cursor <$> last rows else None in
  items ← explorer_rows rows;
  mret (mk_Paginated items next).

Definition get_transaction (id : ustring) : apiM ExplorerTransaction :=
  row ← on_store (Store.transaction id);
  row ← lift (ok_or row (not_found (str "TRANSACTION_NOT_FOUND") (str "transaction was not found")));
  explorer_transaction row.

(** *** Addresses *)

Definition get_address (address : ustring) : apiM AddressResponse :=
  parsed ← lift (map_err validation_error (address_from_str address));
  account ← on_store (Store.account address);
  rows ← on_store (address_transactions address 100);
  transactions ← explorer_rows rows;
  first_seen ← on_store (account_first_seen_height address);
  mret (mk_AddressResponse (address_to_string parsed) (account ≫= ap_display_name)
          (match account with Some account => to_string (ap_balance_atoms account) | None => str "0" end)
          (match account with Some account => to_string (ap_nonce account) | None => str "0" end)
          (to_string (match account with Some account => ap_transaction_count account | None => 0 end))
          (to_string <$> first_seen) transactions).

Definition leaderboard_entry (offset supply : Z) (index : nat) (account : AccountProjection) : LeaderboardEntry :=
  mk_LeaderboardEntry
    (saturating_add u32_max (saturating_add u32_max offset (wrap u32_max (Z.of_nat index))) 1)
    (ap_address account) (ap_display_name account) (to_string (ap_balance_atoms account))
    (basis_points (ap_balance_atoms account) supply) (to_string (ap_transaction_count account)).

(** The share of the richest [count]; the balances add up to at most the supply. *)
Definition concentration_for (accounts : list AccountProjection) (supply : Z) (count : nat) : Z :=
  basis_points (foldr Z.add 0 (ap_balance_atoms <$> take count accounts)) supply.

Definition get_leaderboard (query : CursorQuery) : apiM LeaderboardResponse :=
  snapshot ← snapshot;
  let supply := parse_supply (snap_circulating_supply_atoms snapshot) in
  offset ← lift (transpose
    (fun cursor => ok_or (parse_uint u32_max cursor) (malformed_cursor (str "cursor must be a decimal row offset")))
    (cq_cursor query));
  let offset := default 0 offset in
  let limit := page_limit query 30 in
  accounts ← on_store (leaderboard_page (limit + 1) offset);
  let more := has_more limit accounts in
  let accounts := truncate limit accounts in
  richest ← on_store (leaderboard 10);
  mret (mk_LeaderboardResponse (imap (leaderboard_entry offset supply) accounts)
          (if more then Some (to_string (saturating_add u32_max offset limit)) else None)
          (to_string supply) (to_string (saturating_sub MAX_SUPPLY_ATOMS supply))
          (mk_Concentration (concentration_for richest supply 1) (concentration_for richest supply 5)
             (concentration_for richest supply 10))).

(** *** Submission *)

Definition action_from_submission (action : ActionSubmission) : result ApiError TransactionAction :=
  match action with
  | SubmitTransfer recipient amount_atoms =>
      recipient ← map_err validation_error (address_from_str recipient);
      amount_atoms ← parse_u64 amount_atoms (str "amount_atoms");
      Ok (Transfer recipient amount_atoms)
  | SubmitClaimReward challenge_id answer =>
      challenge_id ← parse_u64 challenge_id (str "challenge_id");
      answer ← ok_or (parse_uint u16_max answer)
                 (bad_request (str "MALFORMED") (str "answer must be an unsigned 16-bit integer"));
      Ok (ClaimReward challenge_id answer)
  | SubmitSetDisplayName display_name => Ok (SetDisplayName display_name)
  end.

Definition transaction_from_submission (submission : TransactionSubmission) : result ApiError SignedTransaction :=
  public_key ← decode_fixed 32 (ts_sender_public_key submission) (str "sender_public_key");
  signature ← decode_fixed 64 (ts_signature submission) (str "signature");
  chain_id ← map_err validation_error (chain_id_new (ts_chain_id submission));
  nonce ← parse_u64 (ts_nonce submission) (str "nonce");
  expiry_height ← parse_u64 (ts_expiry_height submission) (str "expiry_height");
  action ← action_from_submission (ts_action submission);
  map_err validation_error (from_parts
    (mk_UnsignedTransaction (ts_protocol_version submission) chain_id public_key nonce expiry_height action) signature).

Definition ensure_submission_ready (snapshot : RuntimeSnapshot) : result ApiError () :=
  if snap_halted snapshot
  then Err (unavailable (str "NODE_HALTED") (str "node is safety-halted and cannot accept transactions"))
  else if snap_syncing snapshot
  then Err (unavailable (str "NODE_SYNCING")
              (str "node is verifying finalized history and cannot accept transactions"))
  else Ok ().

(** [payload] is [None] where axum could not read the JSON body. *)
Definition submit_transaction (payload : option TransactionSubmission) : apiM (Z * SubmissionResponse) :=
  snapshot ← snapshot;
  _ ← lift (ensure_submission_ready snapshot);
  submission ← lift (ok_or payload (bad_request (str "MALFORMED")
    (str "request body must be valid transaction JSON with application/json content type")));
  transaction ← lift (transaction_from_submission submission);
  receipt ← submit transaction;
  mret (ACCEPTED, mk_SubmissionResponse (hash_to_string (transaction_id receipt)) (str "pending")).
End handlers.
