(* ===== verification/Cli.v ===== *)
(** * The wallet command line

    [crates/kcoin-cli/src/main.rs]: the wallet file, the transactions the tool
    signs and the body it submits them in, [verify_database] on an opened store
    and the benchmark.  Files, HTTP responses, clocks and fresh keys come from the
    environment: a script in the state ([CliState]); the parsing of arguments
    and the printing of reports are clap's and [println!]'s. *)

From S2P Require Import Prelude Errors Crypto Transaction Block Commit Ledger ConsensusTypes Engine Sqlite Store NodeTypes Projection NodeState Node Api.

Definition WALLET_FORMAT : ustring := str "kcoin-secret-seed-v1".

Record WalletFile : Type := mk_WalletFile {
  wf_format : ustring;
  wf_secret_seed : ustring;
  wf_public_key : ustring;
  wf_address : ustring
}.

(** [serde_json::to_vec_pretty] and [from_slice] of [WalletFile]. The law is
    serde's round trip; trailing white space is accepted. *)
Class WalletJson : Type := {
  wallet_to_json : WalletFile -> option bytes;
  wallet_from_json : bytes -> option WalletFile
}.
Class WalletJsonLaws `{WalletJson} : Prop :=
  wallet_from_to : forall w b, wallet_to_json w = Some b -> wallet_from_json (b ++ [x0a]) = Some w.

(** [SigningKey::to_bytes]. *)
Class SigningKeySeed `{Ed25519} : Type := signing_key_to_bytes : SigningKey -> array 32.
Class SigningKeySeedLaws `{SigningKeySeed, !SigningKeyBytes} : Prop :=
  signing_key_from_to : forall k, signing_key_from_bytes (signing_key_to_bytes k) = k.

(** [serde_json::Value] and the accessors the tool uses. *)
Class JsonValue : Type := {
  Value : Type;
  value_from_slice : bytes -> option Value;
  get_str : Value -> ustring -> option ustring;
  get_u64 : Value -> ustring -> option Z;
  get_bool : Value -> ustring -> option bool;
  get_array : Value -> ustring -> option (list Value)
}.
Class ChallengeResponseSlice : Type := challenge_response_from_slice : bytes -> option ChallengeResponse.

(** ** Pure helpers *)

(** [base.trim_end_matches('/')]. *)
Fixpoint skip_slashes (s : ustring) : ustring :=
  match s with
  | c :: s' => if c =? 47 then skip_slashes s' else s
  | [] => []
  end.
Definition trim_end_slashes (s : ustring) : ustring := reverse (skip_slashes (reverse s)).

Definition endpoint (base path : ustring) : ustring := trim_end_slashes base ++ path.

(** [sorted[index] as f64], [None] where the index panics. *)
Definition percentile (raw_micros : list Z) (p : Z) : option Z :=
  let sorted := sort_by Z.leb raw_micros in
  let index := saturating_sub ((p * Z.of_nat (length sorted) + 99) / 100) 1 in
  sorted !! Z.to_nat index.

(** ** The state *)

Section cli.
Context `{Blake3, Blake3Checksum, Ed25519, !SigningKeyBytes, Hex, Bech32, ChallengeJson,
          !Borsh UnsignedTransaction, !Borsh SignedTransaction, !Borsh BlockHeader, !Borsh Block,
          !Borsh StateCommitment, !Borsh CommitVote, !Borsh CommitCertificate}.
Context `{Base64, !WalletJson, !SigningKeySeed, JsonValue, !ChallengeResponseSlice}.

Inductive HttpRequest : Type :=
| HttpGet (url : ustring)
| HttpPost (url : ustring) (body : TransactionSubmission).

(** The files; whether each coming file operation succeeds; the status and the
    body of each coming response, [None] where the request fails; the coming
    readings of [Instant::now] in nanoseconds and of [OsRng]; the requests sent. *)
Record CliState : Type := mk_CliState {
  cli_files : gmap ustring bytes;
  cli_io : list bool;
  cli_responses : list (option (Z * bytes));
  cli_instants : list Z;
  cli_keys : list SigningKey;
  cli_requests : list HttpRequest
}.

Abbreviation cliM := (stE CliState AnyError).

Definition set_files (f : gmap ustring bytes -> gmap ustring bytes) (s : CliState) : CliState :=
  mk_CliState (f (cli_files s)) (cli_io s) (cli_responses s) (cli_instants s) (cli_keys s) (cli_requests s).

(** A file operation that changes the files where it succeeds. *)
Definition file_operation (f : gmap ustring bytes -> gmap ustring bytes) : cliM () := fun s =>
  let s' := mk_CliState (cli_files s) (tail (cli_io s)) (cli_responses s) (cli_instants s) (cli_keys s)
              (cli_requests s) in
  if default true (head (cli_io s)) then (set_files f s', Ok ()) else (s', Err IoFailed).

Definition instant_now : cliM Z := fun s =>
  (mk_CliState (cli_files s) (cli_io s) (cli_responses s) (tail (cli_instants s)) (cli_keys s) (cli_requests s),
   Ok (default 0 (head (cli_instants s)))).

(** [SigningKey::generate(&mut OsRng)]; the script has a key for each call. *)
Definition generate_key : cliM SigningKey := fun s =>
  (mk_CliState (cli_files s) (cli_io s) (cli_responses s) (cli_instants s) (tail (cli_keys s)) (cli_requests s),
   ok_or (head (cli_keys s)) IoFailed).

(** [client.get(..).send().await?] and [post]. *)
Definition send (request : HttpRequest) : cliM (Z * bytes) := fun s =>
  (mk_CliState (cli_files s) (cli_io s) (tail (cli_responses s)) (cli_instants s) (cli_keys s)
     (cli_requests s ++ [request]),
   match head (cli_responses s) with Some (Some response) => Ok response | _ => Err NetworkFailed end).

(** ** Wallets *)

(** [write_secret_file]: opening truncates; without [force] it must create. *)
Definition write_secret_file (path : ustring) (contents : bytes) (force : bool) : cliM () :=
  s ← get;
  if negb force && bool_decide (is_Some (cli_files s !! path)) then throw IoFailed
  else
  _ ← file_operation <[path := []]>;
  _ ← file_operation <[path := contents]>;
  _ ← file_operation <[path := contents ++ [x0a]]>;
  file_operation id.

Definition wallet_file (signing_key : SigningKey) : WalletFile :=
  let public_key := verifying_key signing_key in
  mk_WalletFile WALLET_FORMAT (base64_encode (as_bytes (signing_key_to_bytes signing_key)))
    (base64_encode (as_bytes public_key)) (address_to_string (address_from_public_key public_key)).

(** [create_parent] is whether the path has a non-empty parent. *)
Definition generate_wallet (output : ustring) (force create_parent : bool) : cliM ustring :=
  s ← get;
  if bool_decide (is_Some (cli_files s !! output)) && negb force
  then throw (Bail "already exists; pass --force to replace it")
  else
  _ ← (if create_parent then file_operation id else mret ());
  signing_key ← generate_key;
  let file := wallet_file signing_key in
  encoded ← lift (ok_or (wallet_to_json file) JsonFailed);
  _ ← write_secret_file output encoded force;
  mret (wf_address file).

Definition load_wallet (path : ustring) : cliM SigningKey :=
  s ← get;
  _ ← file_operation id;
  b ← lift (ok_or (cli_files s !! path) IoFailed);
  wallet ← lift (some_context (wallet_from_json b) "decode wallet JSON");
  if bool_decide (wf_format wallet <> WALLET_FORMAT) then throw (Bail "unsupported wallet format")
  else
  seed ← lift (some_context (base64_decode (wf_secret_seed wallet)) "wallet seed is not base64");
  seed ← lift (some_context (array_try_from 32 seed) "wallet seed must contain exactly 32 bytes");
  let key := signing_key_from_bytes seed in
  let public := verifying_key key in
  if bool_decide (base64_encode (as_bytes public) <> wf_public_key wallet)
  then throw (Bail "wallet public key does not match secret seed")
  else if bool_decide (address_to_string (address_from_public_key public) <> wf_address wallet)
  then throw (Bail "wallet address does not match secret seed")
  else mret key.

Definition show_wallet_address (path : ustring) : cliM ustring :=
  key ← load_wallet path;
  mret (address_to_string (address_from_public_key (verifying_key key))).

(** ** HTTP *)

Definition is_success (status : Z) : bool := (200 <=? status) && (status <? 300).

(** [parse_response]: the body of a success, decoded. *)
Definition parse_response {T} (from_slice : bytes -> option T) (response : Z * bytes) : result AnyError T :=
  if negb (is_success response.1) then Err (Bail "node returned HTTP error")
  else some_context (from_slice response.2) "decode node JSON response".

Definition get_json (api_url path : ustring) : cliM Value :=
  response ← send (HttpGet (endpoint api_url path));
  lift (parse_response value_from_slice response).

Definition string_field (value : Value) (field : ustring) : result AnyError ustring :=
  some_context (get_str value field) "node response omitted string field".

Definition decimal_field (value : Value) (field : ustring) : result AnyError Z :=
  s ← string_field value field;
  some_context (parse_uint u64_max s) "node field is not an unsigned decimal string".

Record AccountView : Type := mk_AccountView { av_balance_atoms : Z; av_nonce : Z }.

Definition get_account (api_url : ustring) (address : Address) : cliM (option AccountView) :=
  response ← send (HttpGet (endpoint api_url (str "/api/v1/addresses/" ++ address_to_string address)));
  if response.1 =? NOT_FOUND then mret None
  else
  value ← lift (parse_response value_from_slice response);
  balance_atoms ← lift (decimal_field value (str "balance_atoms"));
  nonce ← lift (decimal_field value (str "nonce"));
  mret (Some (mk_AccountView balance_atoms nonce)).

(** The command [challenge] asks for the same document. *)
Definition fetch_challenge (api_url : ustring) : cliM ChallengeResponse :=
  response ← send (HttpGet (endpoint api_url (str "/api/v1/challenge")));
  lift (parse_response challenge_response_from_slice response).

Definition sign_transaction (chain_id : ustring) (signing_key : SigningKey) (nonce expiry_height : Z)
    (action : TransactionAction) : result AnyError SignedTransaction :=
  chain_id ← from_protocol (chain_id_new chain_id);
  with_context "sign transaction" (from_protocol
    (sign (unsigned_new chain_id (verifying_key signing_key) nonce expiry_height action) signing_key)).

Definition action_submission (action : TransactionAction) : ActionSubmission :=
  match action with
  | Transfer recipient amount_atoms => SubmitTransfer (address_to_string recipient) (to_string amount_atoms)
  | ClaimReward challenge_id answer => SubmitClaimReward (to_string challenge_id) (to_string answer)
  | SetDisplayName display_name => SubmitSetDisplayName display_name
  end.

(** The JSON body of [submit]. *)
Definition submission_of (t : SignedTransaction) : TransactionSubmission :=
  let u := unsigned t in
  mk_TransactionSubmission (tx_protocol_version u) (as_str (tx_chain_id u))
    (base64_encode (as_bytes (tx_sender_public_key u))) (to_string (tx_nonce u)) (to_string (tx_expiry_height u))
    (action_submission (tx_action u)) (base64_encode (as_bytes (tx_signature t))).

Definition submit_to_node (api_url : ustring) (t : SignedTransaction) : cliM ustring :=
  response ← send (HttpPost (endpoint api_url (str "/api/v1/transactions")) (submission_of t));
  value ← lift (parse_response value_from_slice response);
  lift (string_field value (str "transaction_id")).

(** The loop of [wait_for_finality]: each turn takes a response, and ends the
    loop where there is none. *)
Fixpoint wait_loop (fuel : nat) (url : ustring) (deadline : Z) : cliM () :=
  match fuel with
  | O => throw BudgetExhausted
  | S fuel =>
      response ← send (HttpGet url);
      if is_success response.1 then mret ()
      else
      _ ← (if response.1 =? NOT_FOUND then mret ()
           else _ ← lift (parse_response value_from_slice response); mret ());
      now ← instant_now;
      if deadline <=? now then throw (Bail "transaction did not finalize within the timeout")
      else wait_loop fuel url deadline
  end.

Definition wait_for_finality (api_url transaction_id : ustring) (timeout : Z) : cliM () :=
  now ← instant_now;
  s ← get;
  wait_loop (S (length (cli_responses s))) (endpoint api_url (str "/api/v1/transactions/" ++ transaction_id))
    (now + timeout).

(** ** Database commands *)

Record VerificationReport : Type := mk_VerificationReport {
  vrep_chain_id : ustring;
  vrep_block_count : Z;
  vrep_transaction_count : Z;
  vrep_account_count : Z;
  vrep_height : ustring;
  vrep_finalized_hash : ustring;
  vrep_state_root : ustring;
  vrep_circulating_supply_atoms : ustring;
  vrep_tip_metadata_matches : bool
}.

Definition metadata_is (key expected : ustring) : storeA bool :=
  value ← from_store (metadata_value key);
  mret (bool_decide (value = Some expected)).

(** [a? && b?]: the right side runs only where the left is true. *)
Definition and_also (a b : storeA bool) : storeA bool :=
  x ← a;
  if (x : bool) then b else mret false.

(** [verify_database] on an opened store. *)
Definition verify_database (chain_id : ustring) : storeA VerificationReport :=
  chain_id ← lift (with_context "invalid chain id" (from_protocol (chain_id_new chain_id)));
  rows ← from_store canonical_block_rows;
  let block_count := Z.of_nat (length rows) in
  replay ← verify_store chain_id;
  tip ← from_store tip;
  let tip_matches :=
    match tip with
    | None => true
    | Some tip =>
        (br_height tip =? rr_height replay) && bool_decide (br_block_hash tip = rr_block_hash replay) &&
        bool_decide (br_state_root tip = rr_state_root replay)
    end in
  metadata_matches ←
    and_also (and_also (and_also (metadata_is (str "tip_height") (to_string (rr_height replay)))
                                 (metadata_is (str "tip_hash") (rr_block_hash replay)))
                       (metadata_is (str "state_root") (rr_state_root replay)))
             (metadata_is (str "issued_supply_atoms") (to_string (rr_circulating_supply_atoms replay)));
  let tip_metadata_matches := tip_matches && ((block_count =? 0) || metadata_matches) in
  if negb tip_metadata_matches then throw (Bail "persisted tip metadata does not match replayed history")
  else mret (mk_VerificationReport (as_str chain_id) block_count (rr_transaction_count replay)
               (rr_account_count replay) (to_string (rr_height replay)) (rr_block_hash replay)
               (rr_state_root replay) (to_string (rr_circulating_supply_atoms replay)) tip_metadata_matches).

(** ** The benchmark *)

(** Durations are nanoseconds and latencies microseconds; the report divides
    them as [f64]. *)
Record BenchmarkReport : Type := mk_BenchmarkReport {
  bench_chain_id : ustring;
  bench_protocol_version : Z;
  bench_node_url : ustring;
  bench_node_height_at_start : ustring;
  bench_connected_peer_count : Z;
  bench_reported_online_validators : Z;
  bench_sample_count : Z;
  bench_funding_claims : Z;
  bench_elapsed : Z;
  bench_latency_micros : list Z;
  bench_p50 : Z;
  bench_p95 : Z;
  bench_p99 : Z
}.

Definition online (validator : Value) : bool := default false (get_bool validator (str "online")).

(** The sampling loop; returns the latencies. *)
Fixpoint benchmark_samples (api_url chain_id : ustring) (signing_key : SigningKey) (recipient : Address)
    (nonce height timeout : Z) (offsets : list Z) : cliM (list Z) :=
  match offsets with
  | [] => mret []
  | offset :: offsets =>
      transaction ← lift (sign_transaction chain_id signing_key (wrap u64_max (nonce + offset))
                            (saturating_add u64_max height (100 + offset)) (Transfer recipient 1));
      sample_started ← instant_now;
      id ← submit_to_node api_url transaction;
      _ ← wait_for_finality api_url id timeout;
      finished ← instant_now;
      rest ← benchmark_samples api_url chain_id signing_key recipient nonce height timeout offsets;
      mret ((finished - sample_started) / 1000 :: rest)
  end.

(** The claim that funds an empty wallet; returns the nonce, the balance and the
    height after it. *)
Definition fund (api_url chain_id : ustring) (signing_key : SigningKey) (sender : Address)
    (nonce height timeout : Z) : cliM (Z * Z * Z) :=
  challenge ← fetch_challenge api_url;
  challenge_id ← lift (some_context (parse_uint u64_max (cr_challenge_id challenge)) "invalid digit found in string");
  transaction ← lift (sign_transaction chain_id signing_key nonce (saturating_add u64_max height 100)
                        (ClaimReward challenge_id (answer (for_id challenge_id))));
  id ← submit_to_node api_url transaction;
  _ ← wait_for_finality api_url id timeout;
  account ← get_account api_url sender;
  funded ← lift (some_context account "funding claim finalized but account was not indexed");
  refreshed ← get_json api_url (str "/api/v1/status");
  height ← lift (decimal_field refreshed (str "height"));
  mret (av_nonce funded, av_balance_atoms funded, height).

Definition benchmark (api_url : ustring) (samples timeout_seconds : Z) (wallet : option ustring) :
    cliM BenchmarkReport :=
  status ← get_json api_url (str "/api/v1/status");
  chain_id ← lift (string_field status (str "chain_id"));
  protocol_version ← lift (some_context (get_u64 status (str "protocol_version"))
                             "node response omitted numeric field protocol_version");
  height ← lift (decimal_field status (str "height"));
  let node_height_at_start := to_string height in
  connected_peer_count ← lift (decimal_field status (str "peer_count"));
  validators ← lift (some_context (get_array status (str "validators")) "node response omitted validators array");
  let reported_online_validators := Z.of_nat (length (filter (fun v => online v = true) validators)) in
  signing_key ← match wallet with Some path => load_wallet path | None => generate_key end;
  let sender := address_from_public_key (verifying_key signing_key) in
  account ← get_account api_url sender;
  let nonce := match account with Some v => av_nonce v | None => 0 end in
  let balance := match account with Some v => av_balance_atoms v | None => 0 end in
  let timeout := timeout_seconds * 10 ^ 9 in
  '(nonce, balance, height, funding_claims) ←
    (if balance <? samples then
       '(nonce, balance, height) ← fund api_url chain_id signing_key sender nonce height timeout;
       mret (nonce, balance, height, 1)
     else mret (nonce, balance, height, 0));
  if balance <? samples then throw (Bail "wallet has too few atoms for the benchmark")
  else
  recipient_key ← generate_key;
  let recipient := address_from_public_key (verifying_key recipient_key) in
  started ← instant_now;
  raw_micros ← benchmark_samples api_url chain_id signing_key recipient nonce height timeout
                 (Z.of_nat <$> seq 0 (Z.to_nat samples));
  finished ← instant_now;
  p50 ← lift (some_context (percentile raw_micros 50) "index out of bounds");
  p95 ← lift (some_context (percentile raw_micros 95) "index out of bounds");
  p99 ← lift (some_context (percentile raw_micros 99) "index out of bounds");
  mret (mk_BenchmarkReport chain_id protocol_version (trim_end_slashes api_url) node_height_at_start
          connected_peer_count reported_online_validators (Z.of_nat (length raw_micros)) funding_claims
          (finished - started) raw_micros p50 p95 p99).
End cli.
