(* ===== verification/CliDatabase.v ===== *)
(** * The database commands

    [kcoin db verify], [replay] and [reindex] of [crates/kcoin-cli/src/main.rs],
    from the file they are given to the report: each opens the database, which
    upgrades it, and a re-index opens it a second time to verify its work. *)

From S2P Require Import Prelude Errors Crypto Transaction Block Commit Ledger ConsensusTypes Engine Sqlite Store NodeTypes Config Schema Projection NodeState Node Api Cli.

Section database.
Context `{Blake3, Blake3Checksum, Ed25519, !SigningKeyBytes, Hex, Bech32, ChallengeJson,
          !Borsh UnsignedTransaction, !Borsh SignedTransaction, !Borsh BlockHeader, !Borsh Block,
          !Borsh StateCommitment, !Borsh CommitVote, !Borsh CommitCertificate}.

Record DatabaseVerifyArgs : Type := mk_DatabaseVerifyArgs {
  dva_db : Path;
  dva_chain_id : ustring
}.

Inductive DatabaseCommand : Type :=
| DbVerify (args : DatabaseVerifyArgs)
| DbReplay (args : DatabaseVerifyArgs)
| DbReindex (args : DatabaseVerifyArgs).

(** What the environment answers while a database is opened and read:
    [exists], the directories, [Connection::open], and the statements. *)
Record OpenAnswers : Type := mk_OpenAnswers {
  oa_exists : bool;
  oa_fs : Filesystem;
  oa_refused : option SqliteError;
  oa_faults : list (option SqliteError)
}.

Abbreviation fileM := (stE DiskFile AnyError).

Definition set_rows (db : Database) (f : DiskFile) : DiskFile := mk_DiskFile (file_tables f) (file_indexes f) db.

(** [Store::open(&args.db).with_context(..)?]. *)
Definition open_database (a : OpenAnswers) (path : Path) : fileM (Sqlite.Store Database) := fun f =>
  let '(f, opened) := open (oa_fs a) (oa_refused a) (oa_faults a) path f in
  (f, with_context "open database" (map_err StoreFailed opened)).

(** A computation on the open store; the file keeps what became durable. *)
Definition on_store {A} (m : storeA A) (store : Sqlite.Store Database) : fileM A := fun f =>
  let '(store, r) := m store in (set_rows (durable store) f, r).

(** What both commands begin with. *)
Definition existing_database (a : OpenAnswers) (args : DatabaseVerifyArgs) :
    fileM (ChainId * Sqlite.Store Database) :=
  if negb (oa_exists a) then throw (Bail "database does not exist")
  else
  chain_id ← lift (with_context "invalid chain id" (from_protocol (chain_id_new (dva_chain_id args))));
  store ← open_database a (dva_db args);
  mret (chain_id, store).

Definition verify_database_file (a : OpenAnswers) (args : DatabaseVerifyArgs) : fileM VerificationReport :=
  '(_, store) ← existing_database a args;
  on_store (verify_database (dva_chain_id args)) store.

(** [reindex_store(..).context(..)]. *)
Definition rebuild_projections (chain_id : ChainId) : storeA ReplayReport := fun s =>
  let '(s, r) := reindex_store chain_id s in (s, with_context "rebuild explorer projections" r).

(** [first] answers the opening to re-index, [second] that to verify. *)
Definition reindex_database (first second : OpenAnswers) (args : DatabaseVerifyArgs) : fileM VerificationReport :=
  '(chain_id, store) ← existing_database first args;
  _ ← on_store (rebuild_projections chain_id) store;
  verify_database_file second args.

(** [database], without the printing. *)
Definition database (first second : OpenAnswers) (command : DatabaseCommand) : fileM VerificationReport :=
  match command with
  | DbVerify args | DbReplay args => verify_database_file first args
  | DbReindex args => reindex_database first second args
  end.
End database.
