(* ===== verification/NodeCommands.v ===== *)
(** * The commands of the ledger actor

    The rest of [impl NodeActor] of [crates/kcoin-node/src/runtime.rs]: finalized
    blocks from peers, synchronization, consensus messages, validator status,
    the tick, and [run], the loop over the commands. *)

From S2P Require Import Prelude Errors Crypto Transaction Block Commit Ledger ConsensusTypes Engine Sqlite Store NodeTypes Projection Recovery NodeState Node.

Section commands.
Context `{Blake3, Blake3Checksum, Ed25519, !SigningKeyBytes, Hex, Bech32, ChallengeJson, Libp2p,
          !Borsh UnsignedTransaction, !Borsh SignedTransaction, !Borsh BlockHeader, !Borsh Block,
          !Borsh StateCommitment, !Borsh CommitVote, !Borsh CommitCertificate,
          !Borsh SignableMessage, !Borsh SignedMessage, !Borsh SignedProposal,
          !Borsh FinalizedWireRecord, !Borsh ValidatorStatusMessage, !SerdeJson SafetyState}.
Context (evidence_debug : Evidence -> bytes).

Abbreviation nodeM := (stE NodeActor).

(** ** Validator status *)

Definition accept_validator_status (signed : SignedValidatorStatus) : nodeM AnyError () :=
  let status := svs_status signed in
  self ← get;
  if bool_decide (vs_chain_id status <> cfg_node_chain_id (node_config self))
  then throw (Bail "validator status belongs to another chain")
  else
  now ← unix_timestamp_ms;
  if 10000 <? Z.abs (now - vs_timestamp_ms status)
  then throw (Bail "validator status timestamp is stale or too far in the future")
  else
  let ids := id_consensus_ids (na_identity self) in
  expected ← lift (some_context (ids !! Z.to_nat (vs_index status)) "status uses an unknown validator index");
  if bool_decide (expected <> vs_validator status) || bool_decide (vs_validator status ∉ ids)
  then throw (Bail "status validator identity does not match the fixed set")
  else
  signature ← lift (some_context (array_try_from 64 (svs_signature signed)) "status signature must be 64 bytes");
  if negb (vk_valid (vs_validator status)) then throw (Bail "status validator key is malformed")
  else if negb (verify_strict (vs_validator status) (validator_status_signing_bytes status) signature)
  then throw (Bail "status signature is invalid")
  else
  _ ← modify (fun self => set_telemetry
        (<[vs_validator status := mk_ValidatorTelemetry (vs_height status) (vs_round status) (vs_phase status)
             (vs_block_hash status) (vs_state_root status)
             (match vs_sync_target status with
              | Some target => if vs_syncing status then Some (mk_SyncProgress (vs_height status) (Z.max target 1)) else None
              | None => None
              end) now]>
           (na_validator_telemetry self)) self);
  publish_snapshot.

Definition status_phase (self : NodeActor) (phase : ustring) : ustring :=
  if is_syncing self then str "syncing"
  else if na_halted self then str "halted"
  else if na_consensus_started self then phase
  else str "finalized".

Definition publish_validator_status : nodeM AnyError () :=
  self ← get;
  match node_key self with
  | None => mret ()
  | Some key =>
      let '(round, phase) :=
        match na_consensus self with
        | Some consensus => (con_round consensus, phase_name (phase consensus))
        | None => (0, str "idle")
        end in
      timestamp_ms ← unix_timestamp_ms;
      let status := mk_ValidatorStatusMessage (cfg_node_chain_id (node_config self))
        (validator_from_signing_key key) (default 0 (cfg_validator_index (node_config self)))
        (height (na_ledger self)) round (status_phase self phase) (tip_hash (na_ledger self))
        (state_root (na_ledger self)) (is_syncing self) (na_sync_target self) timestamp_ms in
      let signed := mk_SignedValidatorStatus status
        (as_bytes (ed_sign key (validator_status_signing_bytes status))) in
      _ ← accept_validator_status signed;
      if id_network (na_identity self) then emit (GossipStatus signed) else mret ()
  end.

(** ** Requests for blocks *)

Definition request_sync_blocks (peer : PeerId) : nodeM AnyError () :=
  self ← get;
  if negb (id_network (na_identity self)) then throw (Bail "network is unavailable")
  else
  from_height ← lift (some_context (checked_add u64_max (height (na_ledger self)) 1) "local height cannot advance");
  request_id ← network_request peer (SyncBlocks from_height 128);
  now ← instant_now;
  modify (set_sync_request (Some peer) (Some request_id) (Some (now + SYNC_REQUEST_WATCHDOG_TIMEOUT))).

Definition ensure_active_sync_request (preferred_peer : PeerId) : nodeM AnyError () :=
  self ← get;
  if bool_decide (is_Some (na_sync_request_id self)) then mret ()
  else request_sync_blocks preferred_peer.

Definition begin_sync (peer : PeerId) (target : Z) : nodeM AnyError () :=
  self ← get;
  if na_halted self then throw (Bail "halted node refuses to enter synchronization")
  else if target <=? height (na_ledger self) then mret ()
  else
  _ ← modify (fun self => set_consensus_started false (set_sync_target
        (Some (match na_sync_target self with Some known => Z.max known target | None => target end)) self));
  _ ← publish_snapshot;
  _ ← publish_validator_status;
  if id_network (na_identity self) then ensure_active_sync_request peer else mret ().

Definition retry_sync_after_failure (failed_peer : PeerId) (failed_request_id : option OutboundSyncRequestId) :
    nodeM AnyError () :=
  self ← get;
  if negb (is_syncing self) || bool_decide (na_sync_peer self <> Some failed_peer) then mret ()
  else if bool_decide (is_Some failed_request_id) && bool_decide (failed_request_id <> na_sync_request_id self)
  then mret ()
  else
  let next_peer := choose_sync_retry_peer (na_peers self) failed_peer in
  _ ← modify (set_sync_request next_peer None None);
  _ ← publish_snapshot;
  match next_peer with
  | None => mret ()
  | Some next_peer => request_sync_blocks next_peer
  end.

Definition retry_timed_out_sync_request (now : Z) : nodeM AnyError () :=
  self ← get;
  if na_halted self then mret ()
  else
  match na_sync_request_id self, na_sync_peer self, na_sync_request_deadline self with
  | Some request_id, Some peer, Some deadline =>
      if now <? deadline then mret () else retry_sync_after_failure peer (Some request_id)
  | _, _, _ => mret ()
  end.

(** ** Finalized blocks of peers *)

Definition import_finalized (record : FinalizedWireRecord) (source : option PeerId) : nodeM AnyError () :=
  self ← get;
  let block := fw_block record in
  let certificate := fw_certificate record in
  if na_halted self then throw (Bail "halted node refuses finalized-state mutation")
  else if bool_decide (bh_chain_id (header block) <> id_chain_id (na_identity self)) ||
          bool_decide (cc_chain_id certificate <> id_chain_id (na_identity self))
  then throw (Bail "finalized block proof belongs to another chain")
  else
  _ ← lift (with_context "validate finalized block commitments" (from_protocol (validate_commitments block)));
  _ ← lift (with_context "verify peer commit certificate" (from_protocol
        (verify_for_block certificate block (node_validators self))));
  if bh_height (header block) <=? height (na_ledger self) then
    row ← in_store (from_store (block_by_height (bh_height (header block))));
    existing ← lift (some_context row "local finalized height is missing from storage");
    canonical_existing ← lift (with_context "decode existing canonical finalized block"
                                 (from_protocol (block_decode (br_block_bytes existing))));
    if bool_decide (block_hash block <> block_hash canonical_existing) then
      _ ← enter_halted_state;
      _ ← (match node_key self with
           | Some key => note_validator_activity (validator_from_signing_key key) (height (na_ledger self)) (str "halted")
           | None => mret ()
           end);
      _ ← publish_snapshot;
      throw (Bail "conflicting certified block")
    else mret ()
  else if negb (bh_height (header block) =? height (na_ledger self) + 1) then
    match source with
    | Some peer => begin_sync peer (bh_height (header block))
    | None => throw (Bail "block gap requires range synchronization")
    end
  else
    _ ← commit_finalized block certificate false;
    _ ← reset_consensus;
    finish_sync_if_current.

(** ** Synchronization *)

Definition decode_record_row (row : BlockRow) : result AnyError FinalizedWireRecord :=
  block ← from_protocol (block_decode (br_block_bytes row));
  certificate ← from_protocol (certificate_decode (br_certificate_bytes row));
  Ok (mk_FinalizedWireRecord block certificate).

(** The loop over [finalized_range], with its [payload_bytes]. *)
Fixpoint encode_range (rows : list BlockRow) (payload_bytes : Z) : result AnyError (list bytes) :=
  match rows with
  | [] => Ok []
  | row :: rows =>
      record ← decode_record_row row;
      let encoded := to_vec record in
      let response_budget := saturating_sub MAX_SYNC_RESPONSE_BYTES (64 * 1024) in
      if response_budget <? payload_bytes + Z.of_nat (length encoded) then Ok []
      else
        records ← encode_range rows (payload_bytes + Z.of_nat (length encoded));
        Ok (encoded :: records)
  end.

Definition respond_to_sync (response_token : Z) (request : SyncRequest) : nodeM AnyError () :=
  self ← get;
  if negb (id_network (na_identity self)) then throw (Bail "network is unavailable")
  else
  response ←
    (match request with
     | SyncStatus =>
         finalized_tip ←
           (if height (na_ledger self) =? 0 then mret None
            else
              row ← in_store (from_store (block_by_height (height (na_ledger self))));
              row ← lift (some_context row "finalized tip is missing from storage");
              record ← lift (decode_record_row row);
              mret (Some (to_vec record)));
         mret (StatusResponse (height (na_ledger self)) (hash_to_string (tip_hash (na_ledger self)))
                 (hash_to_string (state_root (na_ledger self))) (is_syncing self) finalized_tip)
     | SyncBlocks from_height limit =>
         rows ← in_store (from_store (finalized_range from_height limit));
         records ← lift (encode_range rows 0);
         mret (BlocksResponse records)
     end);
  network_respond response_token response.

Fixpoint import_all (records : list FinalizedWireRecord) : nodeM AnyError () :=
  match records with
  | [] => mret ()
  | record :: records => _ ← import_finalized record None; import_all records
  end.

Definition decode_record (b : bytes) : result AnyError FinalizedWireRecord :=
  some_context (try_from_slice b) "decode synchronized finalized record".

(** A higher status of a peer, proved by its finalized tip. *)
Definition handle_status_response (peer : PeerId) (height_ : Z) (block_hash_ state_root_ : ustring)
    (finalized_tip : option bytes) : nodeM AnyError () :=
  self ← get;
  if height_ <=? height (na_ledger self) then mret ()
  else
  bytes ← lift (some_context finalized_tip "higher peer status omitted its finality proof");
  record ← lift (some_context (try_from_slice (T := FinalizedWireRecord) bytes) "decode status finality proof");
  let block := fw_block record in
  if bool_decide (bh_chain_id (header block) <> id_chain_id (na_identity self)) ||
     bool_decide (cc_chain_id (fw_certificate record) <> id_chain_id (na_identity self))
  then throw (Bail "status finality proof belongs to another chain")
  else
  _ ← lift (from_protocol (validate_commitments block));
  _ ← lift (from_protocol (verify_for_block (fw_certificate record) block (node_validators self)));
  if negb (bh_height (header block) =? height_) ||
     bool_decide (hash_to_string (block_hash block) <> block_hash_) ||
     bool_decide (hash_to_string (bh_state_root (header block)) <> state_root_)
  then throw (Bail "status fields do not match its certified finalized tip")
  else begin_sync peer height_.

Definition handle_blocks_response (peer : PeerId) (from_height : Z) (records : list bytes) : nodeM AnyError () :=
  self ← get;
  if bool_decide (records = []) then
    if match na_sync_target self with Some target => height (na_ledger self) <? target | None => false end
    then throw (Bail "sync peer returned an empty range before the target height")
    else
      _ ← (if id_network (na_identity self) then _ ← network_request peer SyncStatus; mret () else mret ());
      modify (fun self => set_sync_request (na_sync_peer self) None None self)
  else
  decoded ← lift (try_collect decode_record records);
  let height_before := height (na_ledger self) in
  _ ← lift (validate_sync_batch_sequence decoded (saturating_sub from_height 1));
  _ ← import_all decoded;
  self ← get;
  if height (na_ledger self) <=? height_before
  then throw (Bail "sync range made no finalized-height progress")
  else
  _ ← publish_validator_status;
  self ← get;
  match na_sync_target self with
  | Some target =>
      if height (na_ledger self) <? target
      then (if id_network (na_identity self) then request_sync_blocks peer else mret ())
      else finish_sync_if_current
  | None => mret ()
  end.

Definition handle_sync_response (peer : PeerId) (intent : OutboundSyncIntent) (response : SyncResponse) :
    nodeM AnyError () :=
  self ← get;
  _ ← lift (validate_sync_response_intent peer intent response (na_sync_request_id self)
              (na_sync_peer self) (is_syncing self) (height (na_ledger self)));
  match si_request intent, response with
  | SyncStatus, StatusResponse height_ block_hash_ state_root_ _ finalized_tip =>
      handle_status_response peer height_ block_hash_ state_root_ finalized_tip
  | SyncBlocks from_height _, BlocksResponse records => handle_blocks_response peer from_height records
  | _, ErrorResponse _ _ => throw (Bail "peer sync error")
  | _, _ => throw (Bail "unreachable: response kind was validated against its request intent")
  end.

(** ** Consensus messages *)

Definition vote_phase (kind : VoteKind) : ustring := vote_kind_name kind.

(** A proposal of the current height: checked, stored and cached.  [None] when
    it is not for now. *)
Definition admit_proposal (signed : SignedProposal) (block : Block) : nodeM AnyError (option SignedMessage) :=
  self ← get;
  let proposal := sp_proposal signed in
  if bool_decide (block_id_from_hash (consensus_hash block) <> p_block_id proposal)
  then throw (Bail "proposal block bytes do not match its signed block id")
  else
  let expected := height (na_ledger self) + 1 in
  if p_height proposal <? expected then mret None
  else if expected <? p_height proposal then mret None
  else if match na_proposal_blocks self !! p_block_id proposal with
          | Some existing => bool_decide (existing <> block)
          | None => false
          end
  then throw (Bail "proposal bytes conflict for one canonical block id")
  else
  let candidate_blocks := <[p_block_id proposal := block]> (na_proposal_blocks self) in
  let message := SignedMessageProposal signed in
  let validator := mk_NodeMessageValidator (na_ledger self) candidate_blocks (node_validators self) in
  consensus ← lift (some_context (na_consensus self) "validator consensus driver is missing");
  cacheable ← lift (with_context "proposal failed structural preflight" (from_engine
    (preflight_message (H := node_message_validator validator) consensus message)));
  if negb cacheable then mret None
  else
  _ ← in_store (from_store (persist_consensus_proposal
        (mk_PersistedConsensusProposal (p_height proposal) (p_round proposal)
           (as_bytes (p_block_id proposal)) (block_canonical_bytes block) (to_vec signed))));
  _ ← modify (fun self => set_proposal_blocks (<[p_block_id proposal := block]> (na_proposal_blocks self)) self);
  mret (Some message).

(** The end of [handle_consensus_message]: the message reaches the engine. *)
Definition feed_message (height_ : Z) (signer : ValidatorId) (phase : ustring) (message : SignedMessage) :
    nodeM AnyError () :=
  self ← get;
  let expected := height (na_ledger self) + 1 in
  if height_ <? expected then mret ()
  else if expected <? height_ then mret ()
  else
  _ ← ensure_consensus_started evidence_debug;
  _ ← process_consensus_event evidence_debug (Message message);
  note_validator_activity signer height_ phase.

Definition handle_consensus_message (source : option PeerId) (wire : ConsensusWireMessage) : nodeM AnyError () :=
  self ← get;
  if bool_decide (node_role self <> RoleValidator) || is_syncing self || na_halted self then mret ()
  else
  match wire with
  | WireProposal signed block =>
      admitted ← admit_proposal signed block;
      match admitted with
      | Some message =>
          feed_message (p_height (sp_proposal signed)) (p_proposer (sp_proposal signed)) (str "proposal") message
      | None => mret ()
      end
  | WireVote signed =>
      feed_message (v_height (sv_vote signed)) (v_validator (sv_vote signed)) (vote_phase (v_kind (sv_vote signed)))
        (SignedMessageVote signed)
  end.

(** ** The tick *)

(** [Instant::elapsed], in nanoseconds. *)
Definition elapsed {E} (since : Z) : nodeM E Z :=
  now ← instant_now;
  mret (saturating_sub now since).

Definition tick : nodeM AnyError () :=
  now ← instant_now;
  _ ← retry_timed_out_sync_request now;
  self ← get;
  status_age ← elapsed (na_last_status_at self);
  _ ← (if from_millis 1000 <=? status_age then
         now ← instant_now;
         _ ← modify (set_last_status_at now);
         publish_validator_status
       else mret ());
  self ← get;
  if na_halted self then mret ()
  else
  block_age ← elapsed (na_last_block_at self);
  let heartbeat_due := from_millis (cfg_heartbeat_ms (node_config self)) <=? block_age in
  if bool_decide (na_mempool self = []) && negb heartbeat_due then mret ()
  else
  match node_role self with
  | RoleStandalone => produce_standalone
  | RoleValidator => if is_syncing self then mret () else ensure_consensus_started evidence_debug
  | RoleObserver => mret ()
  end.

(** ** The command loop *)

Inductive Command : Type :=
| Submit (transaction : SignedTransaction) (gossip : bool)
| Tick
| ConsensusMessage (source : option PeerId) (message : ConsensusWireMessage)
| ConsensusTimeout (t : Timeout)
| ImportFinalized (record : FinalizedWireRecord) (source : option PeerId)
| PeerConnected (peer : PeerId)
| PeerDisconnected (peer : PeerId)
| SyncRequestReceived (response_token : Z) (request : SyncRequest)
| SyncResponseReceived (peer : PeerId) (intent : OutboundSyncIntent) (response : SyncResponse)
| SyncFailure (peer : PeerId) (intent : OutboundSyncIntent)
| ValidatorStatus (status : SignedValidatorStatus)
| Shutdown.

(** [SyncRequest::Blocks { .. }]. *)
Definition is_blocks_request (request : SyncRequest) : bool :=
  match request with SyncBlocks _ _ => true | SyncStatus => false end.

Definition peer_connected (peer : PeerId) : nodeM AnyError () :=
  _ ← modify (fun self => set_peers ({[peer]} ∪ na_peers self) self);
  self ← get;
  _ ← (if is_syncing self then ignore (ensure_active_sync_request peer)
       else if id_network (na_identity self) then ignore (network_request peer SyncStatus)
       else mret ());
  publish_snapshot.

Definition peer_disconnected (peer : PeerId) : nodeM AnyError () :=
  _ ← modify (fun self => set_peers (na_peers self ∖ {[peer]}) self);
  self ← get;
  _ ← (if bool_decide (na_sync_peer self = Some peer) then ignore (retry_sync_after_failure peer None) else mret ());
  publish_snapshot.

(** One iteration of [run]; the errors it logs are dropped. *)
Definition dispatch (command : Command) : nodeM AnyError () :=
  match command with
  | Submit transaction gossip => ignore (accept_transaction transaction gossip)
  | Tick => ignore tick
  | ConsensusMessage source message => ignore (handle_consensus_message source message)
  | ConsensusTimeout t =>
      self ← get;
      if na_consensus_started self then ignore (process_consensus_event evidence_debug (TimeoutEvent t)) else mret ()
  | ImportFinalized record source => ignore (import_finalized record source)
  | PeerConnected peer => peer_connected peer
  | PeerDisconnected peer => peer_disconnected peer
  | SyncRequestReceived token request => ignore (respond_to_sync token request)
  | SyncResponseReceived peer intent response => fun self =>
      match handle_sync_response peer intent response self with
      | (self, Ok _) => (self, Ok ())
      | (self, Err _) => ignore (retry_sync_after_failure (si_peer intent) (Some (si_request_id intent))) self
      end
  | SyncFailure peer intent =>
      if is_blocks_request (si_request intent)
      then ignore (retry_sync_after_failure (si_peer intent) (Some (si_request_id intent)))
      else mret ()
  | ValidatorStatus status => ignore (accept_validator_status status)
  | Shutdown => mret ()
  end.

(** What [run] does before its loop. *)
Definition resume : nodeM AnyError () := fun self =>
  if bool_decide (na_recovery_messages self = []) then (self, Ok ())
  else
    match resume_interrupted_consensus evidence_debug self with
    | (self, Ok _) => (self, Ok ())
    | (self, Err _) => (_ ← enter_halted_state; publish_snapshot) self
    end.

Fixpoint command_loop (commands : list Command) : nodeM AnyError () :=
  match commands with
  | [] => mret ()
  | Shutdown :: _ => mret ()
  | command :: commands => _ ← dispatch command; command_loop commands
  end.

Definition run (commands : list Command) : nodeM AnyError () :=
  _ ← resume;
  command_loop commands.

(** ** Starting a node *)

Definition decode_history_row (row : BlockRow) : result ValidationError (Block * CommitCertificate) :=
  block ← block_decode (br_block_bytes row);
  certificate ← certificate_decode (br_certificate_bytes row);
  Ok (block, certificate).

(** [config.chain_id.contains("local")]. *)
Fixpoint contains_text (pattern s : ustring) : bool :=
  bool_decide (pattern `prefix_of` s) ||
  match s with [] => false | _ :: s => contains_text pattern s end.

(** What [start_node] reads: the stored history is replayed and an interrupted
    height recovered. *)
Definition load_node (config : NodeConfig) :
    storeA (ChainId * LedgerState * option SigningKey * ConsensusRecovery) :=
  chain_id ← lift (with_context "invalid configured chain id"
                     (from_protocol (chain_id_new (cfg_node_chain_id config))));
  if negb (role_is config RoleStandalone) && negb (cfg_demo config) &&
     negb (contains_text (str "local") (cfg_node_chain_id config))
  then throw (Bail "the fixed deterministic validator set is restricted to --demo or a local chain id")
  else
  rows ← from_store canonical_block_rows;
  history ← lift (with_context "decode persisted finalized history"
                    (from_protocol (try_collect decode_history_row rows)));
  ledger ← lift (with_context "verify and replay persisted finalized history"
                   (from_protocol (replay_finalized_blocks chain_id history dev_validators)));
  local_validator_key ←
    (if role_is config RoleValidator then
       index ← lift (some_context (cfg_validator_index config) "validator index is required");
       key ← lift (some_context (deterministic_dev_validator_keys !! Z.to_nat index)
                     "validator index is outside the fixed validator set");
       mret (Some key)
     else mret None);
  recovery ← initialize_consensus_recovery config ledger dev_validators dev_validators local_validator_key;
  mret (chain_id, ledger, local_validator_key, recovery).

(** The actor [start_node] spawns. [peers] are the peers the network knows. *)
Definition initial_actor (config : NodeConfig) (network : bool) (peers : gset PeerId) (env : Environment)
    (chain_id : ChainId) (ledger : LedgerState) (local_validator_key : option SigningKey)
    (recovery : ConsensusRecovery) (store : Store Database) : NodeActor :=
  let now := default 0 (head (env_unix_ms env)) in
  let last_block_at := default 0 (head (env_instants env)) in
  let last_status_at := default 0 (head (tail (env_instants env))) - from_millis 1000 in
  mk_NodeActor
    (mk_NodeIdentity config chain_id network dev_validators dev_validators
       (if role_is config RoleStandalone then deterministic_dev_validator_keys else []) local_validator_key)
    ledger [] ∅ store (rec_consensus recovery) false (rec_proposal_blocks recovery)
    (rec_replay_messages recovery) (rec_rebroadcast_wires recovery)
    (snapshot_for config ledger 0 (Z.of_nat (size peers)) None false dev_validators ∅ now)
    peers ∅ None None None None false last_block_at last_status_at (cfg_heartbeat_ms config)
    (mk_Environment (tail (env_unix_ms env)) (tail (tail (env_instants env))) (env_requests env) (env_responses env))
    [].

Definition start_node (config : NodeConfig) (network : bool) (peers : gset PeerId) (env : Environment)
    (store : Store Database) : Store Database * result AnyError NodeActor :=
  match load_node config store with
  | (store, Ok (chain_id, ledger, key, recovery)) =>
      (store, Ok (initial_actor config network peers env chain_id ledger key recovery store))
  | (store, Err e) => (store, Err e)
  end.
End commands.
