(* ===== verification/Network.v ===== *)
(** * The network task

    [crates/kcoin-node/src/network.rs] and the bridge of [runtime.rs]: the gossip
    envelope, the redialing of static bootstrap peers, the bookkeeping of
    synchronization requests and responses, and the translation of network
    events into the actor's commands.  The libp2p swarm is a third party: what
    it answers to a call comes with the input that causes the call
    ([SwarmAnswers]), what it is told is collected in [ns_outputs]. *)

From S2P Require Import Prelude Errors Crypto Transaction Block Commit Ledger ConsensusTypes Engine Sqlite Store NodeTypes Projection NodeState Node NodeCommands.

(** [Multiaddr], [ConnectionId], [request_response::ResponseChannel] and
    [OutboundRequestId]. *)
Class Swarm : Type := {
  Multiaddr : Type;
  Multiaddr_eq_dec :: EqDecision Multiaddr;
  ConnectionId : Type;
  ConnectionId_eq_dec :: EqDecision ConnectionId;
  ResponseChannel : Type;
  OutboundRequestId : Type;
  OutboundRequestId_eq_dec :: EqDecision OutboundRequestId;
  OutboundRequestId_countable :: Countable OutboundRequestId
}.

Definition TRANSACTIONS_TOPIC : ustring := str "kcoin/transactions/1".
Definition CONSENSUS_TOPIC : ustring := str "kcoin/consensus/1".
Definition FINALIZED_TOPIC : ustring := str "kcoin/finalized/1".
Definition MAX_GOSSIP_MESSAGE_BYTES : Z := MAX_BLOCK_BYTES + MAX_COMMIT_CERTIFICATE_BYTES + 64 * 1024.
Definition MAX_BOOTSTRAP_DIALS_PER_TICK : nat := 4.

(** ** The gossip envelope *)

Inductive GossipKind : Type := KindTransaction | KindConsensus | KindFinalized | KindStatus.

#[export] Instance GossipKind_eq_dec : EqDecision GossipKind.
Proof. solve_decision. Defined.

Record GossipEnvelope : Type := mk_GossipEnvelope {
  ge_version : Z;
  ge_chain_id : ustring;
  ge_kind : GossipKind;
  ge_payload : bytes
}.

(** The encoding of an envelope of bytes never fails. *)
Definition envelope_encode `{!Borsh GossipEnvelope} (envelope : GossipEnvelope) : bytes := to_vec envelope.

Definition envelope_decode `{!Borsh GossipEnvelope} (b : bytes) : result AnyError GossipEnvelope :=
  envelope ← some_context (try_from_slice b) "decode network envelope";
  if bool_decide (ge_version envelope <> 1) then Err (Bail "unsupported network envelope version")
  else Ok envelope.

Section network.
Context `{Libp2p, Swarm, !Borsh GossipEnvelope}.

(** ** Static bootstrap peers *)

Record StaticBootstrap : Type := mk_StaticBootstrap {
  sb_address : Multiaddr;
  sb_peer_id : option PeerId;
  sb_pending_connection : option ConnectionId
}.

Definition static_bootstrap_new (address : Multiaddr) : StaticBootstrap := mk_StaticBootstrap address None None.

Definition should_dial (connected_peers : gset PeerId) (target : StaticBootstrap) : bool :=
  bool_decide (sb_pending_connection target = None) &&
  match sb_peer_id target with
  | None => true
  | Some peer_id => negb (bool_decide (peer_id ∈ connected_peers))
  end.

Record StaticBootstrapSet : Type := mk_StaticBootstrapSet {
  targets : list StaticBootstrap;
  cursor : nat
}.

(** [.filter(|address| unique.insert(address.clone()))]: the first of each. *)
Fixpoint unique_addresses (seen addresses : list Multiaddr) : list Multiaddr :=
  match addresses with
  | [] => []
  | address :: addresses =>
      if bool_decide (address ∈ seen) then unique_addresses seen addresses
      else address :: unique_addresses (address :: seen) addresses
  end.

Definition bootstrap_set_new (addresses : list Multiaddr) : StaticBootstrapSet :=
  mk_StaticBootstrapSet (static_bootstrap_new <$> unique_addresses [] addresses) 0.

(** What the swarm answers to the calls one input causes: the outcome of
    [publish], the id of a sent request, for each dial in order the connection
    id of its options and whether it started, and whether the event channel
    has a receiver. *)
Record SwarmAnswers : Type := mk_SwarmAnswers {
  answer_publish : bool;
  answer_request : OutboundRequestId;
  answer_dial : nat -> ConnectionId * bool;
  answer_receivers : bool
}.

(** The loop of [redial_due]: [remaining] targets are left to scan, [calls]
    counts the dials, the started ones among them are [attempts]. Returns the
    targets, how many were scanned and the addresses dialed. *)
Fixpoint redial_loop (answers : SwarmAnswers) (connected_peers : gset PeerId) (start remaining : nat)
    (scanned attempts calls : nat) (ts : list StaticBootstrap) : list StaticBootstrap * nat * list Multiaddr :=
  match remaining with
  | O => (ts, scanned, [])
  | S remaining =>
      if (attempts <? MAX_BOOTSTRAP_DIALS_PER_TICK)%nat then
        let index := ((start + scanned) mod length ts)%nat in
        match ts !! index with
        | Some target =>
            if should_dial connected_peers target then
              let '(connection_id, started) := answer_dial answers calls in
              let ts :=
                if started
                then <[index := mk_StaticBootstrap (sb_address target) (sb_peer_id target) (Some connection_id)]> ts
                else ts in
              let '(ts, scanned, dialed) :=
                redial_loop answers connected_peers start remaining (S scanned)
                  (if started then S attempts else attempts) (S calls) ts in
              (ts, scanned, sb_address target :: dialed)
            else redial_loop answers connected_peers start remaining (S scanned) attempts calls ts
        | None => (ts, scanned, [])
        end
      else (ts, scanned, [])
  end.

Definition redial_due (answers : SwarmAnswers) (connected_peers : gset PeerId) (s : StaticBootstrapSet) :
    StaticBootstrapSet * list Multiaddr :=
  let len := length (targets s) in
  if (len =? 0)%nat then (s, [])
  else
    let '(ts, scanned, dialed) := redial_loop answers connected_peers (cursor s) len 0 0 0 (targets s) in
    (mk_StaticBootstrapSet ts ((cursor s + scanned) mod len)%nat, dialed).

(** [iter_mut().find(..)]: [f] on the first target that waits for the connection. *)
Fixpoint update_pending (connection_id : ConnectionId) (f : StaticBootstrap -> StaticBootstrap)
    (ts : list StaticBootstrap) : list StaticBootstrap :=
  match ts with
  | [] => []
  | target :: ts =>
      if bool_decide (sb_pending_connection target = Some connection_id) then f target :: ts
      else target :: update_pending connection_id f ts
  end.

Definition bootstrap_connection_established (connection_id : ConnectionId) (peer_id : PeerId)
    (s : StaticBootstrapSet) : StaticBootstrapSet :=
  mk_StaticBootstrapSet
    (update_pending connection_id (fun target => mk_StaticBootstrap (sb_address target) (Some peer_id) None)
       (targets s)) (cursor s).

Definition bootstrap_connection_failed (connection_id : ConnectionId) (s : StaticBootstrapSet) :
    StaticBootstrapSet :=
  mk_StaticBootstrapSet
    (update_pending connection_id (fun target => mk_StaticBootstrap (sb_address target) (sb_peer_id target) None)
       (targets s)) (cursor s).

(** ** The task *)

Inductive NetworkEvent : Type :=
| EventGossip (peer : option PeerId) (envelope : GossipEnvelope)
| EventSyncRequest (peer : PeerId) (response_token : Z) (request : SyncRequest)
| EventSyncResponse (peer : PeerId) (intent : OutboundSyncIntent) (response : SyncResponse)
| EventSyncFailure (peer : PeerId) (intent : OutboundSyncIntent)
| EventPeerConnected (peer : PeerId)
| EventPeerDisconnected (peer : PeerId).

Inductive NetworkCommand : Type :=
| Publish (topic : ustring) (envelope : GossipEnvelope)
| Request (intent : OutboundSyncIntent)
| Respond (response_token : Z) (response : SyncResponse)
| Dial (address : Multiaddr).

(** The events of the swarm the task handles. *)
Inductive SwarmEvent : Type :=
| GossipMessage (propagation_source : PeerId) (source : option PeerId) (data : bytes)
| RequestMessage (peer : PeerId) (channel : ResponseChannel) (request : SyncRequest)
| ResponseMessage (peer : PeerId) (request_id : OutboundRequestId) (response : SyncResponse)
| OutboundFailure (peer : PeerId) (request_id : OutboundRequestId)
| ConnectionEstablished (peer : PeerId) (connection_id : ConnectionId)
| ConnectionClosed (peer : PeerId) (num_established : Z)
| OutgoingConnectionError (connection_id : ConnectionId)
| OtherSwarmEvent.

(** The calls on the swarm and the event channel, in order. *)
Inductive NetworkOutput : Type :=
| Sent (event : NetworkEvent)
| Published (topic : ustring) (data : bytes) (accepted : bool)
| RequestSent (peer : PeerId) (request : SyncRequest) (request_id : OutboundRequestId)
| ResponseSent (channel : ResponseChannel) (response : SyncResponse)
| Dialed (address : Multiaddr).

Record NetworkState : Type := mk_NetworkState {
  ns_response_token : Z;
  ns_pending_responses : gmap Z ResponseChannel;
  ns_pending_requests : gmap OutboundRequestId OutboundSyncIntent;
  ns_bootstrap : StaticBootstrapSet;
  ns_connected_peers : gset PeerId;
  ns_allowlist : gset PeerId;
  ns_outputs : list NetworkOutput
}.

Definition network_new (bootstrap : list Multiaddr) (allowlist : gset PeerId) : NetworkState :=
  mk_NetworkState 0 ∅ ∅ (bootstrap_set_new bootstrap) ∅ allowlist [].

Definition output (o : NetworkOutput) (s : NetworkState) : NetworkState :=
  mk_NetworkState (ns_response_token s) (ns_pending_responses s) (ns_pending_requests s) (ns_bootstrap s)
    (ns_connected_peers s) (ns_allowlist s) (ns_outputs s ++ [o]).
Definition set_responses (token : Z) (m : gmap Z ResponseChannel) (s : NetworkState) : NetworkState :=
  mk_NetworkState token m (ns_pending_requests s) (ns_bootstrap s) (ns_connected_peers s) (ns_allowlist s)
    (ns_outputs s).
Definition set_requests (m : gmap OutboundRequestId OutboundSyncIntent) (s : NetworkState) : NetworkState :=
  mk_NetworkState (ns_response_token s) (ns_pending_responses s) m (ns_bootstrap s) (ns_connected_peers s)
    (ns_allowlist s) (ns_outputs s).
Definition set_bootstrap (b : StaticBootstrapSet) (s : NetworkState) : NetworkState :=
  mk_NetworkState (ns_response_token s) (ns_pending_responses s) (ns_pending_requests s) b
    (ns_connected_peers s) (ns_allowlist s) (ns_outputs s).
Definition set_connected (X : gset PeerId) (s : NetworkState) : NetworkState :=
  mk_NetworkState (ns_response_token s) (ns_pending_responses s) (ns_pending_requests s) (ns_bootstrap s) X
    (ns_allowlist s) (ns_outputs s).

(** [events.send(..)]: without a receiver the event is lost. *)
Definition send_event (answers : SwarmAnswers) (event : NetworkEvent) (s : NetworkState) : NetworkState :=
  if answer_receivers answers then output (Sent event) s else s.

Definition topic_of (chain_id topic : ustring) : ustring := chain_id ++ str "/" ++ topic.

Definition handle_command (answers : SwarmAnswers) (command : NetworkCommand) (s : NetworkState) : NetworkState :=
  match command with
  | Publish topic envelope =>
      output (Published (topic_of (ge_chain_id envelope) topic) (envelope_encode envelope) (answer_publish answers)) s
  | Request intent =>
      let request_id := answer_request answers in
      let s := output (RequestSent (si_peer intent) (si_request intent) request_id) s in
      set_requests (<[request_id := intent]> (ns_pending_requests s)) s
  | Respond token response =>
      match ns_pending_responses s !! token with
      | Some channel =>
          output (ResponseSent channel response)
            (set_responses (ns_response_token s) (delete token (ns_pending_responses s)) s)
      | None => s
      end
  | Dial address => output (Dialed address) s
  end.

Definition NOT_READY : SyncResponse :=
  ErrorResponse (str "NOT_READY") (str "sync provider has not attached a response handler").

Definition handle_swarm_event (answers : SwarmAnswers) (event : SwarmEvent) (s : NetworkState) : NetworkState :=
  match event with
  | GossipMessage propagation_source source data =>
      if negb (bool_decide (ns_allowlist s = ∅)) && negb (bool_decide (propagation_source ∈ ns_allowlist s))
      then s
      else
        match envelope_decode data with
        | Ok envelope => send_event answers (EventGossip source envelope) s
        | Err _ => s
        end
  | RequestMessage peer channel request =>
      let token := wrap u64_max (ns_response_token s + 1) in
      let s := set_responses token (<[token := channel]> (ns_pending_responses s)) s in
      if answer_receivers answers then output (Sent (EventSyncRequest peer token request)) s
      else output (ResponseSent channel NOT_READY)
             (set_responses token (delete token (ns_pending_responses s)) s)
  | ResponseMessage peer request_id response =>
      match ns_pending_requests s !! request_id with
      | Some intent =>
          send_event answers (EventSyncResponse peer intent response)
            (set_requests (delete request_id (ns_pending_requests s)) s)
      | None => s
      end
  | OutboundFailure peer request_id =>
      match ns_pending_requests s !! request_id with
      | Some intent =>
          send_event answers (EventSyncFailure peer intent)
            (set_requests (delete request_id (ns_pending_requests s)) s)
      | None => s
      end
  | ConnectionEstablished peer connection_id =>
      let s := set_bootstrap (bootstrap_connection_established connection_id peer (ns_bootstrap s)) s in
      send_event answers (EventPeerConnected peer) (set_connected ({[peer]} ∪ ns_connected_peers s) s)
  | ConnectionClosed peer num_established =>
      if num_established =? 0
      then send_event answers (EventPeerDisconnected peer) (set_connected (ns_connected_peers s ∖ {[peer]}) s)
      else s
  | OutgoingConnectionError connection_id =>
      set_bootstrap (bootstrap_connection_failed connection_id (ns_bootstrap s)) s
  | OtherSwarmEvent => s
  end.

(** One turn of the [select!]; a redial sees the peers the swarm is connected to. *)
Inductive NetworkInput : Type :=
| InCommand (command : NetworkCommand)
| InRedial (connected : gset PeerId)
| InSwarm (event : SwarmEvent).

Definition network_turn (input : SwarmAnswers * NetworkInput) (s : NetworkState) : NetworkState :=
  let '(answers, input) := input in
  match input with
  | InCommand command => handle_command answers command s
  | InRedial connected =>
      let '(b, dialed) := redial_due answers connected (ns_bootstrap s) in
      foldl (fun s address => output (Dialed address) s) (set_bootstrap b s) dialed
  | InSwarm event => handle_swarm_event answers event s
  end.

Fixpoint run_network (inputs : list (SwarmAnswers * NetworkInput)) (s : NetworkState) : NetworkState :=
  match inputs with
  | [] => s
  | input :: inputs => run_network inputs (network_turn input s)
  end.

(** ** The handle *)

Definition publish (topic chain_id : ustring) (kind : GossipKind) (payload : bytes) : NetworkCommand :=
  Publish topic (mk_GossipEnvelope 1 chain_id kind payload).
Definition publish_transaction (chain_id : ustring) (b : bytes) : NetworkCommand :=
  publish TRANSACTIONS_TOPIC chain_id KindTransaction b.
Definition publish_consensus (chain_id : ustring) (b : bytes) : NetworkCommand :=
  publish CONSENSUS_TOPIC chain_id KindConsensus b.
Definition publish_finalized (chain_id : ustring) (b : bytes) : NetworkCommand :=
  publish FINALIZED_TOPIC chain_id KindFinalized b.
Definition publish_status (chain_id : ustring) (b : bytes) : NetworkCommand :=
  publish CONSENSUS_TOPIC chain_id KindStatus b.

(** [request]: [next_request_id.fetch_add(1)] wraps. *)
Definition request (next_request_id : Z) (peer : PeerId) (request : SyncRequest) :
    Z * OutboundSyncRequestId * NetworkCommand :=
  (wrap u64_max (next_request_id + 1), next_request_id,
   Request (mk_OutboundSyncIntent next_request_id peer request)).
End network.

(** ** The bridge to the actor *)

Section bridge.
Context `{Ed25519, Libp2p, Swarm, !Borsh UnsignedTransaction, !Borsh SignedTransaction, !Borsh FinalizedWireRecord,
          !Borsh ConsensusWireMessage, !Borsh SignedValidatorStatus}.

(** [spawn_network_bridge]: the command an event becomes. *)
Definition network_bridge (chain_id : ustring) (event : NetworkEvent) : option Command :=
  match event with
  | EventGossip peer envelope =>
      if bool_decide (ge_chain_id envelope = chain_id) then
        match ge_kind envelope with
        | KindTransaction =>
            match tx_decode (ge_payload envelope) with
            | Ok transaction => Some (Submit transaction false)
            | Err _ => None
            end
        | KindFinalized => record ← try_from_slice (ge_payload envelope); Some (ImportFinalized record peer)
        | KindConsensus => message ← try_from_slice (ge_payload envelope); Some (ConsensusMessage peer message)
        | KindStatus => status ← try_from_slice (ge_payload envelope); Some (ValidatorStatus status)
        end
      else None
  | EventPeerConnected peer => Some (PeerConnected peer)
  | EventPeerDisconnected peer => Some (PeerDisconnected peer)
  | EventSyncRequest _ response_token request => Some (SyncRequestReceived response_token request)
  | EventSyncResponse peer intent response => Some (SyncResponseReceived peer intent response)
  | EventSyncFailure peer intent => Some (SyncFailure peer intent)
  end.

(** What a node's actor hands to [publish_transaction], [publish_consensus],
    [publish_finalized] and [publish_status], for an output it gossips. *)
Definition announce (chain_id : ustring) (o : Output) : option NetworkCommand :=
  match o with
  | GossipTransaction b => Some (publish_transaction chain_id b)
  | GossipConsensus wire => Some (publish_consensus chain_id (to_vec wire))
  | GossipFinalized record => Some (publish_finalized chain_id (to_vec record))
  | GossipStatus status => Some (publish_status chain_id (to_vec status))
  | _ => None
  end.
End bridge.
