(* ===== verification/NodeSteps.v ===== *)
(** * The actor as a transition system

    Every handler of the node is a sequence of the steps of [actor_step]: the
    bookkeeping that touches neither the ledger nor the store, reads, the
    acceptance of a transaction, a record in the store, one step of the
    consensus engine, a message to the network, the commit of a finalized
    block, and the halt.  The invariants of the node are proved by induction on
    these steps ([NodeSpec]); this file proves that the handlers make no others
    ([command_steps]). *)

From S2P Require Import Prelude Errors Crypto Transaction Block Commit Ledger ConsensusTypes Engine EngineRules Sqlite Store StoreFacts NodeTypes Projection Recovery NodeState Node NodeCommands.

(** ** Reads of the store *)

(** Nothing durable changes, and no transaction is left open. *)
Definition reading (s s' : Store Database) : Prop :=
  durable s' = durable s /\ (idle s -> idle s').

#[export] Instance reading_preorder : PreOrder reading.
Proof. split; [by intros s|]. intros s1 s2 s3 [H1 ?] [H2 ?]. split; [congruence|auto]. Qed.

Lemma reading_read {A} (select : Database -> result SqliteError A) s :
  preserves reading s (_ ← connection; query select).
Proof.
  apply preserves_bind; [by apply _|by intros s' r ->%connection_frame|].
  by intros s1 [] _ s' r ->%query_frame.
Qed.

Lemma reading_from_store {A} (m : storeM A) s : preserves reading s m -> preserves reading s (from_store m).
Proof.
  intros Hm s' r Hr. unfold from_store in Hr. destruct (m s) as [s1 r1] eqn:E.
  injection Hr as <- _. by eapply Hm.
Qed.

Lemma from_store_Ok {A} (m : storeM A) s s' x : from_store m s = (s', Ok x) -> m s = (s', Ok x).
Proof. unfold from_store. destruct (m s) as [s1 [a|e]]; naive_solver. Qed.

Section steps.
Context `{Blake3, Blake3Checksum, Ed25519, !SigningKeyBytes, Hex, Bech32, ChallengeJson, Libp2p,
          !Borsh UnsignedTransaction, !Borsh SignedTransaction, !Borsh BlockHeader, !Borsh Block,
          !Borsh StateCommitment, !Borsh CommitVote, !Borsh CommitCertificate,
          !Borsh SignableMessage, !Borsh SignedMessage, !Borsh SignedProposal,
          !Borsh FinalizedWireRecord, !Borsh ValidatorStatusMessage, !SerdeJson SafetyState}.
Context (evidence_debug : Evidence -> bytes).

(** ** What is recorded and sent *)

(** The signer's table holds the decision behind a message, with the message's
    signature. *)
Definition recorded (message : SignedMessage) (db : Database) : Prop :=
  exists sign_bytes safety, signing_bytes (signable message) = Ok sign_bytes /\
    decided (signer_slot (signable message)) sign_bytes safety (message_signature message) db.

Definition wire_message (wire : ConsensusWireMessage) : SignedMessage :=
  match wire with
  | WireProposal signed _ => SignedMessageProposal signed
  | WireVote signed => SignedMessageVote signed
  end.

(** A record of an answer: the wire form of a row of [blocks]. *)
Definition served_record (db : Database) (h : Z) (record : bytes) : Prop :=
  exists row wire, blocks db !! h = Some row /\ decode_record_row row = Ok wire /\ record = to_vec wire.

(** An answer to a synchronization request that holds what [self] has: the
    height, tip hash and state root of its ledger and the row of its tip, or
    rows of its disk. *)
Definition served (self : NodeActor) (response : SyncResponse) : Prop :=
  let db := durable (na_store self) in
  match response with
  | StatusResponse h block_hash_ state_root_ _ finalized_tip =>
      h = height (na_ledger self) /\
      block_hash_ = hash_to_string (tip_hash (na_ledger self)) /\
      state_root_ = hash_to_string (state_root (na_ledger self)) /\
      match finalized_tip with Some record => served_record db h record | None => h = 0 end
  | BlocksResponse records => Forall (fun record => exists h, served_record db h record) records
  | ErrorResponse _ _ => False
  end.

(** The outputs of [self] that announce nothing: no transaction, no consensus
    message and no finalized block is gossiped.  A synchronization request is
    answered, between two operations of the store, with what [self] has. *)
Definition silent (self : NodeActor) (o : Output) : Prop :=
  match o with
  | GossipTransaction _ | GossipConsensus _ | GossipFinalized _ => False
  | SentResponse _ response => idle (na_store self) -> served self response
  | ApiEvent _ _ | WakeUp | ScheduledTimeout _ | GossipStatus _ | SentRequest _ _ => True
  end.

Lemma silent_frame s s' o :
  na_ledger s' = na_ledger s -> durable (na_store s') = durable (na_store s) ->
  (idle (na_store s) -> idle (na_store s')) -> silent s' o -> silent s o.
Proof. destruct o; simpl; try done. unfold served. intros -> -> Hi Hs ?. by apply Hs, Hi. Qed.

Lemma silents_frame s s' l :
  na_ledger s' = na_ledger s -> durable (na_store s') = durable (na_store s) ->
  (idle (na_store s) -> idle (na_store s')) -> Forall (silent s') l -> Forall (silent s) l.
Proof. intros Hl Hd Hi Hs. eapply Forall_impl; [exact Hs|]. intros o. by apply silent_frame. Qed.

(** What [build_projection] takes from the block. *)
Record projects (block : Block) (certificate : CommitCertificate) (p : FinalizedProjection) : Prop := {
  projects_height : fp_height p = bh_height (header block);
  projects_hash : fp_block_hash p = hash_to_string (block_hash block);
  projects_parent : fp_parent_hash p = hash_to_string (bh_parent_hash (header block));
  projects_root : fp_state_root p = hash_to_string (bh_state_root (header block));
  projects_proposer : fp_proposer p = hex_encode (as_bytes (bh_proposer (header block)));
  projects_round : fp_round p = bh_round (header block);
  projects_timestamp : fp_timestamp_ms p = bh_timestamp_ms (header block);
  projects_bytes : fp_block_bytes p = block_canonical_bytes block;
  projects_certificate : fp_certificate_bytes p = certificate_canonical_bytes certificate
}.

(** What it takes from the ledger after the block, and from the receipts. *)
Definition projected_account (entry : Address * AccountState) (a : AccountProjection) : Prop :=
  ap_address a = address_to_string entry.1 /\ ap_balance_atoms a = balance_atoms entry.2 /\
  ap_nonce a = next_nonce entry.2 /\ ap_display_name a = ac_display_name entry.2 /\ 0 <= ap_transaction_count a.

Record derives (ledger : LedgerState) (receipts : list TransactionReceipt) (p : FinalizedProjection) : Prop := {
  derives_transactions : fp_transactions p = project_transactions receipts;
  derives_accounts : Forall2 projected_account (account_entries_of ledger) (fp_changed_accounts p);
  derives_supply : fp_issued_supply_atoms p = total_supply_atoms ledger
}.

Lemma derives_length ledger receipts p : derives ledger receipts p -> length (fp_transactions p) = length receipts.
Proof. intros Hd. rewrite (derives_transactions _ _ _ Hd). apply length_imap. Qed.

(** ** The steps *)

(** The bookkeeping: everything of [self] but the chain, the mempool, the
    engine, the store and the halt. *)
Record quiet (s s' : NodeActor) : Prop := {
  quiet_identity : na_identity s' = na_identity s;
  quiet_ledger : na_ledger s' = na_ledger s;
  quiet_mempool : na_mempool s' = na_mempool s;
  quiet_mempool_ids : na_mempool_ids s' = na_mempool_ids s;
  quiet_store : na_store s' = na_store s;
  quiet_consensus : na_consensus s' = na_consensus s;
  quiet_halted : na_halted s' = na_halted s;
  quiet_outbox : exists l, na_outbox s' = na_outbox s ++ l /\ Forall (silent s) l
}.

#[export] Instance quiet_preorder : PreOrder quiet.
Proof.
  split.
  - intros s. split; auto. exists []. by rewrite app_nil_r.
  - intros s1 s2 s3 Q1 Q2. split; try (destruct Q1, Q2; congruence).
    destruct (quiet_outbox _ _ Q1) as (l1 & E1 & F1), (quiet_outbox _ _ Q2) as (l2 & E2 & F2).
    exists (l1 ++ l2). rewrite E2, E1, app_assoc. split; [done|]. apply Forall_app. split; [done|].
    apply (silents_frame s1 s2); [apply Q1|by rewrite (quiet_store _ _ Q1)..|done].
Qed.

(** The writes of a validator that votes. *)
Definition is_record (op : StoreOp) : Prop :=
  match op with
  | PersistConsensusDecision _ _ _ _ _ | PersistConsensusProposal _ | AppendConsensusEvent _ _ => True
  | _ => False
  end.

(** The mempool after [revalidate_mempool]. *)
Definition revalidated (ledger : LedgerState) (mempool : list SignedTransaction) : list SignedTransaction :=
  keep_applicable mempool (saturating_add u64_max (height ledger) 1) ledger.

Inductive actor_step (s : NodeActor) : NodeActor -> Prop :=
| step_quiet s' : quiet s s' -> actor_step s s'
| step_read st : reading (na_store s) st -> actor_step s (set_store st s)
| step_halt : actor_step s (set_halted true s)
| step_accept t candidate :
    na_halted s = false -> tx_id t ∉ na_mempool_ids s ->
    apply_pending (na_mempool s) (height (na_ledger s) + 1) (na_ledger s) = (candidate, Ok ()) ->
    is_ok (validate_transaction candidate t (height (na_ledger s) + 1)) = true ->
    actor_step s (set_mempool (na_mempool s ++ [t]) ({[tx_id t]} ∪ na_mempool_ids s) s)
| step_announce o :
    na_halted s = false -> (forall wire, o <> GossipConsensus wire) -> actor_step s (add_output o s)
| step_record op st reply :
    na_halted s = false -> is_record op -> idle (na_store s) -> idle st ->
    effect op (durable (na_store s)) (durable st) reply -> actor_step s (set_store st s)
| step_gossip wire :
    na_halted s = false ->
    recorded (wire_message wire) (durable (na_store s)) ->
    actor_step s (add_output (GossipConsensus wire) s)
| step_engine event c c' r :
    na_halted s = false -> na_consensus s = Some c ->
    step (H := node_message_validator
                 (mk_NodeMessageValidator (na_ledger s) (na_proposal_blocks s) (node_validators s))) event c =
      (c', r) ->
    actor_step s (set_consensus (Some c') s)
| step_commit block certificate ledger receipts p st reply :
    na_halted s = false ->
    apply_finalized_block block certificate (node_validators s) (na_ledger s) = (ledger, Ok receipts) ->
    projects block certificate p -> derives ledger receipts p ->
    idle (na_store s) -> idle st ->
    effect (PersistFinalized p) (durable (na_store s)) (durable st) reply ->
    let kept := revalidated ledger (na_mempool s) in
    actor_step s (set_mempool kept (list_to_set (tx_id <$> kept)) (set_ledger ledger (set_store st s)))
| step_reset key validators c :
    na_halted s = false -> node_key s = Some key ->
    validator_set_new (id_consensus_ids (na_identity s)) = Ok validators ->
    consensus_new (validator_from_signing_key key) validators (height (na_ledger s) + 1)
      (for_chain (cfg_node_chain_id (node_config s))) = Ok c ->
    actor_step s (set_consensus (Some c) s).

Abbreviation steps := (rtc actor_step).

(** A handler that runs in a node that is not halted, and does not halt it. *)
Definition active (s s' : NodeActor) : Prop :=
  na_halted s = false -> na_halted s' = false /\ steps s s'.

#[export] Instance active_preorder : PreOrder active.
Proof.
  split; [by intros s|]. intros s1 s2 s3 A1 A2 Hs.
  destruct (A1 Hs) as [Hs2 ?], (A2 Hs2) as [? ?]. split; [done|]. by etrans.
Qed.

Lemma quiet_steps s s' : quiet s s' -> steps s s'.
Proof. intros Hq. apply rtc_once. by constructor. Qed.

Lemma active_steps s s' : na_halted s' = na_halted s -> (na_halted s = false -> actor_step s s') -> active s s'.
Proof. intros Hh Hn Hs. rewrite Hh. split; [done|]. by apply rtc_once, Hn. Qed.

Lemma quiet_active s s' : quiet s s' -> active s s'.
Proof. intros Hq. apply active_steps; [apply Hq|]. intros _. by constructor. Qed.

(** ** The bookkeeping handlers *)

Ltac quiet_set := split; try done; exists []; by rewrite app_nil_r.

Lemma quiet_set_env x s : quiet s (set_env x s).
Proof. quiet_set. Qed.
Lemma quiet_set_snapshot x s : quiet s (set_snapshot x s).
Proof. quiet_set. Qed.
Lemma quiet_set_peers x s : quiet s (set_peers x s).
Proof. quiet_set. Qed.
Lemma quiet_set_telemetry x s : quiet s (set_telemetry x s).
Proof. quiet_set. Qed.
Lemma quiet_set_sync_target x s : quiet s (set_sync_target x s).
Proof. quiet_set. Qed.
Lemma quiet_set_sync_request p i d s : quiet s (set_sync_request p i d s).
Proof. quiet_set. Qed.
Lemma quiet_set_last_block a d s : quiet s (set_last_block a d s).
Proof. quiet_set. Qed.
Lemma quiet_set_last_status_at x s : quiet s (set_last_status_at x s).
Proof. quiet_set. Qed.
Lemma quiet_set_consensus_started x s : quiet s (set_consensus_started x s).
Proof. quiet_set. Qed.
Lemma quiet_set_proposal_blocks x s : quiet s (set_proposal_blocks x s).
Proof. quiet_set. Qed.
Lemma quiet_set_recovery m w s : quiet s (set_recovery m w s).
Proof. quiet_set. Qed.
Lemma quiet_add_output o s : silent s o -> quiet s (add_output o s).
Proof. intros Ho. split; try done. exists [o]. split; [done|]. by constructor. Qed.

#[local] Hint Resolve quiet_set_env quiet_set_snapshot quiet_set_peers quiet_set_telemetry quiet_set_sync_target
  quiet_set_sync_request quiet_set_last_block quiet_set_last_status_at quiet_set_consensus_started
  quiet_set_proposal_blocks quiet_set_recovery quiet_add_output : quiet.

Lemma quiet_emit {E} o s : silent s o -> preserves quiet s (emit (E := E) o).
Proof. intros Ho. apply preserves_modify. auto with quiet. Qed.
Lemma quiet_unix_timestamp_ms {E} s : preserves quiet s (unix_timestamp_ms (E := E)).
Proof. intros s' r [= <- _]. auto with quiet. Qed.
Lemma quiet_instant_now {E} s : preserves quiet s (instant_now (E := E)).
Proof. intros s' r [= <- _]. auto with quiet. Qed.

#[local] Hint Resolve quiet_unix_timestamp_ms quiet_instant_now : quiet.

Lemma preserves_ignore {E1 E2 A} (R : NodeActor -> NodeActor -> Prop) (m : stE NodeActor E1 A) s :
  preserves R s m -> preserves R s (ignore (E' := E2) m).
Proof. intros Hm s' r [= <- _]. destruct (m s) as [s1 r1] eqn:E. by eapply Hm. Qed.

Ltac walk_leaf :=
  match goal with
  | |- preserves _ _ (ignore _) => apply preserves_ignore
  | |- preserves _ _ (emit _) => apply quiet_emit; exact I
  | |- preserves _ _ (modify _) => apply preserves_modify; auto with quiet
  | |- preserves _ _ _ => solve [auto with quiet]
  end.

Ltac walk := repeat first [walk_step | walk_leaf | walk_bind].

Lemma quiet_publish_snapshot {E} s : preserves quiet s (publish_snapshot (E := E)).
Proof. unfold publish_snapshot. walk. Qed.
Lemma quiet_note_validator_activity {E} v h phase s :
  preserves quiet s (note_validator_activity (E := E) v h phase).
Proof. unfold note_validator_activity. walk. Qed.
Lemma quiet_network_request peer request s : preserves quiet s (network_request peer request).
Proof.
  intros s' r. unfold network_request. destruct (head _) as [[id|]|]; intros [= <- _]; auto with quiet.
  etrans; [apply quiet_set_env|by apply quiet_add_output].
Qed.
Lemma quiet_network_respond token response s :
  (idle (na_store s) -> served s response) -> preserves quiet s (network_respond token response).
Proof.
  intros Hs s' r. unfold network_respond. destruct (head _) as [[|]|]; intros [= <- _]; auto with quiet.
  etrans; [apply quiet_set_env|by apply quiet_add_output].
Qed.

#[local] Hint Resolve quiet_publish_snapshot quiet_note_validator_activity quiet_network_request
  : quiet.

Lemma quiet_note_signers {E} l h s : preserves quiet s (note_signers (E := E) l h).
Proof. revert s. induction l as [|x l IH]; intros s; simpl; walk. Qed.
Lemma quiet_emit_transactions {E} l s : preserves quiet s (emit_transactions (E := E) l).
Proof. revert s. induction l as [|x l IH]; intros s; simpl; walk. Qed.
Lemma quiet_finish_sync {E} s : preserves quiet s (finish_sync_if_current (E := E)).
Proof.
  unfold finish_sync_if_current. walk. etrans; [apply quiet_set_sync_target|apply quiet_set_sync_request].
Qed.
Lemma quiet_accept_validator_status signed s : preserves quiet s (accept_validator_status signed).
Proof. unfold accept_validator_status. walk. Qed.
#[local] Hint Resolve quiet_accept_validator_status : quiet.
Lemma quiet_publish_validator_status s : preserves quiet s publish_validator_status.
Proof.
  unfold publish_validator_status. apply (preserves_get _). destruct (node_key s) as [key|]; [|walk].
  destruct (match na_consensus s with Some _ => _ | None => _ end) as [round phase]. walk.
Qed.
Lemma quiet_request_sync_blocks peer s : preserves quiet s (request_sync_blocks peer).
Proof. unfold request_sync_blocks. walk. Qed.
#[local] Hint Resolve quiet_note_signers quiet_emit_transactions quiet_finish_sync
  quiet_publish_validator_status quiet_request_sync_blocks : quiet.
Lemma quiet_ensure_active_sync_request peer s : preserves quiet s (ensure_active_sync_request peer).
Proof. unfold ensure_active_sync_request. walk. Qed.
#[local] Hint Resolve quiet_ensure_active_sync_request : quiet.
Lemma quiet_begin_sync peer target s : preserves quiet s (begin_sync peer target).
Proof. unfold begin_sync. walk. etrans; [apply quiet_set_sync_target|apply quiet_set_consensus_started]. Qed.
Lemma quiet_retry_sync_after_failure peer id s : preserves quiet s (retry_sync_after_failure peer id).
Proof. unfold retry_sync_after_failure. walk. Qed.
#[local] Hint Resolve quiet_begin_sync quiet_retry_sync_after_failure : quiet.
Lemma quiet_retry_timed_out now s : preserves quiet s (retry_timed_out_sync_request now).
Proof. unfold retry_timed_out_sync_request. walk. Qed.
Lemma quiet_peer_connected peer s : preserves quiet s (peer_connected peer).
Proof. unfold peer_connected. walk. Qed.
Lemma quiet_peer_disconnected peer s : preserves quiet s (peer_disconnected peer).
Proof. unfold peer_disconnected. walk. Qed.
#[local] Hint Resolve quiet_retry_timed_out quiet_peer_connected quiet_peer_disconnected : quiet.

(** ** The store of the actor *)

Lemma in_store_run {A} (m : storeA A) s s' r :
  in_store m s = (s', r) -> m (na_store s) = (na_store s', r) /\ s' = set_store (na_store s') s.
Proof. unfold in_store. destruct (m (na_store s)) as [st r1]. by intros [= <- <-]. Qed.

Lemma steps_in_store {A} (m : storeA A) s :
  preserves reading (na_store s) m -> preserves steps s (in_store m).
Proof.
  intros Hm s' r [Hr ->]%in_store_run. apply rtc_once, step_read. by eapply Hm.
Qed.

Lemma active_in_store {A} (m : storeA A) s :
  preserves reading (na_store s) m -> preserves active s (in_store m).
Proof.
  intros Hm s' r [Hr ->]%in_store_run. apply active_steps; [done|]. intros _. apply step_read. by eapply Hm.
Qed.

(** A record: the operation [m] of the store is [op]. *)
Lemma active_record {A} op P (m : storeM A) s :
  is_record op -> updates P m -> keeps_idle m ->
  (forall db db' a, P db db' a -> exists reply, effect op db db' reply) ->
  preserves active s (in_store (from_store m)).
Proof.
  intros Hop Hu Hk HP s' r [Hr ->]%in_store_run. apply active_steps; [done|]. intros Hh.
  unfold from_store in Hr. destruct (m (na_store s)) as [st r1] eqn:E. injection Hr as Hst _. subst st.
  destruct (Hu _ _ _ E) as (_ & Hn & Hi). pose proof (fun i => Hk _ _ _ i E) as Hidle.
  destruct (decide (working (na_store s) = None)) as [Hw|Hw].
  - specialize (Hi Hw). destruct r1 as [a|e].
    + destruct Hi as [Hi' HPa]. destruct (HP _ _ _ HPa) as [reply He]. by eapply step_record.
    + apply step_read. by split.
  - apply step_read. destruct (Hn Hw) as [_ Hd]. split; [done|]. intros Hi'. by destruct Hw.
Qed.

Lemma active_persist_proposal p s :
  preserves active s (in_store (from_store (persist_consensus_proposal p))).
Proof.
  apply (active_record (PersistConsensusProposal p) _ _ _ I (persist_consensus_proposal_updates p));
    [auto with kcoin|]. intros db db' a HP. by exists Done.
Qed.

Lemma active_append_event kind b s :
  preserves active s (in_store (from_store (append_consensus_event kind b))).
Proof.
  apply (active_record (AppendConsensusEvent kind b) _ _ _ I (append_consensus_event_updates kind b));
    [auto with kcoin|]. intros db db' a HP. exists (Sequence a). simpl. naive_solver.
Qed.

Lemma active_persist_decision slot sb sig ss sm s :
  preserves active s (in_store (from_store (persist_consensus_decision slot sb sig ss sm))).
Proof.
  apply (active_record (PersistConsensusDecision slot sb sig ss sm) _ _ _ I
    (persist_consensus_decision_updates slot sb sig ss sm)); [auto with kcoin|].
  intros db db' a HP. exists (Signature a). simpl. eauto.
Qed.

(** ** [build_projection] reads *)

Lemma reading_existing_count a s : preserves reading s (existing_count a).
Proof.
  intros s' r Hr. unfold existing_count in Hr. destruct (Store.account a s) as [s1 r1] eqn:E.
  injection Hr as <- _. by apply (reading_read _ s s1 r1 E).
Qed.

Lemma reading_project_accounts activity entries s : preserves reading s (project_accounts activity entries).
Proof.
  revert s. induction entries as [|[a acc] l IH]; intros s; simpl; [apply (preserves_ret _)|].
  apply (preserves_bind _); [apply reading_existing_count|]. intros s1 n _.
  apply (preserves_bind _); [apply IH|]. intros s2 x _. apply (preserves_ret _).
Qed.

Lemma reading_issued_height id s : preserves reading s (canonical_challenge_issued_height id).
Proof.
  unfold canonical_challenge_issued_height. destruct (_ =? _); [apply (preserves_ret _)|].
  apply (preserves_bind _); [apply reading_from_store, reading_read|]. intros s1 rows _. apply (preserves_lift _).
Qed.

Lemma reading_build_projection candidate block certificate receipts s :
  preserves reading s (build_projection candidate block certificate receipts).
Proof.
  unfold build_projection. cbv zeta.
  apply (preserves_bind _); [apply reading_project_accounts|]. intros s1 accounts _.
  apply (preserves_bind _); [apply reading_from_store, reading_read|]. intros s2 previous _.
  apply (preserves_bind _); [|intros s3 issued _; apply (preserves_ret _)].
  destruct (existsb _ _); [apply (preserves_ret _)|].
  destruct (previous_issued_height _ _); [apply (preserves_ret _)|].
  apply (preserves_bind _); [apply reading_issued_height|]. intros s3 issued _. apply (preserves_ret _).
Qed.

(** The counts of transactions are not negative. *)
Lemma existing_count_nonneg a s s' n : existing_count a s = (s', Ok n) -> 0 <= n.
Proof.
  unfold existing_count. destruct (Store.account a s) as [s1 r] eqn:E. intros [= _ <-].
  destruct r as [[x|]|]; try done. unfold Store.account in E.
  apply bind_Ok_inv in E as (s2 & [] & _ & E). apply query_Ok in E as [_ E].
  unfold optional_row in E. destruct (accounts _ !! a) as [row|]; [|done].
  apply result_bind_Ok_inv in E as (y & Hy & [= <-]). unfold account_from_row in Hy.
  repeat (apply result_bind_Ok_inv in Hy as (? & [-> ?]%from_sql_u64_Ok & Hy)). by injection Hy as <-.
Qed.

Lemma block_activity_nonneg txs key n : block_activity txs !! key = Some n -> 0 <= n.
Proof.
  assert (forall k (m : gmap ustring Z), map_Forall (fun _ n => 0 <= n) m ->
            map_Forall (fun _ n => 0 <= n) (count_activity k m)) as Hcount.
  { intros k m Hm. apply map_Forall_insert_2; [|done]. destruct (m !! k) eqn:E; simpl; [|lia]. specialize (Hm _ _ E). simpl in Hm. lia. }
  assert (map_Forall (fun _ n => 0 <= n) (block_activity txs)) as Ha; [|apply Ha].
  unfold block_activity. assert (map_Forall (fun _ n => 0 <= n) (∅ : gmap ustring Z)) as Hm by apply map_Forall_empty.
  revert Hm. generalize (∅ : gmap ustring Z). induction txs as [|tx txs IH]; intros m Hm; [done|]. simpl. apply IH.
  unfold transaction_activity. destruct (tp_recipient tx); [case_bool_decide|]; auto.
Qed.

Lemma project_accounts_derives txs entries s s' l :
  project_accounts (block_activity txs) entries s = (s', Ok l) -> Forall2 projected_account entries l.
Proof.
  revert s s' l. induction entries as [|[a acc] entries IH]; intros s s' l; simpl; [intros [= _ <-]; constructor|].
  intros (s1 & n & Hn%existing_count_nonneg & Hr)%bind_Ok_inv. apply bind_Ok_inv in Hr as (s2 & rest & Hr & [= _ <-]).
  constructor; [|by eapply IH]. split_and!; [done..|]. simpl.
  destruct (block_activity txs !! _) eqn:E; simpl; [apply block_activity_nonneg in E|]; lia.
Qed.

Lemma build_projection_projects candidate block certificate receipts s s' p :
  build_projection candidate block certificate receipts s = (s', Ok p) ->
  projects block certificate p /\ derives candidate receipts p.
Proof.
  unfold build_projection. cbv zeta. intros (s1 & accounts & Ha & Hr)%bind_Ok_inv.
  apply bind_Ok_inv in Hr as (s2 & previous & _ & Hr). apply bind_Ok_inv in Hr as (s3 & issued & _ & Hr).
  injection Hr as _ <-. split; [by split|]. split; try done. by eapply project_accounts_derives.
Qed.

(** ** The handlers of a running node *)

Lemma preserves_calm {E A} s (m : stE NodeActor E A) : preserves quiet s m -> preserves active s m.
Proof. apply preserves_mono, quiet_active. Qed.

Lemma active_announce {E} o s :
  (forall wire, o <> GossipConsensus wire) -> preserves active s (emit (E := E) o).
Proof.
  intros Ho. apply preserves_modify, active_steps; [done|]. intros Hh. by apply step_announce.
Qed.

Create HintDb active.
#[local] Hint Resolve active_in_store active_persist_proposal active_append_event active_persist_decision
  reading_build_projection : active.

(** One step of the walk through a handler that acts. *)
Ltac act_leaf :=
  match goal with
  | |- preserves _ _ (emit _) => apply active_announce; discriminate
  | |- preserves _ _ _ => solve [auto with active]
  | |- preserves _ _ _ => apply preserves_calm; solve [walk]
  end.
Ltac act := repeat first [walk_step | act_leaf | walk_bind].

Lemma steps_guarded {E A} (m : stE NodeActor E A) s :
  (na_halted s = true -> preserves steps s m) -> preserves active s m -> preserves steps s m.
Proof.
  intros Hh Ha. destruct (na_halted s) eqn:E1; [by apply Hh|].
  intros s' r Hr. by destruct (Ha _ _ Hr E1).
Qed.

Lemma active_accept_transaction t gossip s : preserves active s (accept_transaction t gossip).
Proof.
  unfold accept_transaction. apply (preserves_get _). destruct (_ || _); [apply (preserves_throw _)|]. cbv zeta.
  destruct (bool_decide (_ ∈ _) || _) eqn:Hfresh; [apply (preserves_throw _)|].
  apply orb_false_iff in Hfresh as [Hfresh%bool_decide_eq_false _].
  apply (preserves_check _). intros h Hh%ok_or_Ok_inv. apply checked_add_Some in Hh as [-> _].
  destruct (apply_pending _ _ _) as [candidate pending] eqn:Hp.
  apply (preserves_check _). intros [] ->. apply (preserves_check _). intros v Hv.
  apply (preserves_modify_then _).
  - apply active_steps; [done|]. intros Hh. eapply step_accept; [done..|]. by rewrite Hv.
  - act.
Qed.

Lemma failed_persist_reading p st st' e : persist_finalized p st = (st', Err e) -> reading st st'.
Proof.
  intros Hr. destruct (persist_finalized_updates _ _ _ _ Hr) as (_ & Hn & Hi). split.
  - destruct (decide (working st = None)) as [Hw|Hw]; [by apply Hi|by apply Hn].
  - intros Hidle. by eapply persist_finalized_keeps_idle.
Qed.

Lemma commit_run {A} candidate projection s s' (r : result AnyError A) (rest : () -> stE NodeActor AnyError A) :
  (_ ← (fun self =>
          let '(self, r) := in_store (from_store (persist_finalized projection)) self in
          (self, with_context "atomically persist finalized block" r));
   _ ← modify (set_ledger candidate);
   revalidate_mempool ≫= rest) s = (s', r) ->
  let kept := revalidated candidate (na_mempool s) in
  (exists e, persist_finalized projection (na_store s) = (na_store s', Err e) /\ s' = set_store (na_store s') s) \/
  (exists st, persist_finalized projection (na_store s) = (st, Ok ()) /\
     rest () (set_mempool kept (list_to_set (tx_id <$> kept)) (set_ledger candidate (set_store st s))) = (s', r)).
Proof.
  unfold mbind at 1, stE_bind at 1, in_store, from_store.
  destruct (persist_finalized projection (na_store s)) as [st [[]|e]] eqn:E; simpl.
  - intros Hr. right. exists st. split; [done|]. exact Hr.
  - intros [= <- _]. left. exists e. done.
Qed.

Lemma active_commit_finalized block certificate gossip s :
  preserves active s (commit_finalized block certificate gossip).
Proof.
  unfold commit_finalized. apply (preserves_bind _); [act|]. intros s1 before _.
  apply (preserves_get _). destruct (apply_finalized_block _ _ _ _) as [candidate applied] eqn:Happly.
  apply (preserves_check _). intros receipts Hr.
  assert (applied = Ok receipts) as -> by (by destruct applied; simplify_eq/=).
  apply (preserves_bind _); [act|]. intros s2 projection Hp.
  apply in_store_run in Hp as [Hp Hs2].
  destruct (build_projection_projects _ _ _ _ _ _ _ Hp) as [Hproj Hder].
  intros s' r Hrun. apply commit_run in Hrun as [(e & Hpe & Hs')|(st & Hpe & Hrun)].
  - revert Hpe. rewrite Hs'. simpl. intros Hpe. apply active_steps; [done|]. intros _. apply step_read.
    by eapply failed_persist_reading.
  - match type of Hrun with ?rest ?s3 = _ => assert (preserves active s3 rest) as Hrest by act end.
    etrans; [|by eapply Hrest]. apply active_steps; [done|]. intros Hh.
    pose proof (persist_finalized_idle _ _ _ _ Hpe) as Hi.
    destruct (persist_finalized_updates _ _ _ _ Hpe) as (_ & _ & [Hi' He]%(fun H => H Hi)).
    eapply (step_commit _ block certificate candidate receipts projection st Done); try done.
    by rewrite Hs2.
Qed.

#[local] Hint Resolve active_commit_finalized : active.

Lemma active_reset_consensus s : preserves active s reset_consensus.
Proof.
  unfold reset_consensus. apply (preserves_modify_then _).
  { apply quiet_active. etrans; [apply quiet_set_proposal_blocks|].
    etrans; [apply quiet_set_recovery|apply quiet_set_consensus_started]. }
  apply (preserves_get _). destruct (node_key _) as [key|] eqn:Hkey; [|apply (preserves_ret _)].
  apply (preserves_check _). intros vs Hvs%map_err_Ok_inv. apply (preserves_check _). intros c Hc%map_err_Ok_inv.
  apply preserves_modify, active_steps; [done|]. intros Hh. by eapply step_reset.
Qed.

Lemma active_produce_standalone s : preserves active s produce_standalone.
Proof. unfold produce_standalone. act. Qed.

Lemma quiet_build_consensus_proposal round b s : preserves quiet s (build_consensus_proposal round b).
Proof. unfold build_consensus_proposal. walk. Qed.
#[local] Hint Resolve quiet_build_consensus_proposal : quiet.

(** ** Signing and sending *)

Lemma step_recorded m s s' :
  actor_step s s' -> recorded m (durable (na_store s)) -> recorded m (durable (na_store s')).
Proof.
  intros Hs (sb & ss & Hsb & Hd). exists sb, ss. split; [done|].
  destruct Hs; simpl; try done.
  - by erewrite (quiet_store s s').
  - by match goal with Hr : reading _ _ |- _ => rewrite (proj1 Hr) end.
  - by eapply effect_decided.
  - by eapply (effect_decided _ _ _ _ (PersistFinalized p)).
Qed.

Lemma steps_recorded m s s' :
  steps s s' -> recorded m (durable (na_store s)) -> recorded m (durable (na_store s')).
Proof. induction 1 as [|s1 s2 s3 Hstep _ IH]; [done|]. intros Hm. by eapply IH, step_recorded. Qed.

Lemma signed_message_signature m signature : message_signature (signed_message m signature) = signature.
Proof. by destruct m. Qed.
Lemma signable_signed_message m signature : signable (signed_message m signature) = m.
Proof. by destruct m. Qed.

Lemma active_sign_and_persist m ss s : preserves active s (sign_and_persist m ss).
Proof.
  unfold sign_and_persist. act.
Qed.

(** A message that is handed over for broadcast is on the disk. *)
Lemma sign_and_persist_recorded m ss s s' signed :
  sign_and_persist m ss s = (s', Ok signed) -> na_halted s = false ->
  recorded signed (durable (na_store s')).
Proof.
  unfold sign_and_persist. intros Hr Hh. apply bind_Ok_inv in Hr as (s1 & s2 & [= <- <-] & Hr).
  apply bind_Ok_inv in Hr as (s1 & key & Hs0 & Hr). injection Hs0 as <- _. cbv zeta in Hr.
  destruct (bool_decide _); [done|]. apply bind_Ok_inv in Hr as (s1 & sb & Hs0 & Hr). injection Hs0 as <- Hsb. apply map_err_Ok_inv in Hsb.
  apply bind_Ok_inv in Hr as (s1 & safety & [= <- _] & Hr).
  apply bind_Ok_inv in Hr as (s1 & [] & Hprop & Hr).
  apply bind_Ok_inv in Hr as (s2 & signature & Hdec & Hr). apply bind_Ok_inv in Hr as (s3 & n & Hev & Hr).
  injection Hr as <- <-. apply in_store_run in Hdec as [Hdec Hs2]. unfold from_store in Hdec.
  destruct (persist_consensus_decision _ _ _ _ _ _) as [st r] eqn:E. injection Hdec as -> Hr.
  destruct r as [sig|]; [|done]. injection Hr as ->.
  apply persist_consensus_decision_effect in E as [E _]. apply decision_effect_decided in E.
  assert (recorded (signed_message m signature) (durable (na_store s2))) as Hrec.
  { exists sb, safety. by rewrite signable_signed_message, signed_message_signature. }
  assert (active s s1) as Ha1.
  { revert Hprop. match goal with |- ?p s = _ -> _ => assert (preserves active s p) as Hp by act end.
    by apply Hp. }
  assert (na_halted s2 = false) as Hh2 by (rewrite Hs2; by apply Ha1).
  eapply steps_recorded; [|exact Hrec]. by eapply active_append_event.
Qed.

(** ** The consensus driver *)

(** The events waiting in the queue, and the effects of one step, speak only of
    messages that are on the disk. *)
Definition event_recorded (db : Database) (event : Event) : Prop :=
  match event with Persisted m => recorded m db | _ => True end.
Definition effect_recorded (db : Database) (eff : Effect) : Prop :=
  match eff with Broadcast m => recorded m db | _ => True end.

Lemma steps_events s s' l :
  steps s s' -> Forall (event_recorded (durable (na_store s))) l -> Forall (event_recorded (durable (na_store s'))) l.
Proof.
  intros Hs Hl. eapply Forall_impl; [exact Hl|]. intros [] He; simpl in *; try done. by eapply steps_recorded.
Qed.

Lemma steps_effects s s' l :
  steps s s' -> Forall (effect_recorded (durable (na_store s))) l -> Forall (effect_recorded (durable (na_store s'))) l.
Proof.
  intros Hs Hl. eapply Forall_impl; [exact Hl|]. intros [] He; simpl in *; try done. by eapply steps_recorded.
Qed.

Lemma active_publish_wire wire s :
  recorded (wire_message wire) (durable (na_store s)) -> preserves active s (publish_consensus_wire wire).
Proof.
  intros Hrec. unfold publish_consensus_wire. apply (preserves_get _).
  destruct (id_network _); [|apply (preserves_ret _)].
  apply preserves_modify, active_steps; [done|]. intros Hh. by apply step_gossip.
Qed.

Lemma active_broadcast_consensus m s :
  recorded m (durable (na_store s)) -> preserves active s (broadcast_consensus m).
Proof.
  intros Hrec. unfold broadcast_consensus. apply (preserves_get _), (preserves_check _). intros wire Hw.
  apply active_publish_wire. destruct m as [signed|signed]; [|by injection Hw as <-].
  by apply result_bind_Ok_inv in Hw as (block & _ & [= <-]).
Qed.

#[local] Hint Resolve active_sign_and_persist active_reset_consensus active_produce_standalone : active.

Lemma active_process_effect eff s :
  effect_recorded (durable (na_store s)) eff -> preserves active s (process_effect evidence_debug eff).
Proof. intros He. destruct eff; simpl; act. by apply active_broadcast_consensus. Qed.

(** The events an effect pushes are recorded. *)
Lemma process_effect_pushes eff s s' events :
  process_effect evidence_debug eff s = (s', Ok events) -> na_halted s = false ->
  Forall (event_recorded (durable (na_store s'))) events.
Proof.
  intros Hr Hh. destruct eff; simpl in Hr.
  2: { apply bind_Ok_inv in Hr as (s1 & signed & Hs & [= <- <-]). apply Forall_singleton.
       by eapply sign_and_persist_recorded. }
  all: repeat first [ injection Hr as <- <-; by repeat constructor | apply bind_Ok_inv in Hr as (? & ? & _ & Hr) ].
Qed.

Lemma active_step_consensus event s : preserves active s (step_consensus event).
Proof.
  intros s' r Hr. unfold step_consensus in Hr. destruct (na_consensus s) as [c|] eqn:Hc; [|by injection Hr as <- _].
  destruct (step event c) as [c' stepped] eqn:Hstep. injection Hr as <- _.
  apply active_steps; [done|]. intros Hh. by eapply step_engine.
Qed.

(** The engine broadcasts only the message it was told is on the disk. *)
Lemma step_consensus_effects event s s' effects :
  step_consensus event s = (s', Ok effects) -> event_recorded (durable (na_store s)) event ->
  Forall (effect_recorded (durable (na_store s'))) effects.
Proof.
  unfold step_consensus. destruct (na_consensus s) as [c|] eqn:Hc; [|done].
  destruct (step event c) as [c' stepped] eqn:Hstep. intros Hr He.
  injection Hr as <- Hr. destruct stepped as [l|]; [|done]. simplify_eq/=.
  apply Forall_forall. intros eff Heff.
  destruct (step_effects event c c' effects eff Hstep Heff) as [Hq|(m & _ & _ & [Hrep|(-> & -> & _)])].
  - by destruct eff.
  - by destruct eff.
  - exact He.
Qed.

Lemma process_effects_active effects s s' r :
  process_effects evidence_debug effects s = (s', r) -> na_halted s = false ->
  Forall (effect_recorded (durable (na_store s))) effects ->
  na_halted s' = false /\ steps s s' /\
  forall events, r = Ok events -> Forall (event_recorded (durable (na_store s'))) events.
Proof.
  revert s s' r. induction effects as [|eff effects IH]; intros s s' r Hr Hh Hrec; simpl in Hr.
  - injection Hr as <- <-. split_and!; [done..|]. by intros ? [= <-].
  - apply Forall_cons in Hrec as [He Hrec]. unfold mbind, stE_bind in Hr.
    destruct (process_effect evidence_debug eff s) as [s1 [events|e]] eqn:E1;
      destruct (active_process_effect eff s He _ _ E1 Hh) as [Hh1 Hs1]; [|by injection Hr as <- <-].
    pose proof (process_effect_pushes _ _ _ _ E1 Hh) as Hev.
    destruct (process_effects evidence_debug effects s1) as [s2 r2] eqn:E2.
    destruct (IH _ _ _ E2 Hh1 (steps_effects _ _ _ Hs1 Hrec)) as (Hh2 & Hs2 & Hev2).
    destruct r2 as [events2|e]; injection Hr as <- <-; (split_and!; [done|by etrans|]); [|done].
    intros ? [= <-]. apply Forall_app. split; [by eapply steps_events|by apply Hev2].
Qed.

Lemma active_process_events fuel pending s :
  Forall (event_recorded (durable (na_store s))) pending ->
  preserves active s (process_events evidence_debug fuel pending).
Proof.
  revert pending s. induction fuel as [|fuel IH]; intros [|event pending] s Hrec; simpl;
    [apply (preserves_ret _)|apply (preserves_throw _)|apply (preserves_ret _)|].
  apply Forall_cons in Hrec as [He Hrec]. intros s' r Hr Hh. unfold mbind, stE_bind in Hr.
  destruct (step_consensus event s) as [s1 [effects|e]] eqn:E1;
    destruct (active_step_consensus event s _ _ E1 Hh) as [Hh1 Hs1]; [|by injection Hr as <- _].
  pose proof (step_consensus_effects _ _ _ _ E1 He) as Heff.
  destruct (process_effects evidence_debug effects s1) as [s2 r2] eqn:E2.
  destruct (process_effects_active _ _ _ _ E2 Hh1 Heff) as (Hh2 & Hs2 & Hev).
  destruct r2 as [pushed|e]; [|injection Hr as <- _; split; [done|by etrans]].
  assert (steps s s2) as Hs12 by by etrans.
  destruct (IH (pending ++ pushed) s2) with (s' := s') (r := r) as [Hh3 Hs3]; [|done..|].
  - apply Forall_app. split; [by eapply steps_events|by apply Hev].
  - split; [done|]. by etrans.
Qed.

Lemma active_process_consensus_event event s :
  event_recorded (durable (na_store s)) event ->
  preserves active s (process_consensus_event evidence_debug event).
Proof.
  intros He. unfold process_consensus_event. apply (preserves_get _). destruct (_ || _ || _); [apply (preserves_ret _)|].
  apply (preserves_bind _); [by apply active_process_events, Forall_singleton|]. intros s1 [] _. act.
Qed.

Lemma active_ensure_consensus_started s : preserves active s (ensure_consensus_started evidence_debug).
Proof.
  unfold ensure_consensus_started. apply (preserves_get _). destruct (_ || _ || _ || _); [apply (preserves_ret _)|].
  apply (preserves_modify_then _); [apply quiet_active, quiet_set_consensus_started|].
  by apply active_process_consensus_event.
Qed.

Lemma active_publish_wires wires s :
  Forall (fun wire => recorded (wire_message wire) (durable (na_store s))) wires ->
  preserves active s (publish_wires wires).
Proof.
  revert s. induction wires as [|wire wires IH]; intros s Hw; simpl; [apply (preserves_ret _)|].
  apply Forall_cons in Hw as [Hwire Hw].
  apply (preserves_bind _); [by apply active_publish_wire|]. intros s1 [] Hr. apply IH.
  eapply Forall_impl; [exact Hw|]. intros w Hrec. simpl in Hrec.
  destruct (id_network (na_identity s)) eqn:Hn; revert Hr; unfold publish_consensus_wire;
    (rewrite (bind_run_Ok _ _ s s s) by done); rewrite Hn; by intros [= <-].
Qed.

(** The messages a restarted node sends again are on its disk. *)
Definition broadcasts_recorded (s : NodeActor) : Prop :=
  Forall (fun wire => recorded (wire_message wire) (durable (na_store s))) (na_recovery_broadcasts s).

Lemma active_resume_interrupted s :
  broadcasts_recorded s -> preserves active s (resume_interrupted_consensus evidence_debug).
Proof.
  intros Hb. unfold resume_interrupted_consensus. apply (preserves_get _). cbv zeta.
  apply (preserves_modify_then _); [apply quiet_active, quiet_set_recovery|].
  apply (preserves_bind _); [by apply active_publish_wires|]. intros s1 [] _.
  apply (preserves_modify_then _); [apply quiet_active, quiet_set_consensus_started|].
  by apply active_process_consensus_event.
Qed.

(** ** Messages and the tick *)

Lemma active_admit_proposal signed block s : preserves active s (admit_proposal signed block).
Proof. unfold admit_proposal. act. Qed.

#[local] Hint Resolve active_ensure_consensus_started active_admit_proposal : active.

Lemma active_feed_message h signer phase m s :
  preserves active s (feed_message evidence_debug h signer phase m).
Proof. unfold feed_message. act. by apply active_process_consensus_event. Qed.
#[local] Hint Resolve active_feed_message : active.

Lemma active_handle_consensus_message source wire s :
  preserves active s (handle_consensus_message evidence_debug source wire).
Proof. unfold handle_consensus_message. act. Qed.

Lemma active_tick s : preserves active s (tick evidence_debug).
Proof. unfold tick, elapsed. act. Qed.

(** ** Handlers that check the halt themselves *)

Lemma preserves_quiet_steps {E A} s (m : stE NodeActor E A) : preserves quiet s m -> preserves steps s m.
Proof. apply preserves_mono, quiet_steps. Qed.

Ltac stp_leaf :=
  match goal with
  | |- preserves _ _ (in_store (from_store _)) => apply steps_in_store, reading_from_store, reading_read
  | |- preserves _ _ _ => apply preserves_quiet_steps; solve [walk]
  end.
Ltac stp := repeat first [walk_step | stp_leaf | walk_bind].

Lemma steps_enter_halted {E} s : preserves steps s (enter_halted_state (E := E)).
Proof.
  apply preserves_modify. etrans; [apply rtc_once, step_halt|].
  apply quiet_steps. etrans; [apply quiet_set_consensus_started|].
  etrans; [apply quiet_set_sync_target|apply quiet_set_sync_request].
Qed.

Lemma steps_active {E A} s (m : stE NodeActor E A) :
  na_halted s = false -> preserves active s m -> preserves steps s m.
Proof. intros Hh Hm s' r Hr. by apply (Hm _ _ Hr). Qed.

Lemma steps_import_finalized record source s : preserves steps s (import_finalized record source).
Proof.
  unfold import_finalized. apply (preserves_get _). cbv zeta. destruct (na_halted s) eqn:Hh; [apply (preserves_throw _)|].
  destruct (_ || _); [apply (preserves_throw _)|].
  do 2 (apply (preserves_check _); intros [] _). destruct (_ <=? _).
  - stp. apply steps_enter_halted.
  - destruct (negb _); [stp|]. apply steps_active; [done|]. act.
Qed.

Lemma steps_import_all records s : preserves steps s (import_all records).
Proof.
  revert s. induction records as [|record records IH]; intros s; simpl; [apply (preserves_ret _)|].
  apply (preserves_bind _); [apply steps_import_finalized|]. intros s1 [] _. apply IH.
Qed.

(** ** Answers to synchronization requests *)

Lemma encode_range_served db rows payload_bytes records :
  (forall row, row ∈ rows -> exists h, blocks db !! h = Some row) ->
  encode_range rows payload_bytes = Ok records ->
  Forall (fun record => exists h, served_record db h record) records.
Proof.
  revert payload_bytes records. induction rows as [|row rows IH]; intros payload records Hrows; simpl; [by intros [= <-]|].
  intros (wire & Hw & He)%result_bind_Ok_inv. cbv zeta in He. destruct (_ <? _); [by injection He as <-|].
  apply result_bind_Ok_inv in He as (rest & Hr & [= <-]). constructor.
  - destruct (Hrows row) as [h Hh]; [by left|]. exists h, row, wire. by split_and!.
  - eapply IH; [|exact Hr]. intros row' Hin. apply Hrows. by right.
Qed.

Lemma finalized_range_served s s' from_height limit_ rows :
  finalized_range from_height limit_ s = (s', Ok rows) -> idle s' ->
  forall row, row ∈ rows -> exists h, blocks (durable s') !! h = Some row.
Proof.
  intros Hr Hi row Hin. apply read_idle in Hr; [|done]. apply result_bind_Ok_inv in Hr as (n & _ & Hr).
  apply try_collect_identity in Hr; [|exact block_from_row_same]. subst rows.
  apply elem_of_take in Hin as (i & Hin%list_elem_of_lookup_2 & _).
  apply list_elem_of_filter in Hin as [_ Hin]. by apply elem_of_btree_values in Hin.
Qed.

Lemma block_by_height_served s s' h row :
  block_by_height h s = (s', Ok (Some row)) -> idle s' -> blocks (durable s') !! h = Some row.
Proof.
  intros Hr Hi. apply read_idle in Hr; [|done]. apply result_bind_Ok_inv in Hr as (n & [-> _]%to_sql_u64_Ok & Hr).
  unfold optional_row in Hr. destruct (blocks _ !! h) as [row'|]; [|done].
  apply result_bind_Ok_inv in Hr as (row2 & ->%block_from_row_same & [= <-]). done.
Qed.


Lemma in_store_Ok {A} (m : storeM A) s s' a :
  in_store (from_store m) s = (s', Ok a) -> m (na_store s) = (na_store s', Ok a) /\ s' = set_store (na_store s') s.
Proof. by intros [Hr%from_store_Ok Hs]%in_store_run. Qed.

(** The answer to [SyncBlocks], when it is sent. *)
Lemma blocks_response_served s s' from_height limit_ response :
  (rows ← in_store (from_store (finalized_range from_height limit_));
   records ← lift (encode_range rows 0);
   mret (BlocksResponse records)) s = (s', Ok response) ->
  idle (na_store s') -> served s' response.
Proof.
  intros (s1 & rows & [Hr _]%in_store_Ok & (s2 & records & Hl & Hm)%bind_Ok_inv)%bind_Ok_inv Hi.
  injection Hl as -> He. injection Hm as -> <-.
  eapply encode_range_served; [|exact He]. by eapply finalized_range_served.
Qed.

(** The proof of the tip in the answer to [SyncStatus]. *)
Lemma status_tip_served s s' tip :
  (if height (na_ledger s) =? 0 then mret None
   else
   row ← in_store (from_store (block_by_height (height (na_ledger s))));
   row ← lift (some_context row "finalized tip is missing from storage");
   record ← lift (decode_record_row row);
   mret (Some (to_vec record))) s = (s', Ok tip) ->
  s' = set_store (na_store s') s /\
  (idle (na_store s') ->
   match tip with
   | Some record => served_record (durable (na_store s')) (height (na_ledger s)) record
   | None => height (na_ledger s) = 0
   end).
Proof.
  destruct (_ =? 0) eqn:E0; [intros [= <- <-]; split; [by destruct s|by intros _; apply Z.eqb_eq]|].
  intros (s1 & row & [Hr Hs]%in_store_Ok & (s2 & row' & Hl & (s3 & wire & Hd & Hm)%bind_Ok_inv)%bind_Ok_inv)%bind_Ok_inv.
  injection Hl as -> Hrow. injection Hd as -> Hd. injection Hm as -> <-. split; [done|]. intros Hi.
  destruct row as [row|]; [|done]. injection Hrow as ->. apply block_by_height_served in Hr; [|done].
  by exists row', wire.
Qed.

Lemma steps_respond_to_sync token request s : preserves steps s (respond_to_sync token request).
Proof.
  unfold respond_to_sync. apply (preserves_get _). destruct (negb _); [apply (preserves_throw _)|].
  apply (preserves_bind _); [stp|]. intros s1 response Hr.
  apply preserves_quiet_steps, quiet_network_respond. intros Hi. destruct request.
  - apply bind_Ok_inv in Hr as (s2 & tip & [Hs Ht]%status_tip_served & Hm). injection Hm as -> <-.
    specialize (Ht Hi). rewrite Hs. by destruct tip.
  - by eapply blocks_response_served.
Qed.

Lemma steps_handle_status_response peer h bh sr tip s :
  preserves steps s (handle_status_response peer h bh sr tip).
Proof. unfold handle_status_response. stp. Qed.

Lemma steps_handle_blocks_response peer from records s :
  preserves steps s (handle_blocks_response peer from records).
Proof.
  unfold handle_blocks_response. apply (preserves_get _). destruct (bool_decide _); [stp|]. cbv zeta.
  do 2 (apply (preserves_check _); intros ? _). apply (preserves_bind _); [apply steps_import_all|].
  intros s1 [] _. stp.
Qed.

Lemma steps_handle_sync_response peer intent response s :
  preserves steps s (handle_sync_response peer intent response).
Proof.
  unfold handle_sync_response. apply (preserves_get _), (preserves_check _). intros [] _.
  destruct (si_request intent), response; try apply (preserves_throw _);
    [apply steps_handle_status_response|apply steps_handle_blocks_response].
Qed.

(** A halted node does nothing but bookkeeping in these handlers. *)
Lemma halted_accept_transaction t gossip s :
  na_halted s = true -> preserves steps s (accept_transaction t gossip).
Proof. intros Hh. unfold accept_transaction. apply (preserves_get _). rewrite Hh. apply (preserves_throw _). Qed.

Lemma halted_handle_consensus_message source wire s :
  na_halted s = true -> preserves steps s (handle_consensus_message evidence_debug source wire).
Proof.
  intros Hh. unfold handle_consensus_message. apply (preserves_get _). rewrite Hh, orb_true_r.
  apply (preserves_ret _).
Qed.

Lemma halted_process_consensus_event event s :
  na_halted s = true -> preserves steps s (process_consensus_event evidence_debug event).
Proof.
  intros Hh. unfold process_consensus_event. apply (preserves_get _). rewrite Hh, orb_true_r. apply (preserves_ret _).
Qed.

Lemma quiet_keeps_halted {E A} s s1 (m : stE NodeActor E A) a :
  preserves quiet s m -> m s = (s1, Ok a) -> na_halted s1 = na_halted s.
Proof. intros Hm Hr. apply (quiet_halted s s1). by eapply Hm. Qed.

Lemma preserves_quiet_bind {E A B} s (m : stE NodeActor E A) (f : A -> stE NodeActor E B) :
  preserves quiet s m -> (forall s1 a, na_halted s1 = na_halted s -> preserves quiet s1 (f a)) ->
  preserves quiet s (m ≫= f).
Proof.
  intros Hm Hf. apply (preserves_bind _); [done|]. intros s1 a Hr. apply Hf. by eapply quiet_keeps_halted.
Qed.

Lemma halted_tick s : na_halted s = true -> preserves steps s (tick evidence_debug).
Proof.
  intros Hh. apply preserves_quiet_steps. unfold tick, elapsed.
  apply preserves_quiet_bind; [walk|]. intros s1 now E1.
  apply preserves_quiet_bind; [walk|]. intros s2 [] E2. apply (preserves_get _).
  apply preserves_quiet_bind; [walk|]. intros s3 age E3.
  apply preserves_quiet_bind; [walk|]. intros s4 [] E4. apply (preserves_get _).
  rewrite E4, E3, E2, E1, Hh. apply (preserves_ret _).
Qed.

(** ** Commands *)

#[local] Hint Resolve active_accept_transaction active_tick active_handle_consensus_message
  halted_accept_transaction halted_tick halted_handle_consensus_message halted_process_consensus_event
  steps_import_finalized steps_respond_to_sync steps_handle_sync_response : steps.

Lemma steps_dispatch command s : preserves steps s (dispatch evidence_debug command).
Proof.
  destruct command; simpl; try apply preserves_ignore; auto with steps;
    try (apply preserves_quiet_steps; solve [walk]); try (apply steps_guarded; solve [auto with steps]).
  - apply (preserves_get _). destruct (na_consensus_started s); [|apply (preserves_ret _)].
    apply preserves_ignore, steps_guarded; [auto with steps|]. by apply active_process_consensus_event.
  - intros s' r Hr. destruct (handle_sync_response peer intent response s) as [s1 [[]|e]] eqn:E1.
    + injection Hr as <- _. by eapply steps_handle_sync_response.
    + etrans; [by eapply steps_handle_sync_response|]. revert Hr. apply preserves_ignore, preserves_quiet_steps. walk.
Qed.

Lemma steps_command_loop commands s : preserves steps s (command_loop evidence_debug commands).
Proof.
  revert s. induction commands as [|command commands IH]; intros s; [apply (preserves_ret _)|].
  assert (preserves steps s (_ ← dispatch evidence_debug command; command_loop evidence_debug commands)) as Hc.
  { apply (preserves_bind _); [apply steps_dispatch|]. intros s1 [] _. apply IH. }
  by destruct command; [exact Hc..|apply (preserves_ret _)].
Qed.

Lemma steps_resume s : na_halted s = false -> broadcasts_recorded s -> preserves steps s (resume evidence_debug).
Proof.
  intros Hh Hb s' r Hr. unfold resume in Hr. case_bool_decide; [by injection Hr as <- _|].
  destruct (resume_interrupted_consensus evidence_debug s) as [s1 [[]|e]] eqn:E1;
    destruct (active_resume_interrupted s Hb _ _ E1 Hh) as [_ Hs1]; [by injection Hr as <- _|].
  etrans; [done|]. revert Hr. apply (preserves_bind _); [apply steps_enter_halted|]. intros s2 [] _. stp.
Qed.

(** Every run of the actor is a sequence of steps. *)
Lemma run_steps commands s s' r :
  na_halted s = false -> broadcasts_recorded s -> run evidence_debug commands s = (s', r) -> steps s s'.
Proof.
  intros Hh Hb. revert s' r. apply (preserves_bind _); [by apply steps_resume|]. intros s1 [] _.
  apply steps_command_loop.
Qed.
End steps.
