(* ===== verification/NodeChain.v ===== *)
(** * The chain on the disk and in memory

    The rows of [blocks] decode to a certified history; its replay is the
    ledger in memory.  The invariant holds after every run of the node, and it
    is what a restarting node reads. *)

From S2P Require Import Prelude Errors Crypto Transaction Block Commit Ledger ConsensusTypes Engine Sqlite Store StoreFacts NodeTypes Projection Recovery NodeState Node NodeCommands NodeSteps.

(** ** Appending to a replayed history *)

Section replay.
Context `{Blake3, Ed25519, !Borsh UnsignedTransaction, !Borsh SignedTransaction, !Borsh BlockHeader,
          !Borsh Block, !Borsh StateCommitment, !Borsh CommitVote, !Borsh CommitCertificate}.

Lemma apply_finalized_blocks_snoc history b c validators s s1 s2 rs :
  apply_finalized_blocks history validators s = (s1, Ok ()) ->
  apply_finalized_block b c validators s1 = (s2, Ok rs) ->
  apply_finalized_blocks (history ++ [(b, c)]) validators s = (s2, Ok ()).
Proof.
  revert s. induction history as [|[b' c'] history IH]; intros s Hr Hb; cbn [apply_finalized_blocks app] in *.
  - injection Hr as ->. by rewrite (bind_run_Ok _ _ _ _ _ Hb).
  - apply bind_Ok_inv in Hr as (s' & rs' & Hb' & Hr). rewrite (bind_run_Ok _ _ _ _ _ Hb'). eauto.
Qed.

Lemma replay_finalized_blocks_Ok c history validators ledger :
  replay_finalized_blocks c history validators = Ok ledger <->
  apply_finalized_blocks history validators (ledger_new c) = (ledger, Ok ()).
Proof.
  unfold replay_finalized_blocks. destruct (apply_finalized_blocks _ _ _) as [s [[]|e]]; naive_solver.
Qed.

Lemma apply_transactions_length txs h s s' rs :
  apply_transactions txs h s = (s', Ok rs) -> length rs = length txs.
Proof.
  revert s rs. induction txs as [|t txs IH]; intros s rs; cbn [apply_transactions]; [by intros [= _ <-]|].
  intros (s1 & r & _ & Hr)%bind_Ok_inv. apply bind_Ok_inv in Hr as (s2 & rs' & Hr & [= <- <-]).
  simpl. f_equal. eauto.
Qed.

(** What the block that was applied must have been, and the height it leaves. *)
Lemma apply_finalized_block_Ok b c validators s s' rs :
  apply_finalized_block b c validators s = (s', Ok rs) ->
  verify_for_block c b validators = Ok () /\ validate_commitments b = Ok () /\
  bh_chain_id (header b) = chain_id s /\ bh_height (header b) = height s + 1 /\ height s' = height s + 1 /\
  length rs = length (Block.transactions b).
Proof.
  unfold apply_finalized_block, apply_block. intros Hr.
  apply bind_Ok_inv in Hr as (s1 & [] & Hs & Hr). injection Hs as <- Hv.
  apply bind_Ok_inv in Hr as (s1 & [] & Hs & Hr). injection Hs as <- Hc.
  apply bind_Ok_inv in Hr as (s1 & self & Hs & Hr). injection Hs as <- <-.
  case_bool_decide as Hchain; [done|].
  apply bind_Ok_inv in Hr as (s1 & n & Hs & Hr). injection Hs as <- Hn.
  apply ok_or_Ok_inv, checked_add_Some in Hn as [-> _].
  destruct (Z.eqb_spec (bh_height (header b)) (height s + 1)) as [Hh|]; [|done]. cbn [negb] in Hr.
  case_bool_decide; [done|]. destruct (_ || _) in Hr; [done|].
  destruct (apply_transactions _ _ _) as [cand executed] eqn:Htx.
  apply bind_Ok_inv in Hr as (s1 & rs' & Hs & Hr). injection Hs as <- ->. apply apply_transactions_length in Htx.
  case_bool_decide; [done|]. apply bind_Ok_inv in Hr as (s2 & [] & Hs & Hr).
  injection Hs as <-. injection Hr as <- <-. by split_and!.
Qed.
End replay.

Section chain.
Context `{Blake3, Blake3Checksum, Ed25519, !SigningKeyBytes, Hex, Bech32, ChallengeJson, Libp2p,
          !Borsh UnsignedTransaction, !Borsh SignedTransaction, !Borsh BlockHeader, !Borsh Block,
          !Borsh StateCommitment, !Borsh CommitVote, !Borsh CommitCertificate,
          !Borsh SignableMessage, !Borsh SignedMessage, !Borsh SignedProposal,
          !Borsh FinalizedWireRecord, !Borsh ValidatorStatusMessage, !SerdeJson SafetyState}.
Context `{!BorshLaws Block, !BorshLaws CommitCertificate}.
Context (evidence_debug : Evidence -> bytes).

(** ** The rows and their history *)

(** The row as [persist_finalized] writes it for a certified block. *)
Definition row_of (row : BlockRow) (bc : Block * CommitCertificate) : Prop :=
  decode_history_row row = Ok bc /\ row_agrees row bc.1 bc.2 = true.

Record stores_chain (c : ChainId) (db : Database) (ledger : LedgerState) : Prop := {
  stored_history : exists history,
    Forall2 row_of (blocks_ascending db) history /\
    replay_finalized_blocks c history dev_validators = Ok ledger;
  stored_keys : map_Forall (fun h row => br_height row = h /\ h <= height ledger /\ h <= i64_max) (blocks db)
}.

Lemma stores_chain_empty c : stores_chain c empty_database (ledger_new c).
Proof. split; [exists []; split; [constructor|done]|apply map_Forall_empty]. Qed.

Lemma stores_chain_blocks c db db' ledger :
  blocks db' = blocks db -> stores_chain c db ledger -> stores_chain c db' ledger.
Proof. intros Hb [Hh Hk]. split; unfold blocks_ascending in *; by rewrite Hb. Qed.

(** The block [certificate] finalizes is read back as itself. *)
Lemma decode_projected block certificate p validators :
  projects block certificate p -> validate_commitments block = Ok () ->
  verify_for_block certificate block validators = Ok () ->
  decode_history_row (projected_block p) = Ok (block, certificate).
Proof.
  intros Hp Hb Hc. unfold decode_history_row. simpl.
  rewrite (projects_bytes _ _ _ Hp), (projects_certificate _ _ _ Hp).
  destruct (validate_commitments_Ok_inv _ Hb) as (Hsize & _). unfold block_decode.
  rewrite (proj2 (Z.ltb_ge _ _)) by done. unfold block_canonical_bytes.
  rewrite try_from_slice_to_vec. simpl. rewrite Hb. simpl.
  unfold certificate_decode, certificate_canonical_bytes.
  destruct (verify_for_block_Ok_inv _ _ _ Hc) as (_ & _ & _ & _ & Hok). pose proof (ok_size _ _ Hok).
  rewrite (proj2 (Z.ltb_ge _ _)) by done. by rewrite try_from_slice_to_vec.
Qed.

Lemma row_agrees_projected block certificate p n :
  projects block certificate p -> length (fp_transactions p) = n ->
  n = length (Block.transactions block) ->
  row_agrees (projected_block p) block certificate = true.
Proof.
  intros [] Hl Hn. unfold row_agrees. simpl.
  rewrite projects_height, projects_hash, projects_parent, projects_root, projects_proposer, projects_round,
    projects_timestamp, projects_bytes, projects_certificate, Hl, Hn, !Z.eqb_refl, !bool_decide_eq_true_2 by done.
  done.
Qed.

(** The rows after a commit are those before and the new block's. *)
Lemma stores_chain_commit_rows c db ledger history block certificate ledger' receipts p db' reply :
  stores_chain c db ledger -> Forall2 row_of (blocks_ascending db) history ->
  apply_finalized_block block certificate dev_validators ledger = (ledger', Ok receipts) ->
  projects block certificate p -> derives ledger' receipts p ->
  effect (PersistFinalized p) db db' reply ->
  Forall2 row_of (blocks_ascending db') (history ++ [(block, certificate)]) /\
  blocks db' = <[fp_height p := projected_block p]> (blocks db).
Proof.
  intros [_ Hkeys] Hrows Happly Hp Hlen%derives_length (_ & _ & ->).
  destruct (apply_finalized_block_Ok _ _ _ _ _ _ Happly) as (Hv & Hc & _ & Hh & Hh' & Hl).
  assert (forall h row, blocks db !! h = Some row -> h < fp_height p) as Hlt.
  { intros h row Hr. destruct (Hkeys h row Hr). rewrite (projects_height _ _ _ Hp). lia. }
  assert (blocks (finalized_database p db) = <[fp_height p := projected_block p]> (blocks db)) as Hb.
  { simpl. rewrite bool_decide_eq_false_2; [done|]. intros [row Hr%Hlt]. lia. }
  split; [|done]. unfold blocks_ascending. rewrite Hb, btree_values_insert_last by exact Hlt.
  apply Forall2_app; [done|]. constructor; [|constructor]. split.
  - by eapply decode_projected.
  - by eapply row_agrees_projected.
Qed.

Lemma stores_chain_commit c db ledger block certificate ledger' receipts p db' reply :
  stores_chain c db ledger ->
  apply_finalized_block block certificate dev_validators ledger = (ledger', Ok receipts) ->
  projects block certificate p -> derives ledger' receipts p ->
  effect (PersistFinalized p) db db' reply -> stores_chain c db' ledger'.
Proof.
  intros Hchain Happly Hp Hder Heff. destruct (stored_history _ _ _ Hchain) as (history & Hrows & Hrep).
  destruct (stores_chain_commit_rows _ _ _ _ _ _ _ _ _ _ _ Hchain Hrows Happly Hp Hder Heff) as [Hrows' Hb].
  destruct (apply_finalized_block_Ok _ _ _ _ _ _ Happly) as (_ & _ & _ & Hh & Hh' & _).
  split.
  - exists (history ++ [(block, certificate)]). split; [done|].
    apply replay_finalized_blocks_Ok. apply replay_finalized_blocks_Ok in Hrep.
    by eapply apply_finalized_blocks_snoc.
  - rewrite Hb. apply map_Forall_insert_2.
    + split_and!; [done| |apply Heff]. rewrite (projects_height _ _ _ Hp). lia.
    + eapply map_Forall_impl; [exact (stored_keys _ _ _ Hchain)|]. simpl. intros h row (? & ? & ?). split_and!; [done|lia|done].
Qed.

(** ** The check of a stored history *)

Lemma replay_rows_Ok rows l l' :
  replay_rows rows true l = (l', Ok ()) <->
  exists history, Forall2 row_of rows history /\ apply_finalized_blocks history dev_validators l = (l', Ok ()).
Proof.
  revert l. induction rows as [|row rows IH]; intros l; cbn [replay_rows].
  { split; [intros [= <-]; exists []; by split; [constructor|]|].
    intros (history & Hrows & Hr). inversion Hrows; subst. by injection Hr as ->. }
  split.
  - intros (l1 & b & Hb & Hr)%bind_Ok_inv. injection Hb as <- Hb. apply map_err_Ok_inv, map_err_Ok_inv in Hb.
    apply bind_Ok_inv in Hr as (l1 & c & Hc & Hr). injection Hc as <- Hc. apply map_err_Ok_inv, map_err_Ok_inv in Hc.
    apply bind_Ok_inv in Hr as (l1 & rs & Ha & Hr).
    destruct (apply_finalized_block b c dev_validators l) as [l2 applied] eqn:E. injection Ha as -> Ha.
    apply map_err_Ok_inv, map_err_Ok_inv in Ha as ->.
    destruct (row_agrees row b c) eqn:Hrow; [|done]. simpl in Hr. apply IH in Hr as (history & Hrows & Hr).
    exists ((b, c) :: history). split.
    + constructor; [|done]. split; [|done]. unfold decode_history_row. by rewrite Hb, Hc.
    + cbn [apply_finalized_blocks]. by rewrite (bind_run_Ok _ _ _ _ _ E).
  - intros (history & Hrows & Hr). inversion Hrows as [|? [b c] ? history' [Hd Hrow] Hrows']; subst.
    apply result_bind_Ok_inv in Hd as (b' & Hb & Hd). apply result_bind_Ok_inv in Hd as (c' & Hc & [= -> ->]).
    cbn [apply_finalized_blocks] in Hr. apply bind_Ok_inv in Hr as (l1 & rs & Ha & Hr).
    rewrite (bind_run_Ok _ _ l l b) by (by rewrite Hb). rewrite (bind_run_Ok _ _ l l c) by (by rewrite Hc).
    rewrite (bind_run_Ok _ _ l l1 rs) by (by rewrite Ha). simpl in Hrow. rewrite Hrow. apply IH. by exists history'.
Qed.

(** What [verify_store] accepts and reports. *)
Lemma verify_store_reports c (s s1 : Store Database) rows report :
  canonical_block_rows s = (s1, Ok rows) ->
  (verify_store c s).2 = Ok report <->
  exists history ledger, Forall2 row_of rows history /\
    replay_finalized_blocks c history dev_validators = Ok ledger /\ report = replay_report ledger.
Proof.
  intros Hrows. unfold verify_store.
  rewrite (bind_run_Ok (from_store canonical_block_rows) _ s s1 rows) by (unfold from_store; by rewrite Hrows).
  unfold replay_canonical_rows. destruct (replay_rows rows true (ledger_new c)) as [l r] eqn:E. split.
  - intros Hr. destruct r as [[]|e]; [|done]. injection Hr as <-.
    apply replay_rows_Ok in E as (history & Hh & Hr). exists history, l. split_and!; [done| |done].
    by apply replay_finalized_blocks_Ok.
  - intros (history & ledger & Hh & Hr%replay_finalized_blocks_Ok & ->).
    assert (replay_rows rows true (ledger_new c) = (ledger, Ok ())) as E' by (apply replay_rows_Ok; by exists history).
    rewrite E in E'. by injection E' as -> ->.
Qed.

(** ** The actor's invariant *)

Record chain_inv (c : ChainId) (s : NodeActor) : Prop := {
  inv_validators : node_validators s = dev_validators;
  inv_chain : stores_chain c (durable (na_store s)) (na_ledger s)
}.

Lemma effect_record_blocks op db db' reply :
  is_record op -> effect op db db' reply -> blocks db' = blocks db.
Proof.
  destruct op; simpl; intros Hop He; try done.
  - destruct He as (r & _ & h & _ & He). destruct (decision_of slot db).
    + destruct He as (_ & _ & _ & [->|[_ ->]]); done.
    + by destruct He as (_ & _ & ->).
  - destruct (consensus_proposals db !! _); [by destruct He as (_ & _ & _ & ->)|by subst].
  - by destruct He as (n & _ & _ & ->).
Qed.

Lemma step_chain_inv c s s' : actor_step s s' -> chain_inv c s -> chain_inv c s'.
Proof.
  intros Hs [Hv Hc]. unfold node_validators in Hv.
  destruct Hs as [s' Q|st R| | | |op st reply _ Hop _ _ He| | |b cert ledger rs p st reply _ Ha Hp Hl _ _ He kept|];
    try (by split).
  - destruct Q. split; [unfold node_validators; congruence|]. by rewrite quiet_store, quiet_ledger.
  - split; [done|]. simpl. eapply stores_chain_blocks; [apply (f_equal blocks), R|done].
  - split; [done|]. simpl. eapply stores_chain_blocks; [by eapply effect_record_blocks|done].
  - split; [done|]. simpl. unfold node_validators in Ha. rewrite Hv in Ha. by eapply stores_chain_commit.
Qed.

Lemma steps_chain_inv c s s' : rtc actor_step s s' -> chain_inv c s -> chain_inv c s'.
Proof. induction 1 as [|s1 s2 s3 Hs _ IH]; [done|]. intros Hi. by eapply IH, step_chain_inv. Qed.

End chain.
