(* ===== verification/NodeStart.v ===== *)
(** * What a starting node reads

    [load_node] only reads; the ledger it replays is the one the disk holds,
    and the messages it sends again are the ones the signer recorded. *)

From S2P Require Import Prelude Errors Crypto Transaction Block Commit Ledger ConsensusTypes Engine Sqlite Store StoreFacts NodeTypes Projection Recovery NodeState Node NodeCommands NodeSteps NodeChain.

Section start.
Context `{Blake3, Blake3Checksum, Ed25519, !SigningKeyBytes, Hex, Bech32, ChallengeJson, Libp2p,
          !Borsh UnsignedTransaction, !Borsh SignedTransaction, !Borsh BlockHeader, !Borsh Block,
          !Borsh StateCommitment, !Borsh CommitVote, !Borsh CommitCertificate,
          !Borsh SignableMessage, !Borsh SignedMessage, !Borsh SignedProposal,
          !Borsh FinalizedWireRecord, !Borsh ValidatorStatusMessage, !SerdeJson SafetyState}.

(** ** Recovered messages *)

Lemma validate_persisted_decision_Ok d h signed :
  validate_persisted_decision d h = Ok signed ->
  message_signature signed = pd_signature d /\
  signing_bytes (signable signed) = Ok (pd_sign_bytes d) /\
  signer_slot (signable signed) = pd_slot d.
Proof.
  unfold validate_persisted_decision. intros Hr.
  apply result_bind_Ok_inv in Hr as (m & _ & Hr). apply result_bind_Ok_inv in Hr as ([] & _ & Hr).
  apply result_bind_Ok_inv in Hr as ([] & Hc & Hr). apply result_bind_Ok_inv in Hr as (ss & _ & Hr).
  destruct (negb _); [done|]. apply result_bind_Ok_inv in Hr as ([] & _ & Hr). injection Hr as <-.
  destruct (bool_decide _) eqn:Hsig in Hc; [done|]. apply bool_decide_eq_false in Hsig. apply result_bind_Ok_inv in Hc as (sb & Hsb & Hc).
  apply map_err_Ok_inv in Hsb. destruct (_ || _) eqn:E in Hc; [done|].
  apply orb_false_iff in E as [E1%bool_decide_eq_false E2%bool_decide_eq_false].
  split_and!; [by apply dec_stable| |by apply dec_stable].
  rewrite Hsb. f_equal. by apply dec_stable.
Qed.

Lemma restore_persisted_decisions_Ok h decisions c c' messages :
  restore_persisted_decisions h decisions c = Ok (c', messages) ->
  Forall2 (fun d m => validate_persisted_decision d h = Ok m) decisions messages.
Proof.
  revert c c' messages. induction decisions as [|d decisions IH]; intros c c' messages; simpl.
  { intros [= _ <-]. constructor. }
  intros (m & Hm & Hr)%result_bind_Ok_inv. destruct (restore_local_decision _ _) as [c1 restored].
  apply result_bind_Ok_inv in Hr as ([] & _ & Hr). apply result_bind_Ok_inv in Hr as ([c2 ms] & Hrest & [= _ <-]).
  constructor; [done|]. by eapply IH.
Qed.

Lemma rebroadcast_wire_message variants m wire : rebroadcast_wire variants m = Ok wire -> wire_message wire = m.
Proof.
  destruct m as [signed|signed]; simpl; [|by intros [= <-]].
  by intros (block & _ & [= <-])%result_bind_Ok_inv.
Qed.

(** The messages [decisions] stands for are recorded in their database. *)
Lemma recovered_recorded db h decisions messages :
  slots_unique db -> (forall d, d ∈ decisions -> d ∈ signer_state db) ->
  Forall2 (fun d m => validate_persisted_decision d h = Ok m) decisions messages ->
  Forall (fun m => recorded m db) messages.
Proof.
  intros Hu Hin Hv. induction Hv as [|d m decisions messages Hd _ IH]; constructor.
  - destruct (validate_persisted_decision_Ok _ _ _ Hd) as (Hsig & Hsb & Hslot).
    exists (pd_sign_bytes d), (pd_safety_state d). split; [done|]. rewrite Hsig, Hslot.
    apply stored_decided; [done|]. apply Hin. set_solver.
  - apply IH. intros x Hx. apply Hin. set_solver.
Qed.

Lemma rebroadcast_recorded db variants messages wires :
  Forall (fun m => recorded m db) messages ->
  try_collect (rebroadcast_wire variants) messages = Ok wires ->
  Forall (fun wire => recorded (wire_message wire) db) wires.
Proof.
  intros Hm Hw%try_collect_Ok. induction Hw as [|m w messages wires Hw _ IH]; [constructor|].
  apply Forall_cons in Hm as [Hrec Hm]. constructor; [|by apply IH].
  by rewrite (rebroadcast_wire_message _ _ _ Hw).
Qed.

(** ** Recovery reads *)

Ltac read_leaf :=
  match goal with
  | |- preserves reading _ (from_store _) => apply reading_from_store, reading_read
  | |- preserves reading _ _ => solve [auto]
  end.
Ltac read_walk := repeat first [walk_step | read_leaf | walk_bind].

Lemma reading_recover_consensus config ledger ids local vs h sb ss persisted s :
  preserves reading s (recover_consensus config ledger ids local vs h sb ss persisted).
Proof. unfold recover_consensus. read_walk. Qed.

Lemma reading_initialize config ledger ids cids key s :
  preserves reading s (initialize_consensus_recovery config ledger ids cids key).
Proof.
  unfold initialize_consensus_recovery. destruct key as [key|]; [|apply (preserves_ret _)]. cbv zeta.
  apply (preserves_check _). intros vs _. apply (preserves_bind _); [read_walk|]. intros s1 stored _.
  destruct stored as [[h sb]|]; read_walk. apply reading_recover_consensus.
Qed.

Lemma recover_consensus_recorded config ledger ids local vs h sb ss persisted s s' r :
  idle s -> slots_unique (durable s) ->
  recover_consensus config ledger ids local vs h sb ss persisted s = (s', Ok r) ->
  Forall (fun wire => recorded (wire_message wire) (durable s)) (rec_rebroadcast_wires r).
Proof.
  intros Hi Hu Hr. unfold recover_consensus in Hr.
  apply bind_Ok_inv in Hr as (s1 & proposals & Hs & Hr). injection Hs as <- _.
  destruct (missing_block _ _); [done|]. destruct (missing_block _ _); [done|]. cbv zeta in Hr.
  apply bind_Ok_inv in Hr as (s1 & [] & Hs & Hr). injection Hs as <- _.
  apply bind_Ok_inv in Hr as (s1 & c & Hs & Hr). injection Hs as <- _.
  apply bind_Ok_inv in Hr as (s1 & decisions & Hs & Hr). unfold from_store in Hs.
  destruct (consensus_decisions h s) as [s2 r2] eqn:E. injection Hs as -> Hs. apply map_err_Ok_inv in Hs as ->.
  apply read_Ok in E as (_ & _ & [= <-]); [|done].
  destruct (bool_decide _); [done|]. destruct (match last _ with Some _ => _ | None => _ end); [done|].
  apply bind_Ok_inv in Hr as (s2 & [c2 messages] & Hs & Hr). injection Hs as <- Hs.
  apply bind_Ok_inv in Hr as (s3 & wires & Hs3 & Hr). injection Hs3 as <- Hw. injection Hr as _ <-. simpl.
  eapply rebroadcast_recorded; [|exact Hw]. apply restore_persisted_decisions_Ok in Hs.
  eapply recovered_recorded; [done| |exact Hs]. intros d Hd. by apply list_elem_of_filter in Hd as [_ Hd].
Qed.

Lemma initialize_recorded config ledger ids cids key s s' r :
  idle s -> slots_unique (durable s) ->
  initialize_consensus_recovery config ledger ids cids key s = (s', Ok r) ->
  Forall (fun wire => recorded (wire_message wire) (durable s)) (rec_rebroadcast_wires r).
Proof.
  intros Hi Hu Hr. unfold initialize_consensus_recovery in Hr. destruct key as [key|]; [|by injection Hr as _ <-].
  cbv zeta in Hr. apply bind_Ok_inv in Hr as (s1 & vs & Hs & Hr). injection Hs as <- _.
  apply bind_Ok_inv in Hr as (s1 & stored & Hs & Hr).
  assert (reading s s1) as [Hd1 Hi1%(fun H => H Hi)].
  { revert Hs. apply (reading_from_store _ _ (reading_read _ s)). }
  rewrite <- Hd1 in *. destruct stored as [[h sb]|].
  - destruct (negb _); [done|]. apply bind_Ok_inv in Hr as (s2 & ss & Hs2 & Hr). injection Hs2 as <- _.
    destruct (negb _); [done|]. apply bind_Ok_inv in Hr as (s2 & [] & Hs2 & Hr). injection Hs2 as <- _.
    apply bind_Ok_inv in Hr as (s2 & persisted & Hs2 & Hr).
    assert (reading s1 s2) as [Hd2 Hi2%(fun H => H Hi1)].
    { revert Hs2. apply (reading_from_store _ _ (reading_read _ s1)). }
    rewrite <- Hd2 in *. by eapply recover_consensus_recorded.
  - apply bind_Ok_inv in Hr as (s2 & c & _ & [= _ <-]). constructor.
Qed.

(** ** [start_node] *)

Lemma reading_load_node config s : preserves reading s (load_node config).
Proof.
  unfold load_node. apply (preserves_check _). intros c _. destruct (_ && _ && _); [apply (preserves_throw _)|].
  apply (preserves_bind _); [read_walk|]. intros s1 rows _. read_walk.
  apply reading_initialize.
Qed.

Lemma decode_history rows history :
  try_collect decode_history_row rows = Ok history <-> Forall2 (fun row bc => decode_history_row row = Ok bc) rows history.
Proof. apply try_collect_Ok. Qed.

(** What [load_node] returns: the configured chain, the ledger of the disk, and
    messages that are recorded. *)
Lemma load_node_Ok config s s' c ledger key recovery :
  idle s -> slots_unique (durable s) -> load_node config s = (s', Ok (c, ledger, key, recovery)) ->
  chain_id_new (cfg_node_chain_id config) = Ok c /\
  (exists history, try_collect decode_history_row (blocks_ascending (durable s)) = Ok history /\
     replay_finalized_blocks c history dev_validators = Ok ledger) /\
  Forall (fun wire => recorded (wire_message wire) (durable s)) (rec_rebroadcast_wires recovery).
Proof.
  intros Hi Hu Hr. unfold load_node in Hr. apply bind_Ok_inv in Hr as (s1 & c' & Hs & Hr).
  injection Hs as <- Hc. apply map_err_Ok_inv, map_err_Ok_inv in Hc.
  destruct (_ && _ && _) in Hr; [done|]. apply bind_Ok_inv in Hr as (s1 & rows & Hs & Hr).
  assert (reading s s1) as [Hd1 Hi1%(fun H => H Hi)].
  { revert Hs. apply (reading_from_store _ _ (reading_read _ s)). }
  unfold from_store in Hs. destruct (canonical_block_rows s) as [s2 r2] eqn:E. injection Hs as -> Hs.
  apply map_err_Ok_inv in Hs as ->. apply canonical_block_rows_Ok in E as ->; [|done].
  apply bind_Ok_inv in Hr as (s2 & history & Hs & Hr). injection Hs as <- Hh.
  apply map_err_Ok_inv, map_err_Ok_inv in Hh. apply bind_Ok_inv in Hr as (s2 & l & Hs & Hr).
  injection Hs as <- Hl. apply map_err_Ok_inv, map_err_Ok_inv in Hl.
  apply bind_Ok_inv in Hr as (s2 & k & Hs & Hr).
  assert (s2 = s1) as ->.
  { destruct (role_is config RoleValidator); [|by injection Hs].
    apply bind_Ok_inv in Hs as (s3 & i & Hs3 & Hs). injection Hs3 as <- _.
    apply bind_Ok_inv in Hs as (s3 & k' & Hs3 & Hs). injection Hs3 as <- _. by injection Hs. }
  apply bind_Ok_inv in Hr as (s3 & rec & Hrec & Hr). injection Hr as _ <- <- <- <-.
  split_and!; [done|by eauto|]. rewrite <- Hd1 in *. by eapply initialize_recorded.
Qed.

(** The actor that starts: running, its network silent so far, its store the
    one that was opened. *)
Lemma start_node_Ok config network peers env s s' self :
  idle s -> slots_unique (durable s) ->
  start_node config network peers env s = (s', Ok self) ->
  na_store self = s' /\ idle s' /\ durable s' = durable s /\
  na_halted self = false /\ na_outbox self = [] /\ node_validators self = dev_validators /\
  broadcasts_recorded self /\
  exists c history, chain_id_new (cfg_node_chain_id config) = Ok c /\
    try_collect decode_history_row (blocks_ascending (durable s)) = Ok history /\
    replay_finalized_blocks c history dev_validators = Ok (na_ledger self).
Proof.
  intros Hi Hu Hr. unfold start_node in Hr.
  destruct (load_node config s) as [s1 [[[[c ledger] key] recovery]|e]] eqn:E; [|done].
  injection Hr as <- <-. destruct (reading_load_node config s _ _ E) as [Hd Hi'].
  destruct (load_node_Ok _ _ _ _ _ _ _ Hi Hu E) as (Hc & (history & Hh & Hl) & Hw).
  split_and!; try done; [by apply Hi'| |by exists c, history].
  unfold broadcasts_recorded, initial_actor. cbn [na_store na_recovery_broadcasts]. by rewrite Hd.
Qed.

(** The history that decodes is the one that replays to the ledger. *)
Lemma stores_chain_replay c db ledger history :
  stores_chain c db ledger -> try_collect decode_history_row (blocks_ascending db) = Ok history ->
  replay_finalized_blocks c history dev_validators = Ok ledger.
Proof.
  intros Hchain Hh. destruct (stored_history _ _ _ Hchain) as (history' & Hrows & Hrep).
  assert (try_collect decode_history_row (blocks_ascending db) = Ok history') as Hh'.
  { apply decode_history. eapply Forall2_impl; [exact Hrows|]. by intros row bc [? _]. }
  rewrite Hh in Hh'. by injection Hh' as ->.
Qed.

(** On a disk that stores a chain, it starts with the ledger of that chain. *)
Lemma start_node_chain config network peers env s s' self c ledger :
  idle s -> slots_unique (durable s) -> stores_chain c (durable s) ledger ->
  chain_id_new (cfg_node_chain_id config) = Ok c ->
  start_node config network peers env s = (s', Ok self) ->
  na_ledger self = ledger /\ chain_inv c self.
Proof.
  intros Hi Hu Hchain Hc Hr.
  destruct (start_node_Ok _ _ _ _ _ _ _ Hi Hu Hr) as (Hs & _ & Hd & _ & _ & Hv & _ & c' & history & Hc' & Hh & Hl).
  rewrite Hc in Hc'. injection Hc' as <-.
  pose proof (stores_chain_replay _ _ _ _ Hchain Hh) as Hrep.
  rewrite Hl in Hrep. injection Hrep as Hledger. split; [done|]. split; [done|].
  by rewrite Hs, Hd, Hledger.
Qed.

(** ** The lives of a node *)

(** What a node has sent, and its disk, over all its lives: each starts on the
    disk the one before left, on a new connection, and ends after any of the
    steps it takes. *)
Inductive node_history : list Output -> Database -> Prop :=
| history_new : node_history [] empty_database
| history_life sent db faults config network peers env s self self' :
    node_history sent db ->
    start_node config network peers env (mk_Store false faults db None) = (s, Ok self) ->
    rtc actor_step self self' ->
    node_history (sent ++ na_outbox self') (durable (na_store self')).

Record Life : Type := mk_Life {
  life_config : NodeConfig;
  life_network : bool;
  life_peers : gset PeerId;
  life_environment : Environment;
  life_faults : list (option SqliteError);
  life_commands : list Command
}.

(** A life that runs the given commands. *)
Definition live (evidence_debug : Evidence -> bytes) (life : Life) (db : Database) : result AnyError NodeActor :=
  let '(_, started) := start_node (life_config life) (life_network life) (life_peers life)
                         (life_environment life) (mk_Store false (life_faults life) db None) in
  self ← started;
  Ok (run evidence_debug (life_commands life) self).1.

(** The lives of one node in sequence; one that does not start changes nothing. *)
Fixpoint lives (evidence_debug : Evidence -> bytes) (l : list Life) (sent : list Output) (db : Database) :
    list Output * Database :=
  match l with
  | [] => (sent, db)
  | life :: l =>
      match live evidence_debug life db with
      | Ok self => lives evidence_debug l (sent ++ na_outbox self) (durable (na_store self))
      | Err _ => lives evidence_debug l sent db
      end
  end.

Lemma step_slots_unique s s' :
  actor_step s s' -> slots_unique (durable (na_store s)) -> slots_unique (durable (na_store s')).
Proof.
  intros Hs Hu.
  destruct Hs as [s' Q|st R| | | |op st reply _ Hop _ _ He| | |b cert ledger rs p st reply _ Ha Hp Hl _ _ He kept|];
    try done; simpl.
  - by rewrite (quiet_store _ _ Q).
  - by rewrite (proj1 R).
  - by eapply effect_slots_unique.
  - by eapply (effect_slots_unique (PersistFinalized p)).
Qed.

Lemma steps_slots_unique s s' :
  rtc actor_step s s' -> slots_unique (durable (na_store s)) -> slots_unique (durable (na_store s')).
Proof. induction 1 as [|s1 s2 s3 Hs _ IH]; [done|]. intros Hu. by eapply IH, step_slots_unique. Qed.

Lemma history_slots_unique sent db : node_history sent db -> slots_unique db.
Proof.
  induction 1 as [|sent db faults config network peers env s self self' _ IH Hstart Hsteps]; [constructor|].
  assert (slots_unique (durable (na_store self))) as Hu.
  { destruct (start_node_Ok _ _ _ _ (mk_Store false faults db None) _ _ eq_refl IH Hstart) as (-> & _ & -> & _). exact IH. }
  by eapply steps_slots_unique.
Qed.

Lemma lives_history evidence_debug l sent db sent' db' :
  node_history sent db -> lives evidence_debug l sent db = (sent', db') -> node_history sent' db'.
Proof.
  revert sent db. induction l as [|life l IH]; intros sent db Hh; simpl; [by intros [= <- <-]|].
  unfold live. destruct (start_node _ _ _ _ _) as [s [self|e]] eqn:E; simpl; [|by apply IH].
  apply IH. eapply history_life; [done..|].
  destruct (run evidence_debug (life_commands life) self) as [self' r] eqn:Hrun. simpl.
  destruct (start_node_Ok _ _ _ _ (mk_Store false (life_faults life) db None) _ _ eq_refl (history_slots_unique _ _ Hh) E)
    as (_ & _ & _ & Hhalt & _ & _ & Hb & _).
  by eapply run_steps.
Qed.
End start.
