(* ===== verification/NodeBudget.v ===== *)
(** * The consensus driver ends

    One event handled by [process_consensus_event] sets off others: a proposal
    that was asked for, votes that were stored.  Every one of them uses up
    something a round has only once, so the loop ends after at most five
    iterations, and [EVENT_BUDGET] is enough. *)

From S2P Require Import Prelude Errors Crypto Transaction Block Commit Ledger ConsensusTypes Engine EngineFacts EngineRules Sqlite Store StoreFacts NodeTypes Projection Recovery NodeState Node NodeCommands NodeSteps.

Local Open Scope nat_scope.

(** ** What a round can still use up *)

(** The votes of the current round that are not decided yet. *)
Definition undecided (c : Consensus) : nat :=
  (if decide (is_Some (local_decisions c !! VoteKey (con_round c) Prevote)) then 0 else 1) +
  (if decide (is_Some (local_decisions c !! VoteKey (con_round c) Precommit)) then 0 else 1).

(** How many iterations an effect leads to, a queued event needs. *)
Definition cost (eff : Effect) : nat :=
  match eff with RequestProposal _ _ _ _ => 2 | PersistBeforeBroadcast _ _ => 1 | _ => 0 end.
Definition event_cost (event : Event) : nat :=
  match event with ProposalReady _ _ _ => 2 | Persisted _ => 1 | _ => 0 end.
Definition costs (effects : list Effect) : nat := sum_list_with cost effects.
Definition queue_cost (queue : list Event) : nat := sum_list_with event_cost queue.

Lemma costs_app l1 l2 : costs (l1 ++ l2) = costs l1 + costs l2.
Proof. apply sum_list_with_app. Qed.
Lemma queue_cost_app l1 l2 : queue_cost (l1 ++ l2) = queue_cost l1 + queue_cost l2.
Proof. apply sum_list_with_app. Qed.

Lemma undecided_le c : undecided c <= 2.
Proof. unfold undecided. repeat case_decide; simpl; lia. Qed.

Section engine.
Context `{MessageValidator}.

(** [m] stays in its round, and pays for what it asks with its undecided votes
    and [k] more. *)
Definition spends (k : nat) (c : Consensus) (m : stE Consensus ConsensusError (list Effect)) : Prop :=
  forall c' l, m c = (c', Ok l) ->
    started c' = started c /\ con_round c' = con_round c /\ undecided c' + costs l <= undecided c + k.

Lemma spends_ret k c l : costs l <= k -> spends k c (mret l).
Proof. intros Hl c' l' [= <- <-]. split_and!; [done..|]. lia. Qed.

Lemma spends_throw k c e : spends k c (throw e).
Proof. by intros c' l'. Qed.

Lemma spends_get k c f : spends k c (f c) -> spends k c (get ≫= f).
Proof. done. Qed.

Lemma spends_check {A} k c (x : result ConsensusError A) f :
  (forall a, x = Ok a -> spends k c (f a)) -> spends k c (lift x ≫= f).
Proof. intros Hf c' l' (c1 & a & Hx & Hr)%bind_Ok_inv. injection Hx as <- Hx. by eapply Hf. Qed.

(** A part that neither moves nor touches a decision. *)
Definition unspent (c c' : Consensus) : Prop :=
  started c' = started c /\ con_round c' = con_round c /\ local_decisions c' = local_decisions c.

Lemma spends_unspent {A} k c (m : stE Consensus ConsensusError A) f :
  (forall c1 a, m c = (c1, Ok a) -> unspent c c1 /\ spends k c1 (f a)) -> spends k c (m ≫= f).
Proof.
  intros Hf c' l (c1 & a & Hm & Hr)%bind_Ok_inv. destruct (Hf _ _ Hm) as [(E1 & E2 & E3) Hs].
  destruct (Hs c' l Hr) as (F1 & F2 & F3). split_and!; [congruence..|]. unfold undecided in *. by rewrite E2, E3 in F3.
Qed.

Lemma spends_modify k c g f : unspent c (g c) -> spends k (g c) (f ()) -> spends k c (modify g ≫= f).
Proof. intros Hg Hf. apply spends_unspent. by intros c1 [] [= <-]. Qed.

Lemma spends_app k1 k2 c m1 m2 :
  spends k1 c m1 -> (forall c1 l, m1 c = (c1, Ok l) -> spends k2 c1 m2) ->
  spends (k1 + k2) c (effects ← m1; effects' ← m2; mret (effects ++ effects')).
Proof.
  intros H1 H2 c' l (c1 & l1 & Hm1 & Hr)%bind_Ok_inv. apply bind_Ok_inv in Hr as (c2 & l2 & Hm2 & [= <- <-]).
  destruct (H1 _ _ Hm1) as (? & ? & ?), (H2 _ _ Hm1 _ _ Hm2) as (? & ? & ?).
  split_and!; [congruence..|]. rewrite costs_app. lia.
Qed.

Lemma spends_cast_vote kind value c : spends 0 c (cast_vote_st kind value).
Proof.
  intros c' l. unfold cast_vote_st, cast_vote. case_bool_decide as Hd; intros [= <- <-];
    (split_and!; [done..|]); [simpl; lia|].
  unfold undecided; simpl.
  destruct kind; rewrite lookup_insert_eq, lookup_insert_ne by done;
    repeat case_decide; try lia; exfalso; naive_solver.
Qed.

Lemma spends_evaluate_prevotes round c : spends 0 c (evaluate_prevotes round).
Proof.
  apply spends_get. destruct (quorum_votes c round Prevote) as [[[|b] proof]|]; [| |by apply spends_ret].
  - destruct (_ && _); [apply spends_cast_vote|by apply spends_ret].
  - cbv zeta. apply spends_unspent. intros c1 [] Hm. split.
    + revert Hm. match goal with |- (if ?b then _ else _) _ = _ -> _ => destruct b end; by intros [= <-].
    + match goal with |- spends _ _ (if ?b then _ else _) => destruct b end; [|by apply spends_ret]. apply spends_modify; [done|]. apply spends_cast_vote.
Qed.

Lemma spends_evaluate_precommits round c : spends 0 c (evaluate_precommits round).
Proof.
  apply spends_get. destruct (quorum_votes c round Precommit) as [[[|b] l]|]; try by apply spends_ret.
  apply spends_check. intros [] _. apply spends_get. destruct (finalized c).
  - destruct (bool_decide _); [by apply spends_ret|apply spends_throw].
  - apply spends_modify; [done|]. by apply spends_ret.
Qed.

Lemma spends_evaluate_round round c : spends 0 c (evaluate_round round).
Proof.
  apply (spends_app 0 0); [apply spends_evaluate_prevotes|]. intros c1 l _. apply spends_evaluate_precommits.
Qed.

Lemma spends_activate c : spends 0 c activate_current_round.
Proof.
  apply spends_get. set (cast := if bool_decide _ then _ else _).
  change (spends 0 c (effects ← cast; effects' ← (self ← get; evaluate_round (con_round self)); mret (effects ++ effects'))).
  apply (spends_app 0 0).
  - subst cast. destruct (bool_decide _); [|by apply spends_ret].
    destruct (proposals c !! _); [apply spends_cast_vote|by apply spends_ret].
  - intros c1 l _. apply spends_evaluate_round.
Qed.

Lemma spends_accept m c : spends 0 c (accept_validated_message m).
Proof.
  destruct m as [p|sv]; simpl; apply spends_get; cbv zeta; (destruct (negb _); [by apply spends_ret|]).
  - destruct (proposals c !! _); [destruct (bool_decide _); by apply spends_ret|].
    apply spends_modify; [done|]. destruct (_ =? _)%Z; [apply spends_activate|by apply spends_ret].
  - destruct (default ∅ _ !! _); [destruct (bool_decide _); by apply spends_ret|].
    apply spends_modify; [done|]. apply spends_evaluate_round.
Qed.

Lemma spends_after k c (m : stE Consensus ConsensusError (list Effect)) l0 :
  costs l0 = 0 -> spends k c m -> spends k c (effects ← m; mret (l0 ++ effects)).
Proof.
  intros Hl Hm c' l (c1 & l1 & Hr & [= <- <-])%bind_Ok_inv. rewrite costs_app, Hl. by apply Hm.
Qed.

Lemma spends_persisted m c : spends 0 c (persisted m).
Proof.
  apply spends_get. cbv zeta. destruct (bool_decide _); [apply spends_throw|]. apply spends_check. intros [] _.
  apply spends_modify; [done|]. by apply (spends_after 0 _ _ [Broadcast m]), spends_accept.
Qed.

Lemma spends_proposal_ready h round b c : spends 1 c (proposal_ready h round b).
Proof.
  apply spends_get. destruct (negb _); [apply spends_throw|]. destruct (bool_decide _); [apply spends_throw|].
  apply spends_modify; [done|]. cbv zeta. set (message := SignableProposal _).
  intros c' l Hr. unfold request_persistence in Hr. apply bind_Ok_inv in Hr as (c1 & c2 & [= <- <-] & Hr).
  destruct (local_decisions _ !! _) as [existing|] eqn:E.
  - match type of Hr with (if ?b then _ else _) _ = _ => destruct b end; [|done].
    injection Hr as <- <-. simpl. split_and!; [done..|]. unfold undecided. simpl. lia.
  - injection Hr as <- <-. split_and!; [done..|]. unfold undecided. cbn [costs sum_list_with cost]. simpl.
    rewrite !lookup_insert_ne by done. lia.
Qed.

(** Entering a round costs at most a proposal and two votes. *)
Lemma enter_round_cost round c c' l :
  enter_round round c = (c', Ok l) -> started c' = started c /\ undecided c' + costs l <= 4.
Proof.
  intros Hr. unfold enter_round in Hr. apply bind_Ok_inv in Hr as (c1 & c2 & [= <- <-] & Hr).
  destruct (_ <=? _)%Z; [done|]. apply bind_Ok_inv in Hr as (c1 & [] & [= <-] & Hr).
  apply bind_Ok_inv in Hr as (c2 & [] & [= <-] & Hr). apply bind_Ok_inv in Hr as (c2 & c3 & [= <- <-] & Hr).
  cbv zeta in Hr. set (c2 := prune_caches _) in *. destruct (proposals c2 !! round).
  - destruct (spends_after 0 c2 activate_current_round [ScheduleTimeout (timeout c2 PhasePropose)] eq_refl
      (spends_activate c2) _ _ Hr) as (? & _ & ?). pose proof (undecided_le c2). split; [done|]. lia.
  - destruct (bool_decide _).
    + apply bind_Ok_inv in Hr as (c4 & [] & [= <-] & [= <- <-]). split; [done|]. simpl.
      pose proof (undecided_le (set_requested_proposals ({[round]} ∪ requested_proposals c2) c2)). simpl in *. lia.
    + injection Hr as <- <-. split; [done|]. simpl. pose proof (undecided_le c2). lia.
Qed.

Lemma handle_timeout_cost t c c' l :
  handle_timeout t c = (c', Ok l) -> started c' = started c /\ undecided c' + costs l <= 4.
Proof.
  assert (forall m, spends 0 c m -> m c = (c', Ok l) -> started c' = started c /\ undecided c' + costs l <= 4) as Hs.
  { intros m Hm Hr. destruct (Hm _ _ Hr) as (? & _ & ?). pose proof (undecided_le c). split; [done|]. lia. }
  intros Hr. unfold handle_timeout in Hr. apply bind_Ok_inv in Hr as (c1 & c2 & [= <- <-] & Hr).
  destruct (_ || _ || _ || _); [eapply Hs; [|exact Hr]; by apply spends_ret|].
  destruct (phase c).
  1, 2: eapply Hs; [|exact Hr]; apply (spends_app 0 0); [apply spends_cast_vote|intros ? ? _; apply spends_evaluate_round].
  - apply bind_Ok_inv in Hr as (c1 & next & [= <- _] & Hr). by eapply enter_round_cost.
  - eapply Hs; [|exact Hr]. by apply spends_ret.
Qed.

(** The events the network and the clock deliver, and those of the queue. *)
Definition external (event : Event) : Prop :=
  match event with Start | Message _ | TimeoutEvent _ => True | _ => False end.
Definition queued (event : Event) : Prop :=
  match event with ProposalReady _ _ _ | Persisted _ => True | _ => False end.

Lemma step_external_cost event c c' l :
  external event -> step event c = (c', Ok l) -> started c' = true /\ undecided c' + costs l <= 4.
Proof.
  intros He Hr. unfold step in Hr. apply bind_Ok_inv in Hr as (c1 & c2 & [= <- <-] & Hr).
  destruct event as [| | m| |t|]; try done.
  - destruct (started c); [done|]. apply bind_Ok_inv in Hr as (c1 & [] & [= <-] & Hr).
    by apply enter_round_cost in Hr as [-> ?].
  - destruct (started c) eqn:E; [|done]. simpl in Hr. destruct (bool_decide _).
    + injection Hr as <- <-. split; [done|]. pose proof (undecided_le c). simpl. lia.
    + apply bind_Ok_inv in Hr as (c1 & c2 & [= <- <-] & Hr). apply bind_Ok_inv in Hr as (c1 & [] & [= <- _] & Hr).
      destruct (spends_accept m c _ _ Hr) as (? & _ & ?). pose proof (undecided_le c). split; [congruence|]. lia.
  - destruct (started c) eqn:E; [|done]. simpl in Hr. destruct (bool_decide _).
    + injection Hr as <- <-. split; [done|]. pose proof (undecided_le c). simpl. lia.
    + apply handle_timeout_cost in Hr as [? ?]. split; [congruence|done].
Qed.

Lemma step_queued_cost event c c' l :
  queued event -> step event c = (c', Ok l) ->
  started c = true /\ started c' = true /\ S (undecided c' + costs l) <= undecided c + event_cost event.
Proof.
  intros He Hr. unfold step in Hr. apply bind_Ok_inv in Hr as (c1 & c2 & [= <- <-] & Hr).
  destruct event as [|h round b| |m| |]; try done; simpl; (destruct (started c) eqn:E; [|done]); simpl in Hr;
    (destruct (bool_decide _); [injection Hr as <- <-; split_and!; [done..|]; simpl; lia|]).
  - destruct (spends_proposal_ready h round b c _ _ Hr) as (? & _ & ?). split_and!; [congruence..|]. lia.
  - destruct (spends_persisted m c _ _ Hr) as (? & _ & ?). split_and!; [congruence..|]. lia.
Qed.

End engine.

(** ** The loop of the node *)

Section node.
Context `{Blake3, Blake3Checksum, Ed25519, !SigningKeyBytes, Hex, Bech32, ChallengeJson, Libp2p,
          !Borsh UnsignedTransaction, !Borsh SignedTransaction, !Borsh BlockHeader, !Borsh Block,
          !Borsh StateCommitment, !Borsh CommitVote, !Borsh CommitCertificate,
          !Borsh SignableMessage, !Borsh SignedMessage, !Borsh SignedProposal,
          !Borsh FinalizedWireRecord, !Borsh ValidatorStatusMessage, !SerdeJson SafetyState}.
Context (evidence_debug : Evidence -> bytes).

(** The loop of the source, without a bound: it ends when the queue is empty,
    or with the error of a step or of an effect. *)
Inductive drains : list Event -> NodeActor -> NodeActor * result AnyError () -> Prop :=
| drains_empty s : drains [] s (s, Ok ())
| drains_step_error event queue s s1 e :
    step_consensus event s = (s1, Err e) -> drains (event :: queue) s (s1, Err e)
| drains_effect_error event queue s s1 effects s2 e :
    step_consensus event s = (s1, Ok effects) ->
    process_effects evidence_debug effects s1 = (s2, Err e) ->
    drains (event :: queue) s (s2, Err e)
| drains_next event queue s s1 effects s2 pushed out :
    step_consensus event s = (s1, Ok effects) ->
    process_effects evidence_debug effects s1 = (s2, Ok pushed) ->
    drains (queue ++ pushed) s2 out -> drains (event :: queue) s out.

(** The engine is the same, or the fresh one of the next height. *)
Definition same_engine (s s' : NodeActor) : Prop :=
  na_consensus s' = na_consensus s \/ exists c, na_consensus s' = Some c /\ started c = false.

#[export] Instance same_engine_preorder : PreOrder same_engine.
Proof.
  split; [by left|]. intros s1 s2 s3 [E1|E1] [E2|E2]; unfold same_engine; rewrite ?E2; auto.
Qed.

Lemma quiet_same_engine {E A} s (m : stE NodeActor E A) : preserves quiet s m -> preserves same_engine s m.
Proof. apply preserves_mono. intros s1 s2 Q. left. apply Q. Qed.

Lemma in_store_same_engine {A} (m : storeA A) s : preserves same_engine s (in_store m).
Proof. intros s' r [_ ->]%in_store_run. by left. Qed.

Lemma modify_same_engine {E} f s : na_consensus (f s) = na_consensus s -> preserves (E := E) same_engine s (modify f).
Proof. intros Hf. apply preserves_modify. by left. Qed.

Ltac engine_leaf :=
  match goal with
  | |- preserves _ _ (in_store _) => apply in_store_same_engine
  | |- preserves _ _ (modify _) => by apply modify_same_engine
  | |- preserves _ _ (emit _) => by apply modify_same_engine
  | |- preserves _ _ _ => solve [auto with engine]
  end.
Ltac engine_walk := repeat first [walk_step | engine_leaf | walk_bind].

Create HintDb engine.

Lemma emit_transactions_same_engine {E} l s : preserves same_engine s (emit_transactions (E := E) l).
Proof. apply quiet_same_engine, quiet_emit_transactions. Qed.
Lemma note_signers_same_engine {E} l h s : preserves same_engine s (note_signers (E := E) l h).
Proof. apply quiet_same_engine, quiet_note_signers. Qed.
Lemma publish_snapshot_same_engine {E} s : preserves same_engine s (publish_snapshot (E := E)).
Proof. apply quiet_same_engine, quiet_publish_snapshot. Qed.
Lemma unix_timestamp_same_engine {E} s : preserves same_engine s (unix_timestamp_ms (E := E)).
Proof. apply quiet_same_engine, quiet_unix_timestamp_ms. Qed.
Lemma instant_now_same_engine {E} s : preserves same_engine s (instant_now (E := E)).
Proof. apply quiet_same_engine, quiet_instant_now. Qed.
Lemma build_proposal_same_engine round b s : preserves same_engine s (build_consensus_proposal round b).
Proof. apply quiet_same_engine, quiet_build_consensus_proposal. Qed.
#[local] Hint Resolve emit_transactions_same_engine note_signers_same_engine publish_snapshot_same_engine
  unix_timestamp_same_engine instant_now_same_engine build_proposal_same_engine : engine.

Lemma commit_finalized_same_engine block certificate gossip s :
  preserves same_engine s (commit_finalized block certificate gossip).
Proof.
  unfold commit_finalized, revalidate_mempool. apply (preserves_bind _); [auto with engine|]. intros s1 before _.
  apply (preserves_get _). destruct (apply_finalized_block _ _ _ _) as [candidate applied].
  apply (preserves_check _). intros receipts _. apply (preserves_bind _); [engine_walk|]. intros s2 projection _.
  apply (preserves_bind _); [|intros s3 [] _; engine_walk].
  intros s' r. destruct (in_store (from_store (persist_finalized projection)) s2) as [s3 r3] eqn:E.
  intros [= <- _]. by eapply in_store_same_engine.
Qed.

Lemma reset_consensus_same_engine s : preserves same_engine s reset_consensus.
Proof.
  unfold reset_consensus. apply (preserves_modify_then _); [by left|]. apply (preserves_get _).
  destruct (node_key _); [|apply (preserves_ret _)].
  apply (preserves_check _). intros vs _. apply (preserves_check _). intros c Hc%map_err_Ok_inv%consensus_new_Ok.
  apply preserves_modify. right. exists c. split; [done|]. by rewrite Hc.
Qed.

Lemma process_effect_same_engine eff s : preserves same_engine s (process_effect evidence_debug eff).
Proof.
  destruct eff; simpl; unfold sign_and_persist, broadcast_consensus, publish_consensus_wire; engine_walk.
  - apply commit_finalized_same_engine.
  - apply reset_consensus_same_engine.
Qed.

Lemma process_effect_cost eff s s' events :
  process_effect evidence_debug eff s = (s', Ok events) -> queue_cost events <= cost eff /\ Forall queued events.
Proof.
  intros Hr. destruct eff; simpl in Hr.
  all: repeat first [ injection Hr as <- <-; simpl; split; [lia|by repeat constructor]
                    | apply bind_Ok_inv in Hr as (? & ? & _ & Hr) ].
Qed.

Lemma process_effects_cost effects s s' events :
  process_effects evidence_debug effects s = (s', Ok events) ->
  same_engine s s' /\ queue_cost events <= costs effects /\ Forall queued events.
Proof.
  revert s events. induction effects as [|eff effects IH]; intros s events; simpl.
  { intros [= <- <-]. split_and!; [done|simpl; lia|constructor]. }
  intros (s1 & l1 & Hl1 & Hr)%bind_Ok_inv. apply bind_Ok_inv in Hr as (s2 & l2 & Hl2 & [= <- <-]).
  pose proof (process_effect_same_engine _ _ _ _ Hl1). destruct (process_effect_cost _ _ _ _ Hl1), (IH _ _ Hl2) as (? & ? & ?).
  split_and!; [by etrans|rewrite queue_cost_app; simpl; lia|by apply Forall_app].
Qed.

(** What the queue and the engine can still cost. *)
Definition remaining (queue : list Event) (s : NodeActor) : nat :=
  queue_cost queue + match na_consensus s with Some c => if started c then undecided c else 0 | None => 0 end.

Lemma same_engine_remaining queue s s' c :
  same_engine s s' -> na_consensus s = Some c -> remaining queue s' <= queue_cost queue + undecided c.
Proof.
  unfold remaining. intros [->|(c' & -> & ->)] Hc; [rewrite Hc; destruct (started c); lia|lia].
Qed.

Lemma step_consensus_Ok event s s1 effects :
  step_consensus event s = (s1, Ok effects) ->
  exists c c', na_consensus s = Some c /\ na_consensus s1 = Some c' /\
    step (H := node_message_validator (mk_NodeMessageValidator (na_ledger s) (na_proposal_blocks s) (node_validators s)))
      event c = (c', Ok effects).
Proof.
  unfold step_consensus. destruct (na_consensus s) as [c|]; [|done].
  destruct (step event c) as [c' [l|e]] eqn:E; [|done]. intros [= <- <-]. by exists c, c'.
Qed.

Lemma queued_cost_pos queue : Forall queued queue -> queue <> [] -> 1 <= queue_cost queue.
Proof. intros [|[] l He]; simpl; try done; lia. Qed.

(** With enough fuel the model's loop is the source's. *)
Lemma process_events_drains fuel queue s :
  Forall queued queue -> remaining queue s <= fuel ->
  drains queue s (process_events evidence_debug fuel queue s).
Proof.
  revert queue s. induction fuel as [|fuel IH]; intros [|event queue] s Hq Hf; simpl; try constructor.
  - apply queued_cost_pos in Hq; [|done]. unfold remaining in Hf. lia.
  - apply Forall_cons in Hq as [He Hq]. unfold mbind, stE_bind.
    destruct (step_consensus event s) as [s1 [effects|e]] eqn:E1; [|by constructor].
    destruct (process_effects evidence_debug effects s1) as [s2 [pushed|e]] eqn:E2; [|by eapply drains_effect_error].
    eapply drains_next; [done..|].
    destruct (step_consensus_Ok _ _ _ _ E1) as (c & c' & Hc & Hc' & Hstep).
    destruct (process_effects_cost _ _ _ _ E2) as (Hsame & Hcost & Hpushed).
    destruct (step_queued_cost _ _ _ _ He Hstep) as (Hst & _ & Hspent).
    apply IH; [by apply Forall_app|].
    pose proof (same_engine_remaining (queue ++ pushed) _ _ _ Hsame Hc') as Hrem. rewrite queue_cost_app in Hrem.
    unfold remaining in Hf. rewrite Hc, Hst in Hf. simpl in Hf. lia.
Qed.

Lemma external_event_drains fuel event s :
  external event -> 5 <= fuel -> drains [event] s (process_events evidence_debug fuel [event] s).
Proof.
  intros He Hf. destruct fuel as [|fuel]; [lia|]. simpl. unfold mbind, stE_bind.
  destruct (step_consensus event s) as [s1 [effects|e]] eqn:E1; [|by constructor].
  destruct (process_effects evidence_debug effects s1) as [s2 [pushed|e]] eqn:E2; [|by eapply drains_effect_error].
  eapply drains_next; [done..|]. destruct (step_consensus_Ok _ _ _ _ E1) as (c & c' & Hc & Hc' & Hstep).
  destruct (process_effects_cost _ _ _ _ E2) as (Hsame & Hcost & Hpushed).
  destruct (step_external_cost _ _ _ _ He Hstep) as [_ Hspent].
  apply process_events_drains; [done|].
  pose proof (same_engine_remaining pushed _ _ _ Hsame Hc'). lia.
Qed.

Lemma drains_functional queue s out out' : drains queue s out -> drains queue s out' -> out = out'.
Proof.
  intros Hd. revert out'.
  induction Hd as [s|ev q s s1 e E1|ev q s s1 effects s2 e E1 E2|ev q s s1 effects s2 pushed out E1 E2 _ IH];
    intros out' Hd'; inversion Hd' as [|? ? ? ? ? F1|? ? ? ? ? ? ? F1 F2|? ? ? ? ? ? ? ? F1 F2 F3]; subst; try congruence.
  all: rewrite E1 in F1; simplify_eq; try congruence; rewrite E2 in F2; simplify_eq; auto.
Qed.
End node.
