(* ===== verification/NodeReference.v ===== *)
(** * A concrete node for the witnesses

    Toy instances of the crates the node uses, over those of [Reference], and
    the configuration of the first validator of the local set. *)

From S2P Require Import Prelude Errors Crypto Transaction Block Commit Ledger LedgerFacts ConsensusTypes Engine Sqlite Store StoreFacts NodeTypes Projection Recovery NodeState Node NodeCommands NodeSteps NodeStart Reference Fixtures ConsensusReference.

Program Definition finalized_record_codec : codec FinalizedWireRecord :=
  retract_codec (fun r => (fw_block r, fw_certificate r)) (fun '(b, c) => Some (mk_FinalizedWireRecord b c)) _
    (pair_codec block_codec certificate_codec).
Next Obligation. by intros []. Qed.

Program Definition status_codec : codec ValidatorStatusMessage :=
  retract_codec
    (fun s => (((vs_chain_id s, vs_validator s), (vs_index s, (vs_height s, vs_round s))),
               ((vs_phase s, (vs_block_hash s, vs_state_root s)),
                (vs_syncing s, (vs_sync_target s, vs_timestamp_ms s)))))
    (fun '(((c, v), (i, (h, r))), ((p, (b, x)), (y, (t, z)))) =>
       Some (mk_ValidatorStatusMessage c v i h r p b x y t z)) _
    (pair_codec
       (pair_codec (pair_codec ustring_codec (array_codec 32)) (pair_codec Z_codec (pair_codec Z_codec Z_codec)))
       (pair_codec (pair_codec ustring_codec (pair_codec (array_codec 32) (array_codec 32)))
          (pair_codec (countable_codec bool) (pair_codec (option_codec Z_codec) Z_codec)))).
Next Obligation. by intros []. Qed.

Definition challenge_codec : codec (ustring * (ustring * (ustring * ustring))) :=
  pair_codec ustring_codec (pair_codec ustring_codec (pair_codec ustring_codec ustring_codec)).

Module NodeRef.
#[export] Instance signed_proposal_borsh : Borsh SignedProposal := codec_borsh signed_proposal_codec.
#[export] Instance finalized_record_borsh : Borsh FinalizedWireRecord := codec_borsh finalized_record_codec.
#[export] Instance status_borsh : Borsh ValidatorStatusMessage := codec_borsh status_codec.

#[export] Instance checksum : Blake3Checksum := fun b => byte_to_Z <$> as_bytes (blake3 "checksum" b).
#[export] Instance signing_keys : SigningKeyBytes := fun b => b.
#[export] Instance hex : Hex := fun b => byte_to_Z <$> b.
#[export] Instance libp2p : Libp2p := {| PeerId := Z; peer_to_bytes := to_le_bytes 8 |}.
#[export] Instance safety_json : SerdeJson SafetyState := {|
  json_to_vec ss := Some (enc safety_state_codec ss);
  json_from_slice b := match dec safety_state_codec b with Some (ss, []) => Some ss | _ => None end
|}.
#[export] Instance challenge_json : ChallengeJson := {|
  challenge_to_json id expression issued reward :=
    byte_to_Z <$> enc challenge_codec (id, (expression, (issued, reward)));
  challenge_from_json s :=
    match dec challenge_codec (byte_of_Z <$> s) with
    | Some ((id, (_, (issued, _))), []) => Some (Some id, Some issued)
    | _ => None
    end
|}.
End NodeRef.
Export NodeRef.

(** The text of an evidence record plays no role. *)
Definition no_debug : Evidence -> bytes := fun _ => [].

(** The configuration of a demonstration node with one second between blocks. *)
Definition demo_config (role : NodeRole) (index : option Z) : NodeConfig :=
  mk_NodeConfig (str "kcoin-local") role index (mk_SocketAddr (IpV4 0x7F000001) 4100) 5100
    (mk_Path false [str ".kcoin"; str "node.db"]) [] 1000 true.

(** The first validator, one second between blocks. *)
Definition node_config0 : NodeConfig := demo_config RoleValidator (Some 0).

(** Its clocks: a second passes between two readings. *)
Definition node_environment : Environment :=
  mk_Environment ((fun n => 1000 * Z.of_nat n) <$> seq 1 20) ((fun n => from_millis 1000 * Z.of_nat n) <$> seq 1 20) [] [].

Definition life0 (faults : list (option SqliteError)) (commands : list Command) : Life :=
  mk_Life node_config0 true ∅ node_environment faults commands.

(** The consensus messages among the outputs. *)
Definition gossip_wires (outputs : list Output) : list ConsensusWireMessage :=
  omap (fun o => match o with GossipConsensus wire => Some wire | _ => None end) outputs.

Lemma gossip_wires_elem outputs i wire : gossip_wires outputs !! i = Some wire -> GossipConsensus wire ∈ outputs.
Proof.
  intros (o & Ho & Hw)%list_elem_of_lookup_2%list_elem_of_omap. destruct o; try done. by injection Hw as ->.
Qed.

(** Two of them speak for one slot. *)
Definition same_slot (outputs : list Output) (i j : nat) : bool :=
  match gossip_wires outputs !! i, gossip_wires outputs !! j with
  | Some w1, Some w2 => bool_decide (signer_slot (signable (wire_message w1)) = signer_slot (signable (wire_message w2)))
  | _, _ => false
  end.

(** A validator that proposes and votes, crashes, recovers and sends again. *)
Definition two_lives : list Output * Database :=
  lives no_debug [life0 [] [Tick; Tick]; life0 [] [Tick]] [] empty_database.

(** ** A standalone node *)

Definition standalone_config : NodeConfig := demo_config RoleStandalone None.
Definition local_chain : ChainId := mk_ChainId (str "kcoin-local").

Definition fresh_disk (db : Database) : Store Database := mk_Store false [] db None.

Definition started (config : NodeConfig) (db : Database) : option NodeActor :=
  match start_node config true ∅ node_environment (fresh_disk db) with
  | (_, Ok self) => Some self
  | _ => None
  end.

(** After it produced a block. *)
Definition produced : option NodeActor :=
  (fun self => (run no_debug [Tick] self).1) <$> started standalone_config empty_database.

(** The disk after that block. *)
Definition disk1 : Database :=
  match produced with Some s => durable (na_store s) | None => empty_database end.

(** Another certified first block than the one the node produced. *)
Definition rival : FinalizedWireRecord :=
  let proposer := default (key x00) (head dev_validators) in
  match build_block (ledger_new local_chain) proposer 0 7777 [] with
  | Ok b =>
      let vote := commit_vote_new local_chain 1 0 (block_hash b) in
      mk_FinalizedWireRecord b (certificate_new vote ((fun k => commit_sign vote k) <$> deterministic_dev_validator_keys))
  | Err _ => mk_FinalizedWireRecord block0 certificate0
  end.

(** The node and [rival] are at odds. *)
Definition conflicts (s : NodeActor) : bool :=
  negb (na_halted s) &&
  bool_decide (bh_chain_id (header (fw_block rival)) = id_chain_id (na_identity s)) &&
  bool_decide (cc_chain_id (fw_certificate rival) = id_chain_id (na_identity s)) &&
  is_ok (validate_commitments (fw_block rival)) &&
  is_ok (verify_for_block (fw_certificate rival) (fw_block rival) (node_validators s)) &&
  (bh_height (header (fw_block rival)) <=? height (na_ledger s)) &&
  match (block_by_height (bh_height (header (fw_block rival))) (na_store s)).2 with
  | Ok (Some row) =>
      match block_decode (br_block_bytes row) with
      | Ok existing => bool_decide (block_hash existing <> block_hash (fw_block rival))
      | _ => false
      end
  | _ => false
  end.

(** The disk of another node, that was given [rival]. *)
Definition rival_disk : Database :=
  match started standalone_config empty_database with
  | Some self => durable (na_store (run no_debug [ImportFinalized rival None] self).1)
  | None => empty_database
  end.

(** The history on a disk. *)
Definition disk_history (db : Database) : list (Block * CommitCertificate) :=
  match try_collect decode_history_row (blocks_ascending db) with Ok history => history | Err _ => [] end.

Definition disk_decodes (db : Database) : bool := is_ok (try_collect decode_history_row (blocks_ascending db)).

Lemma disk_decodes_history db :
  disk_decodes db = true -> try_collect decode_history_row (blocks_ascending db) = Ok (disk_history db).
Proof. unfold disk_decodes, disk_history. by destruct (try_collect _ _). Qed.

(** ** A recovering validator *)

(** The disk of the first validator after it voted and crashed. *)
Definition crashed : Database := (lives no_debug [life0 [] [Tick]] [] empty_database).2.
Definition dev_key : @SigningKey ed25519 := default (key x00) (head deterministic_dev_validator_keys).
Definition crashed_recovery : Store Database * result AnyError ConsensusRecovery :=
  initialize_consensus_recovery node_config0 (ledger_new local_chain) dev_validators dev_validators
    (Some dev_key) (fresh_disk crashed).

(** ** A late proposal

    The second validator receives the three other precommits for the first
    block before the block itself. *)

Definition late_config : NodeConfig := demo_config RoleValidator (Some 1).
Definition late_key (i : nat) : array 32 := default (key x00) (deterministic_dev_validator_keys !! i).

Definition late_block : Block :=
  match build_block (ledger_new local_chain) (default (key x00) (head dev_validators)) 0 7777 [] with
  | Ok b => b
  | Err _ => block0
  end.
Definition late_precommit (i : nat) : ConsensusWireMessage :=
  let v := mk_Vote (str "kcoin-local") 1 0 Precommit (late_key i) (BlockValue (block_id_from_hash (consensus_hash late_block))) in
  WireVote (mk_SignedVote v (sign_signable (late_key i) (SignableVote v))).
Definition late_proposal : ConsensusWireMessage :=
  let p := mk_Proposal (str "kcoin-local") 1 0 (late_key 0) (block_id_from_hash (consensus_hash late_block)) None [] in
  WireProposal (mk_SignedProposal p (sign_signable (late_key 0) (SignableProposal p))) late_block.

(** The outcome of the proposal's handler and the height it leaves. *)
Definition late : option (result AnyError () * Z) :=
  self ← started late_config empty_database;
  let self := (command_loop no_debug (ConsensusMessage None <$> (late_precommit <$> [0; 2; 3]%nat)) self).1 in
  let '(self, r) := handle_consensus_message no_debug None late_proposal self in
  Some (r, height (na_ledger self)).

(** ** A transaction for the local chain *)

Definition local_claim : SignedTransaction :=
  let l := ledger_new local_chain in
  let u := unsigned_new local_chain alice 0 100 (ClaimReward (active_challenge_id l) (answer (current_challenge l))) in
  mk_SignedTransaction u (ed_sign (Ed25519 := ed25519) alice (tx_signing_bytes u)).

(** ** Results known by evaluation *)

Definition known {A} (o : option A) : bool := match o with Some _ => true | None => false end.
Definition reported {E A} (r : result E A) : option A := match r with Ok a => Some a | Err _ => None end.

Lemma known_Some {A} (o : option A) : known o = true -> exists a, o = Some a.
Proof. destruct o; [by eexists|done]. Qed.

Lemma is_ok_unit {E} (r : result E ()) : is_ok r = true -> r = Ok ().
Proof. by destruct r as [[]|]. Qed.

(** The numbers of a stored block fit their types, as a test. *)
Definition row_in_types (row : BlockRow) : bool :=
  match decode_history_row row with
  | Ok (b, _) => bool_decide (block_in_range b)
  | Err _ => true
  end.

Lemma rows_in_types db :
  forallb row_in_types (map_to_list (blocks db)).*2 = true ->
  map_Forall (fun _ row => forall b c, decode_history_row row = Ok (b, c) -> block_in_range b) (blocks db).
Proof.
  intros Hall h row Hrow b c Hd.
  assert (row_in_types row = true) as Ht.
  { eapply forallb_forall; [exact Hall|]. apply list_elem_of_In, list_elem_of_fmap. exists (h, row).
    split; [done|]. by apply elem_of_map_to_list. }
  unfold row_in_types in Ht. rewrite Hd in Ht. by apply bool_decide_eq_true in Ht.
Qed.

Lemma started_start config db self :
  started config db = Some self ->
  exists s, start_node config true ∅ node_environment (mk_Store false [] db None) = (s, Ok self).
Proof.
  unfold started, fresh_disk. destruct (start_node _ _ _ _ _) as [s [x|e]]; [|done]. intros [= ->]. by exists s.
Qed.
