(* ===== verification/NodeAgreement.v ===== *)
(** * The chains of two nodes

    Two disks that hold certified chains hold prefixes of one chain, or the
    certificates of the height where they part expose validators that signed
    both sides. *)

From Stdlib Require Import Lia.
From S2P Require Import Prelude Errors Crypto Transaction Block Commit Ledger LedgerFacts Replay Merkle ConsensusTypes Engine Sqlite Store StoreFacts NodeTypes Projection Recovery NodeState Node NodeCommands NodeSteps NodeChain.

Section agreement.
Context `{Blake3, Ed25519, !Borsh UnsignedTransaction, !Borsh SignedTransaction, !Borsh BlockHeader,
          !Borsh Block, !Borsh StateCommitment, !Borsh CommitVote, !Borsh CommitCertificate}.
Context `{!BorshLaws SignedTransaction, !BorshLaws BlockHeader, !BorshLaws CommitVote}.

(** Two lists of which neither branch of the comparison is a prefix differ at
    some index. *)
Lemma not_prefix_lookup {A} `{EqDecision A} (l1 l2 : list A) :
  (length l1 <= length l2)%nat -> ~ l1 `prefix_of` l2 ->
  exists i x y, l1 !! i = Some x /\ l2 !! i = Some y /\ x <> y.
Proof.
  revert l2. induction l1 as [|x l1 IH]; intros [|y l2]; simpl; intros Hlen Hp.
  - destruct Hp. apply prefix_nil.
  - destruct Hp. apply prefix_nil.
  - lia.
  - destruct (decide (x = y)) as [<-|Hne]; [|by exists 0%nat, x, y].
    destruct (IH l2) as (i & a & b & ? & ? & ?); [lia| |by exists (S i), a, b].
    intros Hl. by apply Hp, prefix_cons.
Qed.

(** A history that [replay_finalized_blocks] accepts. *)
Record certified (c : ChainId) (history : list (Block * CommitCertificate)) (validators : list ValidatorId)
    (ledger : LedgerState) : Prop := {
  certified_types : Forall block_in_range history.*1;
  certified_valid : blocks_valid (ledger_new c) history.*1;
  certified_ledger : ledger = blocks_post (ledger_new c) history.*1;
  certified_votes : Forall (fun bc => verify_for_block bc.2 bc.1 validators = Ok ()) history
}.

Lemma replay_certified c history validators ledger :
  Forall block_in_range history.*1 -> replay_finalized_blocks c history validators = Ok ledger ->
  certified c history validators ledger.
Proof.
  intros Hr [Hv Hb]%replay_finalized_blocks_Ok%apply_finalized_blocks_Ok.
  apply apply_blocks_Ok_inv in Hb as [Hvalid ->]; [by split|apply ledger_new_ok|done].
Qed.

(** The height of a stored block, and its certificate. *)
Lemma certified_lookup c history validators ledger i b cert :
  certified c history validators ledger -> history !! i = Some (b, cert) ->
  block_valid (blocks_post (ledger_new c) (take i history.*1)) b /\ bh_height (header b) = Z.of_nat i + 1 /\
  verify_for_block cert b validators = Ok ().
Proof.
  intros [_ Hv _ Hc] Hi.
  assert (history.*1 !! i = Some b) as Hb by (by rewrite list_lookup_fmap, Hi).
  pose proof (blocks_valid_lookup _ _ _ _ Hv Hb) as Hvb. split_and!; [done| |].
  - rewrite (valid_height _ _ Hvb), blocks_post_height by by apply blocks_valid_take.
    apply lookup_lt_Some in Hb. rewrite length_take. simpl. lia.
  - by apply (Forall_lookup_1 _ _ _ _ Hc Hi).
Qed.

Lemma certified_height c history validators ledger :
  certified c history validators ledger -> height ledger = Z.of_nat (length history).
Proof.
  intros [_ Hv -> _]. rewrite blocks_post_height by done. rewrite length_fmap. simpl. lia.
Qed.

(** Where two certified histories differ, two certificates of one height and
    different blocks are verified. *)
Lemma certified_fork c h1 h2 validators l1 l2 i b1 c1 b2 c2 :
  collision_free ((h1.*1 ≫= block_inputs) ++ (h2.*1 ≫= block_inputs)) ->
  certified c h1 validators l1 -> certified c h2 validators l2 ->
  h1 !! i = Some (b1, c1) -> h2 !! i = Some (b2, c2) -> b1 <> b2 ->
  cc_height c1 = cc_height c2 /\ cc_block_hash c1 <> cc_block_hash c2 /\
  exists culprits, exposed (certificate_vote c1) (certificate_vote c2) validators culprits.
Proof.
  intros Hcf Hc1 Hc2 Hi1 Hi2 Hne.
  destruct (certified_lookup _ _ _ _ _ _ _ Hc1 Hi1) as (Hv1 & Hh1 & Hver1).
  destruct (certified_lookup _ _ _ _ _ _ _ Hc2 Hi2) as (Hv2 & Hh2 & Hver2).
  apply verify_for_block_Ok_inv in Hver1 as (_ & E1 & F1 & _ & Hok1), Hver2 as (_ & E2 & F2 & _ & Hok2).
  assert (forall (h : list (Block * CommitCertificate)) b c0, h !! i = Some (b, c0) -> block_inputs b ⊆ h.*1 ≫= block_inputs) as Hin.
  { intros h b c0 Hi p Hp. apply list_elem_of_bind. exists b. split; [done|].
    apply list_elem_of_fmap. exists (b, c0). split; [done|]. by eapply list_elem_of_lookup_2. }
  assert (block_hash b1 <> block_hash b2) as Hhash.
  { intros Heq. apply Hne. eapply block_hash_inj; [exact Hcf| | |exact Hv1|exact Hv2|exact Heq].
    - intros p Hp. apply elem_of_app. left. by eapply Hin.
    - intros p Hp. apply elem_of_app. right. by eapply Hin. }
  split_and!; [lia|congruence|]. apply conflicting_certificates_overlap; [done..|].
  intros Heq. apply (f_equal cv_block_hash) in Heq. simpl in Heq. congruence.
Qed.
End agreement.
