(* ===== verification/NodeMempool.v ===== *)
(** * The mempool and block production

    What a node keeps in its mempool executes in order on its ledger: every
    handler keeps it so, and a block can always be built from it. *)

From Stdlib Require Import Lia.
From S2P Require Import Prelude Errors Crypto Transaction Block Commit Ledger LedgerFacts Replay ConsensusTypes Engine Sqlite Store StoreFacts NodeTypes Projection Recovery NodeState Node NodeCommands NodeSteps NodeChain NodeStart Reference Fixtures ConsensusReference NodeReference.

(** ** Executing lists of transactions *)

Section execution.
Context `{Blake3, Ed25519, !Borsh UnsignedTransaction, !Borsh SignedTransaction, !Borsh BlockHeader,
          !Borsh Block, !Borsh StateCommitment, !Borsh CommitVote, !Borsh CommitCertificate}.

(** [txs] execute one after the other on [l]. *)
Definition executes (txs : list SignedTransaction) (h : Z) (l : LedgerState) : Prop :=
  exists l' receipts, apply_transactions txs h l = (l', Ok receipts).

Lemma executes_nil h l : executes [] h l.
Proof. by exists l, []. Qed.

Lemma executes_cons t txs h l :
  executes (t :: txs) h l <->
  exists l1 r, apply_transaction t h l = (l1, Ok r) /\ executes txs h l1.
Proof.
  split.
  - intros (l' & rs & Hr). cbn [apply_transactions] in Hr.
    apply bind_Ok_inv in Hr as (l1 & r & Ht & Hr). apply bind_Ok_inv in Hr as (l2 & rs' & Hts & _).
    exists l1, r. split; [done|]. by exists l2, rs'.
  - intros (l1 & r & Ht & l2 & rs & Hts). exists l2, (r :: rs). cbn [apply_transactions].
    rewrite (bind_run_Ok _ _ _ _ _ Ht). by rewrite (bind_run_Ok _ _ _ _ _ Hts).
Qed.

Lemma executes_take n txs h l : executes txs h l -> executes (take n txs) h l.
Proof.
  revert n l. induction txs as [|t txs IH]; intros [|n] l; try (intros _; apply executes_nil).
  cbn [take]. rewrite !executes_cons. intros (l1 & r & Ht & Hts). exists l1, r. split; [done|]. by apply IH.
Qed.

(** What [keep_applicable] keeps executes; it drops nothing from what does. *)
Lemma keep_applicable_executes txs h l : executes (keep_applicable txs h l) h l.
Proof.
  revert l. induction txs as [|t txs IH]; intros l; simpl; [apply executes_nil|].
  destruct (apply_transaction t h l) as [l1 [r|e]] eqn:E.
  - apply executes_cons. exists l1, r. split; [done|apply IH].
  - apply apply_transaction_Err_inv in E as ->. apply IH.
Qed.

Lemma keep_applicable_all txs h l : executes txs h l -> keep_applicable txs h l = txs.
Proof.
  revert l. induction txs as [|t txs IH]; intros l; [done|].
  intros (l1 & r & Ht & Hts)%executes_cons. simpl. rewrite Ht. f_equal. by apply IH.
Qed.

Lemma keep_applicable_sublist txs h l : keep_applicable txs h l `sublist_of` txs.
Proof.
  revert l. induction txs as [|t txs IH]; intros l; simpl; [constructor|].
  destruct (apply_transaction t h l) as [l1 [r|e]]; by constructor.
Qed.

Lemma apply_pending_Ok txs h l l' :
  apply_pending txs h l = (l', Ok ()) <-> exists rs, apply_transactions txs h l = (l', Ok rs).
Proof.
  unfold apply_pending. split.
  - intros (l1 & rs & Hr & [= ->])%bind_Ok_inv. by exists rs.
  - intros [rs Hr]. by rewrite (bind_run_Ok _ _ _ _ _ Hr).
Qed.

(** One more transaction, valid after the others, executes after them. *)
Lemma executes_snoc txs t h l l' rs :
  ledger_ok l -> Forall transaction_in_range txs -> transaction_in_range t ->
  apply_transactions txs h l = (l', Ok rs) -> tx_valid l' t h -> executes (txs ++ [t]) h l.
Proof.
  intros Hok Hr Ht. revert l rs Hok. induction Hr as [|t' txs Ht' Hr IH]; intros l rs Hok.
  - intros [= <- _] Hv. apply executes_cons. eexists _, _.
    split; [by apply apply_transaction_run|apply executes_nil].
  - cbn [apply_transactions]. intros (l1 & r & Hrun & Hrest)%bind_Ok_inv Hv.
    apply bind_Ok_inv in Hrest as (l2 & rs' & Hrest & [= <- _]).
    cbn [app]. apply executes_cons. exists l1, r. split; [done|].
    apply apply_transaction_Ok_inv in Hrun as (Hv' & -> & _); [|done..].
    eapply IH; [by eapply tx_post_ok|done..].
Qed.

(** A list that executes makes a block. *)
Lemma executes_builds txs l proposer round ts :
  height l + 1 <= u64_max -> executes txs (height l + 1) l ->
  exists b, build_block l proposer round ts txs = Ok b.
Proof.
  intros Hroom (l' & rs & Hr). unfold build_block, checked_add.
  rewrite (proj2 (Z.leb_le _ _)) by done. simpl. rewrite Hr. simpl. by eexists.
Qed.

Lemma build_block_transactions l proposer round ts txs b :
  build_block l proposer round ts txs = Ok b -> Block.transactions b = txs.
Proof.
  unfold build_block. intros (h & _ & Hr)%result_bind_Ok_inv.
  destruct (apply_transactions _ _ _) as [l' executed]. by apply result_bind_Ok_inv in Hr as (rs & _ & [= <-]).
Qed.
End execution.

Section mempool.
Context `{Blake3, Blake3Checksum, Ed25519, !SigningKeyBytes, Hex, Bech32, ChallengeJson, Libp2p,
          !Borsh UnsignedTransaction, !Borsh SignedTransaction, !Borsh BlockHeader, !Borsh Block,
          !Borsh StateCommitment, !Borsh CommitVote, !Borsh CommitCertificate,
          !Borsh SignableMessage, !Borsh SignedMessage, !Borsh SignedProposal,
          !Borsh FinalizedWireRecord, !Borsh ValidatorStatusMessage, !SerdeJson SafetyState}.
Context `{!BorshLaws Block, !BorshLaws CommitCertificate}.
Context (evidence_debug : Evidence -> bytes).

(** ** The invariant *)

(** The numbers of the stored blocks and of the mempool fit their Rust types. *)
Record in_types (s : NodeActor) : Prop := {
  types_blocks : map_Forall (fun _ row => forall b c, decode_history_row row = Ok (b, c) -> block_in_range b)
                   (blocks (durable (na_store s)));
  types_mempool : Forall transaction_in_range (na_mempool s)
}.

Record mempool_inv (c : ChainId) (s : NodeActor) : Prop := {
  mempool_chain : chain_inv c s;
  mempool_ids : na_mempool_ids s = list_to_set (tx_id <$> na_mempool s);
  mempool_unique : NoDup (tx_id <$> na_mempool s);
  mempool_executes : in_types s -> height (na_ledger s) + 1 <= u64_max ->
    executes (na_mempool s) (height (na_ledger s) + 1) (na_ledger s)
}.

(** The replay of a typed history. *)
Lemma replay_ledger_ok c history ledger :
  replay_finalized_blocks c history dev_validators = Ok ledger -> Forall block_in_range history.*1 -> ledger_ok ledger.
Proof.
  intros [_ Hrep]%replay_finalized_blocks_Ok%apply_finalized_blocks_Ok Hr.
  apply apply_blocks_Ok_inv in Hrep as [Hv ->]; [|apply ledger_new_ok|done].
  apply blocks_post_ok; [apply ledger_new_ok|done..].
Qed.

(** The replay of well-typed rows is a well-formed ledger. *)
Lemma stores_chain_ledger_ok c db ledger :
  stores_chain c db ledger ->
  map_Forall (fun _ row => forall b c, decode_history_row row = Ok (b, c) -> block_in_range b) (blocks db) ->
  ledger_ok ledger.
Proof.
  intros Hc Ht. destruct (stored_history _ _ _ Hc) as (history & Hrows & Hrep).
  assert (Forall block_in_range history.*1) as Hr.
  { apply Forall_fmap, Forall_forall. intros [b cert] (i & Hi)%list_elem_of_lookup.
    destruct (Forall2_lookup_r _ _ _ _ _ Hrows Hi) as (row & Hrow & [Hd _]).
    apply list_elem_of_lookup_2 in Hrow. unfold blocks_ascending in Hrow.
    apply elem_of_btree_values in Hrow as [h Hh]. by eapply (Ht h row Hh). }
  by eapply replay_ledger_ok.
Qed.

Lemma in_types_ledger_ok c s : chain_inv c s -> in_types s -> ledger_ok (na_ledger s).
Proof. intros Hc Ht. eapply stores_chain_ledger_ok; [apply Hc|apply Ht]. Qed.

(** Steps that touch neither mempool, ledger nor stored blocks. *)
Lemma mempool_inv_same c s s' :
  mempool_inv c s -> chain_inv c s' -> na_mempool s' = na_mempool s -> na_mempool_ids s' = na_mempool_ids s ->
  na_ledger s' = na_ledger s -> blocks (durable (na_store s')) = blocks (durable (na_store s)) ->
  mempool_inv c s'.
Proof.
  intros [Hc Hi Hu He] Hc' Em Ei El Eb. split; [done|by rewrite Ei, Em|by rewrite Em|].
  rewrite El, Em. intros [Htb Htm]. apply He. split; [by rewrite <- Eb|by rewrite <- Em].
Qed.

Lemma step_mempool_inv c s s' : actor_step s s' -> mempool_inv c s -> mempool_inv c s'.
Proof.
  intros Hs Hi. pose proof (step_chain_inv _ _ _ Hs (mempool_chain _ _ Hi)) as Hc'.
  pose proof Hi as [Hc Hids Hu He].
  destruct Hs as [s' Q|st R| |t candidate Hh Hfresh Hp Hval| |op st reply _ Hop _ _ Heff| | |b cert ledger rs p st reply _ Ha Hp Hl _ _ Heff kept|];
    try (eapply mempool_inv_same; [exact Hi|exact Hc'|done..]).
  - eapply mempool_inv_same; [exact Hi|exact Hc'|apply Q..|]. by rewrite (quiet_store _ _ Q).
  - eapply mempool_inv_same; [exact Hi|exact Hc'|done..|]. simpl. by rewrite (proj1 R).
  - split; [done| | |]; simpl.
    + rewrite Hids, fmap_app, list_to_set_app_L. simpl. set_solver.
    + rewrite fmap_app. apply NoDup_app. split_and!; [done| |apply NoDup_singleton].
      intros x Hx Hx'%list_elem_of_singleton. subst x. apply Hfresh. rewrite Hids. by apply elem_of_list_to_set.
    + intros [Htb [Htm Ht]%Forall_app] Hroom. apply Forall_cons in Ht as [Ht _]. simpl in *.
      apply apply_pending_Ok in Hp as [rs Hrs].
      assert (ledger_ok (na_ledger s)) as Hok by (eapply in_types_ledger_ok; [exact Hc|by split]).
      apply (executes_snoc _ _ _ _ _ _ Hok Htm Ht Hrs). destruct (validate_transaction _ _ _) as [v|] eqn:Ev; [|done].
      by apply validate_transaction_iff in Ev as [].
  - eapply mempool_inv_same; [exact Hi|exact Hc'|done..|]. by eapply effect_record_blocks.
  - split; [done|done| |]; simpl.
    + eapply sublist_NoDup; [done|apply fmap_sublist, keep_applicable_sublist].
    + intros _ Hroom. subst kept. unfold revalidated, saturating_add.
      rewrite Z.min_l by done. apply keep_applicable_executes.
Qed.

Lemma steps_mempool_inv c s s' : rtc actor_step s s' -> mempool_inv c s -> mempool_inv c s'.
Proof. induction 1 as [|s1 s2 s3 Hs _ IH]; [done|]. intros Hi. by eapply IH, step_mempool_inv. Qed.

Lemma start_node_mempool config network peers env s s' self :
  start_node config network peers env s = (s', Ok self) -> na_mempool self = [] /\ na_mempool_ids self = ∅.
Proof.
  unfold start_node. destruct (load_node config s) as [s1 [[[[c ledger] key] recovery]|e]]; [|done].
  by intros [= _ <-].
Qed.

Lemma chain_start_mempool_inv c s :
  chain_inv c s -> na_mempool s = [] -> na_mempool_ids s = ∅ -> mempool_inv c s.
Proof.
  intros Hc Hm Hi. split; [done|by rewrite Hi, Hm|rewrite Hm; constructor|]. intros _ _. rewrite Hm. apply executes_nil.
Qed.

(** ** Submission *)

Lemma accept_transaction_cases c s t gossip :
  mempool_inv c s -> in_types s -> transaction_in_range t ->
  let valid :=
    na_halted s = false /\ is_syncing s = false /\ height (na_ledger s) + 1 <= u64_max /\
    tx_valid (txs_post (na_ledger s) (na_mempool s)) t (height (na_ledger s) + 1) in
  (valid /\ exists s', accept_transaction t gossip s = (s', Ok (mk_SubmissionReceipt (tx_id t))) /\
     na_mempool s' = na_mempool s ++ [t] /\ na_ledger s' = na_ledger s /\ na_store s' = na_store s) \/
  (~ valid /\ exists e, accept_transaction t gossip s = (s, Err e)).
Proof.
  intros [Hc Hids Hnd He] Hty Ht valid.
  pose proof (in_types_ledger_ok _ _ Hc Hty) as Hok. destruct Hty as [Htb Htm]. specialize (He (Build_in_types _ Htb Htm)).
  unfold accept_transaction. rewrite (bind_run_Ok get _ s s s) by done.
  destruct (na_halted s) eqn:Hh; [right; split; [by intros (? & _)|by eexists]|].
  destruct (is_syncing s) eqn:Hsy; [right; split; [by intros (_ & ? & _)|by eexists]|].
  cbn [orb]. cbv zeta.
  destruct (bool_decide _ || _) eqn:Hdup.
  { right. split; [|by eexists]. intros (_ & _ & Hroom & Hv). destruct (He Hroom) as (l' & rs & Hr).
    apply apply_transactions_Ok_inv in Hr as (Hvs & -> & _); [|done..].
    pose proof (valid_fresh _ _ _ Hv) as Hfresh. rewrite txs_post_applied in Hfresh.
    apply orb_true_iff in Hdup as [Hd%bool_decide_eq_true|Hd].
    - rewrite Hids in Hd. set_solver.
    - unfold contains_transaction in Hd. apply bool_decide_eq_true in Hd. set_solver. }
  unfold checked_add. destruct (Z.leb_spec (height (na_ledger s) + 1) u64_max) as [Hroom|Hroom].
  2: { right. split; [|by eexists]. intros (_ & _ & ? & _). lia. }
  destruct (He Hroom) as (l' & rs & Hr). pose proof (proj2 (apply_pending_Ok _ _ _ _) (ex_intro _ rs Hr)) as Hp.
  apply apply_transactions_Ok_inv in Hr as (Hvs & Hl' & _); [|done..].
  cbn [ok_or]. rewrite (bind_run_Ok _ _ s s (height (na_ledger s) + 1)) by done. rewrite Hp.
  rewrite (bind_run_Ok _ _ s s ()) by done.
  destruct (validate_transaction l' t (height (na_ledger s) + 1)) as [v|e] eqn:Ev.
  - left. apply validate_transaction_iff in Ev as [Hv _]. rewrite Hl' in Hv. split; [by split_and!|].
    rewrite (bind_run_Ok _ _ s s v) by done.
    destruct (gossip && id_network (na_identity s)) eqn:Hg; eexists; cbn; rewrite ?Hg; by split_and!.
  - right. split; [|by eexists]. intros (_ & _ & _ & Hv). rewrite <- Hl' in Hv.
    rewrite (proj2 (validate_transaction_iff _ _ _ _) (conj Hv eq_refl)) in Ev. discriminate.
Qed.
End mempool.
