(* ===== verification/NodeExplorer.v ===== *)
(** * The explorer's tables

    The tables [transactions], [accounts] and [metadata] mirror the canonical
    history: they hold the transactions of the finalized blocks, the accounts
    of the ledger the blocks replay to, and its summary.  The node keeps them
    so ([steps_stores_explorer]). *)

From S2P Require Import Prelude Errors Crypto Transaction Block Commit Ledger LedgerFacts Replay ConsensusTypes Engine Sqlite Store StoreFacts NodeTypes Projection Recovery NodeState Node NodeCommands NodeSteps NodeChain NodeStart NodeMempool.

Section explorer.
Context `{Blake3, Blake3Checksum, Ed25519, !SigningKeyBytes, Hex, Bech32, ChallengeJson, Libp2p,
          !Borsh UnsignedTransaction, !Borsh SignedTransaction, !Borsh BlockHeader, !Borsh Block,
          !Borsh StateCommitment, !Borsh CommitVote, !Borsh CommitCertificate,
          !Borsh SignableMessage, !Borsh SignedMessage, !Borsh SignedProposal,
          !Borsh FinalizedWireRecord, !Borsh ValidatorStatusMessage, !SerdeJson SafetyState}.
Context `{!BorshLaws Block, !BorshLaws CommitCertificate, !HexLaws, !Bech32Laws}.

(** ** The specification *)

(** The numbers of a block fit their Rust types, and its transactions can be
    counted with the index type of the table. *)
Definition block_typed (b : Block) : Prop :=
  block_in_range b /\ is_u32 (bh_round (header b)) /\ Z.of_nat (length (Block.transactions b)) <= u32_max.

(** So do those of every block on the disk. *)
Definition disk_typed (db : Database) : Prop :=
  map_Forall (fun _ row => forall b cert, decode_history_row row = Ok (b, cert) -> block_typed b) (blocks db).

(** What the columns of a row say of an action; a claim is paid what the
    schedule gives for some supply. *)
Definition describes_action (a : TransactionAction) (row : TransactionRow) : Prop :=
  match a with
  | Transfer recipient amount =>
      tw_kind row = str "transfer" /\ tw_recipient row = Some (address_to_string recipient) /\ tw_amount_atoms row = amount
  | ClaimReward _ _ =>
      tw_kind row = str "claim_reward" /\ tw_recipient row = Some (tw_sender row) /\
      exists supply, tw_amount_atoms row = default 0 (reward_for_supply supply)
  | SetDisplayName _ =>
      tw_kind row = str "set_display_name" /\ tw_recipient row = None /\ tw_amount_atoms row = 0
  end.

(** [row] describes the [i]-th transaction of [b]. *)
Record describes (b : Block) (i : nat) (t : SignedTransaction) (row : TransactionRow) : Prop := {
  describes_id : tw_id row = hash_to_string (tx_id t);
  describes_height : tw_block_height row = bh_height (header b);
  describes_index : tw_index row = Z.of_nat i;
  describes_sender : tw_sender row = address_to_string (sender_address t);
  describes_nonce : tw_nonce row = tx_nonce (unsigned t);
  describes_outcome : describes_action (tx_action (unsigned t)) row
}.

(** [row] shows the account of [a]. *)
Definition shows_account (a : Address) (account : AccountState) (row : AccountRow) : Prop :=
  projected_account (a, account) (aw_account row).

(** The summary of the tip. *)
Definition metadata_shows (ledger : LedgerState) (m : gmap ustring ustring) : Prop :=
  m !! str "tip_height" = Some (to_string (height ledger)) /\
  m !! str "tip_hash" = Some (hash_to_string (tip_hash ledger)) /\
  m !! str "state_root" = Some (hash_to_string (state_root ledger)) /\
  m !! str "issued_supply_atoms" = Some (to_string (total_supply_atoms ledger)).

Record mirrors (db : Database) (ledger : LedgerState) (history : list Block) : Prop := {
  mirror_applied b t : b ∈ history -> t ∈ Block.transactions b -> tx_id t ∈ applied_transactions ledger;
  mirror_complete b i t : b ∈ history -> Block.transactions b !! i = Some t ->
    exists row, transactions db !! hash_to_string (tx_id t) = Some row /\ describes b i t row;
  mirror_sound id row : transactions db !! id = Some row ->
    exists b i t, b ∈ history /\ Block.transactions b !! i = Some t /\
      id = hash_to_string (tx_id t) /\ describes b i t row;
  mirror_accounts a :
    match Ledger.accounts ledger !! a, accounts db !! address_to_string a with
    | Some account, Some row => shows_account a account row
    | None, None => True
    | _, _ => False
    end;
  mirror_account_keys key row : accounts db !! key = Some row ->
    exists a, key = address_to_string a /\ is_Some (Ledger.accounts ledger !! a);
  mirror_metadata : history <> [] -> metadata_shows ledger (metadata db)
}.

Lemma hash_to_string_inj h1 h2 : hash_to_string h1 = hash_to_string h2 -> h1 = h2.
Proof. unfold hash_to_string. intros E%hex_encode_inj. by apply array_eq. Qed.

Lemma mirrors_empty c : mirrors empty_database (ledger_new c) [].
Proof. by split; intros; try match goal with Hin : _ ∈ [] |- _ => by apply elem_of_nil in Hin end. Qed.

(** The tables decide. *)
Lemma mirrors_tables db db' ledger history :
  transactions db' = transactions db -> accounts db' = accounts db -> metadata db' = metadata db ->
  mirrors db ledger history -> mirrors db' ledger history.
Proof. intros Et Ea Em []. by split; rewrite ?Et, ?Ea, ?Em. Qed.

(** ** One block more *)

Lemma project_transactions_receipts s txs i :
  project_transactions (txs_receipts s txs) !! i =
  (fun t => project_transaction (Z.of_nat i) (tx_receipt (txs_post s (take i txs)) t)) <$> txs !! i.
Proof.
  unfold project_transactions. rewrite list_lookup_imap.
  assert (txs_receipts s txs !! i = tx_receipt (txs_post s (take i txs)) <$> txs !! i) as ->;
    [|by destruct (txs !! i)].
  revert s i. induction txs as [|t txs IH]; intros s [|i]; simpl; [done..|]. apply IH.
Qed.

Lemma project_describes b s i t :
  Z.of_nat (length (Block.transactions b)) <= u32_max -> Block.transactions b !! i = Some t ->
  describes b i t (projected_transaction (bh_height (header b)) (project_transaction (Z.of_nat i) (tx_receipt s t))).
Proof.
  intros Hl Ht%lookup_lt_Some. unfold project_transaction, tx_receipt, tx_outcome; simpl.
  destruct (tx_action (unsigned t)) eqn:Ha; split; rewrite ?Ha; simpl; try done;
    try (rewrite wrap_small; [done|]; unfold in_range; lia).
  split_and!; [done..|]. by eexists.
Qed.

(** Accounts are never removed. *)
Lemma tx_post_account s t a : is_Some (Ledger.accounts s !! a) -> is_Some (Ledger.accounts (tx_post s t) !! a).
Proof.
  intros Ha. unfold tx_post, tx_post_action.
  destruct (tx_action (unsigned t)); try case_decide; simpl;
    repeat (apply lookup_insert_is_Some'; right); done.
Qed.

Lemma txs_post_account s txs a : is_Some (Ledger.accounts s !! a) -> is_Some (Ledger.accounts (txs_post s txs) !! a).
Proof. revert s. induction txs as [|t txs IH]; intros s Ha; [done|]. simpl. by apply IH, tx_post_account. Qed.

(** The keys of the new rows. *)
Lemma transaction_entry_keys p s txs :
  fp_transactions p = project_transactions (txs_receipts s txs) ->
  (transaction_entries p).*1 = (fun t => hash_to_string (tx_id t)) <$> txs.
Proof.
  intros Hp. apply list_eq. intros i. unfold transaction_entries.
  rewrite Hp, <- !list_fmap_compose, !list_lookup_fmap, project_transactions_receipts.
  destruct (txs !! i) as [t|]; simpl; [|done]. f_equal. unfold project_transaction, tx_receipt; simpl.
  by destruct (tx_outcome _ _).
Qed.

Lemma transaction_entry_elem b s p i t :
  fp_height p = bh_height (header b) -> fp_transactions p = project_transactions (txs_receipts s (Block.transactions b)) ->
  Z.of_nat (length (Block.transactions b)) <= u32_max -> Block.transactions b !! i = Some t ->
  exists row, (hash_to_string (tx_id t), row) ∈ transaction_entries p /\ describes b i t row.
Proof.
  intros Hh Hp Hl Ht.
  set (row := projected_transaction (bh_height (header b))
                (project_transaction (Z.of_nat i) (tx_receipt (txs_post s (take i (Block.transactions b))) t))).
  assert (describes b i t row) as Hd by by apply project_describes.
  exists row. split; [|done]. unfold transaction_entries. apply list_elem_of_fmap.
  exists (project_transaction (Z.of_nat i) (tx_receipt (txs_post s (take i (Block.transactions b))) t)).
  split.
  - rewrite Hh. fold row. f_equal. by rewrite <- (describes_id _ _ _ _ Hd).
  - apply list_elem_of_lookup. exists i. by rewrite Hp, project_transactions_receipts, Ht.
Qed.

(** The rows written for the accounts are those of the ledger. *)
Lemma account_entries_shown ledger p a account :
  Forall2 projected_account (account_entries_of ledger) (fp_changed_accounts p) ->
  Ledger.accounts ledger !! a = Some account ->
  exists row, (address_to_string a, row) ∈ account_entries p /\ shows_account a account row.
Proof.
  intros Hp Ha.
  assert ((a, account) ∈ account_entries_of ledger) as (i & Hi)%list_elem_of_lookup by by apply elem_of_btree_entries.
  destruct (Forall2_lookup_l _ _ _ _ _ Hp Hi) as (x & Hx & Hax).
  exists (mk_AccountRow x (fp_height p)). split; [|done]. unfold account_entries. apply list_elem_of_fmap.
  exists x. split; [by rewrite (proj1 Hax)|]. by apply list_elem_of_lookup_2 in Hx.
Qed.

Lemma account_entry_keys ledger p :
  Forall2 projected_account (account_entries_of ledger) (fp_changed_accounts p) ->
  (account_entries p).*1 = (fun e => address_to_string e.1) <$> account_entries_of ledger.
Proof.
  intros Hp. unfold account_entries. rewrite <- list_fmap_compose.
  induction Hp as [|e x l k [Hx _] _ IH]; [done|]. csimpl. by rewrite IH, Hx.
Qed.

Lemma account_entry_keys_NoDup ledger p :
  Forall2 projected_account (account_entries_of ledger) (fp_changed_accounts p) -> NoDup (account_entries p).*1.
Proof.
  intros Hp. rewrite (account_entry_keys _ _ Hp).
  change (_ <$> account_entries_of ledger) with ((address_to_string ∘ fst) <$> account_entries_of ledger).
  rewrite list_fmap_compose. apply NoDup_fmap_2; [exact address_to_string_inj|]. apply NoDup_btree_keys.
Qed.

Lemma account_entry_key_inv ledger p key :
  Forall2 projected_account (account_entries_of ledger) (fp_changed_accounts p) ->
  key ∈ (account_entries p).*1 -> exists a, key = address_to_string a /\ is_Some (Ledger.accounts ledger !! a).
Proof.
  intros Hp. rewrite (account_entry_keys _ _ Hp). intros ([a x] & -> & He)%list_elem_of_fmap.
  exists a. split; [done|]. apply elem_of_btree_entries in He. by eexists.
Qed.

Section commit.
Context (db db' : Database) (ledger : LedgerState) (history : list Block) (b : Block) (p : FinalizedProjection).
Context (Hm : mirrors db ledger history) (Htyped : block_typed b) (Hv : block_valid ledger b).
Context (Hheight : fp_height p = bh_height (header b)).
Context (Hder : derives (block_post ledger b) (txs_receipts ledger (Block.transactions b)) p).
Context (Htx : transactions db' = insert_all (transaction_entries p) (transactions db)).
Context (Hacc : accounts db' = insert_all (account_entries p) (accounts db)).

Lemma commit_keys : (transaction_entries p).*1 = (fun t => hash_to_string (tx_id t)) <$> Block.transactions b.
Proof. eapply transaction_entry_keys, derives_transactions, Hder. Qed.

(** No row of an earlier transaction is overwritten. *)
Lemma commit_keys_fresh b' t : b' ∈ history -> t ∈ Block.transactions b' ->
  hash_to_string (tx_id t) ∉ (transaction_entries p).*1.
Proof.
  intros Hb Ht. rewrite commit_keys. intros (t' & Hid%hash_to_string_inj & Ht')%list_elem_of_fmap.
  destruct (txs_valid_fresh _ _ _ (valid_transactions _ _ Hv)) as [_ Hf].
  apply (proj1 (Forall_forall _ _) Hf t' Ht'). rewrite <- Hid. by eapply mirror_applied.
Qed.

Lemma commit_keys_NoDup : NoDup (transaction_entries p).*1.
Proof.
  rewrite commit_keys. destruct (txs_valid_fresh _ _ _ (valid_transactions _ _ Hv)) as [Hnd _].
  change (_ <$> Block.transactions b) with ((hash_to_string ∘ tx_id) <$> Block.transactions b).
  rewrite list_fmap_compose. apply NoDup_fmap_2; [exact hash_to_string_inj|done].
Qed.

Lemma commit_complete b' i t : b' ∈ history ++ [b] -> Block.transactions b' !! i = Some t ->
  exists row, transactions db' !! hash_to_string (tx_id t) = Some row /\ describes b' i t row.
Proof.
  intros [Hb|Hb%list_elem_of_singleton]%elem_of_app Ht; [|subst b']; rewrite Htx.
  - rewrite lookup_insert_all_ne by (eapply commit_keys_fresh; [exact Hb|by eapply list_elem_of_lookup_2]).
    by apply (mirror_complete _ _ _ Hm).
  - destruct (transaction_entry_elem b ledger p i t Hheight (derives_transactions _ _ _ Hder)
      (proj2 (proj2 Htyped)) Ht) as (row & Hin & Hd).
    exists row. split; [|done]. apply lookup_insert_all; [apply commit_keys_NoDup|done].
Qed.

Lemma commit_sound id row : transactions db' !! id = Some row ->
  exists b' i t, b' ∈ history ++ [b] /\ Block.transactions b' !! i = Some t /\
    id = hash_to_string (tx_id t) /\ describes b' i t row.
Proof.
  intros Hrow. destruct (decide (id ∈ (transaction_entries p).*1)) as [Hin|Hin].
  - rewrite commit_keys in Hin. apply list_elem_of_fmap in Hin as (t & -> & (i & Ht)%list_elem_of_lookup).
    destruct (commit_complete b i t) as (row' & Hrow' & Hd); [set_solver|done|].
    rewrite Hrow in Hrow'. injection Hrow' as <-. exists b, i, t. split_and!; [set_solver|done..].
  - rewrite Htx, lookup_insert_all_ne in Hrow by done.
    destruct (mirror_sound _ _ _ Hm _ _ Hrow) as (b' & i & t & Hb & ?). exists b', i, t. split; [set_solver|done].
Qed.

Lemma block_post_account a : is_Some (Ledger.accounts ledger !! a) -> is_Some (Ledger.accounts (block_post ledger b) !! a).
Proof. apply txs_post_account. Qed.

Lemma commit_accounts a :
  match Ledger.accounts (block_post ledger b) !! a, accounts db' !! address_to_string a with
  | Some account, Some row => shows_account a account row
  | None, None => True
  | _, _ => False
  end.
Proof.
  pose proof (derives_accounts _ _ _ Hder) as Hp. rewrite Hacc.
  destruct (Ledger.accounts (block_post ledger b) !! a) as [account|] eqn:Ha.
  - destruct (account_entries_shown _ _ _ _ Hp Ha) as (row & Hin & Hs).
    by rewrite (lookup_insert_all _ _ _ _ (account_entry_keys_NoDup _ _ Hp) Hin).
  - rewrite lookup_insert_all_ne.
    + destruct (accounts db !! address_to_string a) eqn:E; [|done].
      destruct (mirror_account_keys _ _ _ Hm _ _ E) as (a' & Heq%address_to_string_inj & Hs%block_post_account).
      subst a'. rewrite Ha in Hs. by destruct Hs.
    + intros (a' & Heq%address_to_string_inj & Hs)%(account_entry_key_inv _ _ _ Hp). subst a'. rewrite Ha in Hs. by destruct Hs.
Qed.

Lemma commit_account_keys key row : accounts db' !! key = Some row ->
  exists a, key = address_to_string a /\ is_Some (Ledger.accounts (block_post ledger b) !! a).
Proof.
  rewrite Hacc. destruct (decide (key ∈ (account_entries p).*1)) as [Hin|Hin].
  - intros _. by eapply account_entry_key_inv, Hin; eapply derives_accounts.
  - rewrite lookup_insert_all_ne by done. intros (a & -> & Ha%block_post_account)%(mirror_account_keys _ _ _ Hm). by exists a.
Qed.

Lemma mirrors_commit :
  fp_block_hash p = hash_to_string (block_hash b) ->
  fp_state_root p = hash_to_string (bh_state_root (header b)) ->
  metadata db' = insert_all (finalized_metadata p) (metadata db) ->
  mirrors db' (block_post ledger b) (history ++ [b]).
Proof.
  intros Hhash Hroot Hmeta. split.
  - intros b' t Hb Ht. change (applied_transactions _) with (applied_transactions (txs_post ledger (Block.transactions b))).
    rewrite txs_post_applied. apply elem_of_app in Hb as [Hb|Hb%list_elem_of_singleton]; [|subst b'].
    + apply elem_of_union. right. by eapply mirror_applied.
    + apply elem_of_union. left. apply elem_of_list_to_set, list_elem_of_fmap. by exists t.
  - apply commit_complete.
  - apply commit_sound.
  - apply commit_accounts.
  - apply commit_account_keys.
  - intros _. unfold metadata_shows. rewrite Hmeta.
    assert (forall k v, (k, v) ∈ finalized_metadata p -> insert_all (finalized_metadata p) (metadata db) !! k = Some v) as Hl.
    { intros k v. apply lookup_insert_all, finalized_metadata_NoDup. }
    assert (state_root (block_post ledger b) = bh_state_root (header b)) as -> by by rewrite (valid_state_root _ _ Hv).
    change (height (block_post ledger b)) with (bh_height (header b)). rewrite <- Hheight, <- Hroot.
    change (tip_hash (block_post ledger b)) with (block_hash b). rewrite <- Hhash, <- (derives_supply _ _ _ Hder).
    split_and!; apply Hl; unfold finalized_metadata; set_solver.
Qed.
End commit.

(** ** The actor's invariant *)

(** The disk stores the chain, and its explorer tables mirror it. *)
Definition stores_explorer (c : ChainId) (db : Database) (ledger : LedgerState) : Prop :=
  stores_chain c db ledger /\
  forall history, Forall2 row_of (blocks_ascending db) history ->
    Forall block_typed history.*1 -> mirrors db ledger history.*1.

Lemma stores_explorer_empty c : stores_explorer c empty_database (ledger_new c).
Proof.
  split; [apply stores_chain_empty|]. intros history Hh _. inversion Hh. apply mirrors_empty.
Qed.

Lemma row_of_functional rows h1 h2 : Forall2 row_of rows h1 -> Forall2 row_of rows h2 -> h1 = h2.
Proof.
  intros Hrows. revert h2. induction Hrows as [|row bc rows h1 [Hd _] _ IH]; intros h2 Hrows2; inversion Hrows2 as [|? bc' ? h2' [Hd' _] Hrows2']; subst; [done|].
  rewrite Hd in Hd'. injection Hd' as <-. f_equal. by apply IH.
Qed.

Lemma typed_in_range l : Forall block_typed l -> Forall block_in_range l.
Proof. intros Hl. eapply Forall_impl; [exact Hl|]. by intros b []. Qed.

Lemma stores_explorer_commit c db ledger block certificate ledger' receipts p db' reply :
  stores_explorer c db ledger ->
  apply_finalized_block block certificate dev_validators ledger = (ledger', Ok receipts) ->
  projects block certificate p -> derives ledger' receipts p ->
  effect (PersistFinalized p) db db' reply -> stores_explorer c db' ledger'.
Proof.
  intros [Hchain Hmir] Happly Hp Hder Heff.
  pose proof (stores_chain_commit _ _ _ _ _ _ _ _ _ _ Hchain Happly Hp Hder Heff) as Hchain'.
  split; [done|]. destruct (stored_history _ _ _ Hchain) as (history & Hrows & Hrep).
  intros history' Hrows' Htyped.
  assert (history' = history ++ [(block, certificate)]) as ->.
  { eapply row_of_functional; [exact Hrows'|].
    exact (proj1 (stores_chain_commit_rows _ _ _ _ _ _ _ _ _ _ _ Hchain Hrows Happly Hp Hder Heff)). }
  rewrite fmap_app in Htyped |- *. apply Forall_app in Htyped as [Ht [Hb _]%Forall_cons].
  specialize (Hmir history Hrows Ht).
  assert (ledger_ok ledger) as Hok by (eapply replay_ledger_ok; [exact Hrep|by apply typed_in_range]).
  unfold apply_finalized_block in Happly. apply bind_Ok_inv in Happly as (l1 & [] & Hl & Happly). injection Hl as <- _.
  apply apply_block_Ok_inv in Happly as (Hv & -> & ->); [|done|apply Hb].
  destruct Heff as (_ & _ & ->).
  eapply mirrors_commit; [exact Hmir|done|done|apply Hp|exact Hder|done|done|apply Hp|apply Hp|done].
Qed.

Lemma stores_explorer_tables c db db' ledger :
  blocks db' = blocks db -> transactions db' = transactions db -> accounts db' = accounts db ->
  metadata db' = metadata db -> stores_explorer c db ledger -> stores_explorer c db' ledger.
Proof.
  intros Eb Et Ea Em [Hc Hm]. split; [by eapply stores_chain_blocks|].
  unfold blocks_ascending. rewrite Eb. intros history Hrows Ht. eapply mirrors_tables; [done..|]. by apply Hm.
Qed.

Lemma effect_record_tables op db db' reply :
  is_record op -> effect op db db' reply ->
  transactions db' = transactions db /\ accounts db' = accounts db /\ metadata db' = metadata db.
Proof.
  destruct op; simpl; intros Hop He; try done.
  - destruct He as (r & _ & h & _ & He). destruct (decision_of slot db).
    + destruct He as (_ & _ & _ & [->|[_ ->]]); done.
    + by destruct He as (_ & _ & ->).
  - destruct (consensus_proposals db !! _); [by destruct He as (_ & _ & _ & ->)|by subst].
  - by destruct He as (n & _ & _ & ->).
Qed.

Record explorer_inv (c : ChainId) (s : NodeActor) : Prop := {
  explorer_validators : node_validators s = dev_validators;
  explorer_stores : stores_explorer c (durable (na_store s)) (na_ledger s)
}.

Lemma step_explorer_inv c s s' : actor_step s s' -> explorer_inv c s -> explorer_inv c s'.
Proof.
  intros Hs [Hv Hc]. unfold node_validators in Hv.
  destruct Hs as [s' Q|st R| | | |op st reply _ Hop _ _ He| | |b cert ledger rs p st reply _ Ha Hp Hder _ _ He kept|];
    try (by split).
  - destruct Q. split; [unfold node_validators; congruence|]. by rewrite quiet_store, quiet_ledger.
  - split; [done|]. simpl. by rewrite (proj1 R).
  - split; [done|]. simpl. destruct (effect_record_tables _ _ _ _ Hop He) as (? & ? & ?).
    eapply stores_explorer_tables; [by eapply effect_record_blocks|done..].
  - split; [done|]. simpl. unfold node_validators in Ha. rewrite Hv in Ha. by eapply stores_explorer_commit.
Qed.

Lemma steps_explorer_inv c s s' : rtc actor_step s s' -> explorer_inv c s -> explorer_inv c s'.
Proof. induction 1 as [|s1 s2 s3 Hs _ IH]; [done|]. intros Hi. by eapply IH, step_explorer_inv. Qed.

Lemma start_node_explorer config network peers env (faults : list (option SqliteError)) db s self c ledger :
  stores_explorer c db ledger -> slots_unique db -> chain_id_new (cfg_node_chain_id config) = Ok c ->
  start_node config network peers env (mk_Store false faults db None) = (s, Ok self) ->
  explorer_inv c self /\ na_halted self = false /\ broadcasts_recorded self.
Proof.
  intros Hx Hu Hc Hstart.
  destruct (start_node_Ok _ _ _ _ (mk_Store false faults db None) _ _ eq_refl Hu Hstart)
    as (Hst & _ & Hd & Hh & _ & _ & Hb & _). rewrite <- Hst in Hd.
  destruct (start_node_chain _ _ _ _ (mk_Store false faults db None) _ _ _ _ eq_refl Hu (proj1 Hx) Hc Hstart) as [Hl Hi].
  split; [|done]. split; [apply Hi|]. by rewrite Hd, Hl.
Qed.

(** ** Finality on the disk *)

(** What was finalized stays: blocks, and the rows of their transactions. *)
Lemma step_blocks c s s' h row :
  actor_step s s' -> explorer_inv c s -> blocks (durable (na_store s)) !! h = Some row ->
  blocks (durable (na_store s')) !! h = Some row.
Proof.
  intros Hs [Hv [Hc _]] Hrow. unfold node_validators in Hv.
  destruct Hs as [s' Q|st R| | | |op st reply _ Hop _ _ He| | |b cert ledger rs p st reply _ Ha Hp Hder _ _ He kept|];
    try done; simpl.
  - by rewrite (quiet_store _ _ Q).
  - by rewrite (proj1 R).
  - by rewrite (effect_record_blocks _ _ _ _ Hop He).
  - unfold node_validators in Ha. rewrite Hv in Ha.
    destruct (stored_history _ _ _ Hc) as (history & Hrows & _).
    destruct (stores_chain_commit_rows _ _ _ _ _ _ _ _ _ _ _ Hc Hrows Ha Hp Hder He) as [_ ->].
    destruct (apply_finalized_block_Ok _ _ _ _ _ _ Ha) as (_ & _ & _ & Hh & _).
    rewrite lookup_insert_ne; [done|]. destruct (stored_keys _ _ _ Hc h row Hrow). rewrite (projects_height _ _ _ Hp). lia.
Qed.

Lemma steps_blocks c s s' h row :
  rtc actor_step s s' -> explorer_inv c s -> blocks (durable (na_store s)) !! h = Some row ->
  blocks (durable (na_store s')) !! h = Some row.
Proof.
  induction 1 as [|s1 s2 s3 Hs _ IH]; [done|]. intros Hi Hrow.
  apply IH; [by eapply step_explorer_inv|by eapply step_blocks].
Qed.
End explorer.
