(* ===== verification/NodeReindex.v ===== *)
(** * Re-indexing

    [reindex_store] replays the canonical blocks and writes the explorer's
    tables anew: whatever they held, they mirror the chain afterwards, and the
    derived columns of the blocks agree with their bytes. *)

From S2P Require Import Prelude Errors Crypto Transaction Block Commit Ledger LedgerFacts Replay ConsensusTypes Engine Sqlite Store StoreFacts NodeTypes Projection Recovery NodeState Node NodeCommands NodeSteps NodeChain NodeStart NodeMempool NodeExplorer.

(** ** Order and values of a map *)

Lemma insert_by_fmap {A B} (leb : A -> A -> bool) (leb' : B -> B -> bool) (g : A -> B) x l :
  (forall x y, leb' (g x) (g y) = leb x y) -> insert_by leb' (g x) (g <$> l) = g <$> insert_by leb x l.
Proof.
  intros Hg. induction l as [|y l IH]; simpl; [done|]. rewrite Hg. destruct (leb x y); [done|]. csimpl. by rewrite IH.
Qed.

Lemma sort_by_fmap {A B} (leb : A -> A -> bool) (leb' : B -> B -> bool) (g : A -> B) l :
  (forall x y, leb' (g x) (g y) = leb x y) -> sort_by leb' (g <$> l) = g <$> sort_by leb l.
Proof.
  intros Hg. induction l as [|x l IH]; [done|]. change (insert_by leb' (g x) (sort_by leb' (g <$> l)) = g <$> insert_by leb x (sort_by leb l)).
  rewrite IH. by apply insert_by_fmap.
Qed.

Lemma btree_values_fmap {K V W} `{Countable K} leb (f : V -> W) (m : gmap K V) :
  btree_values leb (f <$> m) = f <$> btree_values leb m.
Proof.
  unfold btree_values, btree_entries. rewrite map_to_list_fmap.
  rewrite (sort_by_fmap (fun x y : K * V => leb x.1 y.1)) by (intros [] []; done).
  by rewrite <- !list_fmap_compose.
Qed.

Section reindex.
Context `{Blake3, Blake3Checksum, Ed25519, !SigningKeyBytes, Hex, Bech32, ChallengeJson, Libp2p,
          !Borsh UnsignedTransaction, !Borsh SignedTransaction, !Borsh BlockHeader, !Borsh Block,
          !Borsh StateCommitment, !Borsh CommitVote, !Borsh CommitCertificate,
          !Borsh SignableMessage, !Borsh SignedMessage, !Borsh SignedProposal,
          !Borsh FinalizedWireRecord, !Borsh ValidatorStatusMessage, !SerdeJson SafetyState}.
Context `{!BorshLaws Block, !BorshLaws CommitCertificate, !HexLaws, !Bech32Laws}.

(** ** The canonical columns *)

Definition canonical_columns (row : BlockRow) : bytes * bytes := (br_block_bytes row, br_certificate_bytes row).

Lemma decode_columns row row' :
  canonical_columns row = canonical_columns row' -> decode_history_row row = decode_history_row row'.
Proof. unfold canonical_columns, decode_history_row. by intros [= -> ->]. Qed.

Lemma blocks_ascending_columns db db' :
  canonical_columns <$> blocks db = canonical_columns <$> blocks db' ->
  canonical_columns <$> blocks_ascending db = canonical_columns <$> blocks_ascending db'.
Proof. intros E. unfold blocks_ascending. by rewrite <- !btree_values_fmap, E. Qed.

Lemma decode_rows_columns rows rows' history :
  canonical_columns <$> rows = canonical_columns <$> rows' ->
  Forall2 (fun row bc => decode_history_row row = Ok bc) rows history ->
  Forall2 (fun row bc => decode_history_row row = Ok bc) rows' history.
Proof.
  intros E Hrows. revert rows' E. induction Hrows as [|row bc rows history Hd _ IH]; intros [|row' rows'] E; try done.
  injection E as Eb Ec E. constructor; [|by apply IH]. rewrite <- Hd. by apply decode_columns; unfold canonical_columns; f_equal.
Qed.

(** The key of a row is its height, an SQL integer: [height INTEGER PRIMARY KEY]. *)
Definition well_keyed (db : Database) : Prop := map_Forall (fun h row => br_height row = h /\ h <= i64_max) (blocks db).

(** ** One block *)

Lemma persist_finalized_effect p s s' :
  idle s -> persist_finalized p s = (s', Ok ()) ->
  idle s' /\ agrees p (durable s) /\ fp_height p <= i64_max /\ durable s' = finalized_database p (durable s).
Proof. intros Hi Hr. destruct (persist_finalized_updates _ _ _ _ Hr) as (_ & _ & [? (? & ? & ?)]%(fun H => H Hi)). done. Qed.

Lemma refresh_effect p s s' :
  idle s -> refresh_block_projection p s = (s', Ok ()) ->
  idle s' /\ exists row, blocks (durable s) !! fp_height p = Some row /\
    br_block_bytes row = fp_block_bytes p /\ br_certificate_bytes row = fp_certificate_bytes p /\
    durable s' = set_blocks <[fp_height p := projected_block p]> (durable s).
Proof.
  intros Hi Hr. destruct (refresh_block_projection_updates _ _ _ _ Hr) as (_ & _ & [? (row & ? & ? & ? & _ & ?)]%(fun H => H Hi)).
  split; [done|]. by exists row.
Qed.

(** Re-indexing one block: its row is refreshed, the tables grow by it. *)
Lemma reindex_block p s s1 s2 :
  idle s -> refresh_block_projection p s = (s1, Ok ()) -> persist_finalized p s1 = (s2, Ok ()) ->
  idle s2 /\ canonical_columns <$> blocks (durable s2) = canonical_columns <$> blocks (durable s) /\
  (well_keyed (durable s) -> well_keyed (durable s2)) /\
  transactions (durable s2) = insert_all (transaction_entries p) (transactions (durable s)) /\
  accounts (durable s2) = insert_all (account_entries p) (accounts (durable s)) /\
  metadata (durable s2) = insert_all (finalized_metadata p) (metadata (durable s)).
Proof.
  intros Hi H1r H2r. destruct (refresh_effect _ _ _ Hi H1r) as (Hi1 & row & Hrow & Hb & Hc & Hd1).
  destruct (persist_finalized_effect _ _ _ Hi1 H2r) as (Hi2 & _ & Hh & Hd2).
  assert (blocks (durable s2) = <[fp_height p := projected_block p]> (blocks (durable s))) as Hblocks.
  { rewrite Hd2. simpl. rewrite Hd1. simpl. by rewrite lookup_insert_eq, bool_decide_eq_true_2 by by eexists. }
  split_and!; [done| | |by rewrite Hd2, Hd1..].
  - rewrite Hblocks, fmap_insert. apply insert_id. rewrite lookup_fmap, Hrow. simpl.
    unfold canonical_columns. simpl. by rewrite Hb, Hc.
  - intros Hk. unfold well_keyed. rewrite Hblocks. by apply map_Forall_insert_2.
Qed.

(** ** What no failure loses *)

(** Certified blocks stay as they are, wherever a computation stops. *)
Definition keeps_blocks (s s' : Store Database) : Prop :=
  forall h bb cb, holds_block h bb cb (durable s) -> holds_block h bb cb (durable s').

#[export] Instance keeps_blocks_preorder : PreOrder keeps_blocks.
Proof. split; [by intros s h bb cb|]. intros s1 s2 s3 H12 H23 h bb cb Hb. auto. Qed.

Lemma keeps_reading s s' : reading s s' -> keeps_blocks s s'.
Proof. intros [Hd _] h bb cb. by rewrite Hd. Qed.

Lemma keeps_updates {A} (P : Database -> Database -> A -> Prop) (m : storeM A) s :
  updates P m -> (forall db db' a h bb cb, P db db' a -> holds_block h bb cb db -> holds_block h bb cb db') ->
  preserves keeps_blocks s (from_store m).
Proof.
  intros Hm HP s' r Hr. unfold from_store in Hr. destruct (m s) as [s1 r1] eqn:E. injection Hr as <- _.
  destruct (Hm s s1 r1 E) as (_ & Hn & Hi). intros h bb cb Hb. destruct (working s) eqn:Hw.
  - destruct Hn as [_ ->]; [unfold idle; congruence|done].
  - specialize (Hi Hw). destruct r1; [by eapply HP; [apply Hi|]|by rewrite Hi].
Qed.

Lemma keeps_persist p s : preserves keeps_blocks s (from_store (persist_finalized p)).
Proof.
  eapply keeps_updates; [apply persist_finalized_updates|]. intros db db' [] h bb cb (_ & _ & ->) (row & Hrow & Hb).
  exists row. split; [|done]. simpl. case_bool_decide as Hs; [done|]. rewrite lookup_insert_ne; [done|].
  intros E. rewrite E in Hs. apply Hs. by eexists.
Qed.

Lemma keeps_refresh p s : preserves keeps_blocks s (from_store (refresh_block_projection p)).
Proof.
  eapply keeps_updates; [apply refresh_block_projection_updates|].
  intros db db' [] h bb cb (row & Hrow & Hb & Hc & _ & ->) (row' & Hrow' & Hb' & Hc'). unfold holds_block. simpl.
  destruct (decide (h = fp_height p)) as [->|Hne].
  - rewrite lookup_insert_eq. eexists. split; [done|]. simpl. rewrite Hrow in Hrow'. injection Hrow' as <-. by subst.
  - rewrite lookup_insert_ne by done. by exists row'.
Qed.

Lemma keeps_clear s : preserves keeps_blocks s (from_store clear_projections).
Proof. eapply keeps_updates; [apply clear_projections_updates|]. by intros db db' [] h bb cb ->. Qed.

Lemma reading_verify_store c s : preserves reading s (verify_store c).
Proof.
  apply (preserves_bind _); [apply reading_from_store, reading_read|]. intros s1 rows _.
  apply (preserves_check _). intros ledger _. apply (preserves_ret _).
Qed.

Lemma keeps_reindex_rows rows ledger s : preserves keeps_blocks s (reindex_rows rows ledger).
Proof.
  revert ledger s. induction rows as [|row rows IH]; intros ledger s; cbn [reindex_rows]; [apply (preserves_ret _)|].
  apply (preserves_check _). intros b _. apply (preserves_check _). intros c _.
  destruct (apply_finalized_block _ _ _ _) as [l applied]. apply (preserves_check _). intros rs _.
  apply (preserves_bind _); [eapply preserves_mono; [apply keeps_reading|apply reading_build_projection]|]. intros s1 p _.
  apply (preserves_bind _); [apply keeps_refresh|]. intros s2 [] _.
  apply (preserves_bind _); [apply keeps_persist|]. intros s3 [] _. apply IH.
Qed.

Lemma keeps_reindex_store c s : preserves keeps_blocks s (reindex_store c).
Proof.
  apply (preserves_bind _); [eapply preserves_mono; [apply keeps_reading|apply reading_from_store, reading_read]|].
  intros s1 rows _. apply (preserves_check _). intros l _. apply (preserves_bind _); [apply keeps_clear|].
  intros s2 [] _. apply (preserves_bind _); [apply keeps_reindex_rows|]. intros s3 ledger _.
  eapply preserves_mono; [apply keeps_reading|apply reading_verify_store].
Qed.

(** ** The loop *)

Definition decodes (row : BlockRow) (bc : Block * CommitCertificate) : Prop := decode_history_row row = Ok bc.

(** What the loop over [rows] does, where it ends well. *)
Record reindexed (rows : list BlockRow) (l l' : LedgerState) (db db' : Database) : Prop := {
  reindexed_history : exists history,
    Forall2 decodes rows history /\ apply_finalized_blocks history dev_validators l = (l', Ok ()) /\
    (Forall block_typed history.*1 -> forall before, ledger_ok l -> mirrors db l before ->
      Ledger.chain_id l' = Ledger.chain_id l /\ mirrors db' l' (before ++ history.*1));
  reindexed_columns : canonical_columns <$> blocks db' = canonical_columns <$> blocks db;
  reindexed_keys : well_keyed db -> well_keyed db'
}.

Lemma reindex_rows_effect rows l s s' l' :
  idle s -> reindex_rows rows l s = (s', Ok l') -> idle s' /\ reindexed rows l l' (durable s) (durable s').
Proof.
  revert l s. induction rows as [|row rows IH]; intros l s Hi Hr; cbn [reindex_rows] in Hr.
  { injection Hr as <- <-. split; [done|]. split; [|done..]. exists []. split_and!; [constructor|done|].
    intros _ before _ Hm. by rewrite app_nil_r. }
  apply bind_Ok_inv in Hr as (s1 & b & Hb & Hr). injection Hb as <- Hb. apply map_err_Ok_inv in Hb.
  apply bind_Ok_inv in Hr as (s1 & c & Hc & Hr). injection Hc as <- Hc. apply map_err_Ok_inv in Hc.
  destruct (apply_finalized_block b c dev_validators l) as [l1 applied] eqn:Happly.
  apply bind_Ok_inv in Hr as (s1 & rs & Hs & Hr). injection Hs as <- Hs. apply map_err_Ok_inv in Hs as ->.
  apply bind_Ok_inv in Hr as (s1 & p & Hp & Hr). apply bind_Ok_inv in Hr as (s2 & [] & Hq & Hr).
  apply bind_Ok_inv in Hr as (s3 & [] & Hf & Hr).
  destruct (reading_build_projection l1 b c rs s s1 _ Hp) as [Hd1 Hi1%(fun H => H Hi)].
  apply build_projection_projects in Hp as [Hproj Hder]. apply from_store_Ok in Hq, Hf.
  destruct (reindex_block p s1 s2 s3 Hi1 Hq Hf) as (Hi3 & Hcols & Hkeys & Htx & Hacc & Hmeta). rewrite Hd1 in *.
  destruct (IH _ _ Hi3 Hr) as (Hi' & [(history & Hrows & Hrest & Hm) Hcols' Hkeys']). split; [done|]. split.
  - exists ((b, c) :: history). split_and!.
    + constructor; [|done]. unfold decodes, decode_history_row. by rewrite Hb, Hc.
    + cbn [apply_finalized_blocks]. by rewrite (bind_run_Ok _ _ _ _ _ Happly).
    + intros [Htb Ht]%Forall_cons before Hok Hbefore.
      unfold apply_finalized_block in Happly. apply bind_Ok_inv in Happly as (l2 & [] & Hl & Happly). injection Hl as <- _.
      apply apply_block_Ok_inv in Happly as (Hv & -> & ->); [|done|apply Htb].
      destruct (Hm Ht (before ++ [b])) as [Hid Hmir].
      * apply block_post_ok; [done|apply Htb|done].
      * eapply mirrors_commit; [exact Hbefore|done|done|apply Hproj|exact Hder|done|done|apply Hproj|apply Hproj|done].
      * split; [rewrite Hid; apply (txs_post_frame l)|]. rewrite <- app_assoc in Hmir. exact Hmir.
  - by rewrite Hcols'.
  - auto.
Qed.

(** ** The whole *)

Lemma apply_finalized_blocks_heights history l l' :
  apply_finalized_blocks history dev_validators l = (l', Ok ()) ->
  height l <= height l' /\ Forall (fun b => bh_height (header b) <= height l') history.*1.
Proof.
  revert l. induction history as [|[b c] history IH]; intros l Hr; cbn [apply_finalized_blocks] in Hr.
  { injection Hr as ->. by split. }
  apply bind_Ok_inv in Hr as (l1 & rs & Hb & Hr). destruct (IH _ Hr) as [Hle Hall].
  destruct (apply_finalized_block_Ok _ _ _ _ _ _ Hb) as (_ & _ & _ & Hh & Hh1 & _).
  split; [lia|]. constructor; [simpl; lia|done].
Qed.

Lemma row_agrees_height row b c : row_agrees row b c = true -> br_height row = bh_height (header b).
Proof. unfold row_agrees. rewrite !andb_true_iff. intros Hr. apply Z.eqb_eq, Hr. Qed.

(** The verified rows of a well-keyed table store the chain. *)
Lemma verified_stores_chain c db ledger history :
  well_keyed db -> Forall2 row_of (blocks_ascending db) history ->
  replay_finalized_blocks c history dev_validators = Ok ledger -> stores_chain c db ledger.
Proof.
  intros Hk Hrows Hrep. split; [by exists history|]. intros h row Hrow. destruct (Hk h row Hrow) as [Hh Hi].
  split_and!; [done| |done].
  assert (row ∈ blocks_ascending db) as (i & Hl)%list_elem_of_lookup by (apply elem_of_btree_values; by exists h).
  destruct (Forall2_lookup_l _ _ _ _ _ Hrows Hl) as ([b cert] & Hb & [_ Hag%row_agrees_height]).
  apply replay_finalized_blocks_Ok, apply_finalized_blocks_heights in Hrep as [_ Hall].
  rewrite <- Hh, Hag. apply (proj1 (Forall_forall _ _) Hall). apply list_elem_of_fmap. exists (b, cert).
  split; [done|]. by eapply list_elem_of_lookup_2.
Qed.

Lemma disk_typed_history db history :
  disk_typed db -> Forall2 decodes (blocks_ascending db) history -> Forall block_typed history.*1.
Proof.
  intros Ht Hrows. apply Forall_fmap, Forall_forall. intros [b cert] (i & Hi)%list_elem_of_lookup.
  destruct (Forall2_lookup_r _ _ _ _ _ Hrows Hi) as (row & Hrow & Hd).
  apply list_elem_of_lookup_2, elem_of_btree_values in Hrow as [h Hh]. exact (Ht h row Hh b cert Hd).
Qed.

Lemma decodes_functional rows h1 h2 : Forall2 decodes rows h1 -> Forall2 decodes rows h2 -> h1 = h2.
Proof.
  intros Hrows. revert h2. induction Hrows as [|row bc rows h1 Hd _ IH]; intros h2 Hrows2;
    inversion Hrows2 as [|? bc' ? h2' Hd' Hrows2']; subst; [done|].
  unfold decodes in *. rewrite Hd in Hd'. injection Hd' as <-. f_equal. by apply IH.
Qed.

Lemma mirrors_cleared c db : mirrors (projections_cleared db) (ledger_new c) [].
Proof. by eapply mirrors_tables, mirrors_empty. Qed.

Lemma verify_store_effect c s s' report :
  idle s -> verify_store c s = (s', Ok report) ->
  durable s' = durable s /\ exists history ledger,
    Forall2 row_of (blocks_ascending (durable s)) history /\
    replay_finalized_blocks c history dev_validators = Ok ledger /\ report = replay_report ledger.
Proof.
  intros Hi Hr. destruct (canonical_block_rows s) as [s1 [rows|e]] eqn:E;
    [|unfold verify_store, mbind, stE_bind, from_store in Hr; by rewrite E in Hr].
  pose proof (canonical_block_rows_Ok _ _ _ Hi E) as ->.
  pose proof (proj1 (verify_store_reports c s s1 _ report E)) as Hrep. rewrite Hr in Hrep.
  split; [|by apply Hrep]. unfold verify_store in Hr.
  apply bind_Ok_inv in Hr as (s2 & rows & Hs%from_store_Ok & Hr). rewrite E in Hs. injection Hs as <- <-.
  apply bind_Ok_inv in Hr as (s3 & l & Hs & Hr). injection Hs as <- _. injection Hr as <- _.
  apply (reading_read _ s _ _ E).
Qed.

Lemma reindex_store_effect c s s' report :
  idle s -> well_keyed (durable s) -> disk_typed (durable s) -> reindex_store c s = (s', Ok report) ->
  canonical_columns <$> blocks (durable s') = canonical_columns <$> blocks (durable s) /\
  exists ledger, stores_explorer c (durable s') ledger /\ report = replay_report ledger.
Proof.
  intros Hi Hk Ht Hr. unfold reindex_store in Hr.
  apply bind_Ok_inv in Hr as (s1 & rows & Hrows%from_store_Ok & Hr).
  pose proof (canonical_block_rows_Ok _ _ _ Hi Hrows) as ->.
  destruct (reading_read _ s _ _ Hrows) as [Hd1 Hi1%(fun H => H Hi)].
  apply bind_Ok_inv in Hr as (s2 & first & Hs & Hr). injection Hs as <- _.
  apply bind_Ok_inv in Hr as (s2 & [] & Hclear%from_store_Ok & Hr).
  destruct (clear_projections_updates _ _ _ Hclear) as (_ & _ & [Hi2 Hd2]%(fun H => H Hi1)).
  apply bind_Ok_inv in Hr as (s3 & ledger & Hloop & Hr).
  destruct (reindex_rows_effect _ _ _ _ _ Hi2 Hloop) as (Hi3 & [(history & Hdec & Hrep & Hm) Hcols Hkeys]).
  rewrite Hd2, Hd1 in Hcols, Hkeys, Hm. simpl in Hcols, Hkeys.
  destruct (Hm (disk_typed_history _ _ Ht Hdec) [] (ledger_new_ok c) (mirrors_cleared c _)) as [Hid Hmir].
  rewrite Hid in Hr. change (Ledger.chain_id (ledger_new c)) with c in Hr.
  destruct (verify_store_effect _ _ _ _ Hi3 Hr) as (Hd & history' & ledger' & Hrows' & Hrep' & ->).
  rewrite Hd, Hcols. split; [done|]. exists ledger'. split; [|done].
  assert (history' = history) as ->.
  { eapply decodes_functional; [eapply Forall2_impl; [exact Hrows'|by intros ?? []]|].
    eapply decode_rows_columns; [|exact Hdec]. by apply blocks_ascending_columns. }
  apply replay_finalized_blocks_Ok in Hrep'. rewrite Hrep in Hrep'. injection Hrep' as <-. split.
  - apply (verified_stores_chain c _ _ history); [by apply Hkeys|done|by apply replay_finalized_blocks_Ok].
  - intros history'' Hrows'' _. by rewrite (row_of_functional _ _ _ Hrows'' Hrows').
Qed.
(** The check before the tables are cleared. *)
Lemma replay_rows_decodes rows v l l' :
  replay_rows rows v l = (l', Ok ()) ->
  exists history, Forall2 decodes rows history /\ apply_finalized_blocks history dev_validators l = (l', Ok ()).
Proof.
  revert l. induction rows as [|row rows IH]; intros l; cbn [replay_rows].
  { intros [= <-]. exists []. by split; [constructor|]. }
  intros (l1 & b & Hb & Hr)%bind_Ok_inv. injection Hb as <- Hb. apply map_err_Ok_inv, map_err_Ok_inv in Hb.
  apply bind_Ok_inv in Hr as (l1 & c & Hc & Hr). injection Hc as <- Hc. apply map_err_Ok_inv, map_err_Ok_inv in Hc.
  apply bind_Ok_inv in Hr as (l1 & rs & Ha & Hr).
  destruct (apply_finalized_block b c dev_validators l) as [l2 applied] eqn:E. injection Ha as -> Ha.
  apply map_err_Ok_inv, map_err_Ok_inv in Ha as ->. destruct (_ && _); [done|].
  apply IH in Hr as (history & Hrows & Hr). exists ((b, c) :: history). split.
  - constructor; [|done]. unfold decodes, decode_history_row. by rewrite Hb, Hc.
  - cbn [apply_finalized_blocks]. by rewrite (bind_run_Ok _ _ _ _ _ E).
Qed.

(** The canonical bytes on the disk replay. *)
Definition replays (c : ChainId) (db : Database) : Prop :=
  exists history ledger, Forall2 decodes (blocks_ascending db) history /\
    replay_finalized_blocks c history dev_validators = Ok ledger.

Lemma reindex_store_refuses c s s' r :
  idle s -> ~ replays c (durable s) -> reindex_store c s = (s', r) ->
  durable s' = durable s /\ exists e, r = Err e.
Proof.
  intros Hi Hn Hr. unfold reindex_store in Hr.
  destruct (canonical_block_rows s) as [s1 rr] eqn:E. destruct (reading_read _ s _ _ E) as [Hd1 _].
  unfold mbind, stE_bind, from_store in Hr. rewrite E in Hr.
  destruct rr as [rows|e]; [|injection Hr as <- <-; by split; [|eexists]]. simpl in Hr.
  pose proof (canonical_block_rows_Ok _ _ _ Hi E) as ->.
  destruct (replay_canonical_rows _ _ _) as [l|e] eqn:Hc; [|injection Hr as <- <-; by split; [|eexists]].
  exfalso. apply Hn. unfold replay_canonical_rows in Hc.
  destruct (replay_rows _ _ _) as [l1 [[]|e]] eqn:Hl; [|done].
  apply replay_rows_decodes in Hl as (history & Hh & Hl%replay_finalized_blocks_Ok). by exists history, l1.
Qed.
End reindex.
