(* ===== verification/ApiFacts.v ===== *)
(** * What the explorer reads

    The reads of the API's handlers on a node whose disk works, while the node
    goes on between them: the tables mirror the chain at every read
    ([NodeExplorer]), and what is finalized stays. *)

From S2P Require Import Prelude Errors Crypto Transaction Block Commit Ledger LedgerFacts Replay ConsensusTypes Engine Sqlite Store StoreFacts NodeTypes Projection Recovery NodeState Node Api NodeCommands NodeSteps NodeChain NodeMempool NodeExplorer.

Section facts.
Context `{Blake3, Blake3Checksum, Ed25519, !SigningKeyBytes, Hex, Bech32, ChallengeJson, Libp2p,
          !Borsh UnsignedTransaction, !Borsh SignedTransaction, !Borsh BlockHeader, !Borsh Block,
          !Borsh StateCommitment, !Borsh CommitVote, !Borsh CommitCertificate,
          !Borsh SignableMessage, !Borsh SignedMessage, !Borsh SignedProposal,
          !Borsh FinalizedWireRecord, !Borsh ValidatorStatusMessage, !SerdeJson SafetyState}.
Context `{Base64, Chrono, ChallengeResponseJson}.
Context `{!BorshLaws Block, !BorshLaws CommitCertificate, !HexLaws, !Bech32Laws}.

(** ** A node that serves *)

(** The disk answers, and no transaction is open. *)
Definition disk_works (s : NodeActor) : Prop :=
  poisoned (na_store s) = false /\ faults (na_store s) = [] /\ idle (na_store s).

Definition serving (c : ChainId) (s : NodeActor) : Prop :=
  explorer_inv c s /\ disk_works s /\ disk_typed (durable (na_store s)).

(** What the node becomes, call by call. *)
Fixpoint goes_on (c : ChainId) (s : NodeActor) (later : list NodeActor) : Prop :=
  serving c s /\
  match later with
  | [] => True
  | s' :: later => rtc actor_step s s' /\ goes_on c s' later
  end.

Definition api_serving (c : ChainId) (s : ApiState) : Prop := goes_on c (api_node s) (api_later s).

Definition disk (s : ApiState) : Database := durable (na_store (api_node s)).

(** [row] is the stored row of [b] at height [h]. *)
Definition stored_block (db : Database) (h : Z) (row : BlockRow) (b : Block) (cert : CommitCertificate) : Prop :=
  blocks db !! h = Some row /\ row_of row (b, cert).

Lemma api_serving_node c s : api_serving c s -> serving c (api_node s).
Proof. unfold api_serving. destruct (api_later s); by intros []. Qed.

Lemma api_serving_advance c s : api_serving c s -> api_serving c (advance s).
Proof.
  unfold api_serving, advance. destruct (api_later s) as [|s' later] eqn:E; simpl; [by rewrite E|]. by intros (_ & _ & ?).
Qed.

Lemma advance_steps c s : api_serving c s -> rtc actor_step (api_node s) (api_node (advance s)).
Proof. unfold api_serving, advance. destruct (api_later s) as [|s' later]; [done|]. by intros (_ & ? & _). Qed.

Lemma stored_block_advance c s h row b cert :
  api_serving c s -> stored_block (disk s) h row b cert -> stored_block (disk (advance s)) h row b cert.
Proof.
  intros Hs [Hrow Hd]. split; [|done]. eapply steps_blocks; [by eapply advance_steps| |exact Hrow].
  apply (api_serving_node _ _ Hs).
Qed.

(** ** Reads *)

Lemma next_faults_idle (s : Store Database) : faults s = [] -> next_faults s = s.
Proof. by destruct s as [p f d w]; simpl; intros ->. Qed.

(** A read answers from the disk of the node as it is then, and nothing moves. *)
Lemma on_store_read {A} c (select : Database -> result SqliteError A) s :
  api_serving c s ->
  on_store (_ ← connection; query select) s =
  (advance s, map_err from_storage_error (map_err Sqlite (select (disk (advance s))))).
Proof.
  intros Hs%api_serving_advance%api_serving_node. unfold on_store, disk. cbv zeta.
  destruct Hs as (_ & (Hp & Hf & Hi) & _). set (s1 := advance s) in *.
  unfold mbind, stE_bind, connection. rewrite Hp. rewrite query_no_fault by done.
  rewrite (next_faults_idle _ Hf). unfold view. unfold idle in Hi. rewrite Hi. simpl. f_equal.
  destruct s1 as [n later running]. unfold set_node; simpl. f_equal. by destruct n.
Qed.

(** ** Blocks *)

Lemma row_of_decodes row b cert :
  row_of row (b, cert) -> block_decode (br_block_bytes row) = Ok b /\ certificate_decode (br_certificate_bytes row) = Ok cert.
Proof.
  intros [Hd _]. unfold decode_history_row in Hd. simpl in Hd.
  apply result_bind_Ok_inv in Hd as (b' & Hb & Hd). apply result_bind_Ok_inv in Hd as (c' & Hc & Hd). injection Hd as -> ->.
  done.
Qed.

Record row_shows (row : BlockRow) (b : Block) : Prop := {
  row_height : br_height row = bh_height (header b);
  row_hash : br_block_hash row = hash_to_string (block_hash b);
  row_parent : br_parent_hash row = hash_to_string (bh_parent_hash (header b));
  row_root : br_state_root row = hash_to_string (bh_state_root (header b));
  row_proposer : br_proposer row = hex_encode (as_bytes (bh_proposer (header b)));
  row_round : br_round row = bh_round (header b);
  row_timestamp : br_timestamp_ms row = bh_timestamp_ms (header b);
  row_count : br_transaction_count row = Z.of_nat (length (Block.transactions b))
}.

Lemma row_of_shows row b cert : row_of row (b, cert) -> row_shows row b.
Proof.
  intros [_ Ha]. unfold row_agrees in Ha. simpl in Ha.
  repeat match goal with Hx : _ && _ = true |- _ => apply andb_prop in Hx as [Hx ?] end.
  by split; first [by apply Z.eqb_eq|by eapply bool_decide_eq_true_1].
Qed.

Lemma block_row_reads db h row b cert :
  disk_typed db -> stored_block db h row b cert -> block_typed b /\ block_from_row row = Ok row.
Proof.
  intros Ht [Hrow Hof]. pose proof (Ht h row Hrow b cert (proj1 Hof)) as Hb. split; [done|].
  destruct (row_of_shows _ _ _ Hof), Hb as (((? & _) & (? & _) & _) & [? ?] & _).
  unfold block_from_row.
  rewrite (proj2 (from_sql_u64_Ok (br_height row) (br_height row))) by (split; [done|lia]). cbn [mbind result_bind].
  rewrite (proj2 (from_sql_u32_Ok (br_round row) (br_round row))) by (split; [done|unfold in_range; lia]). cbn [mbind result_bind].
  rewrite (proj2 (from_sql_u64_Ok (br_timestamp_ms row) (br_timestamp_ms row))) by (split; [done|lia]). cbn [mbind result_bind].
  rewrite (proj2 (from_sql_u64_Ok (br_transaction_count row) (br_transaction_count row))) by (split; [done|lia]). cbn [mbind result_bind].
  by destruct row.
Qed.

(** The rows of a chain are read back whole. *)
Lemma read_settled {A} (select : Database -> result SqliteError A) db :
  (_ ← connection; query select) (settled db) = (settled db, map_err Sqlite (select db)).
Proof. reflexivity. Qed.

Lemma rows_read db history :
  disk_typed db -> Forall2 row_of (blocks_ascending db) history ->
  canonical_block_rows (settled db) = (settled db, Ok (blocks_ascending db)).
Proof.
  intros Ht Hrows.
  assert (forall l, (forall row, row ∈ l -> block_from_row row = Ok row) -> try_collect block_from_row l = Ok l) as Hl.
  { intros l. induction l as [|row l IH]; intros Hall; [done|]. cbn [try_collect].
    rewrite (Hall row) by constructor. cbn [mbind result_bind]. rewrite IH; [done|]. intros r Hr. apply Hall. by constructor. }
  assert (try_collect block_from_row (blocks_ascending db) = Ok (blocks_ascending db)) as E.
  { apply Hl. intros row (i & Hi)%list_elem_of_lookup.
    destruct (Forall2_lookup_l _ _ _ _ _ Hrows Hi) as ([b cert] & _ & Hd).
    apply list_elem_of_lookup_2, elem_of_btree_values in Hi as [h Hh].
    by destruct (block_row_reads db h row b cert Ht (conj Hh Hd)). }
  unfold canonical_block_rows. by rewrite read_settled, E.
Qed.

(** The chain of a serving node. *)
Record chain_of (c : ChainId) (s : NodeActor) (history : list Block) : Prop := {
  chain_typed : Forall block_typed history;
  chain_ledger_ok : ledger_ok (na_ledger s);
  chain_mirrors : mirrors (durable (na_store s)) (na_ledger s) history;
  chain_blocks b : b ∈ history <-> exists h row cert, stored_block (durable (na_store s)) h row b cert;
  chain_keys h row : blocks (durable (na_store s)) !! h = Some row ->
    br_height row = h /\ h <= height (na_ledger s) /\ h <= i64_max /\ exists b cert, row_of row (b, cert)
}.

Lemma serving_chain c s : serving c s -> exists history, chain_of c s history.
Proof.
  intros ([_ [Hc Hm]] & _ & Ht). set (db := durable (na_store s)) in *.
  destruct (stored_history _ _ _ Hc) as (history & Hrows & Hrep).
  assert (forall i row bc, blocks_ascending db !! i = Some row -> history !! i = Some bc -> row_of row bc) as Hof
    by (intros i row bc; by eapply Forall2_lookup_lr).
  assert (forall row, row ∈ blocks_ascending db <-> exists h, blocks db !! h = Some row) as Hasc
    by (intros row; apply elem_of_btree_values).
  assert (Forall block_typed history.*1) as Htyped.
  { apply Forall_fmap, Forall_forall. intros [b cert] (i & Hi)%list_elem_of_lookup.
    destruct (Forall2_lookup_r _ _ _ _ _ Hrows Hi) as (row & Hrow & Hd).
    apply list_elem_of_lookup_2, Hasc in Hrow as [h Hh]. eapply (Ht h row Hh). apply Hd. }
  exists history.*1. split; [done| |by apply Hm| |].
  - eapply replay_ledger_ok; [exact Hrep|by apply typed_in_range].
  - intros b. split.
    + intros ([b' cert] & -> & (i & Hi)%list_elem_of_lookup)%list_elem_of_fmap.
      destruct (Forall2_lookup_r _ _ _ _ _ Hrows Hi) as (row & Hrow & Hd).
      apply list_elem_of_lookup_2, Hasc in Hrow as [h Hh]. by exists h, row, cert.
    + intros (h & row & cert & Hh & Hd).
      assert (row ∈ blocks_ascending db) as (i & Hi)%list_elem_of_lookup by (apply Hasc; by exists h).
      destruct (Forall2_lookup_l _ _ _ _ _ Hrows Hi) as ([b' cert'] & Hb' & Hd').
      destruct Hd as [Hd _], Hd' as [Hd' _]. rewrite Hd in Hd'. injection Hd' as -> ->.
      apply list_elem_of_fmap. exists (b', cert'). split; [done|]. by eapply list_elem_of_lookup_2.
  - intros h row Hrow. destruct (stored_keys _ _ _ Hc h row Hrow) as (Hh & Hle & Hi64). split_and!; [done..|].
    assert (row ∈ blocks_ascending db) as (i & Hi)%list_elem_of_lookup by (apply Hasc; by exists h).
    destruct (Forall2_lookup_l _ _ _ _ _ Hrows Hi) as ([b cert] & _ & Hd). by exists b, cert.
Qed.

(** ** Rows of transactions and accounts *)

Lemma reward_nonneg supply : 0 <= default 0 (reward_for_supply supply).
Proof.
  unfold reward_for_supply. destruct (Z.leb_spec MAX_SUPPLY_ATOMS supply); [done|]. cbv zeta.
  set (n := Z.to_nat _). cbn [from_option id]. set (r := default 0 (REWARDS_KCOIN !! n)).
  assert (0 <= r) as Hr.
  { subst r. destruct (REWARDS_KCOIN !! n) as [r|] eqn:E; simpl; [|lia]. apply list_elem_of_lookup_2 in E.
    assert (Forall (fun r => 0 <= r) REWARDS_KCOIN) as Hall by (repeat constructor; lia).
    by apply (proj1 (Forall_forall _ _) Hall). }
  assert (0 <= r * ATOMS_PER_KCOIN) by (apply Z.mul_nonneg_nonneg; done). clearbody r. clear n. destruct (Z.ltb_spec (r * ATOMS_PER_KCOIN) (MAX_SUPPLY_ATOMS - supply)); lia.
Qed.

Lemma transaction_row_reads b i t row :
  block_typed b -> Block.transactions b !! i = Some t -> describes b i t row -> transaction_from_row row = Ok row.
Proof.
  intros (((Hh & _) & _ & Htx) & _ & Hl) Ht Hd. pose proof (lookup_lt_Some _ _ _ Ht) as Hi.
  destruct (proj1 (Forall_forall _ _) Htx t (list_elem_of_lookup_2 _ _ _ Ht)) as ((Hn & _) & _ & Ha).
  destruct Hd as [_ Eh Ei _ En Eo].
  assert (0 <= tw_amount_atoms row) as Ham.
  { destruct (tx_action (unsigned t)); simpl in *; destruct Eo as (_ & _ & Eo).
    - rewrite Eo. apply Ha.
    - destruct Eo as [supply ->]. apply reward_nonneg.
    - by rewrite Eo. }
  unfold transaction_from_row.
  rewrite (proj2 (from_sql_u64_Ok (tw_block_height row) (tw_block_height row))) by (split; [done|lia]). cbn [mbind result_bind].
  rewrite (proj2 (from_sql_u32_Ok (tw_index row) (tw_index row))) by (split; [done|unfold in_range; lia]). cbn [mbind result_bind].
  rewrite (proj2 (from_sql_u64_Ok (tw_amount_atoms row) (tw_amount_atoms row))) by done. cbn [mbind result_bind].
  rewrite (proj2 (from_sql_u64_Ok (tw_nonce row) (tw_nonce row))) by (split; [done|lia]). cbn [mbind result_bind].
  by destruct row.
Qed.

Lemma account_row_reads c s history key :
  chain_of c s history ->
  optional_row account_from_row (accounts (durable (na_store s)) !! key) =
  Ok (aw_account <$> accounts (durable (na_store s)) !! key).
Proof.
  intros Hc. destruct (accounts _ !! key) as [row|] eqn:E; [|done].
  destruct (mirror_account_keys _ _ _ (chain_mirrors _ _ _ Hc) _ _ E) as (a & -> & [account Ha]).
  pose proof (mirror_accounts _ _ _ (chain_mirrors _ _ _ Hc) a) as Hm. rewrite Ha, E in Hm.
  destruct Hm as (Ea & Eb & En & Ed & Ec), (ok_accounts _ (chain_ledger_ok _ _ _ Hc) _ _ Ha) as [Hb [Hn _]]. simpl in *.
  unfold account_from_row.
  rewrite (proj2 (from_sql_u64_Ok (ap_balance_atoms (aw_account row)) (ap_balance_atoms (aw_account row)))) by (split; [done|lia]).
  cbn [mbind result_bind].
  rewrite (proj2 (from_sql_u64_Ok (ap_nonce (aw_account row)) (ap_nonce (aw_account row)))) by (split; [done|lia]).
  cbn [mbind result_bind].
  rewrite (proj2 (from_sql_u64_Ok (ap_transaction_count (aw_account row)) (ap_transaction_count (aw_account row)))) by done.
  cbn [mbind result_bind]. by destruct (aw_account row).
Qed.

(** ** The views *)

(** [e] shows the [i]-th transaction of the finalized block [b]. *)
Record serves_transaction (b : Block) (i : nat) (t : SignedTransaction) (e : ExplorerTransaction) : Prop := {
  serves_id : et_id e = hash_to_string (tx_id t);
  serves_status : et_status e = str "finalized";
  serves_sender : et_sender e = address_to_string (sender_address t);
  serves_nonce : et_nonce e = to_string (tx_nonce (unsigned t));
  serves_block_height : et_block_height e = to_string (bh_height (header b));
  serves_block_hash : et_block_hash e = hash_to_string (block_hash b);
  serves_timestamp : et_timestamp e = timestamp_iso (bh_timestamp_ms (header b));
  serves_action :
    match tx_action (unsigned t) with
    | Transfer recipient amount =>
        et_kind e = str "transfer" /\ et_recipient e = Some (address_to_string recipient) /\
        et_amount_atoms e = to_string amount
    | ClaimReward _ _ =>
        et_kind e = str "claim_reward" /\ et_recipient e = Some (et_sender e) /\
        exists supply, et_amount_atoms e = to_string (default 0 (reward_for_supply supply))
    | SetDisplayName name =>
        et_kind e = str "set_display_name" /\ et_recipient e = None /\ et_amount_atoms e = to_string 0 /\
        et_display_name e = name
    end
}.

(** [e] shows the block and its certificate, without or with its transactions. *)
Record serves_block (b : Block) (cert : CommitCertificate) (with_transactions : bool) (e : ExplorerBlock) : Prop := {
  serves_height : eb_height e = to_string (bh_height (header b));
  serves_hash : eb_hash e = hash_to_string (block_hash b);
  serves_parent : eb_parent_hash e = hash_to_string (bh_parent_hash (header b));
  serves_state_root : eb_state_root e = hash_to_string (bh_state_root (header b));
  serves_root : eb_transaction_root e = hash_to_string (bh_transactions_root (header b));
  serves_count : eb_transaction_count e = to_string (Z.of_nat (length (Block.transactions b)));
  serves_time : eb_timestamp e = timestamp_iso (bh_timestamp_ms (header b));
  serves_rounds : eb_round e = cc_round cert /\ eb_header_round e = bh_round (header b);
  serves_certificate : eb_certificate e = certificate_view cert;
  serves_signers : length (eb_signers e) = length (cc_signatures cert);
  serves_transactions :
    if with_transactions then
      exists l, eb_transactions e = Some l /\ length l = length (Block.transactions b) /\
        forall i t x, Block.transactions b !! i = Some t -> l !! i = Some x -> serves_transaction b i t x
    else eb_transactions e = None
}.

(** ** The handlers *)

(** The node only went on. *)
Definition onward (c : ChainId) (s s' : ApiState) : Prop :=
  api_serving c s -> api_serving c s' /\ rtc actor_step (api_node s) (api_node s').

#[export] Instance onward_preorder c : PreOrder (onward c).
Proof.
  split; [by intros s|]. intros s1 s2 s3 H12 H23 Hs. destruct (H12 Hs) as [Hs2 ?], (H23 Hs2) as [? ?].
  split; [done|]. by etrans.
Qed.

Lemma onward_advance c s : onward c s (advance s).
Proof. intros Hs. split; [by apply api_serving_advance|by eapply advance_steps]. Qed.

Lemma stored_block_onward c s s' h row b cert :
  onward c s s' -> api_serving c s -> stored_block (disk s) h row b cert -> stored_block (disk s') h row b cert.
Proof.
  intros Ho Hs [Hrow Hd]. destruct (Ho Hs) as [_ Hsteps]. split; [|done].
  eapply steps_blocks; [exact Hsteps|apply (api_serving_node _ _ Hs)|done].
Qed.

Lemma block_by_height_read c s h :
  api_serving c s -> h <= i64_max ->
  (forall row, blocks (disk (advance s)) !! h = Some row -> exists b cert, row_of row (b, cert)) ->
  on_store (block_by_height h) s = (advance s, Ok (blocks (disk (advance s)) !! h)).
Proof.
  intros Hs Hh Hrow. unfold block_by_height. rewrite (on_store_read c) by done.
  rewrite (proj2 (to_sql_u64_Ok h h)) by done. cbn [mbind result_bind].
  destruct (blocks (disk (advance s)) !! h) as [row|] eqn:E; [|done].
  destruct (Hrow row eq_refl) as (b & cert & Hd). simpl.
  destruct (api_serving_node _ _ (api_serving_advance _ _ Hs)) as (_ & _ & Ht).
  destruct (block_row_reads _ h row b cert Ht (conj E Hd)) as [_ ->]. done.
Qed.

Lemma serving_row c s h row :
  api_serving c s -> blocks (disk s) !! h = Some row -> exists b cert, stored_block (disk s) h row b cert.
Proof.
  intros Hs Hrow. destruct (serving_chain _ _ (api_serving_node _ _ Hs)) as [history Hc].
  destruct (chain_keys _ _ _ Hc h row Hrow) as (_ & _ & _ & b & cert & Hd). by exists b, cert.
Qed.

Lemma stored_block_typed c s h row b cert :
  api_serving c s -> stored_block (disk s) h row b cert -> block_typed b /\ h = bh_height (header b) /\ h <= i64_max.
Proof.
  intros Hs Hb. destruct (serving_chain _ _ (api_serving_node _ _ Hs)) as [history Hc].
  destruct (api_serving_node _ _ Hs) as (_ & _ & Ht). destruct (block_row_reads _ _ _ _ _ Ht Hb) as [? _]. split; [done|].
  destruct Hb as [Hrow Hd]. destruct (chain_keys _ _ _ Hc h row Hrow) as (<- & _ & ? & _). split; [|done]. by apply (row_of_shows _ _ _ Hd).
Qed.

Lemma explorer_transaction_serves c s h brow b cert i t row :
  api_serving c s -> stored_block (disk s) h brow b cert ->
  Block.transactions b !! i = Some t -> describes b i t row ->
  exists s' e, explorer_transaction row s = (s', Ok e) /\ serves_transaction b i t e /\ onward c s s'.
Proof.
  intros Hs Hb Ht Hd. destruct (stored_block_typed _ _ _ _ _ _ Hs Hb) as (Htyped & Hheight & Hh).
  pose proof (stored_block_advance _ _ _ _ _ _ Hs Hb) as [Hrow1 Hof]. pose proof (row_of_decodes _ _ _ Hof) as [Hdec _].
  pose proof (row_of_shows _ _ _ Hof) as Hshow. pose proof (api_serving_advance _ _ Hs) as Hs1.
  unfold explorer_transaction.
  rewrite (bind_run_Ok _ _ s (advance s) (Some brow)).
  2: { rewrite (describes_height _ _ _ _ Hd), <- Hheight. rewrite (block_by_height_read c), Hrow1; [done..|].
       intros row' Hr. destruct (serving_row _ _ _ _ Hs1 Hr) as (b' & cert' & [_ ?]). by exists b', cert'. }
  rewrite (bind_run_Ok (lift (ok_or (Some brow) _)) _ (advance s) (advance s) brow) by done.
  rewrite (bind_run_Ok _ _ (advance s) (advance s) b) by (by rewrite Hdec).
  rewrite (bind_run_Ok (lift (ok_or _ _)) _ (advance s) (advance s) t).
  2: { rewrite (describes_index _ _ _ _ Hd), Nat2Z.id, Ht. cbn [mbind option_bind].
       by rewrite bool_decide_eq_true_2 by by rewrite (describes_id _ _ _ _ Hd). }
  assert (exists s' name, (match tx_action (unsigned t) with
    | SetDisplayName display_name => mret display_name
    | _ => account ← on_store (Store.account (tw_sender row)); mret (account ≫= ap_display_name)
    end) (advance s) = (s', Ok name) /\ onward c s s' /\
    (forall d, tx_action (unsigned t) = SetDisplayName d -> name = d)) as (s' & name & Hname & Hon & Hset).
  { destruct (tx_action (unsigned t)) as [r a|x a|d] eqn:Ha; [| |exists (advance s), d; split_and!; [done|apply onward_advance|by intros ? [= ->]]].
    all: destruct (serving_chain _ _ (api_serving_node _ _ (api_serving_advance _ _ Hs1))) as [history Hc];
      unfold Store.account; rewrite (bind_run_Ok _ _ (advance s) (advance (advance s)) (aw_account <$> accounts (disk (advance (advance s))) !! tw_sender row));
      [eexists _, _; split_and!; [done|by etrans; apply onward_advance|done]|];
      rewrite (on_store_read c) by done; unfold disk; by rewrite (account_row_reads _ _ _ _ Hc). }
  rewrite (bind_run_Ok _ _ (advance s) s' name) by exact Hname. eexists s', _. split; [done|]. split; [|done].
  destruct Hshow, Hd as [Eid Eh Ei Es En Eo].
  split; simpl; rewrite ?Eid, ?Eh, ?Es, ?En, ?row_hash0, ?row_timestamp0; try done.
  destruct (tx_action (unsigned t)) eqn:Ha; destruct Eo as (-> & Er & Eamt); rewrite Er, ?Eamt, ?Es; [done| |by rewrite (Hset _ eq_refl)].
  split_and!; [done..|]. destruct Eamt as [supply ->]. by exists supply.
Qed.

(** The transactions of a block, each through its row. *)
Lemma block_transactions_serve c s h brow b cert txs k :
  api_serving c s -> stored_block (disk s) h brow b cert -> txs = drop k (Block.transactions b) ->
  exists s' l, block_explorer_transactions txs s = (s', Ok l) /\ onward c s s' /\ length l = length txs /\
    forall i t x, txs !! i = Some t -> l !! i = Some x -> serves_transaction b (k + i) t x.
Proof.
  revert k s. induction txs as [|t txs IH]; intros k s Hs Hb Htxs.
  { exists s, []. split_and!; [done..|]. by intros i t x ?%list_elem_of_lookup_2%elem_of_nil. }
  pose proof (stored_block_advance _ _ _ _ _ _ Hs Hb) as Hb1. pose proof (api_serving_advance _ _ Hs) as Hs1.
  assert (Block.transactions b !! k = Some t) as Hk.
  { rewrite <- (Nat.add_0_r k), <- lookup_drop, <- Htxs. done. }
  destruct (serving_chain _ _ (api_serving_node _ _ Hs1)) as [history Hc].
  assert (b ∈ history) as Hin by (apply (chain_blocks _ _ _ Hc); by exists h, brow, cert).
  destruct (mirror_complete _ _ _ (chain_mirrors _ _ _ Hc) b k t Hin Hk) as (row & Hrow & Hd).
  destruct (stored_block_typed _ _ _ _ _ _ Hs Hb) as (Htyped & _).
  cbn [block_explorer_transactions].
  rewrite (bind_run_Ok _ _ s (advance s) (Some row)).
  2: { unfold Store.transaction. rewrite (on_store_read c) by done. unfold disk. rewrite Hrow. simpl.
       by rewrite (transaction_row_reads _ _ _ _ Htyped Hk Hd). }
  rewrite (bind_run_Ok (lift (ok_or (Some row) _)) _ (advance s) (advance s) row) by done.
  destruct (explorer_transaction_serves _ _ _ _ _ _ _ _ _ Hs1 Hb1 Hk Hd) as (s2 & x & Hrun & Hx & Ho).
  rewrite (bind_run_Ok _ _ _ _ _ Hrun). destruct (Ho Hs1) as [Hs2 _].
  destruct (IH (S k) s2 Hs2 (stored_block_onward _ _ _ _ _ _ _ Ho Hs1 Hb1)) as (s' & l & Hl & Ho' & Hlen & Hall).
  { rewrite <- (Nat.add_1_r k), <- drop_drop, <- Htxs. done. }
  rewrite (bind_run_Ok _ _ _ _ _ Hl). exists s', (x :: l). split_and!; [done| |by simpl; rewrite Hlen|].
  - etrans; [apply onward_advance|by etrans].
  - intros [|i] t' x' Ht' Hx'; simpl in *; [simplify_eq; by rewrite Nat.add_0_r|].
    rewrite <- Nat.add_succ_comm. by eapply Hall.
Qed.

Lemma explorer_block_serves c s h row b cert (all : bool) :
  api_serving c s -> stored_block (disk s) h row b cert ->
  exists s' e, explorer_block row all s = (s', Ok e) /\ serves_block b cert all e /\ onward c s s'.
Proof.
  intros Hs Hb. destruct (row_of_decodes _ _ _ (proj2 Hb)) as [Hdb Hdc].
  unfold explorer_block. rewrite (bind_run_Ok _ _ s s b) by (by rewrite Hdb).
  rewrite (bind_run_Ok _ _ s s cert) by (by rewrite Hdc).
  rewrite (bind_run_Ok snapshot _ s (advance s) (na_snapshot (api_node (advance s)))) by done.
  pose proof (stored_block_advance _ _ _ _ _ _ Hs Hb) as Hb1. pose proof (api_serving_advance _ _ Hs) as Hs1.
  assert (exists s' txs, (if all then transactions ← block_explorer_transactions (Block.transactions b); mret (Some transactions)
     else mret None) (advance s) = (s', Ok txs) /\ onward c s s' /\
     if all then exists l, txs = Some l /\ length l = length (Block.transactions b) /\
        forall i t x, Block.transactions b !! i = Some t -> l !! i = Some x -> serves_transaction b i t x
     else txs = None) as (s' & txs & Hrun & Ho & Htxs).
  { destruct all; [|exists (advance s), None; split_and!; [done|apply onward_advance|done]].
    destruct (block_transactions_serve _ _ _ _ _ _ (Block.transactions b) 0 Hs1 Hb1 eq_refl) as (s' & l & Hl & Ho & Hlen & Hall).
    rewrite (bind_run_Ok _ _ _ _ _ Hl). eexists s', _. split_and!; [done|etrans; [apply onward_advance|done]|].
    by exists l. }
  rewrite (bind_run_Ok _ _ _ _ _ Hrun). eexists s', _. split_and!; [done| |done].
  destruct (row_of_shows _ _ _ (proj2 Hb)).
  split; simpl; rewrite ?row_height0, ?row_hash0, ?row_parent0, ?row_root0, ?row_round0, ?row_timestamp0; try done.
  by rewrite length_fmap.
Qed.

Lemma explorer_blocks_serve c s rows :
  api_serving c s -> (forall row, row ∈ rows -> exists h b cert, stored_block (disk s) h row b cert) ->
  exists s' l, explorer_blocks rows s = (s', Ok l) /\ onward c s s' /\
    Forall2 (fun row e => exists b cert, row_of row (b, cert) /\ serves_block b cert false e) rows l.
Proof.
  revert s. induction rows as [|row rows IH]; intros s Hs Hrows; [by exists s, []|].
  destruct (Hrows row) as (h & b & cert & Hb); [set_solver|].
  destruct (explorer_block_serves c s h row b cert false Hs Hb) as (s1 & e & Hrun & He & Ho).
  cbn [explorer_blocks]. rewrite (bind_run_Ok _ _ _ _ _ Hrun). destruct (Ho Hs) as [Hs1 _].
  destruct (IH s1 Hs1) as (s' & l & Hl & Ho' & Hall).
  { intros row' Hin. destruct (Hrows row') as (h' & b' & cert' & Hb'); [set_solver|].
    exists h', b', cert'. by eapply stored_block_onward. }
  rewrite (bind_run_Ok _ _ _ _ _ Hl). exists s', (e :: l). split_and!; [done|by etrans|].
  constructor; [|done]. exists b, cert. split; [apply Hb|done].
Qed.

Lemma explorer_rows_serve c s rows :
  api_serving c s ->
  (forall row, row ∈ rows -> exists h brow b cert i t, stored_block (disk s) h brow b cert /\
     Block.transactions b !! i = Some t /\ describes b i t row) ->
  exists s' l, explorer_rows rows s = (s', Ok l) /\ onward c s s' /\
    Forall2 (fun row e => exists b i t, Block.transactions b !! i = Some t /\ describes b i t row /\ serves_transaction b i t e) rows l.
Proof.
  revert s. induction rows as [|row rows IH]; intros s Hs Hrows; [by exists s, []|].
  destruct (Hrows row) as (h & brow & b & cert & i & t & Hb & Ht & Hd); [set_solver|].
  destruct (explorer_transaction_serves _ _ _ _ _ _ _ _ _ Hs Hb Ht Hd) as (s1 & e & Hrun & He & Ho).
  cbn [explorer_rows]. rewrite (bind_run_Ok _ _ _ _ _ Hrun). destruct (Ho Hs) as [Hs1 _].
  destruct (IH s1 Hs1) as (s' & l & Hl & Ho' & Hall).
  { intros row' Hin. destruct (Hrows row') as (h' & brow' & b' & cert' & i' & t' & Hb' & ?); [set_solver|].
    exists h', brow', b', cert', i', t'. split; [by eapply stored_block_onward|done]. }
  rewrite (bind_run_Ok _ _ _ _ _ Hl). exists s', (e :: l). split_and!; [done|by etrans|].
  constructor; [|done]. by exists b, i, t.
Qed.
End facts.
