(* ===== verification/NodeCommit.v ===== *)
(** * Committing a finalized block succeeds

    On a disk that works, a block the ledger accepts is projected, stored and
    taken over: [commit_finalized] cannot fail as long as the numbers fit SQL's
    integers, which fewer than 2^63 transactions guarantee. *)

From S2P Require Import Prelude Errors Crypto Transaction Block Commit Ledger LedgerFacts Replay ConsensusTypes Engine Sqlite Store StoreFacts NodeTypes Projection Recovery NodeState Node NodeCommands NodeSteps NodeChain NodeStart NodeMempool NodeExplorer NodeReindex ApiFacts.

Section commit.
Context `{Blake3, Blake3Checksum, Ed25519, !SigningKeyBytes, Hex, Bech32, ChallengeJson, Libp2p,
          !Borsh UnsignedTransaction, !Borsh SignedTransaction, !Borsh BlockHeader, !Borsh Block,
          !Borsh StateCommitment, !Borsh CommitVote, !Borsh CommitCertificate,
          !Borsh SignableMessage, !Borsh SignedMessage, !Borsh SignedProposal,
          !Borsh FinalizedWireRecord, !Borsh ValidatorStatusMessage, !SerdeJson SafetyState}.
Context `{!BorshLaws Block, !BorshLaws CommitCertificate, !HexLaws, !Bech32Laws}.

(** ** Heights *)

Lemma apply_finalized_blocks_height history validators s s' :
  apply_finalized_blocks history validators s = (s', Ok ()) -> height s' = height s + Z.of_nat (length history).
Proof.
  revert s. induction history as [|[b c] history IH]; intros s; cbn [apply_finalized_blocks length].
  - intros [= ->]. lia.
  - intros (s1 & rs & Hb & Hr)%bind_Ok_inv. apply apply_finalized_block_Ok in Hb as (_ & _ & _ & _ & Hh & _).
    apply IH in Hr. lia.
Qed.

Lemma replayed_height c history validators ledger :
  replay_finalized_blocks c history validators = Ok ledger -> height ledger = Z.of_nat (length history).
Proof. intros Hr%replay_finalized_blocks_Ok%apply_finalized_blocks_height. done. Qed.

(** The last block is the tip of the replayed ledger. *)
Lemma replayed_tip c history b cert ledger :
  Forall block_typed (history ++ [(b, cert)]).*1 ->
  replay_finalized_blocks c (history ++ [(b, cert)]) dev_validators = Ok ledger ->
  height ledger = bh_height (header b) /\ tip_hash ledger = block_hash b /\
  state_root ledger = bh_state_root (header b).
Proof.
  intros Ht%typed_in_range [_ Hr]%replay_finalized_blocks_Ok%apply_finalized_blocks_Ok.
  apply apply_blocks_Ok_inv in Hr as [Hv ->]; [|apply ledger_new_ok|done].
  rewrite fmap_app in *. simpl in *. apply blocks_valid_snoc in Hv as [_ Hv]. rewrite blocks_post_snoc.
  split_and!; [done|done|]. symmetry. apply (valid_state_root _ _ Hv).
Qed.

(** ** Counts of transactions *)

Definition activity_of (key : ustring) (activity : gmap ustring Z) : Z := default 0 (activity !! key).

Lemma count_activity_of key key' activity :
  activity_of key (count_activity key' activity) = activity_of key activity + (if decide (key = key') then 1 else 0).
Proof.
  unfold activity_of, count_activity. destruct (decide (key = key')) as [->|Hne].
  - by rewrite lookup_insert_eq.
  - rewrite lookup_insert_ne by done. lia.
Qed.

(** A transaction counts at most once for an address. *)
Lemma transaction_activity_of key activity tx :
  activity_of key (transaction_activity activity tx) <= activity_of key activity + 1.
Proof.
  unfold transaction_activity. destruct (tp_recipient tx) as [recipient|]; [case_bool_decide as Hne|];
    rewrite !count_activity_of; repeat case_decide; subst; (done || lia).
Qed.

Lemma block_activity_of key txs : activity_of key (block_activity txs) <= Z.of_nat (length txs).
Proof.
  assert (forall m, activity_of key (foldl transaction_activity m txs) <= activity_of key m + Z.of_nat (length txs)) as Hm.
  { induction txs as [|tx txs IH]; intros m; simpl; [lia|].
    specialize (IH (transaction_activity m tx)). pose proof (transaction_activity_of key m tx). lia. }
  exact (Hm ∅).
Qed.

(** No account is counted in more than [k] transactions. *)
Definition counts_within (k : Z) (db : Database) : Prop :=
  0 <= k /\ map_Forall (fun _ row => ap_transaction_count (aw_account row) <= k) (accounts db).

Lemma existing_count_settled k address db :
  counts_within k db -> exists n, existing_count address (settled db) = (settled db, Ok n) /\ n <= k.
Proof.
  intros [Hk Hall]. unfold existing_count, Store.account. rewrite read_settled. eexists. split; [reflexivity|].
  destruct (accounts db !! address) as [row|] eqn:E; simpl; [|done]. specialize (Hall _ _ E). simpl in Hall.
  destruct (account_from_row row) as [a|] eqn:Ea; simpl; [|done]. unfold account_from_row in Ea.
  repeat (apply result_bind_Ok_inv in Ea as (? & [-> ?]%from_sql_u64_Ok & Ea)). by injection Ea as <-.
Qed.

Lemma project_accounts_settled k n activity entries db :
  counts_within k db -> (forall key, activity_of key activity <= n) ->
  exists l, project_accounts activity entries (settled db) = (settled db, Ok l) /\
    Forall (fun a => ap_transaction_count a <= k + n) l.
Proof.
  intros Hk Hn. induction entries as [|[a account] entries (l & E & Hl)]; [by exists []|]. cbn [project_accounts].
  destruct (existing_count_settled k (address_to_string a) db Hk) as (c & Ec & Hc).
  rewrite (bind_run_Ok _ _ _ _ _ Ec), (bind_run_Ok _ _ _ _ _ E). eexists. split; [reflexivity|].
  constructor; [|done]. simpl. specialize (Hn (address_to_string a)). unfold activity_of in Hn. lia.
Qed.

(** ** The projection *)

Lemma find_challenge_height_Ok id rows history :
  Forall2 row_of rows history -> exists h, find_challenge_height id rows = Ok h.
Proof.
  induction 1 as [|row [b c] rows history [Hd _] _ (h & IH)]; [by eexists|]. cbn [find_challenge_height].
  unfold decode_history_row in Hd. apply result_bind_Ok_inv in Hd as (b' & -> & _).
  cbn [from_protocol with_context map_err mbind result_bind]. destruct (existsb _ _); [by eexists|]. by exists h.
Qed.

Lemma issued_height_settled id db history :
  disk_typed db -> Forall2 row_of (blocks_ascending db) history ->
  exists h, canonical_challenge_issued_height id (settled db) = (settled db, Ok h).
Proof.
  intros Ht Hrows. unfold canonical_challenge_issued_height. destruct (id =? 0); [by eexists|].
  rewrite (bind_run_Ok (from_store canonical_block_rows) _ (settled db) (settled db) (blocks_ascending db))
    by (unfold from_store; by rewrite (rows_read db history Ht Hrows)).
  destruct (find_challenge_height_Ok id (reverse (blocks_ascending db)) (reverse history)) as [h Hh].
  { by apply Forall2_reverse. }
  exists h. unfold lift. by rewrite Hh.
Qed.

Lemma build_projection_settled k candidate block certificate receipts db history :
  disk_typed db -> Forall2 row_of (blocks_ascending db) history -> counts_within k db ->
  exists p, build_projection candidate block certificate receipts (settled db) = (settled db, Ok p) /\
    Forall (fun a => ap_transaction_count a <= k + Z.of_nat (length receipts)) (fp_changed_accounts p).
Proof.
  intros Ht Hrows Hk. unfold build_projection. cbv zeta.
  destruct (project_accounts_settled k (Z.of_nat (length receipts)) (block_activity (project_transactions receipts))
    (account_entries_of candidate) db Hk) as (accounts & Ea & Hl).
  { intros key. pose proof (block_activity_of key (project_transactions receipts)) as Hb.
    unfold project_transactions in Hb at 2. by rewrite length_imap in Hb. }
  rewrite (bind_run_Ok _ _ _ _ _ Ea).
  rewrite (bind_run_Ok (from_store _) _ (settled db) (settled db) (metadata db !! str "challenge")) by done.
  destruct (issued_height_settled (ch_id (current_challenge candidate)) db history Ht Hrows) as [h Eh].
  match goal with |- context [mbind ?f ?issued] => assert (exists x, issued (settled db) = (settled db, Ok x)) as [x Ex] end.
  { destruct (existsb _ _); [by eexists|]. destruct (previous_issued_height _ _); [by eexists|].
    rewrite (bind_run_Ok _ _ _ _ _ Eh). by eexists. }
  rewrite (bind_run_Ok _ _ _ _ _ Ex). by eexists.
Qed.

(** ** The numbers fit *)

Definition executed_count (ledger : LedgerState) : Z := Z.of_nat (size (applied_transactions ledger)).

Lemma nonce_le_executed ledger a :
  ledger_ok ledger -> next_nonce (account_or_default ledger a) <= executed_count ledger.
Proof.
  intros Hok. unfold executed_count. rewrite <- (ok_nonces _ Hok). apply sum_accounts_lookup; [done|].
  eapply map_Forall_impl; [apply (ok_accounts _ Hok)|]. by intros ? ? [? [? _]].
Qed.

Lemma executed_count_post s txs : executed_count s <= executed_count (txs_post s txs).
Proof.
  unfold executed_count. apply inj_le, subseteq_size. rewrite txs_post_applied. set_solver.
Qed.

(** A fresh block adds its transactions. *)
Lemma executed_count_txs s txs h :
  txs_valid s txs h -> executed_count (txs_post s txs) = executed_count s + Z.of_nat (length txs).
Proof.
  intros [Hnd Hf]%txs_valid_fresh. unfold executed_count. rewrite txs_post_applied, size_union, size_list_to_set by done ||
    (apply elem_of_disjoint; intros id (t & -> & Ht)%elem_of_list_to_set%list_elem_of_fmap;
     by apply (proj1 (Forall_forall _ _) Hf)).
  rewrite length_fmap. lia.
Qed.

Lemma length_txs_receipts s txs : length (txs_receipts s txs) = length txs.
Proof. revert s. induction txs as [|t txs IH]; intros s; simpl; [done|]. by rewrite IH. Qed.

Definition small_receipt (r : TransactionReceipt) : Prop :=
  forall i, tp_amount_atoms (project_transaction i r) <= i64_max /\ tp_nonce (project_transaction i r) <= i64_max.

Lemma tx_receipt_small s t h :
  ledger_ok s -> tx_valid s t h -> executed_count s <= i64_max -> small_receipt (tx_receipt s t).
Proof.
  intros Hok Hv Hc i. pose proof (ledger_ok_supply_range s Hok) as Hsup.
  pose proof (nonce_le_executed s (sender_address t) Hok) as Hn. rewrite <- (valid_nonce _ _ _ Hv) in Hn.
  pose proof (valid_action _ _ _ Hv) as Ha. unfold project_transaction, tx_receipt, tx_outcome. simpl.
  destruct (tx_action (unsigned t)) as [r amount|c a|d]; simpl in *.
  - pose proof (ledger_ok_balance_le s Hok (sender_address t)).
    assert (MAX_SUPPLY_ATOMS <= i64_max) by done. split; lia.
  - destruct Ha as (_ & _ & reward & Hr & _). rewrite Hr. simpl.
    apply reward_for_supply_Some in Hr as [_ Hr]; [|lia]. assert (MAX_SUPPLY_ATOMS <= i64_max) by done. split; lia.
  - split; [done|lia].
Qed.

Lemma txs_receipts_small s txs h :
  ledger_ok s -> Forall transaction_in_range txs -> txs_valid s txs h -> executed_count (txs_post s txs) <= i64_max ->
  Forall small_receipt (txs_receipts s txs).
Proof.
  intros Hok Hr. revert s Hok. induction Hr as [|t txs Ht _ IH]; intros s Hok; simpl; [constructor|].
  intros [Hv Hvs] Hc. pose proof (executed_count_post s (t :: txs)) as Hle. simpl in Hle. constructor.
  - eapply tx_receipt_small; [done|done|lia].
  - apply IH; [by eapply tx_post_ok|done..].
Qed.

Lemma project_transactions_small receipts :
  Forall small_receipt receipts ->
  Forall (fun tx => tp_amount_atoms tx <= i64_max /\ tp_nonce tx <= i64_max) (project_transactions receipts).
Proof.
  intros Hs. apply Forall_forall. intros tx Htx. unfold project_transactions in Htx.
  apply elem_of_lookup_imap in Htx as (i & r & -> & Hr). by apply (Forall_lookup_1 _ _ _ _ Hs Hr).
Qed.

(** Positions in a block are distinct. *)
Lemma project_transactions_positions receipts :
  Z.of_nat (length receipts) <= u32_max -> NoDup (tp_index <$> project_transactions receipts).
Proof.
  intros Hl. apply NoDup_alt. intros i j x Hi Hj. unfold project_transactions in *.
  rewrite list_lookup_fmap, list_lookup_imap in Hi, Hj.
  destruct (receipts !! i) as [r|] eqn:Ei; [|done]. destruct (receipts !! j) as [r'|] eqn:Ej; [|done].
  simpl in Hi, Hj. injection Hi as Hi. injection Hj as Hj.
  apply lookup_lt_Some in Ei, Ej. unfold project_transaction in Hi, Hj.
  destruct (match tr_outcome r with OutcomeTransfer _ _ => _ | RewardClaimed _ _ => _ | DisplayNameUpdated _ => _ end) as [[??]?].
  destruct (match tr_outcome r' with OutcomeTransfer _ _ => _ | RewardClaimed _ _ => _ | DisplayNameUpdated _ => _ end) as [[??]?].
  simpl in Hi, Hj. rewrite wrap_small in Hi, Hj by (unfold in_range; lia). lia.
Qed.

Lemma block_post_executed ledger b :
  block_valid ledger b ->
  executed_count (block_post ledger b) = executed_count ledger + Z.of_nat (length (Block.transactions b)).
Proof. intros Hv. exact (executed_count_txs _ _ _ (valid_transactions _ _ Hv)). Qed.

Lemma projection_fits k ledger b certificate p :
  ledger_ok ledger -> block_typed b -> block_valid ledger b -> projects b certificate p ->
  derives (block_post ledger b) (txs_receipts ledger (Block.transactions b)) p ->
  bh_height (header b) <= i64_max -> executed_count (block_post ledger b) <= i64_max -> k <= i64_max ->
  Forall (fun a => ap_transaction_count a <= k) (fp_changed_accounts p) -> fits p.
Proof.
  intros Hok Hb Hv Hp Hder Hh Hx Hk Hcounts.
  assert (ledger_ok (block_post ledger b)) as Hok' by (apply block_post_ok; [done|apply Hb|done]).
  destruct (valid_timestamp _ _ Hv) as [Hts _]. assert (MAX_BLOCK_TIMESTAMP_MS <= i64_max) by done.
  unfold fits. rewrite (projects_height _ _ _ Hp), (projects_timestamp _ _ _ Hp), (derives_transactions _ _ _ Hder).
  split_and!; [done|lia| | |].
  - rewrite <- (derives_transactions _ _ _ Hder), (derives_length _ _ _ Hder), length_txs_receipts.
    destruct Hb as (_ & _ & ?). assert (u32_max <= i64_max) by done. lia.
  - apply project_transactions_small. eapply txs_receipts_small; [done|apply Hb|apply (valid_transactions _ _ Hv)|done].
  - apply Forall_forall. intros x (i & Hi)%list_elem_of_lookup.
    destruct (Forall2_lookup_r _ _ _ _ _ (derives_accounts _ _ _ Hder) Hi) as ([a account] & Ha & _ & Hbal & Hn & _ & _).
    apply list_elem_of_lookup_2, elem_of_btree_entries in Ha. simpl in Hbal, Hn.
    assert (account_or_default (block_post ledger b) a = account) as Hacc by (unfold account_or_default; by rewrite Ha).
    pose proof (ledger_ok_balance_le _ Hok' a) as Hle1. pose proof (nonce_le_executed _ a Hok') as Hle2.
    pose proof (ledger_ok_supply_range _ Hok'). assert (MAX_SUPPLY_ATOMS <= i64_max) by done. rewrite Hacc in Hle1, Hle2.
    pose proof (Forall_lookup_1 _ _ _ _ Hcounts Hi). simpl in *. split_and!; lia.
Qed.

(** ** The next block finds its place *)

Lemma history_heights c db ledger history b :
  stores_chain c db ledger -> Forall2 row_of (blocks_ascending db) history -> b ∈ history.*1 ->
  bh_height (header b) <= height ledger.
Proof.
  intros Hc Hrows ([b' cert] & -> & (i & Hi)%list_elem_of_lookup)%list_elem_of_fmap.
  destruct (Forall2_lookup_r _ _ _ _ _ Hrows Hi) as (row & Hrow & Hof).
  apply list_elem_of_lookup_2, elem_of_btree_values in Hrow as [h Hh].
  destruct (stored_keys _ _ _ Hc _ _ Hh) as (Hk & Hle & _). simpl in *. rewrite <- (row_height _ _ (row_of_shows _ _ _ Hof)). lia.
Qed.

Lemma next_block_placed c db ledger history b certificate p :
  stores_explorer c db ledger -> Forall2 row_of (blocks_ascending db) history -> Forall block_typed history.*1 ->
  block_typed b -> block_valid ledger b -> projects b certificate p ->
  derives (block_post ledger b) (txs_receipts ledger (Block.transactions b)) p ->
  (forall h row, blocks db !! h = Some row -> br_block_hash row <> hash_to_string (block_hash b)) ->
  agrees p db /\ positions_free p db.
Proof.
  intros [Hc Hm] Hrows Ht Hb Hv Hp Hder Hfresh. specialize (Hm history Hrows Ht).
  pose proof (valid_height _ _ Hv) as Hnext. pose proof (projects_height _ _ _ Hp) as Hh. split.
  - unfold agrees. rewrite Hh. destruct (blocks db !! _) as [row|] eqn:E.
    + destruct (stored_keys _ _ _ Hc _ _ E) as (_ & Hle & _). lia.
    + apply bool_decide_eq_false. intros (h & row & Hrow & _ & Heq). apply (Hfresh h row Hrow).
      by rewrite Heq, (projects_hash _ _ _ Hp).
  - split.
    + rewrite (derives_transactions _ _ _ Hder). apply project_transactions_positions.
      rewrite length_txs_receipts. apply Hb.
    + intros id row Hrow. destruct (mirror_sound _ _ _ Hm _ _ Hrow) as (b' & i & t & Hin & _ & _ & Hd).
      rewrite (describes_height _ _ _ _ Hd), Hh, Hnext. pose proof (history_heights _ _ _ _ _ Hc Hrows Hin). lia.
Qed.

(** ** Bookkeeping never fails *)

(** What is left alone while the snapshot, the clocks, the mempool, the
    telemetry, the engine and the outbox change. *)
Record frame (s s' : NodeActor) : Prop := {
  frame_identity : na_identity s' = na_identity s;
  frame_ledger : na_ledger s' = na_ledger s;
  frame_store : na_store s' = na_store s;
  frame_halted : na_halted s' = na_halted s;
  frame_target : na_sync_target s' = na_sync_target s;
  frame_peer : na_sync_peer s' = na_sync_peer s;
  frame_request : na_sync_request_id s' = na_sync_request_id s;
  frame_requests : env_requests (na_env s') = env_requests (na_env s);
  frame_responses : env_responses (na_env s') = env_responses (na_env s)
}.

#[export] Instance frame_preorder : PreOrder frame.
Proof. split; [by split|]. intros s1 s2 s3 [] []. split; congruence. Qed.

Definition calm {E A} (m : stE NodeActor E A) : Prop :=
  forall s, exists s' a, m s = (s', Ok a) /\ frame s s'.

Lemma calm_ret {E A} (a : A) : calm (E := E) (mret a).
Proof. intros s. by exists s, a. Qed.

Lemma calm_bind {E A B} (m : stE NodeActor E A) (f : A -> stE NodeActor E B) :
  calm m -> (forall a, calm (f a)) -> calm (m ≫= f).
Proof.
  intros Hm Hf s. destruct (Hm s) as (s1 & a & E1 & F1). destruct (Hf a s1) as (s2 & b & E2 & F2).
  exists s2, b. rewrite (bind_run_Ok _ _ _ _ _ E1). split; [done|by etrans].
Qed.

Lemma calm_get {E B} (f : NodeActor -> stE NodeActor E B) : (forall self, calm (f self)) -> calm (get ≫= f).
Proof. intros Hf s. apply (Hf s). Qed.

Lemma calm_modify {E} g : (forall s, frame s (g s)) -> calm (E := E) (modify g).
Proof. intros Hg s. by exists (g s), tt. Qed.

Lemma calm_unix {E} : calm (E := E) unix_timestamp_ms.
Proof. intros s. eexists _, _. split; [reflexivity|]. by split. Qed.

Lemma calm_instant {E} : calm (E := E) instant_now.
Proof. intros s. eexists _, _. split; [reflexivity|]. by split. Qed.

Lemma calm_emit {E} o : calm (E := E) (emit o).
Proof. apply calm_modify. by split. Qed.

Lemma calm_publish {E} : calm (E := E) publish_snapshot.
Proof.
  apply calm_bind; [apply calm_unix|]. intros now. apply calm_bind; [apply calm_modify; by split|]. intros _.
  apply calm_get. intros self. apply calm_emit.
Qed.

Lemma calm_note {E} validator height phase : calm (E := E) (note_validator_activity validator height phase).
Proof. apply calm_bind; [apply calm_unix|]. intros now. apply calm_modify. by split. Qed.

Lemma calm_note_signers {E} signatures height : calm (E := E) (note_signers signatures height).
Proof.
  induction signatures as [|sig signatures IH]; [apply calm_ret|]. apply calm_bind; [apply calm_note|]. intros _. apply IH.
Qed.

Lemma calm_emit_transactions {E} txs : calm (E := E) (emit_transactions txs).
Proof. induction txs as [|t txs IH]; [apply calm_ret|]. apply calm_bind; [apply calm_emit|]. intros _. apply IH. Qed.

Lemma calm_revalidate {E} : calm (E := E) revalidate_mempool.
Proof. apply calm_get. intros self. apply calm_modify. by split. Qed.

#[local] Hint Resolve calm_ret calm_unix calm_instant calm_emit calm_publish calm_note_signers
  calm_emit_transactions calm_revalidate : calm.

(** ** [commit_finalized] *)

(** The end of [commit_finalized], once the block is stored. *)
Definition after_commit (block : Block) (certificate : CommitCertificate) (candidate : LedgerState) (before : Z) :
    stE NodeActor AnyError () :=
  _ ← modify (set_ledger candidate);
  _ ← revalidate_mempool;
  after ← instant_now;
  now ← instant_now;
  _ ← modify (set_last_block now (Z.max ((after - before) / 10 ^ 6) 1));
  _ ← note_signers (cc_signatures certificate) (bh_height (header block));
  _ ← publish_snapshot;
  _ ← emit (ApiEvent (str "finalized_block") (hash_to_string (block_hash block)));
  _ ← emit_transactions (Block.transactions block);
  mret ().

Lemma after_commit_runs block certificate candidate before s :
  exists s', after_commit block certificate candidate before s = (s', Ok ()) /\ frame (set_ledger candidate s) s'.
Proof.
  unfold after_commit. rewrite (bind_run_Ok (modify (set_ledger candidate)) _ s (set_ledger candidate s) tt) by done.
  match goal with |- context [?m (set_ledger candidate s)] => assert (calm m) as Hm end.
  { repeat (apply calm_bind; [auto with calm; apply calm_modify; by split|intros ?]). auto with calm. }
  destruct (Hm (set_ledger candidate s)) as (s' & [] & E & F). by exists s'.
Qed.

(** ** A disk that holds a history *)

Record holds (c : ChainId) (history : list (Block * CommitCertificate)) (db : Database) (ledger : LedgerState) : Prop := {
  holds_explorer : stores_explorer c db ledger;
  holds_rows : Forall2 row_of (blocks_ascending db) history;
  holds_typed : Forall block_typed history.*1;
  holds_counts : counts_within (executed_count ledger) db
}.

Lemma holds_history c history db ledger row h :
  holds c history db ledger -> blocks db !! h = Some row ->
  exists b cert, (b, cert) ∈ history /\ row_of row (b, cert).
Proof.
  intros Hh Hrow. assert (row ∈ blocks_ascending db) as (i & Hi)%list_elem_of_lookup by (apply elem_of_btree_values; by exists h).
  destruct (Forall2_lookup_l _ _ _ _ _ (holds_rows _ _ _ _ Hh) Hi) as ([b cert] & Hb & Hof).
  exists b, cert. split; [by apply list_elem_of_lookup_2 in Hb|done].
Qed.

Lemma holds_disk_typed c history db ledger : holds c history db ledger -> disk_typed db.
Proof.
  intros Hh h row Hrow b cert Hd. destruct (holds_history _ _ _ _ _ _ Hh Hrow) as (b' & cert' & Hin & Hd' & _).
  rewrite Hd in Hd'. injection Hd' as <- <-.
  apply (proj1 (Forall_forall _ _) (holds_typed _ _ _ _ Hh)), list_elem_of_fmap. by exists (b, cert).
Qed.

Lemma holds_replay c history db ledger :
  holds c history db ledger -> replay_finalized_blocks c history dev_validators = Ok ledger.
Proof.
  intros Hh. destruct (stored_history _ _ _ (proj1 (holds_explorer _ _ _ _ Hh))) as (history' & Hrows & Hrep).
  by rewrite (row_of_functional _ _ _ (holds_rows _ _ _ _ Hh) Hrows).
Qed.

Lemma holds_ledger_ok c history db ledger : holds c history db ledger -> ledger_ok ledger.
Proof. intros Hh. eapply replay_ledger_ok; [by eapply holds_replay|apply typed_in_range, Hh]. Qed.

Lemma elem_of_insert_all {K V} `{Countable K} (entries : list (K * V)) (m : gmap K V) k v :
  insert_all entries m !! k = Some v -> (k, v) ∈ entries \/ m !! k = Some v.
Proof.
  revert m. induction entries as [|[k' v'] entries IH]; intros m; [by right|].
  intros [Hin|Hm]%IH; [left; by constructor|]. simpl in Hm. destruct (decide (k' = k)) as [->|Hne].
  - rewrite lookup_insert_eq in Hm. injection Hm as ->. left. constructor.
  - right. by rewrite lookup_insert_ne in Hm.
Qed.

Lemma counts_within_commit k k' p db :
  counts_within k db -> k <= k' -> Forall (fun a => ap_transaction_count a <= k') (fp_changed_accounts p) ->
  counts_within k' (finalized_database p db).
Proof.
  intros [Hk Hold] Hle Hnew. split; [lia|]. intros key row Hrow. simpl in Hrow.
  apply elem_of_insert_all in Hrow as [Hin|Hrow]; [|specialize (Hold _ _ Hrow); simpl in *; lia].
  apply list_elem_of_fmap in Hin as (a & [= -> ->] & Ha). by apply (proj1 (Forall_forall _ _) Hnew).
Qed.

(** Committing the next block, on a disk that works. *)
Lemma commit_finalized_succeeds c self history db block certificate ledger' receipts :
  na_store self = settled db -> node_validators self = dev_validators -> holds c history db (na_ledger self) ->
  block_typed block -> block_hash block ∉ block_hash <$> history.*1 ->
  apply_finalized_block block certificate dev_validators (na_ledger self) = (ledger', Ok receipts) ->
  bh_height (header block) <= i64_max -> executed_count ledger' <= i64_max ->
  exists self' db', commit_finalized block certificate false self = (self', Ok ()) /\
    frame (set_ledger ledger' (set_store (settled db') self)) self' /\
    holds c (history ++ [(block, certificate)]) db' ledger'.
Proof.
  intros Hstore Hval Hh Hb Hfresh Happly Hheight Hx.
  pose proof (holds_ledger_ok _ _ _ _ Hh) as Hok. pose proof Happly as Happly'.
  unfold apply_finalized_block in Happly'. apply bind_Ok_inv in Happly' as (l1 & [] & Hl & Happly').
  injection Hl as <- _. apply apply_block_Ok_inv in Happly' as (Hv & -> & ->); [|done|apply Hb].
  rewrite (block_post_executed _ _ Hv) in Hx.
  destruct (build_projection_settled (executed_count (na_ledger self)) (block_post (na_ledger self) block) block certificate
    (txs_receipts (na_ledger self) (Block.transactions block)) db history (holds_disk_typed _ _ _ _ Hh)
    (holds_rows _ _ _ _ Hh) (holds_counts _ _ _ _ Hh)) as (p & Ep & Hcounts).
  rewrite length_txs_receipts in Hcounts. destruct (build_projection_projects _ _ _ _ _ _ _ Ep) as [Hp Hder].
  assert (fits p) as Hfits.
  { eapply projection_fits; [done|done|done|exact Hp|exact Hder|done| |exact Hx|done]. by rewrite block_post_executed. }
  destruct (next_block_placed c db (na_ledger self) history block certificate p) as [Hagrees Hfree]; try done; try apply Hh.
  { intros h row Hrow Heq. destruct (holds_history _ _ _ _ _ _ Hh Hrow) as (b' & cert' & Hin & Hof).
    rewrite (row_hash _ _ (row_of_shows _ _ _ Hof)) in Heq. apply hash_to_string_inj in Heq. apply Hfresh. rewrite <- Heq.
    apply list_elem_of_fmap. exists b'. split; [done|]. apply list_elem_of_fmap. by exists (b', cert'). }
  pose proof (persist_finalized_settled p db Hfits Hagrees Hfree) as Epersist.
  assert (effect (PersistFinalized p) db (finalized_database p db) Done) as Heff by (split_and!; [done|apply Hfits|done]).
  destruct (after_commit_runs block certificate (block_post (na_ledger self) block) (default 0 (head (env_instants (na_env self))))
    (set_store (settled (finalized_database p db)) (instant_now (E := AnyError) self).1)) as (self' & E & F).
  exists self', (finalized_database p db). split_and!.
  - set (s1 := (instant_now (E := AnyError) self).1) in *.
    assert (instant_now (E := AnyError) self = (s1, Ok (default 0 (head (env_instants (na_env self)))))) as E1 by done.
    assert (node_validators s1 = dev_validators) as Hv1 by done. assert (na_ledger s1 = na_ledger self) as Hl1 by done.
    assert (na_store s1 = settled db) as Hs1 by done.
    clearbody s1.
    unfold commit_finalized. rewrite (bind_run_Ok _ _ _ _ _ E1), (bind_run_Ok get _ s1 s1 s1 eq_refl).
    rewrite Hv1, Hl1, Happly.
    rewrite (bind_run_Ok (lift _) _ s1 s1 (txs_receipts (na_ledger self) (Block.transactions block))) by done.
    rewrite (bind_run_Ok (in_store _) _ s1 (set_store (settled db) s1) p) by (unfold in_store; by rewrite Hs1, Ep).
    match goal with |- context [mbind ?f ?persist] =>
      rewrite (bind_run_Ok persist f (set_store (settled db) s1) (set_store (settled (finalized_database p db)) s1) tt) end.
    2:{ unfold in_store, from_store. simpl. by rewrite Epersist. }
    exact E.
  - etrans; [|exact F]. by split.
  - split.
    + by eapply stores_explorer_commit; [apply Hh|exact Happly|exact Hp|exact Hder|exact Heff].
    + by eapply stores_chain_commit_rows; [apply Hh|apply Hh|exact Happly|exact Hp|exact Hder|exact Heff].
    + rewrite fmap_app. apply Forall_app. split; [apply Hh|]. constructor; [exact Hb|constructor].
    + rewrite block_post_executed by done. eapply counts_within_commit; [apply Hh|lia|done].
Qed.
End commit.
