(* ===== verification/NodeSync.v ===== *)
(** * Catching up

    A node that is behind asks a peer for the blocks after its tip
    ([request_sync_blocks]); the peer answers from its disk ([respond_to_sync])
    and the node imports the answer ([handle_sync_response]).  Both sides work:
    the records sent are the next blocks of the chain, and importing them
    succeeds. *)

From S2P Require Import Prelude Errors Crypto Transaction Block Commit Ledger LedgerFacts Replay ConsensusTypes Engine Sqlite Store StoreFacts NodeTypes Projection Recovery NodeState Node NodeCommands NodeSteps NodeChain NodeStart NodeMempool NodeExplorer NodeReindex ApiFacts NodeCommit.

(** Borsh encodes a struct as its fields in turn. *)
Class FinalizedRecordLaws `{!Borsh Block, !Borsh CommitCertificate, !Borsh FinalizedWireRecord} : Prop :=
  record_to_vec : forall r : FinalizedWireRecord, to_vec r = to_vec (fw_block r) ++ to_vec (fw_certificate r).

Section sync.
Context `{Blake3, Blake3Checksum, Ed25519, !SigningKeyBytes, Hex, Bech32, ChallengeJson, Libp2p,
          !Borsh UnsignedTransaction, !Borsh SignedTransaction, !Borsh BlockHeader, !Borsh Block,
          !Borsh StateCommitment, !Borsh CommitVote, !Borsh CommitCertificate,
          !Borsh SignableMessage, !Borsh SignedMessage, !Borsh SignedProposal,
          !Borsh FinalizedWireRecord, !Borsh ValidatorStatusMessage, !SerdeJson SafetyState}.
Context `{!BorshLaws Block, !BorshLaws CommitCertificate, !BorshLaws FinalizedWireRecord, !FinalizedRecordLaws,
          !HexLaws, !Bech32Laws}.
Context (evidence_debug : Evidence -> bytes).

Abbreviation History := (list (Block * CommitCertificate)).

Definition wire_record (bc : Block * CommitCertificate) : FinalizedWireRecord := mk_FinalizedWireRecord bc.1 bc.2.

(** ** The numbers along a replay *)

Lemma apply_finalized_blocks_cons b c history validators s s' :
  apply_finalized_blocks ((b, c) :: history) validators s = (s', Ok ()) <->
  exists s1 rs, apply_finalized_block b c validators s = (s1, Ok rs) /\
    apply_finalized_blocks history validators s1 = (s', Ok ()).
Proof.
  cbn [apply_finalized_blocks]. split.
  - intros (s1 & rs & Hb & Hr)%bind_Ok_inv. eauto.
  - intros (s1 & rs & Hb & Hr). by rewrite (bind_run_Ok _ _ _ _ _ Hb).
Qed.

Lemma apply_finalized_blocks_app h1 h2 validators s s' :
  apply_finalized_blocks (h1 ++ h2) validators s = (s', Ok ()) <->
  exists s1, apply_finalized_blocks h1 validators s = (s1, Ok ()) /\ apply_finalized_blocks h2 validators s1 = (s', Ok ()).
Proof.
  revert s. induction h1 as [|[b c] h1 IH]; intros s; [split; [eauto|by intros (s1 & [= ->] & ?)]|].
  rewrite <- app_comm_cons, apply_finalized_blocks_cons. split.
  - intros (s1 & rs & Hb & (s2 & Hr1 & Hr2)%IH). exists s2. rewrite apply_finalized_blocks_cons. eauto.
  - intros (s2 & (s1 & rs & Hb & Hr1)%apply_finalized_blocks_cons & Hr2). exists s1, rs. rewrite IH. eauto.
Qed.

(** A valid history keeps the ledger well formed and only adds transactions. *)
Lemma apply_finalized_blocks_ok history validators s s' :
  ledger_ok s -> Forall block_typed history.*1 -> apply_finalized_blocks history validators s = (s', Ok ()) ->
  ledger_ok s' /\ executed_count s <= executed_count s' /\ chain_id s' = chain_id s.
Proof.
  revert s. induction history as [|[b c] history IH]; intros s Hok Ht.
  - intros [= ->]. split_and!; [done|lia|done].
  - apply Forall_cons in Ht as [Hb Ht]. intros (s1 & rs & Happly & Hr)%apply_finalized_blocks_cons.
    unfold apply_finalized_block in Happly. apply bind_Ok_inv in Happly as (s0 & [] & Hs & Happly). injection Hs as <- _.
    apply apply_block_Ok_inv in Happly as (Hv & -> & _); [|done|apply Hb].
    destruct (IH (block_post s b)) as (Hok' & Hle & Hc); [by apply block_post_ok; [|apply Hb|]|done|done|].
    rewrite (block_post_executed _ _ Hv) in Hle. split_and!; [done|lia|].
    rewrite Hc. apply txs_post_frame.
Qed.

(** The heights of a history follow each other. *)
Lemma finalized_blocks_lookup history validators s s' i bc :
  apply_finalized_blocks history validators s = (s', Ok ()) -> history !! i = Some bc ->
  bh_height (header bc.1) = height s + 1 + Z.of_nat i.
Proof.
  revert s i. induction history as [|[b c] history IH]; intros s i; [done|].
  intros (s1 & rs & Hb & Hr)%apply_finalized_blocks_cons.
  apply apply_finalized_block_Ok in Hb as (_ & _ & _ & Hh & Hh' & _). destruct i as [|i]; simpl.
  - intros [= <-]. simpl. lia.
  - intros Hi. rewrite (IH _ _ Hr Hi). lia.
Qed.

(** ** The answering side *)

Lemma decode_record_row_of row b c : row_of row (b, c) -> decode_record_row row = Ok (wire_record (b, c)).
Proof.
  intros [Hd _]. unfold decode_history_row in Hd. unfold decode_record_row.
  apply result_bind_Ok_inv in Hd as (b' & -> & Hd). simpl. apply result_bind_Ok_inv in Hd as (c' & -> & [= <- <-]). done.
Qed.

(** A certified block always fits a response. *)
Definition small_record (bc : Block * CommitCertificate) : Prop :=
  Z.of_nat (length (to_vec (wire_record bc))) <= MAX_SYNC_RESPONSE_BYTES - 64 * 1024.

Lemma certified_small b c validators s s' rs :
  apply_finalized_block b c validators s = (s', Ok rs) -> small_record (b, c).
Proof.
  intros (Hv & Hc & _)%apply_finalized_block_Ok. unfold small_record. rewrite record_to_vec, length_app. simpl.
  destruct (verify_for_block_Ok_inv _ _ _ Hv) as (_ & _ & _ & _ & Hok). pose proof (ok_size _ _ Hok) as Hsize.
  destruct (validate_commitments_Ok_inv _ Hc) as [Hb _]. unfold block_canonical_bytes in Hb.
  assert (MAX_BLOCK_BYTES + MAX_COMMIT_CERTIFICATE_BYTES <= MAX_SYNC_RESPONSE_BYTES - 64 * 1024) by done. lia.
Qed.

(** The response holds the first of the rows. *)
Lemma encode_range_take rows (history : History) payload :
  Forall2 row_of rows history ->
  exists k, encode_range rows payload = Ok ((fun bc => to_vec (wire_record bc)) <$> take k history).
Proof.
  intros Hrows. revert payload. induction Hrows as [|row [b c] rows history Hof _ IH]; intros payload; [by exists 0%nat|].
  cbn [encode_range]. rewrite (decode_record_row_of _ _ _ Hof). cbn [mbind result_bind].
  destruct (_ <? _); [by exists 0%nat|].
  destruct (IH (payload + Z.of_nat (length (to_vec (wire_record (b, c)))))) as [k Hk]. rewrite Hk. by exists (S k).
Qed.

Lemma encode_range_progress row rows bc (history : History) :
  Forall2 row_of (row :: rows) (bc :: history) -> small_record bc ->
  exists k, encode_range (row :: rows) 0 = Ok ((fun bc => to_vec (wire_record bc)) <$> take (S k) (bc :: history)).
Proof.
  intros Hrows Hs. inversion Hrows as [|? [b c] ? ? Hof Hrest]; subst. cbn [encode_range].
  rewrite (decode_record_row_of _ _ _ Hof). cbn [mbind result_bind]. unfold small_record in Hs.
  replace (saturating_sub MAX_SYNC_RESPONSE_BYTES (64 * 1024)) with (MAX_SYNC_RESPONSE_BYTES - 64 * 1024) by done.
  destruct (Z.ltb_spec (MAX_SYNC_RESPONSE_BYTES - 64 * 1024) (0 + Z.of_nat (length (to_vec (wire_record (b, c))))));
    [lia|].
  destruct (encode_range_take rows history (0 + Z.of_nat (length (to_vec (wire_record (b, c))))) Hrest) as [k Hk].
  rewrite Hk. by exists k.
Qed.

(** Every row of the chain is read back whole. *)
Lemma rows_collect db (history : History) l :
  disk_typed db -> Forall2 row_of (blocks_ascending db) history -> (forall row, row ∈ l -> row ∈ blocks_ascending db) ->
  try_collect block_from_row l = Ok l.
Proof.
  intros Ht Hrows. induction l as [|row l IH]; intros Hin; [done|]. cbn [try_collect].
  assert (row ∈ blocks_ascending db) as (i & Hi)%list_elem_of_lookup by (apply Hin; constructor).
  destruct (Forall2_lookup_l _ _ _ _ _ Hrows Hi) as ([b cert] & _ & Hof).
  apply list_elem_of_lookup_2, elem_of_btree_values in Hi as [h Hh].
  destruct (block_row_reads db h row b cert Ht (conj Hh Hof)) as [_ ->]. cbn [mbind result_bind].
  rewrite IH; [done|]. intros r Hr. apply Hin. by constructor.
Qed.

Lemma filter_id {A} (P : A -> Prop) `{forall x, Decision (P x)} (l : list A) :
  (forall x, x ∈ l -> P x) -> filter P l = l.
Proof.
  induction l as [|x l IH]; intros Hall; [done|]. rewrite filter_cons_True by (apply Hall; constructor).
  rewrite IH; [done|]. intros y Hy. apply Hall. by constructor.
Qed.

Lemma filter_from (rows : list BlockRow) n m :
  (forall i row, rows !! i = Some row -> br_height row = Z.of_nat m + Z.of_nat i + 1) ->
  filter (fun row => Z.of_nat m + Z.of_nat n + 1 <= br_height row) rows = drop n rows.
Proof.
  revert n m. induction rows as [|row rows IH]; intros n m Hh; [by destruct n|].
  pose proof (Hh 0%nat row eq_refl) as H0'.
  assert (forall i r, rows !! i = Some r -> br_height r = Z.of_nat (S m) + Z.of_nat i + 1) as Hh'.
  { intros i r Hi. rewrite (Hh (S i) r Hi). lia. }
  destruct n as [|n].
  - rewrite drop_0. apply filter_id. intros r (i & Hi)%list_elem_of_lookup. rewrite (Hh i r Hi). lia.
  - rewrite filter_cons_False by lia. cbn [drop]. rewrite <- (IH n (S m) Hh'). apply list_filter_iff. intros r. lia.
Qed.

(** A node that can answer: its disk works and holds the chain of its ledger. *)
Record server (c : ChainId) (history : History) (db : Database) (self : NodeActor) : Prop := {
  server_store : na_store self = settled db;
  server_rows : Forall2 row_of (blocks_ascending db) history;
  server_typed : Forall block_typed history.*1;
  server_chain : stores_chain c db (na_ledger self);
  server_network : id_network (na_identity self) = true
}.

Lemma server_replay c history db self :
  server c history db self -> replay_finalized_blocks c history dev_validators = Ok (na_ledger self).
Proof.
  intros Hs. destruct (stored_history _ _ _ (server_chain _ _ _ _ Hs)) as (history' & Hrows & Hrep).
  by rewrite (row_of_functional _ _ _ (server_rows _ _ _ _ Hs) Hrows).
Qed.

Lemma server_disk_typed c history db self : server c history db self -> disk_typed db.
Proof.
  intros Hs h row Hrow b cert Hd. assert (row ∈ blocks_ascending db) as (i & Hi)%list_elem_of_lookup by (apply elem_of_btree_values; by exists h).
  destruct (Forall2_lookup_l _ _ _ _ _ (server_rows _ _ _ _ Hs) Hi) as ([b' cert'] & Hb & Hd' & _).
  rewrite Hd in Hd'. injection Hd' as <- <-. apply list_elem_of_lookup_2 in Hb.
  apply (proj1 (Forall_forall _ _) (server_typed _ _ _ _ Hs)), list_elem_of_fmap. by exists (b, cert).
Qed.

Lemma finalized_range_settled c history db self n :
  server c history db self -> Z.of_nat n + 1 <= i64_max ->
  finalized_range (Z.of_nat n + 1) 128 (settled db) = (settled db, Ok (take 128 (drop n (blocks_ascending db)))).
Proof.
  intros Hs Hn. unfold finalized_range. rewrite read_settled. rewrite to_sql_u64_fits by done. cbn [mbind result_bind].
  assert (filter (fun row => Z.of_nat n + 1 <= br_height row) (blocks_ascending db) = drop n (blocks_ascending db)) as ->.
  { rewrite <- (filter_from (blocks_ascending db) n 0).
    - apply list_filter_iff. intros row. by rewrite Z.add_0_l.
    - intros i row Hi. destruct (Forall2_lookup_l _ _ _ _ _ (server_rows _ _ _ _ Hs) Hi) as ([b cert] & Hb & Hof).
      rewrite (row_height _ _ (row_of_shows _ _ _ Hof)).
      pose proof (proj1 (replay_finalized_blocks_Ok _ _ _ _) (server_replay _ _ _ _ Hs)) as Hrep.
      pose proof (finalized_blocks_lookup _ _ _ _ _ _ Hrep Hb) as Hbh. simpl in *. lia. }
  unfold limit. change (Z.to_nat (Z.min 128 128)) with 128%nat.
  rewrite (rows_collect db history); [done|by eapply server_disk_typed|apply Hs|].
  intros row (i & Hi & _)%elem_of_take. rewrite lookup_drop in Hi. by apply list_elem_of_lookup_2 in Hi.
Qed.

Lemma set_store_same st (self : NodeActor) : na_store self = st -> set_store st self = self.
Proof. destruct self. simpl. by intros ->. Qed.

(** The answer to a request for the blocks after the first [n]. *)
Lemma server_answers c history db self token n :
  server c history db self -> (n < length history)%nat -> Z.of_nat n + 1 <= i64_max ->
  head (env_responses (na_env self)) = Some true ->
  exists k self',
    dispatch evidence_debug (SyncRequestReceived token (SyncBlocks (Z.of_nat n + 1) 128)) self = (self', Ok ()) /\
    (S k <= 128)%nat /\
    na_outbox self' = na_outbox self ++
      [SentResponse token (BlocksResponse ((fun bc => to_vec (wire_record bc)) <$> take (S k) (drop n history)))] /\
    server c history db self' /\ na_ledger self' = na_ledger self /\
    env_responses (na_env self') = tail (env_responses (na_env self)).
Proof.
  intros Hs Hlen Hn Henv.
  assert (Forall2 row_of (take 128 (drop n (blocks_ascending db))) (take 128 (drop n history))) as Hrows
    by (apply Forall2_take, Forall2_drop, Hs).
  destruct (drop n history) as [|bc rest] eqn:Edrop.
  { apply (f_equal length) in Edrop. rewrite length_drop in Edrop. simpl in Edrop. lia. }
  assert (small_record bc) as Hsmall.
  { destruct bc as [b cert]. pose proof (proj1 (replay_finalized_blocks_Ok _ _ _ _) (server_replay _ _ _ _ Hs)) as Hrep.
    rewrite <- (take_drop n history), Edrop in Hrep.
    apply apply_finalized_blocks_app in Hrep as (s1 & _ & (s2 & rs & Hb & _)%apply_finalized_blocks_cons).
    by eapply certified_small. }
  destruct (take 128 (drop n (blocks_ascending db))) as [|row rows] eqn:Erows; [by inversion Hrows|].
  change (take 128 (bc :: rest)) with (bc :: take 127 rest) in Hrows.
  destruct (encode_range_progress row rows bc _ Hrows Hsmall) as [k0 Hk].
  set (k := (k0 `min` 127)%nat).
  assert (take (S k0) (bc :: take 127 rest) = take (S k) (bc :: rest)) as Htake.
  { simpl. f_equal. by rewrite take_take. }
  rewrite Htake in Hk. exists k.
  assert (in_store (from_store (finalized_range (Z.of_nat n + 1) 128)) self = (self, Ok (row :: rows))) as Er.
  { unfold in_store, from_store. rewrite (server_store _ _ _ _ Hs), (finalized_range_settled _ _ _ _ _ Hs Hn), Erows.
    by rewrite set_store_same by apply Hs. }
  set (records := (fun bc => to_vec (wire_record bc)) <$> take (S k) (bc :: rest)) in *.
  set (e := na_env self) in *.
  set (self' := add_output (SentResponse token (BlocksResponse records))
                  (set_env (mk_Environment (env_unix_ms e) (env_instants e) (env_requests e) (tail (env_responses e))) self)).
  assert (respond_to_sync token (SyncBlocks (Z.of_nat n + 1) 128) self = (self', Ok ())) as E.
  { unfold respond_to_sync. rewrite (bind_run_Ok get _ self self self eq_refl), (server_network _ _ _ _ Hs). cbn [negb].
    rewrite (bind_run_Ok _ _ self self (BlocksResponse records)).
    - unfold network_respond. fold e. by rewrite Henv.
    - rewrite (bind_run_Ok _ _ _ _ _ Er), (bind_run_Ok (lift _) _ self self records) by (unfold lift; by rewrite Hk).
      done. }
  exists self'. split; [unfold dispatch, ignore; by rewrite E|]. split_and!; try done; [lia|].
  destruct Hs. by split.
Qed.

(** ** The importing side *)

(** A node without a validator key whose disk works and holds [history]. *)
Record client (c : ChainId) (history : History) (db : Database) (self : NodeActor) : Prop := {
  client_store : na_store self = settled db;
  client_validators : node_validators self = dev_validators;
  client_chain : id_chain_id (na_identity self) = c;
  client_holds : holds c history db (na_ledger self);
  client_running : na_halted self = false;
  client_keyless : node_key self = None;
  client_network : id_network (na_identity self) = true
}.

Lemma client_frame c history db self self' : client c history db self -> frame self self' -> client c history db self'.
Proof.
  intros [] []. unfold node_validators, node_key in *.
  split; unfold node_validators, node_key; congruence.
Qed.

Definition sync_state (self : NodeActor) : option Z * option PeerId * option OutboundSyncRequestId :=
  (na_sync_target self, na_sync_peer self, na_sync_request_id self).

(** Synchronization ends at its target. *)
Definition synced_at (h : Z) (state : option Z * option PeerId * option OutboundSyncRequestId) :
    option Z * option PeerId * option OutboundSyncRequestId :=
  match state.1.1 with
  | Some target => if target <=? h then (None, None, None) else state
  | None => state
  end.

Lemma synced_at_later h h' state : h <= h' -> synced_at h' (synced_at h state) = synced_at h' state.
Proof.
  intros Hle. unfold synced_at. destruct state as [[[target|] peer] id]; simpl; [|done].
  destruct (Z.leb_spec target h); simpl; [|done]. by destruct (Z.leb_spec target h'); [|lia].
Qed.

Definition finished (self : NodeActor) : NodeActor :=
  if match na_sync_target self with Some target => target <=? height (na_ledger self) | None => false end
  then set_sync_request None None None (set_sync_target None self) else self.

Lemma finish_sync_runs {E} self :
  exists self', finish_sync_if_current (E := E) self = (self', Ok ()) /\ frame (finished self) self'.
Proof.
  unfold finish_sync_if_current. rewrite (bind_run_Ok get _ self self self eq_refl).
  rewrite (bind_run_Ok _ _ self (finished self) tt).
  - destruct (calm_publish (E := E) (finished self)) as (self' & [] & Hr & F). eauto.
  - unfold finished. by destruct (match na_sync_target self with Some _ => _ | None => _ end).
Qed.

Lemma finished_state self : sync_state (finished self) = synced_at (height (na_ledger self)) (sync_state self).
Proof.
  unfold finished, synced_at, sync_state. destruct (na_sync_target self) as [target|] eqn:E; simpl; [|by rewrite E].
  destruct (target <=? _); simpl; by rewrite ?E.
Qed.

Lemma reset_keyless self :
  node_key self = None -> exists self', reset_consensus self = (self', Ok ()) /\ frame self self'.
Proof.
  intros Hk. set (self' := set_consensus_started false (set_recovery [] [] (set_proposal_blocks ∅ self))).
  exists self'. split; [|by split]. unfold reset_consensus.
  unfold mbind at 1, stE_bind at 1, modify at 1. cbn beta iota. fold self'.
  rewrite (bind_run_Ok get _ self' self' self' eq_refl). change (node_key self') with (node_key self). by rewrite Hk.
Qed.

(** What the environment still offers. *)
Definition supplies (self : NodeActor) : list (option OutboundSyncRequestId) * list bool :=
  (env_requests (na_env self), env_responses (na_env self)).

Lemma frame_states self self' : frame self self' -> sync_state self' = sync_state self /\ supplies self' = supplies self.
Proof. intros []. unfold sync_state, supplies. split; congruence. Qed.

(** The next block of the chain is imported. *)
Lemma import_next c history db self b cert ledger' rs source :
  client c history db self -> block_typed b -> block_hash b ∉ block_hash <$> history.*1 ->
  apply_finalized_block b cert dev_validators (na_ledger self) = (ledger', Ok rs) ->
  height ledger' <= i64_max -> executed_count ledger' <= i64_max ->
  exists self' db', import_finalized (wire_record (b, cert)) source self = (self', Ok ()) /\
    client c (history ++ [(b, cert)]) db' self' /\ na_ledger self' = ledger' /\
    sync_state self' = synced_at (height ledger') (sync_state self) /\ supplies self' = supplies self.
Proof.
  intros Hc Hb Hfresh Happly Hheight Hx.
  destruct (apply_finalized_block_Ok _ _ _ _ _ _ Happly) as (Hv & Hcom & Hchain & Hh & Hh' & _).
  pose proof (holds_replay _ _ _ _ (client_holds _ _ _ _ Hc)) as Hrep.
  assert (chain_id (na_ledger self) = c) as Hledger.
  { apply replay_finalized_blocks_Ok in Hrep.
    apply (apply_finalized_blocks_ok _ _ (ledger_new c)) in Hrep as (_ & _ & ?); [done|apply ledger_new_ok|apply Hc]. }
  destruct (commit_finalized_succeeds c self history db b cert ledger' rs) as (s1 & db' & E1 & F1 & H1'); try done; try apply Hc.
  { lia. }
  assert (client c (history ++ [(b, cert)]) db' s1) as Hc1.
  { eapply client_frame; [|exact F1]. destruct Hc. by split. }
  destruct (reset_keyless s1 (client_keyless _ _ _ _ Hc1)) as (s2 & E2 & F2).
  destruct (finish_sync_runs (E := AnyError) s2) as (s3 & E3 & F3).
  assert (na_ledger s2 = ledger') as Hl2 by (rewrite (frame_ledger _ _ F2), (frame_ledger _ _ F1); done).
  exists s3, db'. split.
  - unfold import_finalized. rewrite (bind_run_Ok get _ self self self eq_refl). cbv zeta. cbn [fw_block fw_certificate wire_record fst snd].
    rewrite (client_running _ _ _ _ Hc), (client_chain _ _ _ _ Hc), Hchain, Hledger.
    destruct (verify_for_block_Ok_inv _ _ _ Hv) as (-> & _). rewrite Hchain, Hledger.
    rewrite (bool_decide_eq_false_2 (c <> c)) by tauto. cbn [orb].
    rewrite (bind_run_Ok (lift _) _ self self tt) by (unfold lift; by rewrite Hcom).
    rewrite (bind_run_Ok (lift _) _ self self tt) by (unfold lift; by rewrite (client_validators _ _ _ _ Hc), Hv).
    rewrite (proj2 (Z.leb_gt _ _)) by lia. rewrite (proj2 (Z.eqb_eq _ _)) by lia. cbn [negb].
    by rewrite (bind_run_Ok _ _ _ _ _ E1), (bind_run_Ok _ _ _ _ _ E2).
  - destruct (frame_states _ _ F1) as [Hst1 Hsu1]. destruct (frame_states _ _ F2) as [Hst2 Hsu2].
    destruct (frame_states _ _ F3) as [Hst3 Hsu3].
    assert (client c (history ++ [(b, cert)]) db' (finished s2)) as Hcf.
    { pose proof (client_frame _ _ _ _ _ Hc1 F2) as []. unfold finished.
      destruct (match na_sync_target s2 with Some _ => _ | None => _ end); by split. }
    assert (na_ledger (finished s2) = na_ledger s2 /\ supplies (finished s2) = supplies s2) as [Hlf Hsuf].
    { unfold finished. by destruct (match na_sync_target s2 with Some _ => _ | None => _ end). }
    split_and!.
    + by eapply client_frame.
    + by rewrite (frame_ledger _ _ F3), Hlf.
    + rewrite Hst3, finished_state, Hl2, Hst2, Hst1. done.
    + rewrite Hsu3, Hsuf, Hsu2, Hsu1. done.
Qed.

(** So is a run of blocks. *)
Lemma import_batch c history db self batch ledger' :
  client c history db self -> batch <> [] -> Forall block_typed batch.*1 ->
  NoDup (block_hash <$> (history ++ batch).*1) ->
  apply_finalized_blocks batch dev_validators (na_ledger self) = (ledger', Ok ()) ->
  height ledger' <= i64_max -> executed_count ledger' <= i64_max ->
  exists self' db', import_all (wire_record <$> batch) self = (self', Ok ()) /\
    client c (history ++ batch) db' self' /\ na_ledger self' = ledger' /\
    sync_state self' = synced_at (height ledger') (sync_state self) /\ supplies self' = supplies self.
Proof.
  revert history db self. induction batch as [|[b cert] batch IH]; [done|].
  intros history db self Hc _ [Hb Ht]%Forall_cons Hnd (s1 & rs & Happly & Hrest)%apply_finalized_blocks_cons Hheight Hx.
  assert (ledger_ok s1 /\ executed_count s1 <= executed_count ledger' /\ height s1 <= height ledger') as (Hok1 & Hle & Hhle).
  { destruct (apply_finalized_blocks_ok [(b, cert)] dev_validators (na_ledger self) s1) as (Hok1 & _).
    - eapply holds_ledger_ok, client_holds, Hc.
    - constructor; [exact Hb|constructor].
    - apply apply_finalized_blocks_cons. by exists s1, rs.
    - split_and!; [done|by apply (apply_finalized_blocks_ok batch dev_validators s1)|].
      apply apply_finalized_blocks_height in Hrest. lia. }
  pose proof Hnd as Hnd0. rewrite fmap_app, fmap_cons, fmap_app, fmap_cons in Hnd. simpl in Hnd.
  destruct (import_next c history db self b cert s1 rs None) as (self1 & db1 & E1 & Hc1 & Hl1 & Hst1 & Hsu1); try done; [|lia|lia|].
  { apply NoDup_app in Hnd as (_ & Hdis & _). intros Hin. apply (Hdis _ Hin). constructor. }
  rewrite fmap_cons. cbn [import_all]. rewrite (bind_run_Ok _ _ _ _ _ E1).
  destruct batch as [|bc batch].
  - injection Hrest as <-. exists self1, db1. by split_and!.
  - destruct (IH (history ++ [(b, cert)]) db1 self1) as (self2 & db2 & E2 & Hc2 & Hl2 & Hst2 & Hsu2); try done.
    + rewrite <- app_assoc. exact Hnd0.
    + by rewrite Hl1.
    + exists self2, db2. rewrite E2. rewrite <- app_assoc in Hc2. split_and!; try done.
      * rewrite Hst2, Hst1. by apply synced_at_later.
      * by rewrite Hsu2.
Qed.

Lemma decode_records (batch : History) :
  try_collect decode_record ((fun bc => to_vec (wire_record bc)) <$> batch) = Ok (wire_record <$> batch).
Proof.
  induction batch as [|bc batch IH]; [done|]. rewrite !fmap_cons. cbn [try_collect].
  replace (decode_record (to_vec (wire_record bc))) with (@Ok AnyError _ (wire_record bc))
    by (unfold decode_record; by rewrite try_from_slice_to_vec).
  cbn [mbind result_bind]. by rewrite IH.
Qed.

Lemma batch_sequence batch validators s s' :
  0 <= height s -> apply_finalized_blocks batch validators s = (s', Ok ()) -> height s' <= i64_max ->
  validate_sync_batch_sequence (wire_record <$> batch) (height s) = Ok ().
Proof.
  intros Hs Hr Hh. pose proof (apply_finalized_blocks_height _ _ _ _ Hr) as Hlen.
  assert (i64_max + 1 <= u64_max) as Hmax by done.
  unfold validate_sync_batch_sequence. rewrite (proj2 (checked_add_Some _ _ _ _)) by (split; [done|lia]). simpl.
  assert (forall l o, (forall i bc, l !! i = Some bc -> bh_height (header bc.1) = height s + 1 + (Z.of_nat o + Z.of_nat i)) ->
            Z.of_nat o + Z.of_nat (length l) <= Z.of_nat (length batch) ->
            validate_sync_batch_from (height s + 1) (Z.of_nat o) (wire_record <$> l) = Ok ()) as Hgen.
  { induction l as [|bc l IH]; intros o Hl Ho; [done|]. rewrite fmap_cons. cbn [validate_sync_batch_from].
    simpl in Ho. rewrite (proj2 (checked_add_Some _ _ _ _)) by (split; [done|lia]). simpl.
    pose proof (Hl 0%nat bc eq_refl) as H0'. unfold wire_record at 1. cbn [fw_block].
    rewrite (proj2 (Z.eqb_eq _ _)) by lia. cbn [negb]. replace (Z.of_nat o + 1) with (Z.of_nat (S o)) by lia.
    apply IH; [|lia]. intros i bc' Hi. rewrite (Hl (S i) bc' Hi). lia. }
  apply (Hgen batch 0%nat); [|lia]. intros i bc Hi. rewrite (finalized_blocks_lookup _ _ _ _ _ _ Hr Hi). lia.
Qed.

(** Asking for the next blocks. *)
Lemma request_runs peer self id :
  id_network (na_identity self) = true -> 0 <= height (na_ledger self) < u64_max ->
  head (env_requests (na_env self)) = Some (Some id) ->
  exists self', request_sync_blocks peer self = (self', Ok ()) /\
    frame (set_sync_request (Some peer) (Some id) None
             (set_env (mk_Environment [] [] (tail (env_requests (na_env self))) (env_responses (na_env self))) self)) self' /\
    na_outbox self' = na_outbox self ++ [SentRequest peer (SyncBlocks (height (na_ledger self) + 1) 128)].
Proof.
  intros Hnet Hh Henv. unfold request_sync_blocks. rewrite (bind_run_Ok get _ self self self eq_refl), Hnet. cbn [negb].
  rewrite (bind_run_Ok (lift _) _ self self (height (na_ledger self) + 1)).
  2:{ unfold lift. by rewrite (proj2 (checked_add_Some _ _ _ _)) by (split; [done|lia]). }
  unfold network_request. unfold mbind at 1, stE_bind at 1. rewrite Henv. cbn beta iota.
  eexists. split; [reflexivity|]. split; [by split|done].
Qed.

(** ** One answer imported *)

(** Waiting for [peer]'s answer to [id], with the target [target] ahead. *)
Definition awaits (peer : PeerId) (id : OutboundSyncRequestId) (target : Z) (self : NodeActor) : Prop :=
  sync_state self = (Some target, Some peer, Some id) /\ height (na_ledger self) < target.

Definition block_request (self : NodeActor) : SyncRequest := SyncBlocks (height (na_ledger self) + 1) 128.

Lemma intent_valid c history db peer id target self (records : list bytes) :
  client c history db self -> awaits peer id target self -> height (na_ledger self) < u64_max ->
  (length records <= 128)%nat ->
  validate_sync_response_intent peer (mk_OutboundSyncIntent id peer (block_request self)) (BlocksResponse records)
    (na_sync_request_id self) (na_sync_peer self) (is_syncing self) (height (na_ledger self)) = Ok ().
Proof.
  intros Hc [Hst Hlt] Hh Hlen. unfold sync_state in Hst. injection Hst as Ht Hp Hid.
  unfold validate_sync_response_intent, is_syncing, block_request. rewrite Ht, Hp, Hid. cbn [si_peer si_request si_request_id].
  rewrite (bool_decide_eq_false_2 (peer <> peer)), (bool_decide_eq_true_2 (is_Some _)) by (tauto || by eexists). cbn [negb].
  rewrite !(bool_decide_eq_false_2 (_ <> _)) by tauto.
  rewrite (proj2 (checked_add_Some _ _ _ _)) by (split; [done|lia]). simpl. rewrite Z.eqb_refl. simpl.
  by rewrite (proj2 (Z.leb_le _ _)) by lia.
Qed.

Lemma batch_handled c history db self peer target batch ledger' :
  client c history db self -> na_sync_target self = Some target -> batch <> [] -> Forall block_typed batch.*1 ->
  NoDup (block_hash <$> (history ++ batch).*1) ->
  apply_finalized_blocks batch dev_validators (na_ledger self) = (ledger', Ok ()) ->
  height ledger' <= i64_max -> executed_count ledger' <= i64_max ->
  (height ledger' < target -> exists id, head (env_requests (na_env self)) = Some (Some id)) ->
  exists self' db',
    handle_blocks_response peer (height (na_ledger self) + 1) ((fun bc => to_vec (wire_record bc)) <$> batch) self =
      (self', Ok ()) /\
    client c (history ++ batch) db' self' /\ na_ledger self' = ledger' /\
    if target <=? height ledger' then is_syncing self' = false
    else exists id, head (env_requests (na_env self)) = Some (Some id) /\ awaits peer id target self' /\
           env_requests (na_env self') = tail (env_requests (na_env self)) /\
           last (na_outbox self') = Some (SentRequest peer (block_request self')).
Proof.
  intros Hc Ht Hne Htyped Hnd Hr Hh Hx Henv.
  assert (0 <= height (na_ledger self)) as Hpos.
  { apply (ok_height _ (holds_ledger_ok _ _ _ _ (client_holds _ _ _ _ Hc))). }
  pose proof (apply_finalized_blocks_height _ _ _ _ Hr) as Hlen.
  assert (0 < length batch)%nat as Hlen0 by (destruct batch; [done|simpl; lia]).
  assert (i64_max < u64_max) as Hmax by done.
  destruct (import_batch c history db self batch ledger') as (s1 & db' & E1 & Hc1 & Hl1 & Hst1 & Hsu1); try done.
  unfold handle_blocks_response. rewrite (bind_run_Ok get _ self self self eq_refl).
  rewrite bool_decide_eq_false_2 by (destruct batch; done).
  rewrite (bind_run_Ok (lift _) _ self self (wire_record <$> batch)) by (unfold lift; by rewrite decode_records).
  cbv zeta. replace (saturating_sub (height (na_ledger self) + 1) 1) with (height (na_ledger self))
    by (unfold saturating_sub; lia).
  rewrite (bind_run_Ok (lift _) _ self self tt) by (unfold lift; by rewrite (batch_sequence _ _ _ _ Hpos Hr Hh)).
  rewrite (bind_run_Ok _ _ _ _ _ E1), (bind_run_Ok get _ s1 s1 s1 eq_refl), Hl1.
  rewrite (proj2 (Z.leb_gt _ _)) by lia.
  rewrite (bind_run_Ok publish_validator_status _ s1 s1 tt).
  2:{ unfold publish_validator_status. rewrite (bind_run_Ok get _ s1 s1 s1 eq_refl). by rewrite (client_keyless _ _ _ _ Hc1). }
  rewrite (bind_run_Ok get _ s1 s1 s1 eq_refl).
  unfold synced_at, sync_state in Hst1. simpl in Hst1. rewrite Ht in Hst1.
  destruct (Z.leb_spec target (height ledger')) as [Hreached|Hbehind].
  - injection Hst1 as Htarget _ _. rewrite Htarget. exists s1, db'. split_and!; try done.
    unfold is_syncing. by rewrite Htarget.
  - injection Hst1 as Htarget Hpeer Hid. rewrite Htarget, Hl1. rewrite (proj2 (Z.ltb_lt _ _)) by done.
    rewrite (client_network _ _ _ _ Hc1). destruct (Henv Hbehind) as [id Hhead].
    unfold supplies in Hsu1. injection Hsu1 as Hreq Hresp.
    destruct (request_runs peer s1 id) as (s2 & E2 & F2 & Hout);
      [apply Hc1|rewrite Hl1; lia|by rewrite Hreq|].
    exists s2, db'. split; [exact E2|]. assert (na_ledger s2 = ledger') as Hl2 by (rewrite (frame_ledger _ _ F2); done).
    split_and!; [| |exists id; split_and!].
    + eapply client_frame; [|exact F2]. destruct Hc1. by split.
    + done.
    + done.
    + split; [|by rewrite Hl2]. destruct (frame_states _ _ F2) as [-> _]. unfold sync_state. simpl. by rewrite Htarget.
    + rewrite (frame_requests _ _ F2). simpl. by rewrite Hreq.
    + rewrite Hout, last_snoc. unfold block_request. by rewrite Hl2, Hl1.
Qed.

Lemma answer_imported c history db self peer id target batch ledger' :
  client c history db self -> awaits peer id target self -> batch <> [] -> (length batch <= 128)%nat ->
  Forall block_typed batch.*1 -> NoDup (block_hash <$> (history ++ batch).*1) ->
  apply_finalized_blocks batch dev_validators (na_ledger self) = (ledger', Ok ()) ->
  height ledger' <= i64_max -> executed_count ledger' <= i64_max ->
  (height ledger' < target -> exists id', head (env_requests (na_env self)) = Some (Some id')) ->
  exists self' db',
    dispatch evidence_debug (SyncResponseReceived peer (mk_OutboundSyncIntent id peer (block_request self))
      (BlocksResponse ((fun bc => to_vec (wire_record bc)) <$> batch))) self = (self', Ok ()) /\
    client c (history ++ batch) db' self' /\ na_ledger self' = ledger' /\
    if target <=? height ledger' then is_syncing self' = false
    else exists id', head (env_requests (na_env self)) = Some (Some id') /\ awaits peer id' target self' /\
           env_requests (na_env self') = tail (env_requests (na_env self)) /\
           last (na_outbox self') = Some (SentRequest peer (block_request self')).
Proof.
  intros Hc Ha Hne Hlen Ht Hnd Hr Hh Hx Henv. pose proof Ha as [Hst Hlt]. unfold sync_state in Hst. injection Hst as Htarget Hp Hid.
  destruct (batch_handled c history db self peer target batch ledger') as (s1 & db' & E & Hrest); try done.
  exists s1, db'. split; [|done]. unfold dispatch, handle_sync_response.
  assert (height (na_ledger self) < u64_max) as Hmax.
  { pose proof (apply_finalized_blocks_height _ _ _ _ Hr). assert (i64_max < u64_max) by done. lia. }
  rewrite (bind_run_Ok get _ self self self eq_refl).
  rewrite (bind_run_Ok (lift _) _ self self tt).
  2:{ unfold lift. by rewrite (intent_valid _ _ _ _ _ _ _ _ Hc Ha Hmax) by (by rewrite length_fmap). }
  cbn [si_request block_request]. by rewrite E.
Qed.

(** ** Request and answer until the target *)

(** A request of the client reaches the server, and the server's answer the client. *)
Definition deliver (token : Z) (peer : PeerId) (id : OutboundSyncRequestId) (request : SyncRequest)
    (nodes : NodeActor * NodeActor) : NodeActor * NodeActor :=
  let '(server, client) := nodes in
  let server' := (dispatch evidence_debug (SyncRequestReceived token request) server).1 in
  match drop (length (na_outbox server)) (na_outbox server') with
  | [SentResponse _ response] =>
      (server', (dispatch evidence_debug
                   (SyncResponseReceived peer (mk_OutboundSyncIntent id peer request) response) client).1)
  | _ => (server', client)
  end.

(** So does the client's last request, while it synchronizes. *)
Definition exchange (token : Z) (nodes : NodeActor * NodeActor) : NodeActor * NodeActor :=
  match last (na_outbox nodes.2), na_sync_request_id nodes.2 with
  | Some (SentRequest peer request), Some id => deliver token peer id request nodes
  | _, _ => nodes
  end.

Fixpoint exchanges (rounds : nat) (token : Z) (nodes : NodeActor * NodeActor) : NodeActor * NodeActor :=
  match rounds with
  | O => nodes
  | S rounds => exchanges rounds (token + 1) (exchange token nodes)
  end.

(** The environment of the next [n] exchanges: every response is taken, every
    request gets an id. *)
Definition responds (n : nat) (self : NodeActor) : Prop :=
  forall i, (i < n)%nat -> env_responses (na_env self) !! i = Some true.
Definition requests (n : nat) (self : NodeActor) : Prop :=
  forall i, (i < n)%nat -> exists id, env_requests (na_env self) !! i = Some (Some id).

Lemma lookup_tail_S {A} (l : list A) i : tail l !! i = l !! S i.
Proof. by destruct l. Qed.

Lemma responds_tail n self self' :
  responds (S n) self -> env_responses (na_env self') = tail (env_responses (na_env self)) -> responds n self'.
Proof. intros Hr E i Hi. rewrite E, lookup_tail_S. apply Hr. lia. Qed.

Lemma requests_tail n self self' :
  requests (S n) self -> env_requests (na_env self') = tail (env_requests (na_env self)) -> requests n self'.
Proof. intros Hr E i Hi. rewrite E, lookup_tail_S. apply Hr. lia. Qed.

(** Where the client is in the chain of the server. *)
Record catching_up (c : ChainId) (done rest : History) (db db' : Database) (peer : PeerId) (id : OutboundSyncRequestId)
    (target : Z) (server_ client_ : NodeActor) : Prop := {
  catching_server : server c (done ++ rest) db server_;
  catching_client : client c done db' client_;
  catching_hashes : NoDup (block_hash <$> (done ++ rest).*1);
  catching_height : height (na_ledger server_) <= i64_max;
  catching_executed : executed_count (na_ledger server_) <= i64_max;
  catching_target : target <= height (na_ledger server_);
  catching_awaits : awaits peer id target client_;
  catching_asked : last (na_outbox client_) = Some (SentRequest peer (block_request client_));
  catching_responds : responds (length rest) server_;
  catching_requests : requests (length rest) client_
}.

(** The ledgers along the chain. *)
Lemma catching_ledger c done rest db db' peer id target server_ client_ k :
  catching_up c done rest db db' peer id target server_ client_ ->
  exists l, apply_finalized_blocks (take k rest) dev_validators (na_ledger client_) = (l, Ok ()) /\
    apply_finalized_blocks (drop k rest) dev_validators l = (na_ledger server_, Ok ()) /\
    height l <= height (na_ledger server_) /\ executed_count l <= executed_count (na_ledger server_).
Proof.
  intros Hc. pose proof (server_replay _ _ _ _ (catching_server _ _ _ _ _ _ _ _ _ _ Hc)) as Hrep.
  apply replay_finalized_blocks_Ok, apply_finalized_blocks_app in Hrep as (s1 & Hr1 & Hr2).
  pose proof (holds_replay _ _ _ _ (client_holds _ _ _ _ (catching_client _ _ _ _ _ _ _ _ _ _ Hc))) as Hcl.
  apply replay_finalized_blocks_Ok in Hcl. rewrite Hr1 in Hcl. injection Hcl as Hcl.
  rewrite <- (take_drop k rest) in Hr2. apply apply_finalized_blocks_app in Hr2 as (l & Hl1 & Hl2).
  rewrite Hcl in *. exists l. split_and!; [done..| |].
  - apply apply_finalized_blocks_height in Hl2. lia.
  - pose proof (server_typed _ _ _ _ (catching_server _ _ _ _ _ _ _ _ _ _ Hc)) as Ht.
    rewrite <- (take_drop k rest), !fmap_app in Ht. apply Forall_app in Ht as [_ [Ht1 Ht2]%Forall_app].
    pose proof (holds_ledger_ok _ _ _ _ (client_holds _ _ _ _ (catching_client _ _ _ _ _ _ _ _ _ _ Hc))) as Hok.
    destruct (apply_finalized_blocks_ok _ _ _ _ Hok Ht1 Hl1) as (Hokl & _ & _).
    by destruct (apply_finalized_blocks_ok _ _ _ _ Hokl Ht2 Hl2) as (_ & ? & _).
Qed.

Lemma catching_length c done rest db db' peer id target server_ client_ :
  catching_up c done rest db db' peer id target server_ client_ ->
  height (na_ledger client_) = Z.of_nat (length done) /\
  height (na_ledger server_) = Z.of_nat (length done) + Z.of_nat (length rest) /\ (0 < length rest)%nat.
Proof.
  intros Hc.
  pose proof (replayed_height _ _ _ _ (holds_replay _ _ _ _ (client_holds _ _ _ _ (catching_client _ _ _ _ _ _ _ _ _ _ Hc)))) as H1'.
  pose proof (replayed_height _ _ _ _ (server_replay _ _ _ _ (catching_server _ _ _ _ _ _ _ _ _ _ Hc))) as H2'.
  rewrite length_app in H2'. destruct (catching_awaits _ _ _ _ _ _ _ _ _ _ Hc) as [_ Hlt].
  pose proof (catching_target _ _ _ _ _ _ _ _ _ _ Hc). lia.
Qed.

(** One exchange moves the client at least one block up the chain. *)
Lemma exchange_progress c done rest db db' peer id target server_ client_ token :
  catching_up c done rest db db' peer id target server_ client_ ->
  exists k server' client' db'', exchange token (server_, client_) = (server', client') /\
    (0 < k <= length rest)%nat /\ na_ledger server' = na_ledger server_ /\
    client c (done ++ take k rest) db'' client' /\
    if target <=? height (na_ledger client') then is_syncing client' = false
    else exists id', catching_up c (done ++ take k rest) (drop k rest) db db'' peer id' target server' client'.
Proof.
  intros Hc. destruct (catching_length _ _ _ _ _ _ _ _ _ _ Hc) as (Hlc & Hls & Hpos).
  pose proof (catching_height _ _ _ _ _ _ _ _ _ _ Hc) as Hmax.
  destruct (server_answers c (done ++ rest) db server_ token (length done)) as (k0 & server' & Ed & Hk0 & Hout & Hs' & Hl' & Hresp).
  { apply Hc. } { rewrite length_app. lia. } { lia. }
  { rewrite head_lookup. by apply (catching_responds _ _ _ _ _ _ _ _ _ _ Hc). }
  rewrite drop_app_length in Hout. set (k := (S k0 `min` length rest)%nat).
  assert (take (S k0) rest = take k rest) as Htake.
  { unfold k. destruct (Nat.min_spec (S k0) (length rest)) as [[? ->]|[? ->]]; [done|]. by rewrite !take_ge by lia. }
  rewrite Htake in Hout.
  destruct (catching_ledger _ _ _ _ _ _ _ _ _ _ k Hc) as (l & Hr1 & Hr2 & Hhl & Hxl).
  pose proof (catching_hashes _ _ _ _ _ _ _ _ _ _ Hc) as Hnd.
  pose proof (server_typed _ _ _ _ (catching_server _ _ _ _ _ _ _ _ _ _ Hc)) as Ht.
  assert (length (take k rest) = k) as Hlk by (rewrite length_take; lia).
  destruct (answer_imported c done db' client_ peer id target (take k rest) l) as (client' & db'' & Ed2 & Hc' & Hl2 & Hafter).
  - apply Hc.
  - apply Hc.
  - intros E. rewrite E in Hlk. simpl in Hlk. lia.
  - lia.
  - rewrite fmap_app in Ht. apply Forall_app in Ht as [_ Ht]. rewrite <- (take_drop k rest), fmap_app in Ht.
    by apply Forall_app in Ht as [Ht _].
  - rewrite <- (take_drop k rest), app_assoc, !fmap_app in Hnd. rewrite !fmap_app. by apply NoDup_app in Hnd as [Hnd _].
  - done.
  - lia.
  - pose proof (catching_executed _ _ _ _ _ _ _ _ _ _ Hc). lia.
  - intros _. rewrite head_lookup. apply (catching_requests _ _ _ _ _ _ _ _ _ _ Hc). lia.
  - exists k, server', client', db''. split.
    + unfold exchange, deliver. cbn [snd]. rewrite (catching_asked _ _ _ _ _ _ _ _ _ _ Hc).
      destruct (catching_awaits _ _ _ _ _ _ _ _ _ _ Hc) as [Hst _]. unfold sync_state in Hst. injection Hst as _ _ ->.
      assert (block_request client_ = SyncBlocks (Z.of_nat (length done) + 1) 128) as Hreq by (unfold block_request; by rewrite Hlc).
      rewrite Hreq, Ed in *. cbn [fst]. rewrite Hout, drop_app_length. by rewrite Ed2.
    + split_and!; [lia|lia|done|done|]. rewrite Hl2. destruct (Z.leb_spec target (height l)); [done|].
      destruct Hafter as (id' & _ & Ha' & Hreqs & Hlast). exists id'.
        split; rewrite <- ?app_assoc, ?take_drop; rewrite ?Hl'; try done; try apply Hc.
      * apply (responds_tail _ server_); [|done]. intros i Hi. apply (catching_responds _ _ _ _ _ _ _ _ _ _ Hc).
        rewrite length_drop in Hi. lia.
      * apply (requests_tail _ client_); [|done]. intros i Hi. apply (catching_requests _ _ _ _ _ _ _ _ _ _ Hc).
        rewrite length_drop in Hi. lia.
Qed.

Lemma exchanges_reach_target n c done rest db db' peer id target server_ client_ token :
  (length rest <= n)%nat -> catching_up c done rest db db' peer id target server_ client_ ->
  exists rounds server' client' k db'', (rounds <= n)%nat /\
    exchanges rounds token (server_, client_) = (server', client') /\ na_ledger server' = na_ledger server_ /\
    client c (done ++ take k rest) db'' client' /\ is_syncing client' = false /\
    target <= height (na_ledger client').
Proof.
  revert done rest db' id server_ client_ token. induction n as [|n IH]; intros done rest db' id server_ client_ token Hn Hc.
  { destruct (catching_length _ _ _ _ _ _ _ _ _ _ Hc) as (_ & _ & ?). lia. }
  destruct (exchange_progress _ _ _ _ _ _ _ _ _ _ token Hc) as (k & server1 & client1 & db1 & E & Hk & Hl & Hc1 & Hafter).
  destruct (Z.leb_spec target (height (na_ledger client1))) as [Hreached|_].
  - exists 1%nat, server1, client1, k, db1. split_and!; [lia|exact E|done..].
  - destruct Hafter as [id' Hc'].
    assert (length (drop k rest) <= n)%nat as Hn' by (rewrite length_drop; lia).
    destruct (IH _ _ _ _ _ _ (token + 1) Hn' Hc')
      as (rounds & server2 & client2 & k2 & db2 & Hr & E2 & Hl2 & Hc2 & Hs2 & Ht2).
    exists (S rounds), server2, client2, (k + k2)%nat, db2. split_and!; try done; [lia| |congruence|].
    + cbn [exchanges]. by rewrite E.
    + rewrite <- app_assoc, take_take_drop in Hc2. exact Hc2.
Qed.

(** ** How it starts *)

Lemma server_tip c history b cert db self :
  server c (history ++ [(b, cert)]) db self ->
  exists row, block_by_height (height (na_ledger self)) (settled db) = (settled db, Ok (Some row)) /\ row_of row (b, cert).
Proof.
  intros Hs. pose proof (server_replay _ _ _ _ Hs) as Hrep.
  destruct (replayed_tip _ _ _ _ _ (server_typed _ _ _ _ Hs) Hrep) as (Hh & _ & _).
  destruct (proj1 (Forall2_app_inv_r _ _ _ _) (server_rows _ _ _ _ Hs)) as (rows & last & _ & Hlast & Hrows).
  inversion Hlast as [|row ? ? ? Hof Hnil]; subst. inversion Hnil; subst.
  assert (row ∈ blocks_ascending db) as [h Hrow]%elem_of_btree_values by (rewrite Hrows; set_solver).
  destruct (stored_keys _ _ _ (server_chain _ _ _ _ Hs) _ _ Hrow) as (Hk & _ & Hmax).
  assert (h = height (na_ledger self)) as -> by (rewrite Hh, <- (row_height _ _ (row_of_shows _ _ _ Hof)); done).
  exists row. split; [|done]. unfold block_by_height. rewrite read_settled, to_sql_u64_fits by done. cbn [mbind result_bind].
  rewrite Hrow. cbn [optional_row].
  destruct (block_row_reads db _ row b cert (server_disk_typed _ _ _ _ Hs) (conj Hrow Hof)) as [_ ->]. done.
Qed.

Definition status_of (self : NodeActor) (bc : Block * CommitCertificate) : SyncResponse :=
  StatusResponse (height (na_ledger self)) (hash_to_string (tip_hash (na_ledger self)))
    (hash_to_string (state_root (na_ledger self))) (is_syncing self) (Some (to_vec (wire_record bc))).

Lemma server_answers_status c history bc db self token :
  server c (history ++ [bc]) db self -> head (env_responses (na_env self)) = Some true ->
  exists self', dispatch evidence_debug (SyncRequestReceived token SyncStatus) self = (self', Ok ()) /\
    na_outbox self' = na_outbox self ++ [SentResponse token (status_of self bc)] /\
    server c (history ++ [bc]) db self' /\ na_ledger self' = na_ledger self /\
    env_responses (na_env self') = tail (env_responses (na_env self)).
Proof.
  destruct bc as [b cert]. intros Hs Henv. destruct (server_tip _ _ _ _ _ _ Hs) as (row & Erow & Hof).
  pose proof (replayed_height _ _ _ _ (server_replay _ _ _ _ Hs)) as Hlen. rewrite length_app in Hlen. simpl in Hlen.
  set (e := na_env self) in *.
  set (self' := add_output (SentResponse token (status_of self (b, cert)))
                  (set_env (mk_Environment (env_unix_ms e) (env_instants e) (env_requests e) (tail (env_responses e))) self)).
  assert (respond_to_sync token SyncStatus self = (self', Ok ())) as E.
  { unfold respond_to_sync. rewrite (bind_run_Ok get _ self self self eq_refl), (server_network _ _ _ _ Hs). cbn [negb].
    rewrite (bind_run_Ok _ _ self self (status_of self (b, cert))).
    - unfold network_respond. fold e. by rewrite Henv.
    - rewrite (proj2 (Z.eqb_neq (height (na_ledger self)) 0)) by lia.
      rewrite (bind_run_Ok _ _ self self (Some (to_vec (wire_record (b, cert))))); [done|].
      rewrite (bind_run_Ok (in_store _) _ self self (Some row)).
      2:{ unfold in_store, from_store. rewrite (server_store _ _ _ _ Hs), Erow. by rewrite set_store_same by apply Hs. }
      rewrite (bind_run_Ok (lift _) _ self self row) by done.
      rewrite (bind_run_Ok (lift _) _ self self (wire_record (b, cert)))
        by (unfold lift; by rewrite (decode_record_row_of _ _ _ Hof)).
      done. }
  exists self'. split; [unfold dispatch, ignore; by rewrite E|]. split_and!; try done. destruct Hs. by split.
Qed.

(** A node that is behind starts to synchronize. *)
Lemma status_starts c done db' client_ peer id height_ hash_ root_ syncing b cert id' :
  client c done db' client_ -> sync_state client_ = (None, None, None) ->
  height (na_ledger client_) < height_ -> height_ <= i64_max ->
  bh_chain_id (header b) = c -> validate_commitments b = Ok () -> verify_for_block cert b dev_validators = Ok () ->
  bh_height (header b) = height_ -> hash_ = hash_to_string (block_hash b) -> root_ = hash_to_string (bh_state_root (header b)) ->
  head (env_requests (na_env client_)) = Some (Some id') ->
  exists client',
    dispatch evidence_debug (SyncResponseReceived peer (mk_OutboundSyncIntent id peer SyncStatus)
      (StatusResponse height_ hash_ root_ syncing (Some (to_vec (wire_record (b, cert)))))) client_ = (client', Ok ()) /\
    client c done db' client' /\ na_ledger client' = na_ledger client_ /\ awaits peer id' height_ client' /\
    last (na_outbox client') = Some (SentRequest peer (block_request client')) /\
    env_requests (na_env client') = tail (env_requests (na_env client_)).
Proof.
  intros Hc Hst Hlt Hmax Hchain Hcom Hv Hh -> -> Henv. unfold sync_state in Hst. injection Hst as Htarget Hpeer Hid.
  assert (0 <= height (na_ledger client_)) as Hpos.
  { apply (ok_height _ (holds_ledger_ok _ _ _ _ (client_holds _ _ _ _ Hc))). }
  set (s1 := set_consensus_started false (set_sync_target (Some height_) client_)).
  destruct (calm_publish (E := AnyError) s1) as (s2 & [] & E2 & F2).
  assert (client c done db' s1) as Hc1 by (destruct Hc; by split).
  pose proof (client_frame _ _ _ _ _ Hc1 F2) as Hc2.
  assert (na_ledger s2 = na_ledger client_) as Hl2 by (rewrite (frame_ledger _ _ F2); done).
  assert (i64_max < u64_max) as Hu by done.
  destruct (request_runs peer s2 id') as (s3 & E3 & F3 & Hout); [apply Hc2|rewrite Hl2; lia|by rewrite (frame_requests _ _ F2)|].
  assert (begin_sync peer height_ client_ = (s3, Ok ())) as Ebegin.
  { unfold begin_sync. rewrite (bind_run_Ok get _ client_ client_ client_ eq_refl), (client_running _ _ _ _ Hc).
    rewrite (proj2 (Z.leb_gt _ _)) by done.
    unfold mbind at 1, stE_bind at 1, modify at 1. cbn beta iota. rewrite Htarget. fold s1.
    rewrite (bind_run_Ok _ _ _ _ _ E2). rewrite (bind_run_Ok publish_validator_status _ s2 s2 tt).
    2:{ unfold publish_validator_status. rewrite (bind_run_Ok get _ s2 s2 s2 eq_refl). by rewrite (client_keyless _ _ _ _ Hc2). }
    rewrite (client_network _ _ _ _ Hc). unfold ensure_active_sync_request. rewrite (bind_run_Ok get _ s2 s2 s2 eq_refl).
    rewrite bool_decide_eq_false_2; [exact E3|]. rewrite (frame_request _ _ F2). simpl. rewrite Hid. by intros [? ?]. }
  exists s3. split.
  - unfold dispatch, handle_sync_response. rewrite (bind_run_Ok get _ client_ client_ client_ eq_refl).
    rewrite (bind_run_Ok (lift _) _ client_ client_ tt).
    2:{ unfold lift, validate_sync_response_intent. by rewrite bool_decide_eq_false_2 by tauto. }
    cbn [si_request]. unfold handle_status_response. rewrite (bind_run_Ok get _ client_ client_ client_ eq_refl).
    rewrite (proj2 (Z.leb_gt _ _)) by done.
    rewrite (bind_run_Ok (lift _) _ client_ client_ (to_vec (wire_record (b, cert)))) by done.
    rewrite (bind_run_Ok (lift _) _ client_ client_ (wire_record (b, cert))) by (unfold lift; by rewrite try_from_slice_to_vec).
    cbv zeta. cbn [fw_block fw_certificate wire_record fst snd]. rewrite (client_chain _ _ _ _ Hc), Hchain.
    destruct (verify_for_block_Ok_inv _ _ _ Hv) as (-> & _). rewrite Hchain, (bool_decide_eq_false_2 (c <> c)) by tauto. cbn [orb].
    rewrite (bind_run_Ok (lift _) _ client_ client_ tt) by (unfold lift; by rewrite Hcom).
    rewrite (bind_run_Ok (lift _) _ client_ client_ tt) by (unfold lift; by rewrite (client_validators _ _ _ _ Hc), Hv).
    rewrite Hh, Z.eqb_refl, !bool_decide_eq_false_2 by tauto. cbn [negb orb]. by rewrite Ebegin.
  - assert (na_ledger s3 = na_ledger client_) as Hl3 by (rewrite (frame_ledger _ _ F3); done).
    split_and!.
    + eapply client_frame; [|exact F3]. destruct Hc2. by split.
    + done.
    + split; [|by rewrite Hl3]. destruct (frame_states _ _ F3) as [-> _]. unfold sync_state. simpl. by rewrite (frame_target _ _ F2).
    + rewrite Hout, last_snoc. unfold block_request. by rewrite Hl3, Hl2.
    + rewrite (frame_requests _ _ F3). simpl. by rewrite (frame_requests _ _ F2).
Qed.

(** A client asks a server for its status, and then for blocks. *)
Definition resynchronize (rounds : nat) (token : Z) (peer : PeerId) (id : OutboundSyncRequestId)
    (nodes : NodeActor * NodeActor) : NodeActor * NodeActor :=
  exchanges rounds (token + 1) (deliver token peer id SyncStatus nodes).

Lemma resynchronize_starts c done rest db db' peer id token server_ client_ :
  rest <> [] -> server c (done ++ rest) db server_ -> client c done db' client_ ->
  sync_state client_ = (None, None, None) -> NoDup (block_hash <$> (done ++ rest).*1) ->
  height (na_ledger server_) <= i64_max -> executed_count (na_ledger server_) <= i64_max ->
  responds (S (length rest)) server_ -> requests (S (length rest)) client_ ->
  exists server' client' id', deliver token peer id SyncStatus (server_, client_) = (server', client') /\
    na_ledger server' = na_ledger server_ /\
    catching_up c done rest db db' peer id' (height (na_ledger server_)) server' client'.
Proof.
  intros Hne Hs Hc Hst Hnd Hh Hx Hresp Hreq.
  destruct (exists_last Hne) as (front & [b cert] & Hrest).
  assert (server c ((done ++ front) ++ [(b, cert)]) db server_) as Hs' by (rewrite <- app_assoc, <- Hrest; done).
  destruct (server_answers_status c _ _ db server_ token Hs') as (server' & Es & Hout & Hs1 & Hl1 & Hr1).
  { rewrite head_lookup. apply Hresp. lia. }
  pose proof (server_replay _ _ _ _ Hs') as Hrep.
  destruct (replayed_tip _ _ _ _ _ (server_typed _ _ _ _ Hs') Hrep) as (Hth & Htip & Hroot).
  apply replay_finalized_blocks_Ok, apply_finalized_blocks_app in Hrep as (s1 & Hfront & (s2 & rs & Hb & _)%apply_finalized_blocks_cons).
  destruct (apply_finalized_block_Ok _ _ _ _ _ _ Hb) as (Hv & Hcom & Hchain & _).
  assert (chain_id s1 = c) as Hs1c.
  { eapply (apply_finalized_blocks_ok _ _ (ledger_new c)) in Hfront as (_ & _ & ?); [done|apply ledger_new_ok|].
    pose proof (server_typed _ _ _ _ Hs') as Ht. rewrite fmap_app in Ht. by apply Forall_app in Ht as [Ht _]. }
  pose proof (replayed_height _ _ _ _ (holds_replay _ _ _ _ (client_holds _ _ _ _ Hc))) as Hcl.
  pose proof (replayed_height _ _ _ _ (server_replay _ _ _ _ Hs)) as Hsl. rewrite length_app in Hsl.
  assert (0 < length rest)%nat as Hpos by (destruct rest; [done|simpl; lia]).
  destruct (Hreq 0%nat) as [id' Hid']; [lia|]. rewrite <- head_lookup in Hid'.
  destruct (status_starts c done db' client_ peer id (height (na_ledger server_)) (hash_to_string (tip_hash (na_ledger server_)))
    (hash_to_string (state_root (na_ledger server_))) (is_syncing server_) b cert id')
    as (client' & Ec & Hc1 & Hcl1 & Ha & Hlast & Hrq); try done; [lia|congruence|by rewrite Htip|by rewrite Hroot|].
  exists server', client', id'. split; [|split; [done|]].
  - unfold deliver. rewrite Es. cbn [fst]. rewrite Hout, drop_app_length. unfold status_of. by rewrite Ec.
  - rewrite <- app_assoc, <- Hrest in Hs1. split; rewrite ?Hl1; try done.
    + by apply (responds_tail _ server_).
    + by apply (requests_tail _ client_).
Qed.
End sync.
