(* ===== verification/NodeMain.v ===== *)
(** * The node binary

    [crates/kcoin-node/src/main.rs]: from the arguments to a running actor, with
    [spawn_network] of [network.rs].  What the outside answers on the way comes
    in [MainAnswers]. *)

From S2P Require Import Prelude Errors Crypto Transaction Block Commit Ledger LedgerFacts Replay ConsensusTypes Engine Sqlite Store StoreFacts NodeTypes Config Schema Projection Recovery NodeState Node NodeCommands Network NodeSteps NodeChain NodeStart NodeMempool NodeExplorer NodeReindex ApiFacts NodeCommit.

(** [str::parse::<Multiaddr>]. *)
Class MultiaddrParse `{Swarm} : Type := multiaddr_parse : ustring -> option Multiaddr.

Section spawn.
Context `{Libp2p, !Swarm, !MultiaddrParse, !Borsh GossipEnvelope}.

(** What libp2p answers while a network starts: [with_dns], [subscribe] and
    [listen_on]. *)
Record SpawnAnswers : Type := mk_SpawnAnswers {
  spawn_dns : bool;
  spawn_subscribe : ustring -> bool;
  spawn_listen : Multiaddr -> bool
}.

Definition TOPICS : list ustring := [TRANSACTIONS_TOPIC; CONSENSUS_TOPIC; FINALIZED_TOPIC].

(** The gossip topics of a node of [chain_id]. *)
Definition subscriptions (chain_id : ustring) : list ustring := topic_of chain_id <$> TOPICS.

(** [format!("/ip4/0.0.0.0/udp/{listen_port}/quic-v1")]. *)
Definition listen_address (listen_port : Z) : ustring :=
  str "/ip4/0.0.0.0/udp/" ++ to_string listen_port ++ str "/quic-v1".

(** [?] on an answer of libp2p. *)
Definition network_ok (b : bool) : result AnyError () := if b then Ok () else Err NetworkFailed.

(** The task that [spawn_network] starts. *)
Definition spawn_network (answers : SpawnAnswers) (chain_id : ustring) (listen_port : Z)
    (bootstrap : list Multiaddr) (allowlist : gset PeerId) : result AnyError NetworkState :=
  _ ← network_ok (spawn_dns answers);
  _ ← try_collect (fun topic => network_ok (spawn_subscribe answers topic)) (subscriptions chain_id);
  listen ← ok_or (multiaddr_parse (listen_address listen_port)) NetworkFailed;
  _ ← network_ok (spawn_listen answers listen);
  Ok (network_new bootstrap allowlist).
End spawn.

Section main.
Context `{Blake3, Blake3Checksum, Ed25519, !SigningKeyBytes, Hex, Bech32, ChallengeJson, Libp2p, !Swarm, !MultiaddrParse,
          !Borsh UnsignedTransaction, !Borsh SignedTransaction, !Borsh BlockHeader, !Borsh Block,
          !Borsh StateCommitment, !Borsh CommitVote, !Borsh CommitCertificate,
          !Borsh SignableMessage, !Borsh SignedMessage, !Borsh SignedProposal,
          !Borsh FinalizedWireRecord, !Borsh ValidatorStatusMessage, !Borsh GossipEnvelope, !SerdeJson SafetyState}.

Record MainAnswers : Type := mk_MainAnswers {
  main_config_fs : Filesystem;
  main_open_fs : Filesystem;
  main_refused : option SqliteError;
  main_faults : list (option SqliteError);
  main_spawn : SpawnAnswers;
  main_peers : gset PeerId;
  main_environment : Environment;
  main_bind : SocketAddr -> bool
}.

(** A node whose API is about to be served. *)
Record Running : Type := mk_Running {
  run_config : NodeConfig;
  run_network : option NetworkState;
  run_actor : NodeActor
}.

Definition parse_peer (peer : ustring) : result AnyError Multiaddr :=
  with_context "invalid peer" (ok_or (multiaddr_parse peer) NetworkFailed).

(** A demonstration node goes on without a network. *)
Definition network_or_demo (config : NodeConfig) (spawned : result AnyError NetworkState) :
    result AnyError (option NetworkState) :=
  match spawned with
  | Ok network => Ok (Some network)
  | Err e => if cfg_demo config then Ok None else with_context "start libp2p network" (Err e)
  end.

(** [main] once the store is open. *)
Definition main_with_store (answers : MainAnswers) (config : NodeConfig) (store : Sqlite.Store Database) :
    result AnyError Running :=
  bootstrap ← try_collect parse_peer (cfg_peers config);
  network ← network_or_demo config
              (spawn_network (main_spawn answers) (cfg_node_chain_id config) (cfg_p2p_port config) bootstrap ∅);
  actor ← (start_node config (bool_decide (is_Some network))
             (match network with Some _ => main_peers answers | None => ∅ end) (main_environment answers) store).2;
  if main_bind answers (cfg_api_addr config) then Ok (mk_Running config network actor)
  else with_context "bind API" (Err IoFailed).

(** [main] on the arguments and a database file: the file afterwards, and the
    running node. Starting reads the store only, see [reading_load_node]. *)
Definition main (answers : MainAnswers) (args : NodeArgs) (f : DiskFile) : DiskFile * result AnyError Running :=
  match node_config_try_from (main_config_fs answers) args with
  | Err e => (f, Err e)
  | Ok config =>
      match open (main_open_fs answers) (main_refused answers) (main_faults answers) (cfg_db_path config) f with
      | (f, Err e) => (f, Err (WithContext "open node database" (StoreFailed e)))
      | (f, Ok store) => (f, main_with_store answers config store)
      end
  end.

(** ** What a start guarantees *)

Lemma chain_id_nonempty value c : chain_id_new value = Ok c -> 1 <= Z.of_nat (length (utf8 value)).
Proof.
  intros Hc. destruct (chain_id_new_Ok_inv _ _ Hc) as [-> Hvalid]. unfold chain_id_validate in Hvalid. simpl in Hvalid.
  destruct (utf8 value); [done|]. simpl. lia.
Qed.

(** A recovering validator finds the safety row of the next height, or none. *)
Lemma recovers_next_height config ledger ids cids key s s' r h b :
  idle s -> initialize_consensus_recovery config ledger ids cids (Some key) s = (s', Ok r) ->
  consensus_safety (durable s) = Some (h, b) -> h = height ledger + 1.
Proof.
  intros Hi Hr Hrow. unfold initialize_consensus_recovery in Hr. cbv zeta in Hr.
  apply bind_Ok_inv in Hr as (s1 & vs & Hs & Hr). injection Hs as <- _.
  apply bind_Ok_inv in Hr as (s1 & stored & Hs & Hr). unfold from_store in Hs.
  destruct (consensus_safety_state s) as [s2 r2] eqn:E. injection Hs as -> Hs. apply map_err_Ok_inv in Hs as ->.
  apply read_Ok in E as (_ & _ & Hq); [|done]. rewrite Hrow in Hq. simpl in Hq.
  apply result_bind_Ok_inv in Hq as ([h' b'] & Hq & [= <-]).
  apply result_bind_Ok_inv in Hq as (h'' & [-> _]%from_sql_u64_Ok & [= <- <-]).
  destruct (h =? height ledger + 1) eqn:Heq; [by apply Z.eqb_eq|done].
Qed.

(** So does a validator that starts. *)
Lemma start_validator config network peers env s s' self h b :
  idle s -> cfg_role config = RoleValidator -> start_node config network peers env s = (s', Ok self) ->
  consensus_safety (durable s) = Some (h, b) -> h = height (na_ledger self) + 1 /\ 0 < h.
Proof.
  intros Hi Hrole Hr Hrow. unfold start_node in Hr.
  destruct (load_node config s) as [s1 [[[[c ledger] key] rec]|e]] eqn:E; [|done].
  injection Hr as <- <-. unfold initial_actor. cbn [na_ledger]. unfold load_node in E.
  apply bind_Ok_inv in E as (s2 & c' & Hs & E). injection Hs as <- _. destruct (_ && _ && _) in E; [done|].
  apply bind_Ok_inv in E as (s2 & rows & Hs & E).
  assert (reading s s2) as [Hd Hi2%(fun H => H Hi)].
  { revert Hs. apply (reading_from_store _ _ (reading_read _ s)). }
  apply bind_Ok_inv in E as (s3 & history & Hs3 & E). injection Hs3 as <- _.
  apply bind_Ok_inv in E as (s3 & l & Hs3 & E). injection Hs3 as <- Hl%map_err_Ok_inv%map_err_Ok_inv.
  unfold role_is in E. rewrite Hrole, bool_decide_eq_true_2 in E by done.
  apply bind_Ok_inv in E as (s3 & k & Hk & E).
  apply bind_Ok_inv in Hk as (s4 & i & Hs4 & Hk). injection Hs4 as <- _.
  apply bind_Ok_inv in Hk as (s4 & key' & Hs4 & Hk). injection Hs4 as <- _. injection Hk as <- <-.
  apply bind_Ok_inv in E as (s4 & rec' & Hrec & E). injection E as _ _ <- _ _.
  rewrite <- Hd in Hrow. pose proof (recovers_next_height _ _ _ _ _ _ _ _ _ _ Hi2 Hrec Hrow) as ->.
  pose proof (replayed_height _ _ _ _ Hl). lia.
Qed.

(** The actor is the configured one, with the key of its validator. *)
Definition local_key (config : NodeConfig) (key : option SigningKey) : Prop :=
  if role_is config RoleValidator
  then exists i k, cfg_validator_index config = Some i /\ deterministic_dev_validator_keys !! Z.to_nat i = Some k /\ key = Some k
  else key = None.

Lemma start_identity config network peers env s s' self :
  start_node config network peers env s = (s', Ok self) ->
  node_config self = config /\ id_network (na_identity self) = network /\ local_key config (node_key self).
Proof.
  unfold start_node. destruct (load_node config s) as [s1 [[[[c ledger] key] rec]|e]] eqn:E; [|done].
  intros [= <- <-]. split_and!; [done..|]. unfold load_node in E.
  apply bind_Ok_inv in E as (s2 & c' & Hs & E). destruct (_ && _ && _) in E; [done|].
  do 3 apply bind_Ok_inv in E as (? & ? & _ & E). apply bind_Ok_inv in E as (s3 & k & Hk & E).
  apply bind_Ok_inv in E as (s4 & rec' & _ & E). injection E as _ _ _ <- _. unfold local_key. cbn.
  destruct (role_is config RoleValidator); [|by injection Hk].
  apply bind_Ok_inv in Hk as (s5 & i & Hi & Hk). injection Hi as _ Hi. apply ok_or_Ok_inv in Hi.
  apply bind_Ok_inv in Hk as (s6 & key' & Hkey & Hk). injection Hkey as _ Hkey. apply ok_or_Ok_inv in Hkey.
  injection Hk as _ <-. by exists i, key'.
Qed.

Lemma parse_peers_Ok peers addresses :
  try_collect parse_peer peers = Ok addresses -> Forall2 (fun peer address => multiaddr_parse peer = Some address) peers addresses.
Proof.
  revert addresses. induction peers as [|p peers IH]; intros l; cbn [try_collect]; [intros [= <-]; constructor|].
  intros (a & Ha & Hr)%result_bind_Ok_inv. apply result_bind_Ok_inv in Hr as (rest & Hr & [= <-]).
  constructor; [|by apply IH]. by apply map_err_Ok_inv, ok_or_Ok_inv in Ha.
Qed.

(** A network that is up has subscribed to the topics of the chain and listens
    on the port. *)
Definition listening (answers : SpawnAnswers) (chain_id : ustring) (port : Z) : Prop :=
  (forall topic, topic ∈ subscriptions chain_id -> spawn_subscribe answers topic = true) /\
  (exists address, multiaddr_parse (listen_address port) = Some address /\ spawn_listen answers address = true).

Lemma network_ok_Ok b u : network_ok b = Ok u -> b = true.
Proof. by destruct b. Qed.

(** A network that starts knows the given addresses and nothing else yet. *)
Lemma spawn_network_Ok answers chain_id port bootstrap allowlist n :
  spawn_network answers chain_id port bootstrap allowlist = Ok n ->
  n = network_new bootstrap allowlist /\ listening answers chain_id port.
Proof.
  unfold spawn_network. intros (? & _ & Hr)%result_bind_Ok_inv.
  apply result_bind_Ok_inv in Hr as (? & Hsub%try_collect_Ok & Hr).
  apply result_bind_Ok_inv in Hr as (address & Ha%ok_or_Ok_inv & Hr).
  apply result_bind_Ok_inv in Hr as (? & Hl%network_ok_Ok & [= <-]). split; [done|]. split; [|by exists address].
  intros topic Hin. apply list_elem_of_lookup in Hin as [i Hi].
  destruct (Forall2_lookup_l _ _ _ _ _ Hsub Hi) as (? & _ & Ht). by apply network_ok_Ok in Ht.
Qed.

(** What a running node went through. *)
Lemma main_Ok answers args f f' running :
  supported f -> main answers args f = (f', Ok running) ->
  exists config store s' bootstrap,
    node_config_try_from (main_config_fs answers) args = Ok config /\ run_config running = config /\
    complete f' /\ file_rows f' = upgraded f /\ idle store /\ durable store = upgraded f /\
    start_node config (bool_decide (is_Some (run_network running)))
      (match run_network running with Some _ => main_peers answers | None => ∅ end)
      (main_environment answers) store = (s', Ok (run_actor running)) /\
    try_collect parse_peer (cfg_peers config) = Ok bootstrap /\
    match run_network running with
    | Some n => n = network_new bootstrap ∅ /\
        listening (main_spawn answers) (cfg_node_chain_id config) (cfg_p2p_port config)
    | None => cfg_demo config = true
    end /\
    main_bind answers (cfg_api_addr config) = true.
Proof.
  intros Hs Hr. unfold main in Hr. destruct (node_config_try_from _ _) as [config|e]; [|done].
  destruct (open _ _ _ _ _) as [f1 [store|e]] eqn:Ho; [|done]. injection Hr as <- Hr.
  destruct (open_upgrades _ _ _ _ _ _ _ Hs Ho) as (_ & Hu & Hst).
  destruct (Hst store eq_refl) as (Hc & Hd & Hi & _).
  unfold main_with_store in Hr. apply result_bind_Ok_inv in Hr as (bootstrap & Hboot & Hr).
  apply result_bind_Ok_inv in Hr as (network & Hn & Hr). apply result_bind_Ok_inv in Hr as (actor & Ha & Hr).
  destruct (main_bind _ _) eqn:Hbind; [|done]. injection Hr as <-. cbn [run_config run_network run_actor].
  destruct (start_node _ _ _ _ store) as [s' r] eqn:E. cbn [snd] in Ha. subst r.
  exists config, store, s', bootstrap. split_and!; try done.
  - by rewrite <- (complete_upgraded _ Hc).
  - unfold network_or_demo in Hn. destruct (spawn_network _ _ _ _ _) eqn:Hsp.
    + injection Hn as <-. by apply spawn_network_Ok in Hsp.
    + destruct (cfg_demo config) eqn:Hdemo; [|done]. by injection Hn as <-.
Qed.

(** ** Starting without a key *)

Definition may_start (config : NodeConfig) : Prop :=
  cfg_role config <> RoleValidator /\
  (cfg_role config = RoleStandalone \/ cfg_demo config = true \/
   contains_text (str "local") (cfg_node_chain_id config) = true).

Context `{!BorshLaws Block, !BorshLaws CommitCertificate}.

Lemma load_without_key config db c ledger :
  may_start config -> chain_id_new (cfg_node_chain_id config) = Ok c -> disk_typed db -> stores_chain c db ledger ->
  load_node config (settled db) =
  (settled db, Ok (c, ledger, None, mk_ConsensusRecovery None ∅ [] [])).
Proof.
  intros [Hrole Hmay] Hc Ht Hchain. unfold load_node.
  destruct (stored_history _ _ _ Hchain) as (history & Hrows & Hrep).
  rewrite (bind_run_Ok (lift _) _ (settled db) (settled db) c) by (unfold lift; by rewrite Hc).
  replace (negb (role_is config RoleStandalone) && negb (cfg_demo config) &&
           negb (contains_text (str "local") (cfg_node_chain_id config))) with false.
  2:{ unfold role_is. destruct Hmay as [->|[->| ->]]; simpl; by rewrite ?andb_false_r. }
  rewrite (bind_run_Ok (from_store canonical_block_rows) _ (settled db) (settled db) (blocks_ascending db))
    by (unfold from_store; by rewrite (rows_read db history Ht Hrows)).
  assert (try_collect decode_history_row (blocks_ascending db) = Ok history) as Hh.
  { apply decode_history. eapply Forall2_impl; [exact Hrows|]. by intros row bc [? _]. }
  rewrite (bind_run_Ok (lift _) _ (settled db) (settled db) history) by (unfold lift; by rewrite Hh).
  rewrite (bind_run_Ok (lift _) _ (settled db) (settled db) ledger) by (unfold lift; by rewrite Hrep).
  unfold role_is. rewrite (bool_decide_eq_false_2 (cfg_role config = RoleValidator)) by done. done.
Qed.

(** The whole way for a node that needs no key. *)
Lemma main_succeeds answers args f c ledger config bootstrap :
  supported f -> disk_typed (upgraded f) -> stores_chain c (upgraded f) ledger ->
  node_config_try_from (main_config_fs answers) args = Ok config -> may_start config ->
  chain_id_new (cfg_node_chain_id config) = Ok c ->
  (forall p, fs_create_dir_all (main_open_fs answers) p = true) ->
  main_refused answers = None -> main_faults answers = [] ->
  try_collect parse_peer (cfg_peers config) = Ok bootstrap ->
  cfg_demo config = true \/
    is_ok (spawn_network (main_spawn answers) (cfg_node_chain_id config) (cfg_p2p_port config) bootstrap ∅) = true ->
  main_bind answers (cfg_api_addr config) = true ->
  exists f' running, main answers args f = (f', Ok running) /\
    na_ledger (run_actor running) = ledger /\ na_store (run_actor running) = settled (upgraded f) /\
    (run_network running = None <->
       is_ok (spawn_network (main_spawn answers) (cfg_node_chain_id config) (cfg_p2p_port config) bootstrap ∅) = false).
Proof.
  intros Hs Ht Hchain Hconf Hmay Hc Hdir Hrefused Hfaults Hpeers Hnet Hbind.
  destruct (open_settled (main_open_fs answers) (cfg_db_path config) f Hs Hdir) as (f' & Hopen & _).
  unfold main. rewrite Hconf, Hrefused, Hfaults.
  rewrite Hopen. unfold main_with_store. rewrite Hpeers. cbn [mbind result_bind].
  set (spawned := spawn_network _ _ _ _ _) in *.
  assert (exists network, network_or_demo config spawned = Ok network /\ (network = None <-> is_ok spawned = false))
    as (network & -> & Hnone).
  { unfold network_or_demo. destruct spawned; [by eexists|]. destruct Hnet as [->|]; [by eexists|done]. }
  cbn [mbind result_bind]. unfold start_node.
  rewrite (load_without_key config _ c ledger Hmay Hc Ht Hchain). cbn [snd mbind result_bind].
  rewrite Hbind. eexists _, _. by split.
Qed.
End main.
