(* ===== verification/ApiPages.v ===== *)
(** * Pages of the explorer

    An explorer that follows [next_cursor] pages through the blocks while the
    node finalizes more: the pages below a cursor never change. *)

From Stdlib Require Import Lia.
From stdpp Require Import sorting.
From S2P Require Import Prelude Errors Crypto Transaction Block Commit Ledger LedgerFacts Replay ConsensusTypes Engine Sqlite Store StoreFacts NodeTypes Projection Recovery NodeState Node Api NodeCommands NodeSteps NodeChain NodeMempool NodeExplorer ApiFacts.

(** ** Descending lists *)

Section descending.
Context {A : Type} (f : A -> Z).

Abbreviation descending := (StronglySorted (fun a b => f b < f a)).

Lemma descending_NoDup l : descending l -> NoDup l.
Proof.
  induction 1 as [|x l _ IH Hx]; [constructor|]. constructor; [|done].
  intros Hin. pose proof (proj1 (Forall_forall _ _) Hx x Hin). simpl in *. lia.
Qed.

Lemma descending_ext l1 l2 : descending l1 -> descending l2 -> (forall x, x ∈ l1 <-> x ∈ l2) -> l1 = l2.
Proof.
  intros Hl1 Hl2 Hin. eapply StronglySorted_unique_strong; [|exact Hl1|exact Hl2|].
  - intros x y _ _ Hxy Hyx. simpl in *. lia.
  - apply NoDup_Permutation; [by apply descending_NoDup..|done].
Qed.

Lemma filter_all (P : A -> Prop) `{!forall x, Decision (P x)} l : Forall P l -> filter P l = l.
Proof. induction 1 as [|x l Hx _ IH]; [done|]. by rewrite filter_cons_True, IH. Qed.

(** Below the last of the first [n] is the rest. *)
Lemma descending_below l n x :
  descending l -> last (take n l) = Some x -> filter (fun y => f y < f x) l = drop n l.
Proof.
  intros Hl Hx. rewrite <- (take_drop n l) at 1. rewrite filter_app.
  rewrite <- (take_drop n l) in Hl. apply last_Some in Hx as [l' Hx]. rewrite Hx in Hl |- *.
  assert (filter (fun y => f y < f x) (l' ++ [x]) = []) as ->.
  { apply elem_of_nil_inv. intros y [Hy Hin]%list_elem_of_filter. apply elem_of_app in Hin as [Hin|Hin%list_elem_of_singleton].
    - rewrite <- app_assoc in Hl. pose proof (StronglySorted_cut _ _ _ y x Hl Hin) as Hc. simpl in Hc.
      specialize (Hc ltac:(set_solver)). lia.
    - subst. lia. }
  simpl. apply filter_all. apply Forall_forall. intros y Hy.
  apply (StronglySorted_cut _ _ _ x y Hl); [set_solver|done].
Qed.
End descending.

Section pages.
Context `{Blake3, Blake3Checksum, Ed25519, !SigningKeyBytes, Hex, Bech32, ChallengeJson, Libp2p,
          !Borsh UnsignedTransaction, !Borsh SignedTransaction, !Borsh BlockHeader, !Borsh Block,
          !Borsh StateCommitment, !Borsh CommitVote, !Borsh CommitCertificate,
          !Borsh SignableMessage, !Borsh SignedMessage, !Borsh SignedProposal,
          !Borsh FinalizedWireRecord, !Borsh ValidatorStatusMessage, !SerdeJson SafetyState}.
Context `{Base64, Chrono, ChallengeResponseJson}.
Context `{!BorshLaws Block, !BorshLaws CommitCertificate, !HexLaws, !Bech32Laws}.

(** ** The blocks of a growing chain *)

(** All blocks, newest first, and those below a height. *)
Definition newest (db : Database) : list BlockRow := reverse (blocks_ascending db).
Definition below (before : option Z) (db : Database) : list BlockRow := filter (is_before before) (newest db).

(** [db'] has the blocks of [db], and further ones only above them. *)
Definition grows (db db' : Database) : Prop :=
  (forall h row, blocks db !! h = Some row -> blocks db' !! h = Some row) /\
  (forall h row h' row', blocks db' !! h = Some row -> blocks db !! h = None -> blocks db !! h' = Some row' -> h' < h).

#[export] Instance grows_preorder : PreOrder grows.
Proof.
  split; [by split; [|congruence]|]. intros d1 d2 d3 [S12 G12] [S23 G23]. split; [by auto|].
  intros h row h' row' H3r H1n H1r. destruct (blocks d2 !! h) as [r|] eqn:E; [by eapply G12|].
  eapply G23; [done..|]. by apply S12.
Qed.

Lemma step_grows c s s' :
  actor_step s s' -> explorer_inv c s -> grows (durable (na_store s)) (durable (na_store s')).
Proof.
  intros Hs Hi. split; [intros h row; by eapply step_blocks|]. destruct Hi as [Hv [Hc _]]. unfold node_validators in Hv.
  destruct Hs as [s' Q|st R| | | |op st reply _ Hop _ _ He| | |b cert ledger rs p st reply _ Ha Hp Hder _ _ He kept|];
    simpl; try (intros; congruence).
  - rewrite (quiet_store _ _ Q). intros; congruence.
  - rewrite (proj1 R). intros; congruence.
  - rewrite (effect_record_blocks _ _ _ _ Hop He). intros; congruence.
  - unfold node_validators in Ha. rewrite Hv in Ha. destruct (stored_history _ _ _ Hc) as (history & Hrows & _).
    destruct (stores_chain_commit_rows _ _ _ _ _ _ _ _ _ _ _ Hc Hrows Ha Hp Hder He) as [_ ->].
    destruct (apply_finalized_block_Ok _ _ _ _ _ _ Ha) as (_ & _ & _ & Hh & _).
    intros h row h' row' Hr Hn Hr'. destruct (decide (h = fp_height p)) as [->|Hne]; [|rewrite lookup_insert_ne in Hr by done; congruence].
    destruct (stored_keys _ _ _ Hc h' row' Hr'). rewrite (projects_height _ _ _ Hp). lia.
Qed.

Lemma steps_grows c s s' :
  rtc actor_step s s' -> explorer_inv c s -> grows (durable (na_store s)) (durable (na_store s')).
Proof.
  induction 1 as [|s1 s2 s3 Hs _ IH]; [done|]. intros Hi. etrans; [by eapply step_grows|]. apply IH. by eapply step_explorer_inv.
Qed.

Lemma onward_grows c s s' : onward c s s' -> api_serving c s -> grows (disk s) (disk s').
Proof. intros Ho Hs. destruct (Ho Hs) as [_ Hsteps]. eapply steps_grows; [done|]. apply (api_serving_node _ _ Hs). Qed.

Lemma elem_of_newest db row : row ∈ newest db <-> exists h, blocks db !! h = Some row.
Proof. unfold newest. rewrite elem_of_reverse. apply elem_of_btree_values. Qed.

Lemma elem_of_below before db row : row ∈ below before db <-> is_before before row /\ exists h, blocks db !! h = Some row.
Proof. unfold below. by rewrite list_elem_of_filter, elem_of_newest. Qed.

Lemma below_sorted c s before :
  api_serving c s -> StronglySorted (fun a b => br_height b < br_height a) (below before (disk s)).
Proof.
  intros Hs. eapply StronglySorted_sublist; [|apply sublist_filter].
  destruct (serving_chain _ _ (api_serving_node _ _ Hs)) as [history Hc].
  apply (StronglySorted_reverse (fun a b => br_height a < br_height b)), btree_values_sorted.
  intros h row Hrow. apply (chain_keys _ _ _ Hc h row Hrow).
Qed.

(** Below a stored block nothing changes. *)
Lemma below_stable c s s' h row :
  api_serving c s -> onward c s s' -> blocks (disk s) !! h = Some row -> below (Some h) (disk s') = below (Some h) (disk s).
Proof.
  intros Hs Ho Hrow. destruct (Ho Hs) as [Hs' _]. destruct (onward_grows _ _ _ Ho Hs) as [Hsub Hnew].
  apply (descending_ext br_height); [by apply (below_sorted c)..|]. intros r. rewrite !elem_of_below. simpl.
  destruct (serving_chain _ _ (api_serving_node _ _ Hs')) as [history' Hc'].
  split; intros [Hlt [h' Hr]]; split; try done; [|by eauto].
  destruct (blocks (disk s) !! h') as [r'|] eqn:E; [by rewrite (Hsub _ _ E) in Hr; simplify_eq; eauto|].
  destruct (chain_keys _ _ _ Hc' h' r Hr) as [Hh' _]. pose proof (Hnew _ _ _ _ Hr E Hrow). lia.
Qed.

(** ** One page *)

Definition query_of (before : option Z) (limit : option Z) : CursorQuery := mk_CursorQuery (to_string <$> before) limit.

(** The rows of a page: the highest below the cursor. *)
Definition page_rows (before limit : option Z) (db : Database) : list BlockRow :=
  take (Z.to_nat (page_limit (query_of before limit) 25)) (below before db).

Definition page_next (before limit : option Z) (db : Database) : option Z :=
  if has_more (page_limit (query_of before limit) 25) (below before db) then br_height <$> last (page_rows before limit db) else None.

Lemma try_collect_self {A E} (f : A -> result E A) l : (forall x, x ∈ l -> f x = Ok x) -> try_collect f l = Ok l.
Proof.
  induction l as [|x l IH]; intros Hf; [done|]. simpl. rewrite Hf by set_solver. simpl.
  rewrite IH; [done|]. intros y Hy. apply Hf. set_solver.
Qed.

Lemma list_blocks_read c s before n :
  api_serving c s -> (forall h, before = Some h -> h <= i64_max) ->
  on_store (list_blocks before n) s =
  (advance s, Ok (limit (clamp 1 101 n) (below before (disk (advance s))))).
Proof.
  intros Hs Hb. pose proof (api_serving_advance _ _ Hs) as Hs1. unfold list_blocks. rewrite (on_store_read c) by done.
  assert (to_sql_option before = Ok before) as ->.
  { destruct before as [h|]; [|done]. unfold to_sql_option. by rewrite (proj2 (to_sql_u64_Ok h h)) by auto. }
  cbn [mbind result_bind]. fold (newest (disk (advance s))). fold (below before (disk (advance s))).
  rewrite try_collect_self; [done|]. intros row Hrow. apply elem_of_take in Hrow as (i & Hrow%list_elem_of_lookup_2 & _).
  apply elem_of_below in Hrow as [_ [h Hrow]]. destruct (serving_row _ _ _ _ Hs1 Hrow) as (b & cert & Hs2).
  destruct (api_serving_node _ _ Hs1) as (_ & _ & Ht). by destruct (block_row_reads _ _ _ _ _ Ht Hs2).
Qed.

Lemma page_limit_range q n : 1 <= page_limit q n <= 100.
Proof. unfold page_limit, clamp. lia. Qed.

Lemma get_blocks_page c s before limit :
  api_serving c s -> (forall h, before = Some h -> 0 <= h <= i64_max) ->
  exists s' l, get_blocks (query_of before limit) s =
      (s', Ok (mk_Paginated l (to_string <$> page_next before limit (disk (advance s))))) /\
    onward c (advance s) s' /\
    Forall2 (fun row e => exists b cert, row_of row (b, cert) /\ serves_block b cert false e)
      (page_rows before limit (disk (advance s))) l.
Proof.
  intros Hs Hb. pose proof (api_serving_advance _ _ Hs) as Hs1. unfold get_blocks. set (q := query_of before limit).
  rewrite (bind_run_Ok _ _ s s before).
  2: { subst q. unfold query_of; simpl. destruct before as [h|]; [|done]. cbn [transpose fmap option_fmap option_map lift].
       rewrite parse_uint_to_string; [done|..]; specialize (Hb h eq_refl); unfold in_range, u64_max, i64_max in *; lia. }
  cbv zeta. pose proof (page_limit_range q 25) as Hn. set (n := page_limit q 25) in *.
  rewrite (bind_run_Ok _ _ _ _ _ (list_blocks_read c s before (n + 1) Hs (fun h E => proj2 (Hb h E)))).
  assert (clamp 1 101 (n + 1) = n + 1) as -> by (unfold clamp; lia).
  set (rows := below before (disk (advance s))). unfold Store.limit.
  assert (truncate n (take (Z.to_nat (n + 1)) rows) = page_rows before limit (disk (advance s))) as ->.
  { unfold truncate, page_rows. rewrite take_take. f_equal. fold q n. lia. }
  assert (has_more n (take (Z.to_nat (n + 1)) rows) = has_more n rows) as Hmore.
  { unfold has_more. rewrite length_take. destruct (Z.ltb_spec n (Z.of_nat (length rows))), (Z.ltb_spec n (Z.of_nat (Nat.min (Z.to_nat (n + 1)) (length rows)))); lia || done. }
  rewrite Hmore.
  destruct (explorer_blocks_serve c (advance s) (page_rows before limit (disk (advance s))) Hs1) as (s' & l & Hl & Ho & Hall).
  { intros row Hrow. apply elem_of_take in Hrow as (i & Hrow%list_elem_of_lookup_2 & _).
    apply elem_of_below in Hrow as [_ [h Hrow]]. destruct (serving_row _ _ _ _ Hs1 Hrow) as (b & cert & Hst). by exists h, b, cert. }
  rewrite (bind_run_Ok _ _ _ _ _ Hl). exists s', l. split_and!; [|done..]. unfold page_next. fold q n rows.
  destruct (has_more n rows); [|done]. simpl. do 3 f_equal. by destruct (last _).
Qed.

(** ** Following the cursor *)

(** What an explorer does: it asks for a page, and for the next one while the
    answer names a cursor. *)
Fixpoint walk_blocks (fuel : nat) (limit : option Z) (cursor : option ustring) : stE ApiState ApiError (list ExplorerBlock) :=
  match fuel with
  | O => throw (internal (str "too many pages"))
  | S fuel =>
      page ← get_blocks (mk_CursorQuery cursor limit);
      match next_cursor page with
      | Some next => rest ← walk_blocks fuel limit (Some next); mret (items page ++ rest)
      | None => mret (items page)
      end
  end.

Lemma below_None db : below None db = newest db.
Proof. unfold below. apply filter_all, Forall_forall. done. Qed.

(** The rows below the last of a page are the rest. *)
Lemma below_rest c s before limit h :
  api_serving c s -> page_next before limit (disk s) = Some h ->
  (exists row, blocks (disk s) !! h = Some row) /\
  below (Some h) (disk s) = drop (Z.to_nat (page_limit (query_of before limit) 25)) (below before (disk s)).
Proof.
  intros Hs Hnext. unfold page_next in Hnext. destruct (has_more _ _); [|done].
  destruct (last (page_rows before limit (disk s))) as [row|] eqn:Hlast; [|done]. injection Hnext as <-.
  unfold page_rows in Hlast.
  assert (row ∈ below before (disk s)) as Hin.
  { apply last_Some in Hlast as [l' Hl]. eapply elem_of_sublist; [|apply sublist_take]. rewrite Hl. set_solver. }
  apply elem_of_below in Hin as [Hbefore [h Hrow]]. split.
  - exists row. destruct (serving_chain _ _ (api_serving_node _ _ Hs)) as [history Hc].
    by destruct (chain_keys _ _ _ Hc h row Hrow) as [-> _].
  - rewrite <- (descending_below br_height _ _ row (below_sorted _ _ before Hs) Hlast). unfold below.
    rewrite list_filter_filter_l; [done|]. intros y Hy. destruct before; simpl in *; lia || done.
Qed.

Lemma walk_from c fuel limit before s :
  api_serving c s -> (forall h, before = Some h -> 0 <= h /\ exists row, blocks (disk s) !! h = Some row) ->
  (length (below before (disk (advance s))) < fuel)%nat ->
  exists s' l, walk_blocks fuel limit (to_string <$> before) s = (s', Ok l) /\
    Forall2 (fun row e => exists b cert, row_of row (b, cert) /\ serves_block b cert false e)
      (below before (disk (advance s))) l.
Proof.
  revert before s. induction fuel as [|fuel IH]; intros before s Hs Hb Hfuel; [lia|].
  pose proof (api_serving_advance _ _ Hs) as Hs1. cbn [walk_blocks].
  destruct (get_blocks_page c s before limit Hs) as (s' & l & Hrun & Ho & Hall).
  { intros h Hh. destruct (Hb h Hh) as [Hh0 [row Hrow]]. split; [done|].
    destruct (serving_chain _ _ (api_serving_node _ _ Hs)) as [history Hc]. apply (chain_keys _ _ _ Hc h row Hrow). }
  unfold query_of in Hrun. rewrite (bind_run_Ok _ _ _ _ _ Hrun). cbn [next_cursor items].
  destruct (page_next before limit (disk (advance s))) as [h|] eqn:Hnext; cbn [fmap option_fmap option_map].
  - destruct (below_rest c _ before limit h Hs1 Hnext) as [[row Hrow] Hrest].
    destruct (Ho Hs1) as [Hs' _].
    assert (below (Some h) (disk (advance s')) = below (Some h) (disk (advance s))) as Hstable.
    { eapply below_stable; [exact Hs1| |exact Hrow]. etrans; [exact Ho|apply onward_advance]. }
    set (n := Z.to_nat (page_limit (query_of before limit) 25)) in *.
    pose proof (page_limit_range (query_of before limit) 25) as Hn.
    destruct (IH (Some h) s' Hs') as (s2 & l2 & Hrun2 & Hall2).
    { intros h' [= <-]. split.
      - destruct (serving_row _ _ _ _ Hs1 Hrow) as (b & cert & Hst).
        destruct (stored_block_typed _ _ _ _ _ _ Hs1 Hst) as ((((? & _) & _) & _) & -> & _). done.
      - exists row. by apply (onward_grows _ _ _ Ho Hs1). }
    { rewrite Hstable, Hrest, length_drop. unfold page_next in Hnext. destruct (has_more _ _) eqn:Hm; [|done].
      unfold has_more in Hm. apply Z.ltb_lt in Hm. lia. }
    change (Some (to_string h)) with (to_string <$> Some h). rewrite (bind_run_Ok _ _ _ _ _ Hrun2).
    eexists s2, _. split; [done|]. rewrite Hstable, Hrest in Hall2.
    rewrite <- (take_drop n (below before (disk (advance s)))). apply Forall2_app; [exact Hall|exact Hall2].
  - eexists s', _. split; [done|]. unfold page_next in Hnext. unfold page_rows in *.
    destruct (has_more _ _) eqn:Hm; [|rewrite take_ge in Hall; [exact Hall|]; unfold has_more in Hm; apply Z.ltb_ge in Hm; lia].
    (* a page with another item is not empty *)
    exfalso. unfold has_more in Hm. apply Z.ltb_lt in Hm. pose proof (page_limit_range (query_of before limit) 25).
    destruct (last (take _ _)) eqn:Hl; [done|]. apply last_None in Hl. apply (f_equal length) in Hl.
    rewrite length_take in Hl. simpl in Hl. lia.
Qed.
End pages.
