(* ===== verification/ApiLeaderboard.v ===== *)
(** * The leaderboard's ranking

    The rows of [accounts] with atoms, sorted as the query sorts them, are the
    accounts of the ledger; together they hold at most the supply. *)

From S2P Require Import Prelude Errors Crypto Transaction Block Commit Ledger LedgerFacts Replay ConsensusTypes Engine Sqlite Store StoreFacts NodeTypes Projection Recovery NodeState Node Api NodeCommands NodeSteps NodeChain NodeMempool NodeExplorer ApiFacts.

(** ** The order *)

Lemma text_compare_antisym a b : text_compare b a = CompOpp (text_compare a b).
Proof.
  revert b. induction a as [|x a IH]; intros [|y b]; simpl; try done.
  rewrite (Z.compare_antisym x). destruct (x ?= y); simpl; auto.
Qed.

Lemma text_compare_trans a b c : text_compare a b <> Gt -> text_compare b c <> Gt -> text_compare a c <> Gt.
Proof.
  revert b c. induction a as [|x a IH]; intros [|y b] [|z c]; simpl; try done.
  destruct (Z.compare_spec x y), (Z.compare_spec y z), (Z.compare_spec x z); intros; try done; try lia; eauto.
Qed.

Lemma richer_total x y : richer x y = true \/ richer y x = true.
Proof.
  unfold richer.
  destruct (Z.compare_spec (ap_balance_atoms (aw_account y)) (ap_balance_atoms (aw_account x))) as [E|E|E];
    destruct (Z.compare_spec (ap_balance_atoms (aw_account x)) (ap_balance_atoms (aw_account y))); try lia; auto.
  rewrite (text_compare_antisym (utf8 (ap_address (aw_account x)))). destruct (text_compare _ _); auto.
Qed.

Lemma richer_spec x y :
  richer x y = true <->
  ap_balance_atoms (aw_account y) < ap_balance_atoms (aw_account x) \/
  (ap_balance_atoms (aw_account y) = ap_balance_atoms (aw_account x) /\
   text_compare (utf8 (ap_address (aw_account x))) (utf8 (ap_address (aw_account y))) <> Gt).
Proof.
  unfold richer.
  destruct (Z.compare_spec (ap_balance_atoms (aw_account y)) (ap_balance_atoms (aw_account x))) as [E|E|E].
  - destruct (text_compare _ _); naive_solver lia.
  - naive_solver.
  - naive_solver lia.
Qed.

Lemma richer_trans x y z : richer x y = true -> richer y z = true -> richer x z = true.
Proof.
  rewrite !richer_spec. intros [?|[E1 H1]] [?|[E2 H2]]; try (left; lia).
  right. split; [lia|]. by eapply text_compare_trans.
Qed.

(** ** The share of the supply *)

(** Different accounts hold at most the total. *)
Lemma sum_accounts_sublist (f : AccountState -> Z) (m : gmap Address AccountState) (l : list (Address * AccountState)) :
  map_Forall (fun _ a => 0 <= f a) m -> NoDup l.*1 -> Forall (fun e => m !! e.1 = Some e.2) l ->
  foldr Z.add 0 (f <$> l.*2) <= sum_accounts f m.
Proof.
  revert m. induction l as [|[a x] l IH]; intros m Hm Hnd Hl; simpl.
  { by apply sum_accounts_nonneg. }
  apply NoDup_cons in Hnd as [Ha Hnd]. apply Forall_cons in Hl as [Hx Hl]. simpl in *.
  rewrite <- (insert_delete_id m a x) by done. rewrite sum_accounts_insert_new by apply lookup_delete_eq.
  apply Z.add_le_mono_l. apply IH; [|done|].
  - intros j b [_ Hj]%lookup_delete_Some. by eapply Hm.
  - apply Forall_forall. intros [b y] Hin. simpl. rewrite lookup_delete_ne.
    + by apply (proj1 (Forall_forall _ _) Hl (b, y)).
    + intros ->. apply Ha. apply list_elem_of_fmap. by exists (b, y).
Qed.

Lemma basis_points_range v t : 0 <= v -> 0 <= t -> 0 <= basis_points v t <= 10000.
Proof.
  intros Hv Ht. unfold basis_points. destruct (Z.eqb_spec t 0); [lia|].
  assert (0 <= v * 10000 / t) by (apply Z.div_pos; lia). lia.
Qed.

Lemma basis_points_mono v w t : v <= w -> 0 <= t -> basis_points v t <= basis_points w t.
Proof.
  intros Hvw Ht. unfold basis_points. destruct (Z.eqb_spec t 0); [done|].
  assert (v * 10000 / t <= w * 10000 / t) by (apply Z.div_le_mono; lia). lia.
Qed.

Lemma sum_take_mono (l : list Z) m n : Forall (fun x => 0 <= x) l -> (m <= n)%nat ->
  foldr Z.add 0 (take m l) <= foldr Z.add 0 (take n l).
Proof.
  intros Hl. revert m n. induction Hl as [|x l Hx Hl IH]; intros m n Hmn; [by rewrite !take_nil|].
  destruct m as [|m], n as [|n]; simpl; try lia.
  - assert (Forall (fun x => 0 <= x) (take n l)) as Hn by by apply Forall_take.
    induction Hn; simpl; lia.
  - specialize (IH m n). lia.
Qed.

Lemma sum_nonneg l : Forall (fun x => 0 <= x) l -> 0 <= foldr Z.add 0 l.
Proof. induction 1; simpl; lia. Qed.

Lemma parse_digits_nonneg max acc s n : 0 <= acc -> parse_digits max acc s = Some n -> 0 <= n.
Proof.
  revert acc. induction s as [|d s IH]; intros acc Ha; simpl; [by intros [= <-]|].
  destruct (_ && _) eqn:Hd; [|done]. apply andb_prop in Hd as [Hd _]. apply Z.leb_le in Hd.
  destruct (_ <=? _); [|done]. apply IH. lia.
Qed.

Lemma parse_supply_nonneg s : 0 <= parse_supply s.
Proof.
  unfold parse_supply. destruct (parse_uint u64_max s) as [n|] eqn:E; simpl; [|lia].
  unfold parse_uint in E. destruct s as [|c s]; [done|].
  destruct (c =? 43); [case_bool_decide; [done|]|]; by eapply parse_digits_nonneg, E.
Qed.

Section ranking.
Context `{Blake3, Blake3Checksum, Ed25519, !SigningKeyBytes, Hex, Bech32, ChallengeJson, Libp2p,
          !Borsh UnsignedTransaction, !Borsh SignedTransaction, !Borsh BlockHeader, !Borsh Block,
          !Borsh StateCommitment, !Borsh CommitVote, !Borsh CommitCertificate,
          !Borsh SignableMessage, !Borsh SignedMessage, !Borsh SignedProposal,
          !Borsh FinalizedWireRecord, !Borsh ValidatorStatusMessage, !SerdeJson SafetyState}.
Context `{Base64, Chrono, ChallengeResponseJson}.
Context `{!BorshLaws Block, !BorshLaws CommitCertificate, !HexLaws, !Bech32Laws}.

(** ** The ranking *)

Definition ranking_rows (db : Database) : list AccountRow :=
  sort_by richer (filter (fun row => 0 < ap_balance_atoms (aw_account row)) (map_to_list (accounts db)).*2).
Definition ranking (db : Database) : list AccountProjection := aw_account <$> ranking_rows db.

Lemma ranking_sorted db : StronglySorted (fun a b => ap_balance_atoms b <= ap_balance_atoms a) (ranking db).
Proof.
  unfold ranking, ranking_rows.
  pose proof (sort_by_StronglySorted richer richer_total richer_trans
    (filter (fun row => 0 < ap_balance_atoms (aw_account row)) (map_to_list (accounts db)).*2)) as Hs.
  induction Hs as [|x l _ IH Hx]; simpl; [constructor|]. constructor; [done|].
  apply Forall_fmap. eapply Forall_impl; [exact Hx|]. intros y Hy%richer_spec. simpl. lia.
Qed.

Lemma elem_of_ranking_rows db row :
  row ∈ ranking_rows db <-> 0 < ap_balance_atoms (aw_account row) /\ exists key, accounts db !! key = Some row.
Proof.
  unfold ranking_rows. rewrite sort_by_Permutation, list_elem_of_filter, list_elem_of_fmap. split.
  - intros (Hb & [key row'] & -> & Hin%elem_of_map_to_list). eauto.
  - intros (Hb & key & Hin%elem_of_map_to_list). split; [done|]. by exists (key, row).
Qed.

Lemma ranking_nonneg db x : x ∈ ranking db -> 0 <= ap_balance_atoms x.
Proof. intros (row & -> & [Hb _]%elem_of_ranking_rows)%list_elem_of_fmap. lia. Qed.

(** Every row of [accounts] is an account of the ledger, under its address. *)
Lemma account_row_shown c s history key row :
  chain_of c s history -> accounts (durable (na_store s)) !! key = Some row ->
  exists e : Address * AccountState, Ledger.accounts (na_ledger s) !! e.1 = Some e.2 /\
    key = address_to_string e.1 /\ projected_account e (aw_account row).
Proof.
  intros Hc Hrow. destruct (mirror_account_keys _ _ _ (chain_mirrors _ _ _ Hc) _ _ Hrow) as (a & -> & [x Ha]).
  pose proof (mirror_accounts _ _ _ (chain_mirrors _ _ _ Hc) a) as Hm. rewrite Ha, Hrow in Hm. by exists (a, x).
Qed.

Lemma ranking_NoDup c s history :
  chain_of c s history -> NoDup (ap_address <$> ranking (durable (na_store s))).
Proof.
  intros Hc. unfold ranking, ranking_rows. rewrite <- list_fmap_compose, sort_by_Permutation.
  apply NoDup_fmap_filter.
  assert ((ap_address ∘ aw_account) <$> (map_to_list (accounts (durable (na_store s)))).*2 =
          (map_to_list (accounts (durable (na_store s)))).*1) as ->; [|apply NoDup_fst_map_to_list].
  rewrite <- list_fmap_compose. apply list_fmap_ext. intros i [key row] Hi%list_elem_of_lookup_2%elem_of_map_to_list.
  destruct (account_row_shown _ _ _ _ _ Hc Hi) as (e & _ & -> & He & _). done.
Qed.

(** The accounts behind the ranking. *)
Lemma ranking_accounts c s history :
  chain_of c s history ->
  exists l, Forall2 projected_account l (ranking (durable (na_store s))) /\
    NoDup l.*1 /\ Forall (fun e => Ledger.accounts (na_ledger s) !! e.1 = Some e.2) l /\
    forall a x, Ledger.accounts (na_ledger s) !! a = Some x -> 0 < balance_atoms x -> (a, x) ∈ l.
Proof.
  intros Hc.
  assert (exists l, Forall2 projected_account l (ranking (durable (na_store s))) /\
            Forall (fun e => Ledger.accounts (na_ledger s) !! e.1 = Some e.2) l) as (l & Hl & Hacc).
  { unfold ranking. assert (forall row, row ∈ ranking_rows (durable (na_store s)) -> exists key, accounts (durable (na_store s)) !! key = Some row) as Hrows.
    { intros row Hrow. by apply elem_of_ranking_rows in Hrow as [_ ?]. }
    induction (ranking_rows (durable (na_store s))) as [|row rows IH]; [by exists []|].
    destruct (Hrows row) as [key Hkey]; [set_solver|]. destruct (account_row_shown _ _ _ _ _ Hc Hkey) as (e & He & _ & Hp).
    destruct IH as (l & Hl & Hall); [intros; apply Hrows; set_solver|]. exists (e :: l). by split; constructor. }
  exists l. split_and!; [done| |done|].
  - assert (address_to_string <$> l.*1 = ap_address <$> ranking (durable (na_store s))) as E.
    { clear -Hl. induction Hl as [|e x l k [Hx _] _ IH]; [done|]. csimpl. by rewrite IH, Hx. }
    apply (NoDup_fmap_1 address_to_string). rewrite E. by eapply ranking_NoDup.
  - intros a x Ha Hb. pose proof (mirror_accounts _ _ _ (chain_mirrors _ _ _ Hc) a) as Hm. rewrite Ha in Hm.
    destruct (accounts (durable (na_store s)) !! address_to_string a) as [row|] eqn:Hrow; [|done].
    destruct Hm as (Ea & Eb & _). simpl in *.
    assert (aw_account row ∈ ranking (durable (na_store s))) as (i & Hi)%list_elem_of_lookup.
    { apply list_elem_of_fmap. exists row. split; [done|]. apply elem_of_ranking_rows. split; [lia|eauto]. }
    destruct (Forall2_lookup_r _ _ _ _ _ Hl Hi) as ([a' x'] & He & Hea & _). simpl in *.
    apply list_elem_of_lookup_2 in He. pose proof (proj1 (Forall_forall _ _) Hacc _ He) as Hx'. simpl in *.
    rewrite Ea in Hea. apply address_to_string_inj in Hea. subst a'. rewrite Ha in Hx'. by injection Hx' as ->.
Qed.

(** The richest hold at most the supply: their sum fits its [u64]. *)
Lemma ranking_sum c s history n :
  chain_of c s history ->
  foldr Z.add 0 (ap_balance_atoms <$> take n (ranking (durable (na_store s)))) <= total_supply_atoms (na_ledger s).
Proof.
  intros Hc. destruct (ranking_accounts _ _ _ Hc) as (l & Hl & Hnd & Hacc & _).
  pose proof (chain_ledger_ok _ _ _ Hc) as Hok. rewrite <- (ok_supply _ Hok).
  assert (ap_balance_atoms <$> take n (ranking (durable (na_store s))) = balance_atoms <$> (take n l).*2) as ->.
  { apply (Forall2_take _ _ _ n) in Hl. induction Hl as [|e x k m (_ & Hb & _) _ IH]; [done|]. csimpl. by rewrite IH, Hb. }
  apply sum_accounts_sublist.
  - eapply map_Forall_impl; [exact (ok_accounts _ Hok)|]. by intros ? ? [].
  - rewrite fmap_take. eapply sublist_NoDup; [exact Hnd|apply sublist_take].
  - by apply Forall_take.
Qed.

(** ** The reads *)

Lemma leaderboard_page_read c s n offset :
  api_serving c s ->
  on_store (leaderboard_page n offset) s =
  (advance s, Ok (take (Z.to_nat (clamp 1 101 n)) (drop (Z.to_nat offset) (ranking (disk (advance s)))))).
Proof.
  intros Hs. pose proof (api_serving_advance _ _ Hs) as Hs1.
  destruct (serving_chain _ _ (api_serving_node _ _ Hs1)) as [history Hc].
  unfold leaderboard_page. rewrite (on_store_read c) by done. fold (ranking_rows (disk (advance s))).
  unfold ranking, Store.limit. rewrite <- fmap_drop, <- fmap_take.
  assert (forall row, row ∈ take (Z.to_nat (clamp 1 101 n)) (drop (Z.to_nat offset) (ranking_rows (disk (advance s)))) ->
            account_from_row row = Ok (aw_account row)) as Hrows.
  { intros row (i & Hrow%list_elem_of_lookup_2 & _)%elem_of_take.
    assert (row ∈ ranking_rows (disk (advance s))) as Hin by (eapply elem_of_sublist; [exact Hrow|apply sublist_drop]).
    apply elem_of_ranking_rows in Hin as [_ [key Hkey]]. pose proof (account_row_reads _ _ _ key Hc) as Hr.
    unfold disk in Hkey. rewrite Hkey in Hr. simpl in Hr. apply result_bind_Ok_inv in Hr as (x & Hx & [= <-]). done. }
  f_equal. revert Hrows. generalize (take (Z.to_nat (clamp 1 101 n)) (drop (Z.to_nat offset) (ranking_rows (disk (advance s))))).
  intros l. induction l as [|row l IH]; intros Hrows; [done|]. simpl. rewrite Hrows by set_solver. simpl.
  specialize (IH ltac:(intros; apply Hrows; set_solver)). by destruct (try_collect account_from_row l); simplify_eq/=.
Qed.
End ranking.
