(* ===== verification/ApiReference.v ===== *)
(** * Concrete instances for the API, the command line and the network

    Toy instances of the crates they use, and a standalone node that serves:
    states of its actor that satisfy [api_serving], by evaluation. *)

From S2P Require Import Prelude Errors Crypto Transaction Block Commit Ledger LedgerFacts Replay ConsensusTypes Engine Sqlite Store StoreFacts NodeTypes Projection Recovery NodeState Node Api Cli NodeCommands Network NodeSteps NodeChain NodeStart NodeMempool NodeExplorer ApiFacts Reference Fixtures ConsensusReference NodeReference.

Lemma byte_of_to_Z b : byte_of_Z (byte_to_Z b) = b.
Proof. apply byte_to_Z_inj, byte_to_of_Z, byte_to_Z_range. Qed.

Program Definition kind_codec : codec GossipKind :=
  retract_codec
    (fun k => match k with KindTransaction => 0 | KindConsensus => 1 | KindFinalized => 2 | KindStatus => 3 end)
    (fun n => if n =? 0 then Some KindTransaction else if n =? 1 then Some KindConsensus
              else if n =? 2 then Some KindFinalized else Some KindStatus) _ Z_codec.
Next Obligation. by intros []. Qed.

Program Definition envelope_codec : codec GossipEnvelope :=
  retract_codec (fun e => ((ge_version e, ge_chain_id e), (ge_kind e, ge_payload e)))
    (fun '((v, c), (k, p)) => Some (mk_GossipEnvelope v c k p)) _
    (pair_codec (pair_codec Z_codec ustring_codec) (pair_codec kind_codec bytes_codec)).
Next Obligation. by intros []. Qed.

Program Definition wire_codec : codec ConsensusWireMessage :=
  retract_codec
    (fun w => match w with WireProposal signed block => inl (signed, block) | WireVote signed => inr signed end)
    (fun s => match s with inl (signed, block) => Some (WireProposal signed block) | inr signed => Some (WireVote signed) end) _
    (sum_codec (pair_codec signed_proposal_codec block_codec) signed_vote_codec).
Next Obligation. by intros []. Qed.

Program Definition signed_status_codec : codec SignedValidatorStatus :=
  retract_codec (fun s => (svs_status s, svs_signature s)) (fun '(s, g) => Some (mk_SignedValidatorStatus s g)) _
    (pair_codec status_codec bytes_codec).
Next Obligation. by intros []. Qed.

Program Definition wallet_codec : codec WalletFile :=
  retract_codec (fun w => ((wf_format w, wf_secret_seed w), (wf_public_key w, wf_address w)))
    (fun '((f, s), (p, a)) => Some (mk_WalletFile f s p a)) _
    (pair_codec (pair_codec ustring_codec ustring_codec) (pair_codec ustring_codec ustring_codec)).
Next Obligation. by intros []. Qed.

Module ApiRef.
#[export] Instance envelope_borsh : Borsh GossipEnvelope := codec_borsh envelope_codec.
#[export] Instance envelope_laws : BorshLaws GossipEnvelope := codec_borsh_laws envelope_codec.
#[export] Instance wire_borsh : Borsh ConsensusWireMessage := codec_borsh wire_codec.
#[export] Instance wire_laws : BorshLaws ConsensusWireMessage := codec_borsh_laws wire_codec.
#[export] Instance signed_status_borsh : Borsh SignedValidatorStatus := codec_borsh signed_status_codec.
#[export] Instance signed_status_laws : BorshLaws SignedValidatorStatus := codec_borsh_laws signed_status_codec.
#[export] Instance finalized_record_laws : BorshLaws FinalizedWireRecord := codec_borsh_laws finalized_record_codec.

#[export] Instance hex_laws : HexLaws.
Proof.
  intros a. induction a as [|x a IH]; intros [|y b]; try done.
  intros [= Hxy Hab]. f_equal; [by apply byte_to_Z_inj|by apply IH].
Qed.

#[export] Instance base64 : Base64 := {|
  base64_encode b := byte_to_Z <$> b;
  base64_decode s := Some (byte_of_Z <$> s)
|}.
#[export] Instance base64_laws : Base64Laws.
Proof.
  intros b. simpl. f_equal. rewrite <- list_fmap_compose. rewrite <- (list_fmap_id b) at 2.
  apply list_fmap_ext. intros _ x _. apply byte_of_to_Z.
Qed.

#[export] Instance chrono : Chrono := {|
  DateTime := Z; from_timestamp_millis n := Some n; UNIX_EPOCH := 0; to_rfc3339 := to_string
|}.
#[export] Instance challenge_response_json : ChallengeResponseJson := fun s =>
  match dec challenge_codec (byte_of_Z <$> s) with
  | Some ((id, (expression, (issued, reward))), []) => Ok (mk_ChallengeResponse id expression issued reward)
  | _ => Err (str "invalid JSON")
  end.

#[export] Instance wallet_json : WalletJson := {|
  wallet_to_json w := Some (enc wallet_codec w);
  wallet_from_json b := fst <$> dec wallet_codec b
|}.
#[export] Instance wallet_json_laws : WalletJsonLaws.
Proof.
  intros w b. unfold wallet_to_json, wallet_from_json, wallet_json. intros Hb.
  assert (b = enc wallet_codec w) as -> by congruence. by rewrite (dec_enc wallet_codec).
Qed.

#[export] Instance seeds : SigningKeySeed := fun k => k.
#[export] Instance seed_laws : SigningKeySeedLaws.
Proof. done. Qed.

#[export] Instance json_value : JsonValue := {|
  Value := bytes; value_from_slice := Some; get_str v _ := Some (byte_to_Z <$> v);
  get_u64 _ _ := None; get_bool _ _ := None; get_array _ _ := None
|}.

#[export] Instance swarm : Swarm := {|
  Multiaddr := Z; ConnectionId := Z; ResponseChannel := Z; OutboundRequestId := Z
|}.
End ApiRef.
Export ApiRef.

(** ** A serving node *)

#[export] Instance block_typed_dec b : Decision (block_typed b).
Proof. unfold block_typed, is_u32, in_range. apply _. Defined.

Definition row_typed (row : BlockRow) : bool :=
  match decode_history_row row with Ok (b, _) => bool_decide (block_typed b) | Err _ => true end.

Definition disk_typed_test (db : Database) : bool := forallb row_typed (map_to_list (blocks db)).*2.

Lemma disk_typed_tested db : disk_typed_test db = true -> disk_typed db.
Proof.
  intros Hall h row Hrow b c Hd.
  assert (row_typed row = true) as Ht.
  { eapply forallb_forall; [exact Hall|]. apply list_elem_of_In, list_elem_of_fmap. exists (h, row).
    split; [done|]. by apply elem_of_map_to_list. }
  unfold row_typed in Ht. rewrite Hd in Ht. by apply bool_decide_eq_true in Ht.
Qed.

Definition serving_test (s : NodeActor) : bool :=
  let st := na_store s in
  negb (poisoned st) && match faults st with [] => true | _ => false end &&
  match working st with None => true | Some _ => false end && disk_typed_test (durable st).

(** The standalone node after [commands]. *)
Definition standalone_after (commands : list Command) : option NodeActor :=
  (fun self => (run no_debug commands self).1) <$> started standalone_config empty_database.

Lemma standalone_explorer commands s : standalone_after commands = Some s -> explorer_inv local_chain s.
Proof.
  unfold standalone_after. intros (self & [st E]%started_start & ->)%fmap_Some.
  destruct (start_node_explorer standalone_config _ _ _ _ _ _ _ local_chain _ (stores_explorer_empty _)
    (history_slots_unique _ _ history_new) eq_refl E) as (Hi & Hh & Hb).
  eapply steps_explorer_inv; [|exact Hi]. eapply run_steps; [done|done|]. apply surjective_pairing.
Qed.

Lemma standalone_serving commands s :
  standalone_after commands = Some s -> serving_test s = true -> serving local_chain s.
Proof.
  intros Hs [[[Hp Hf]%andb_prop Hw]%andb_prop Ht]%andb_prop. split; [by eapply standalone_explorer|].
  split; [|by apply disk_typed_tested]. apply negb_true_iff in Hp.
  unfold disk_works, idle. destruct (faults _); [|done]. by destruct (working _).
Qed.

(** A node that finalizes a claim and an empty block. *)
Definition busy_commands : list Command := [Submit local_claim false; Tick; Tick].
