(* ===== verification/NodeSpec.v ===== *)
(** * Correctness of the node

    For every run of the node's actor — any commands, clocks, network answers
    and disk failures — and for every sequence of its lives. *)

From S2P Require Import Prelude Errors Crypto Transaction Block Commit Ledger LedgerFacts Replay Merkle ConsensusTypes Engine EngineFacts EngineRules Agreement Sqlite Store StoreFacts NodeTypes Projection Recovery NodeState Node NodeCommands NodeSteps NodeChain NodeStart NodeBudget Reference Fixtures ConsensusReference NodeMempool NodeAgreement NodeReference.

Section spec.
Context `{Blake3, Blake3Checksum, Ed25519, !SigningKeyBytes, Hex, Bech32, ChallengeJson, Libp2p,
          !Borsh UnsignedTransaction, !Borsh SignedTransaction, !Borsh BlockHeader, !Borsh Block,
          !Borsh StateCommitment, !Borsh CommitVote, !Borsh CommitCertificate,
          !Borsh SignableMessage, !Borsh SignedMessage, !Borsh SignedProposal,
          !Borsh FinalizedWireRecord, !Borsh ValidatorStatusMessage, !SerdeJson SafetyState}.
Context (evidence_debug : Evidence -> bytes).

(** ** Messages to the network *)

Definition sent_recorded (outputs : list Output) (db : Database) : Prop :=
  forall wire, GossipConsensus wire ∈ outputs -> recorded (wire_message wire) db.

Lemma silent_not_gossip self l wire : Forall (silent self) l -> GossipConsensus wire ∈ l -> False.
Proof. intros Hl Hw. by apply (proj1 (Forall_forall _ _) Hl) in Hw. Qed.

Lemma step_sent_recorded s s' :
  actor_step s s' -> sent_recorded (na_outbox s) (durable (na_store s)) ->
  sent_recorded (na_outbox s') (durable (na_store s')).
Proof.
  intros Hs Hi wire Hw.
  destruct Hs as [s' Q|st R| | |o _ Ho| |wire' _ Hrec| | |];
    try (eapply step_recorded; [|apply Hi; exact Hw]; by econstructor).
  - destruct (quiet_outbox _ _ Q) as (l & E & Hl). rewrite E in Hw. rewrite (quiet_store _ _ Q).
    apply elem_of_app in Hw as [Hw|Hw]; [by apply Hi|]. by destruct (silent_not_gossip s l wire).
  - apply elem_of_app in Hw as [Hw|Hw%list_elem_of_singleton]; [by apply Hi|]. by destruct (Ho wire).
  - apply elem_of_app in Hw as [Hw|Hw%list_elem_of_singleton]; [by apply Hi|]. by injection Hw as <-.
Qed.

Lemma steps_sent_recorded s s' :
  rtc actor_step s s' -> sent_recorded (na_outbox s) (durable (na_store s)) ->
  sent_recorded (na_outbox s') (durable (na_store s')).
Proof. induction 1 as [|s1 s2 s3 Hs _ IH]; [done|]. intros Hi. by apply IH, (step_sent_recorded s1). Qed.

Lemma history_sent_recorded sent db : node_history sent db -> sent_recorded sent db.
Proof.
  induction 1 as [|sent db faults config network peers env s self self' Hh IH Hstart Hsteps].
  { intros wire Hw. by apply elem_of_nil in Hw. }
  destruct (start_node_Ok _ _ _ _ (mk_Store false faults db None) _ _ eq_refl (history_slots_unique _ _ Hh) Hstart)
    as (Hst & _ & Hd & _ & Hout & _). rewrite <- Hst in Hd.
  intros wire [Hw|Hw]%elem_of_app.
  - eapply steps_recorded; [exact Hsteps|]. rewrite Hd. by apply IH.
  - eapply steps_sent_recorded; [exact Hsteps| |exact Hw]. intros w. rewrite Hout. by intros ?%elem_of_nil.
Qed.

(** The block a message is about. *)
Definition block_of (m : SignableMessage) : option BlockId :=
  match m with
  | SignableProposal p => Some (p_block_id p)
  | SignableVote v => match v_value v with BlockValue b => Some b | Nil => None end
  end.

Lemma last_slot_text h r kind : kind <> [] -> last (slot_text h r kind) = last kind.
Proof.
  intros Hk. unfold slot_text. destruct kind as [|k kind] using rev_ind; [done|].
  change (to_string h ++ 47 :: to_string r ++ 47 :: kind ++ [k]) with
    (to_string h ++ (47 :: to_string r) ++ (47 :: kind) ++ [k]).
  by rewrite !app_assoc, !last_snoc.
Qed.

(** The same bytes, signed for the same slot, are about the same block. *)
Lemma same_bytes_same_block `{!BorshLaws SignableMessage, !BorshLaws CommitVote} m1 m2 sb b1 b2 :
  signer_slot m1 = signer_slot m2 -> signing_bytes m1 = Ok sb -> signing_bytes m2 = Ok sb ->
  block_of m1 = Some b1 -> block_of m2 = Some b2 -> b1 = b2.
Proof.
  intros Hslot E1 E2 Hb1 Hb2. apply (f_equal last) in Hslot. unfold signer_slot in Hslot.
  destruct m1 as [p1|[c1 h1 r1 k1 i1 x1]], m2 as [p2|[c2 h2 r2 k2 i2 x2]]; simpl in *.
  - injection E1 as <-. injection E2 as E2. apply to_vec_inj in E2. by simplify_eq.
  - by destruct k2; rewrite !last_slot_text in Hslot.
  - by destruct k1; rewrite !last_slot_text in Hslot.
  - destruct x1 as [|y1]; [done|]. destruct x2 as [|y2]; [done|]. simplify_eq.
    destruct k1, k2; try (by rewrite !last_slot_text in Hslot).
    + injection E1 as <-. injection E2 as E2. apply to_vec_inj in E2. by simplify_eq.
    + apply result_bind_Ok_inv in E1 as (c1' & _ & [= <-]). apply result_bind_Ok_inv in E2 as (c2' & _ & [= E2]).
      apply to_vec_inj in E2. by injection E2 as _ _ _ E3.
Qed.

(** C2. A validator never equivocates on the network, over all its lives: whatever
    it receives, however its disk fails and wherever it crashes, two consensus
    messages it has sent for one height, round and kind carry one signature
    over the same bytes, and name the same block if they name one. *)
Theorem node_never_equivocates `{!BorshLaws SignableMessage, !BorshLaws CommitVote} (sent : list Output) (db : Database) (wire1 wire2 : ConsensusWireMessage) :
  node_history sent db ->
  GossipConsensus wire1 ∈ sent -> GossipConsensus wire2 ∈ sent ->
  let m1 := wire_message wire1 in
  let m2 := wire_message wire2 in
  signer_slot (signable m1) = signer_slot (signable m2) ->
  signing_bytes (signable m1) = signing_bytes (signable m2) /\ message_signature m1 = message_signature m2 /\
  (forall b1 b2, block_of (signable m1) = Some b1 -> block_of (signable m2) = Some b2 -> b1 = b2).
Proof.
  intros Hh H1w H2w m1 m2 Hslot. subst m1 m2. pose proof (history_sent_recorded _ _ Hh) as Hrec.
  destruct (Hrec _ H1w) as (sb1 & ss1 & E1 & D1), (Hrec _ H2w) as (sb2 & ss2 & E2 & D2).
  pose proof D1 as D1'. rewrite Hslot in D1'.
  destruct (decided_functional _ _ _ _ _ _ _ _ D1' D2) as (-> & _ & ->). split_and!; [by rewrite E1, E2|done|].
  intros b1 b2. by eapply same_bytes_same_block.
Qed.

(** ** The halt *)

(** What a halted node may not touch. *)
Record frozen (s s' : NodeActor) : Prop := {
  frozen_halted : na_halted s' = true;
  frozen_ledger : na_ledger s' = na_ledger s;
  frozen_mempool : na_mempool s' = na_mempool s;
  frozen_consensus : na_consensus s' = na_consensus s;
  frozen_durable : durable (na_store s') = durable (na_store s);
  frozen_idle : idle (na_store s) -> idle (na_store s');
  frozen_outbox : exists l, na_outbox s' = na_outbox s ++ l /\ Forall (silent s) l
}.

Lemma steps_frozen s s1 s2 : rtc actor_step s1 s2 -> frozen s s1 -> frozen s s2.
Proof.
  induction 1 as [|s1 s2 s3 Hstep _ IH]; [done|]. intros [Hh Hl Hm Hc Hd Hi (l & Ho & Hs)]. apply IH. clear IH.
  destruct Hstep as [s2 Q|st R| | | | | | | |]; try congruence.
  - destruct Q. split; try congruence; [by rewrite quiet_store|]. destruct quiet_outbox as (l' & E & Hs').
    exists (l ++ l'). rewrite E, Ho, app_assoc. split; [done|]. apply Forall_app. split; [done|].
    by apply (silents_frame s s1).
  - split; try done; [| |by exists l]; simpl; [by rewrite (proj1 R)|]. intros ?. by apply R, Hi.
  - split; try done. by exists l.
Qed.

(** C39. A node that found two certified blocks at one height stops for good: no
    command moves its ledger, its mempool, its engine or its disk, or makes it
    announce a transaction, a consensus message or a block.  It still answers
    the synchronization requests of its peers, only with the state its ledger
    and its disk had when it stopped. *)
Theorem halted_node_frozen (commands : list Command) (s s' : NodeActor) r :
  na_halted s = true -> command_loop evidence_debug commands s = (s', r) -> frozen s s'.
Proof.
  intros Hh Hr. apply (steps_frozen s s); [by eapply steps_command_loop|].
  split; try done. exists []. by rewrite app_nil_r.
Qed.

(** ** The chain *)

(** C3. What the disk holds is what the node works with: after any run the rows of
    [blocks] decode to a certified history whose replay is the ledger in
    memory, with derived columns that agree, and a restart on that disk,
    if it succeeds, begins with exactly that ledger. *)
Theorem disk_holds_the_ledger `{!BorshLaws Block, !BorshLaws CommitCertificate} c (config config' : NodeConfig)
    network network' peers peers' env env' (faults faults' : list (option SqliteError))
    (db : Database) (ledger : LedgerState) (s s2 : Store Database) (self self' self2 : NodeActor) commands r :
  stores_chain c db ledger -> slots_unique db ->
  chain_id_new (cfg_node_chain_id config) = Ok c -> chain_id_new (cfg_node_chain_id config') = Ok c ->
  start_node config network peers env (mk_Store false faults db None) = (s, Ok self) ->
  run evidence_debug commands self = (self', r) ->
  start_node config' network' peers' env' (mk_Store false faults' (durable (na_store self')) None) = (s2, Ok self2) ->
  na_ledger self = ledger /\
  stores_chain c (durable (na_store self')) (na_ledger self') /\
  na_ledger self2 = na_ledger self'.
Proof.
  intros Hchain Hu Hc Hc' Hstart Hrun Hstart2.
  destruct (start_node_Ok _ _ _ _ (mk_Store false faults db None) _ _ eq_refl Hu Hstart)
    as (Hst & _ & Hd & Hh & _ & _ & Hb & _). rewrite <- Hst in Hd.
  destruct (start_node_chain _ _ _ _ (mk_Store false faults db None) _ _ _ _ eq_refl Hu Hchain Hc Hstart) as [Hl Hi].
  pose proof (run_steps evidence_debug commands _ _ _ Hh Hb Hrun) as Hsteps.
  destruct (steps_chain_inv _ _ _ Hsteps Hi) as [_ Hchain'].
  assert (slots_unique (durable (na_store self'))) as Hu'.
  { eapply steps_slots_unique; [exact Hsteps|]. by rewrite Hd. }
  split_and!; [done..|].
  by destruct (start_node_chain _ _ _ _ (mk_Store false faults' _ None) _ _ _ _ eq_refl Hu' Hchain' Hc' Hstart2).
Qed.

(** ** The consensus driver *)

(** C33. The loop of [process_consensus_event] ends for every event that comes from
    outside, in every state, and [EVENT_BUDGET] iterations compute its result:
    the unbounded loop has exactly one outcome, the model's. *)
Theorem consensus_event_terminates (event : Event) (s : NodeActor) :
  external event ->
  forall out, drains evidence_debug [event] s out <-> out = process_events evidence_debug EVENT_BUDGET [event] s.
Proof.
  intros He out. pose proof (external_event_drains evidence_debug EVENT_BUDGET event s He) as Hd.
  assert (5 <= EVENT_BUDGET)%nat as Hb by (unfold EVENT_BUDGET; lia). specialize (Hd Hb). split.
  - intros Ho. by eapply drains_functional.
  - by intros ->.
Qed.

(** ** The check of a stored history *)

(** [verify_store] accepts exactly the disks that hold a chain: every row
    decodes, its derived columns agree with its bytes, and the certified history
    replays; what it reports is the ledger of that chain. *)
Theorem verify_store_exact c (s s1 : Store Database) rows report :
  canonical_block_rows s = (s1, Ok rows) ->
  (verify_store c s).2 = Ok report <->
  exists history ledger, Forall2 row_of rows history /\
    replay_finalized_blocks c history dev_validators = Ok ledger /\ report = replay_report ledger.
Proof. apply verify_store_reports. Qed.

(** ** Conflicting certificates *)

Lemma import_conflict (record : FinalizedWireRecord) source (s : NodeActor) st row existing :
  let block := fw_block record in
  na_halted s = false ->
  bh_chain_id (header block) = id_chain_id (na_identity s) ->
  cc_chain_id (fw_certificate record) = id_chain_id (na_identity s) ->
  validate_commitments block = Ok () ->
  verify_for_block (fw_certificate record) block (node_validators s) = Ok () ->
  bh_height (header block) <= height (na_ledger s) ->
  block_by_height (bh_height (header block)) (na_store s) = (st, Ok (Some row)) ->
  block_decode (br_block_bytes row) = Ok existing -> block_hash existing <> block_hash block ->
  let s1 := (import_finalized record source s).1 in
  na_halted s1 = true /\ na_ledger s1 = na_ledger s /\ durable (na_store s1) = durable (na_store s).
Proof.
  intros block Hh Hc1 Hc2 Hb Hv Hheight Hrow Hdec Hne s1. subst s1.
  unfold import_finalized. rewrite (bind_run_Ok get _ s s s) by done. rewrite Hh. cbv zeta.
  fold block. rewrite (bool_decide_eq_false_2 (bh_chain_id _ <> _)) by (intros Hn; by apply Hn).
  rewrite (bool_decide_eq_false_2 (cc_chain_id _ <> _)) by (intros Hn; by apply Hn). change (false || false) with false. cbv iota.
  rewrite (bind_run_Ok _ _ s s ()) by (by rewrite Hb). rewrite (bind_run_Ok _ _ s s ()) by (by rewrite Hv).
  rewrite (proj2 (Z.leb_le _ _)) by done.
  assert (reading (na_store s) st) as [Hd _].
  { revert Hrow. unfold block_by_height. apply reading_read. }
  rewrite (bind_run_Ok (in_store _) _ s (set_store st s) (Some row)) by (unfold in_store, from_store; by rewrite Hrow).
  rewrite (bind_run_Ok _ _ (set_store st s) (set_store st s) row) by done.
  rewrite (bind_run_Ok _ _ (set_store st s) (set_store st s) existing) by (by rewrite Hdec).
  rewrite bool_decide_eq_true_2 by congruence.
  set (s2 := set_sync_request None None None (set_sync_target None (set_consensus_started false
               (set_halted true (set_store st s))))).
  rewrite (bind_run_Ok enter_halted_state _ _ s2 ()) by done.
  match goal with |- context [(?m s2).1] => assert (preserves quiet s2 m) as Hq end.
  { apply (preserves_bind _); [destruct (node_key s); [apply quiet_note_validator_activity|apply (preserves_ret _)]|].
    intros s3 [] _. apply (preserves_bind _); [apply quiet_publish_snapshot|]. intros s4 [] _. apply (preserves_throw _). }
  match goal with |- context [(?m s2).1] => destruct (m s2) as [s5 r5] eqn:E end.
  pose proof (Hq _ _ E) as Q. simpl. rewrite (quiet_halted _ _ Q), (quiet_ledger _ _ Q), (quiet_store _ _ Q). done.
Qed.

(** C37. A verified certificate for another block at a height the node has already
    finalized halts it: the import fails, the node is halted, and nothing moves
    its ledger or its disk any more. *)
Theorem certified_conflict_halts (record : FinalizedWireRecord) source (s : NodeActor) st row existing :
  let block := fw_block record in
  na_halted s = false ->
  bh_chain_id (header block) = id_chain_id (na_identity s) ->
  cc_chain_id (fw_certificate record) = id_chain_id (na_identity s) ->
  validate_commitments block = Ok () ->
  verify_for_block (fw_certificate record) block (node_validators s) = Ok () ->
  bh_height (header block) <= height (na_ledger s) ->
  block_by_height (bh_height (header block)) (na_store s) = (st, Ok (Some row)) ->
  block_decode (br_block_bytes row) = Ok existing -> block_hash existing <> block_hash block ->
  forall commands s' r,
    command_loop evidence_debug (ImportFinalized record source :: commands) s = (s', r) ->
    na_halted s' = true /\ na_ledger s' = na_ledger s /\ durable (na_store s') = durable (na_store s).
Proof.
  intros block Hh Hc1 Hc2 Hb Hv Hheight Hrow Hdec Hne commands s' r Hr.
  set (s1 := (import_finalized record source s).1).
  destruct (import_conflict record source s st row existing Hh Hc1 Hc2 Hb Hv Hheight Hrow Hdec Hne) as (Hh1 & Hl1 & Hd1).
  fold s1 in Hh1, Hl1, Hd1.
  assert (command_loop evidence_debug commands s1 = (s', r)) as Hr1 by exact Hr.
  assert (frozen s1 s') as F.
  { apply (steps_frozen s1 s1); [by eapply steps_command_loop|]. split; try done. exists []. by rewrite app_nil_r. }
  split_and!; [apply F|rewrite (frozen_ledger _ _ F); done|by rewrite (frozen_durable _ _ F)].
Qed.

(** ** Recovery *)

(** A stored decision as an entry of the log of [Agreement]. *)
Definition decision_entry (h : Z) (d : PersistedConsensusDecision) (e : Decision) : Prop :=
  exists signed, validate_persisted_decision d h = Ok signed /\ e.1 = signable signed /\
    json_from_slice (pd_safety_state d) = Some e.2.

Lemma validated_entry h d signed :
  validate_persisted_decision d h = Ok signed -> exists ss, decision_entry h d (signable signed, ss).
Proof.
  intros Hv. pose proof Hv as Hr. unfold validate_persisted_decision in Hr.
  apply result_bind_Ok_inv in Hr as (m & _ & Hr). apply result_bind_Ok_inv in Hr as ([] & _ & Hr).
  apply result_bind_Ok_inv in Hr as ([] & _ & Hr). apply result_bind_Ok_inv in Hr as (ss & Hss & _).
  exists ss, signed. split_and!; [done..|]. by destruct (json_from_slice _); simplify_eq/=.
Qed.

Lemma restore_persisted_decisions_log h ds c c' messages :
  restore_persisted_decisions h ds c = Ok (c', messages) ->
  exists log, Forall2 (decision_entry h) ds log /\ restore_decisions log c = (c', Ok ()).
Proof.
  revert c c' messages. induction ds as [|d ds IH]; intros c c' messages; simpl.
  { intros [= <- _]. exists []. by split; [constructor|]. }
  intros (m & Hm & Hr)%result_bind_Ok_inv.
  destruct (restore_local_decision (signable m) c) as [c1 restored] eqn:E.
  apply result_bind_Ok_inv in Hr as ([] & Hok & Hr). apply map_err_Ok_inv, map_err_Ok_inv in Hok as ->.
  apply result_bind_Ok_inv in Hr as ([c2 ms] & Hrest & [= <- _]).
  destruct (IH _ _ _ Hrest) as (log & Hlog & Hrun), (validated_entry _ _ _ Hm) as [ss Hss].
  exists ((signable m, ss) :: log). split; [by constructor|]. simpl. by rewrite (bind_run_Ok _ _ _ _ _ E).
Qed.

(** The decisions of the height on the disk, in order. *)
Definition decisions_of (h : Z) (db : Database) : list PersistedConsensusDecision :=
  filter (fun d => slot_of_height h (pd_slot d) /\ pd_signed_message d <> []) (signer_state db).

Lemma recover_consensus_refines config ledger ids local vs h sb ss persisted s s' r :
  idle s -> json_from_slice sb = Some ss ->
  recover_consensus config ledger ids local vs h sb ss persisted s = (s', Ok r) ->
  exists validator c log, rec_consensus r = Some c /\
    recover (H := node_message_validator validator) vs (for_chain (cfg_node_chain_id config)) h local log = Ok c /\
    Forall2 (decision_entry h) (decisions_of h (durable s)) log /\ log <> [].
Proof.
  intros Hi Hsb Hr. unfold recover_consensus in Hr.
  apply bind_Ok_inv in Hr as (s1 & proposals & Hs & Hr). injection Hs as <- _.
  destruct (missing_block _ _); [done|]. destruct (missing_block _ _); [done|]. cbv zeta in Hr.
  set (validator := mk_NodeMessageValidator ledger (rp_blocks proposals) ids) in Hr.
  apply bind_Ok_inv in Hr as (s1 & [] & Hs & Hr). injection Hs as <- _.
  apply bind_Ok_inv in Hr as (s1 & c0 & Hs & Hr). injection Hs as <- Hnew. apply map_err_Ok_inv in Hnew.
  apply bind_Ok_inv in Hr as (s1 & decisions & Hs & Hr). unfold from_store in Hs.
  destruct (consensus_decisions h s) as [s2 r2] eqn:E. injection Hs as -> Hs. apply map_err_Ok_inv in Hs as ->.
  apply read_Ok in E as (_ & _ & [= <-]); [|done]. fold (decisions_of h (durable s)) in Hr.
  destruct (bool_decide _) eqn:Hne; [done|]. apply bool_decide_eq_false in Hne.
  destruct (match last _ with Some _ => _ | None => _ end) eqn:Hlast; [done|].
  destruct (last (decisions_of h (durable s))) as [dl|] eqn:Hdl; [|done].
  apply bool_decide_eq_false, dec_stable in Hlast.
  apply bind_Ok_inv in Hr as (s2 & [c messages] & Hs & Hr). injection Hs as _ Hs.
  apply bind_Ok_inv in Hr as (s3 & wires & _ & Hr). injection Hr as _ <-.
  destruct (restore_persisted_decisions_log _ _ _ _ _ Hs) as (log & Hlog & Hrun).
  exists validator, c, log. split_and!; [done| |done|].
  - assert (exists e, last log = Some e /\ decision_entry h dl e) as (e & He & Hentry).
    { apply last_Some in Hdl as [ds Hds]. rewrite Hds in Hlog.
      apply Forall2_app_inv_l in Hlog as (l1 & l2 & _ & Hl2 & ->). inversion Hl2 as [|? e ? l3 Hd Hnil]; subst.
      inversion Hnil; subst. exists e. by rewrite last_snoc. }
    unfold recover. rewrite He. destruct Hentry as (_ & _ & _ & Hss). rewrite Hlast, Hsb in Hss.
    injection Hss as <-. rewrite Hnew. simpl. by rewrite Hrun.
  - intros ->. inversion Hlog. congruence.
Qed.

(** C15. A restarting validator is the recovering validator of [Agreement]: what
    it builds its engine from is, decision by decision, the log its disk holds
    for the height; the agreement and no-equivocation theorems about recovery
    apply to it. Anything that does not check stops it from starting. *)
Theorem recovery_refines config ledger ids cids key (s s' : Store Database) r :
  idle s -> initialize_consensus_recovery config ledger ids cids (Some key) s = (s', Ok r) ->
  exists vs validator c log, validator_set_new cids = Ok vs /\ rec_consensus r = Some c /\
    recover (H := node_message_validator validator) vs (for_chain (cfg_node_chain_id config))
      (height ledger + 1) (validator_from_signing_key key) log = Ok c /\
    match consensus_safety (durable s) with
    | None => log = []
    | Some _ => Forall2 (decision_entry (height ledger + 1)) (decisions_of (height ledger + 1) (durable s)) log /\ log <> []
    end.
Proof.
  intros Hi Hr. unfold initialize_consensus_recovery in Hr. cbv zeta in Hr.
  apply bind_Ok_inv in Hr as (s1 & vs & Hs & Hr). injection Hs as <- Hvs. apply map_err_Ok_inv in Hvs.
  apply bind_Ok_inv in Hr as (s1 & stored & Hs & Hr). unfold from_store in Hs.
  destruct (consensus_safety_state s) as [s2 r2] eqn:E. injection Hs as -> Hs. apply map_err_Ok_inv in Hs as ->.
  apply read_Ok in E as (Hi1 & Hd1 & Hq); [|done]. destruct stored as [[h sb]|].
  - destruct (consensus_safety (durable s)); [|done].
    destruct (negb _); [done|]. apply bind_Ok_inv in Hr as (s2 & ss & Hs & Hr). injection Hs as <- Hss.
    assert (json_from_slice sb = Some ss) as Hjson by (by destruct (json_from_slice sb); simplify_eq/=).
    destruct (negb _); [done|]. apply bind_Ok_inv in Hr as (s2 & [] & Hs & Hr). injection Hs as <- _.
    apply bind_Ok_inv in Hr as (s2 & persisted & Hs & Hr).
    assert (reading s1 s2) as [Hd2 Hi2%(fun H => H Hi1)].
    { revert Hs. apply (reading_from_store _ _ (reading_read _ s1)). }
    destruct (recover_consensus_refines _ _ _ _ _ _ _ _ _ _ _ _ Hi2 Hjson Hr) as (validator & c & log & Hc & Hrec & Hlog & Hne).
    exists vs, validator, c, log. rewrite <- Hd1, <- Hd2. done.
  - apply bind_Ok_inv in Hr as (s2 & c & Hs & Hr). injection Hs as <- Hc. apply map_err_Ok_inv in Hc.
    injection Hr as _ <-. exists vs, (mk_NodeMessageValidator ledger ∅ ids), c, [].
    destruct (consensus_safety (durable s)) as [[h x]|]; [|by split_and!].
    simpl in Hq. apply result_bind_Ok_inv in Hq as (y & Hy & Hq). discriminate Hq.
Qed.

(** ** Two nodes *)

(** C14. Two nodes of one chain never disagree unless a quorum betrays: the history
    on the disk of the one that is behind is a prefix of the other's, with the
    same ledger at the same height, or the certificates of the block where they
    part show more than a third of the validators with valid signatures on both
    sides. *)
Theorem node_ledgers_agree `{!BorshLaws SignedTransaction, !BorshLaws BlockHeader, !BorshLaws CommitVote}
    c (db1 db2 : Database) (l1 l2 : LedgerState) history1 history2 :
  stores_chain c db1 l1 -> stores_chain c db2 l2 ->
  try_collect decode_history_row (blocks_ascending db1) = Ok history1 ->
  try_collect decode_history_row (blocks_ascending db2) = Ok history2 ->
  Forall block_in_range history1.*1 -> Forall block_in_range history2.*1 ->
  collision_free ((history1.*1 ≫= block_inputs) ++ (history2.*1 ≫= block_inputs)) ->
  height l1 <= height l2 ->
  (history1.*1 `prefix_of` history2.*1 /\ (height l1 = height l2 -> l1 = l2)) \/
  exists i b1 c1 b2 c2 culprits,
    history1 !! i = Some (b1, c1) /\ history2 !! i = Some (b2, c2) /\
    cc_height c1 = cc_height c2 /\ cc_block_hash c1 <> cc_block_hash c2 /\
    exposed (certificate_vote c1) (certificate_vote c2) dev_validators culprits.
Proof.
  intros Hs1 Hs2 Hd1 Hd2 Hr1 Hr2 Hcf Hle.
  pose proof (stores_chain_replay _ _ _ _ Hs1 Hd1) as Hc1%replay_certified; [|done].
  pose proof (stores_chain_replay _ _ _ _ Hs2 Hd2) as Hc2%replay_certified; [|done].
  pose proof (certified_height _ _ _ _ Hc1) as Hh1. pose proof (certified_height _ _ _ _ Hc2) as Hh2.
  destruct (decide (history1.*1 `prefix_of` history2.*1)) as [[l Hl]|Hp].
  - left. split; [by exists l|]. intros Heq.
    assert (l = []) as ->.
    { apply (f_equal length) in Hl. rewrite length_app, !length_fmap in Hl. apply nil_length_inv. lia. }
    rewrite app_nil_r in Hl. by rewrite (certified_ledger _ _ _ _ Hc1), (certified_ledger _ _ _ _ Hc2), Hl.
  - right. destruct (not_prefix_lookup history1.*1 history2.*1) as (i & b1 & b2 & Hi1 & Hi2 & Hne); [|done|].
    { rewrite !length_fmap. lia. }
    rewrite list_lookup_fmap_Some in Hi1. rewrite list_lookup_fmap_Some in Hi2.
    destruct Hi1 as ([x1 c1] & -> & Hi1), Hi2 as ([x2 c2] & -> & Hi2). simpl in Hne.
    destruct (certified_fork _ _ _ _ _ _ _ _ _ _ _ Hcf Hc1 Hc2 Hi1 Hi2 Hne) as (Hh & Hb & culprits & He).
    by exists i, x1, c1, x2, c2, culprits.
Qed.

(** ** The mempool *)

(** C12. Whatever a node was sent, what its mempool holds executes in order, each
    transaction once: the next proposal takes the first thousand of them, none
    is dropped, and a block can be built from any prefix for any proposer,
    round and time. No accepted transaction can block production. *)
Theorem mempool_never_blocks `{!BorshLaws Block, !BorshLaws CommitCertificate} c (config : NodeConfig) network peers env
    (faults : list (option SqliteError)) (db : Database) (ledger : LedgerState) (s : Store Database)
    (self self' : NodeActor) commands r :
  stores_chain c db ledger -> slots_unique db -> chain_id_new (cfg_node_chain_id config) = Ok c ->
  start_node config network peers env (mk_Store false faults db None) = (s, Ok self) ->
  run evidence_debug commands self = (self', r) ->
  in_types self' -> height (na_ledger self') + 1 <= u64_max ->
  NoDup (tx_id <$> na_mempool self') /\
  (forall key round, node_key self' = Some key ->
     exists b, (build_consensus_proposal round None self').2 = Ok b /\ Block.transactions b = take 1000 (na_mempool self')) /\
  (forall n proposer round ts, exists b, build_block (na_ledger self') proposer round ts (take n (na_mempool self')) = Ok b).
Proof.
  intros Hchain Hu Hc Hstart Hrun Ht Hroom.
  destruct (start_node_Ok _ _ _ _ (mk_Store false faults db None) _ _ eq_refl Hu Hstart) as (_ & _ & _ & Hh & _ & _ & Hb & _).
  destruct (start_node_chain _ _ _ _ (mk_Store false faults db None) _ _ _ _ eq_refl Hu Hchain Hc Hstart) as [_ Hi].
  destruct (start_node_mempool _ _ _ _ _ _ _ Hstart) as [Hm Hids].
  pose proof (run_steps evidence_debug commands _ _ _ Hh Hb Hrun) as Hsteps.
  destruct (steps_mempool_inv _ _ _ Hsteps (chain_start_mempool_inv _ _ Hi Hm Hids)) as [_ _ Hnd He].
  specialize (He Ht Hroom). split_and!; [done| |].
  - intros key round Hkey. unfold build_consensus_proposal. rewrite (bind_run_Ok get _ self' self' self') by done.
    cbn [mbind option_bind]. rewrite Hkey. rewrite (bind_run_Ok _ _ self' self' key) by done. cbv zeta.
    rewrite (keep_applicable_all _ _ _ (executes_take 1000 _ _ _ He)).
    rewrite (bind_run_Ok _ _ self' _ (default 0 (head (env_unix_ms (na_env self'))))) by done.
    destruct (executes_builds _ _ (validator_from_signing_key key) round
      (default 0 (head (env_unix_ms (na_env self')))) Hroom (executes_take 1000 _ _ _ He)) as [b Hbuild].
    rewrite Hbuild. exists b. split; [done|]. by apply build_block_transactions in Hbuild.
  - intros n proposer round ts. by apply executes_builds, executes_take.
Qed.

(** A submitted transaction is accepted exactly when it is valid after the
    ledger and everything pending, while the node runs and is not catching up:
    it then enters the mempool last; refused, it changes nothing. *)
Theorem accept_transaction_exact `{!BorshLaws Block, !BorshLaws CommitCertificate} c (s : NodeActor) t gossip :
  mempool_inv c s -> in_types s -> transaction_in_range t ->
  let valid :=
    na_halted s = false /\ is_syncing s = false /\ height (na_ledger s) + 1 <= u64_max /\
    tx_valid (txs_post (na_ledger s) (na_mempool s)) t (height (na_ledger s) + 1) in
  (valid /\ exists s', accept_transaction t gossip s = (s', Ok (mk_SubmissionReceipt (tx_id t))) /\
     na_mempool s' = na_mempool s ++ [t] /\ na_ledger s' = na_ledger s /\ na_store s' = na_store s) \/
  (~ valid /\ exists e, accept_transaction t gossip s = (s, Err e)).
Proof. apply accept_transaction_cases. Qed.

End spec.

(** ** The theorems at concrete nodes *)

Lemma node_never_equivocates_witness :
  match gossip_wires two_lives.1 !! 0%nat, gossip_wires two_lives.1 !! 2%nat with
  | Some wire1, Some wire2 => message_signature (wire_message wire1) = message_signature (wire_message wire2)
  | _, _ => False
  end.
Proof.
  assert (same_slot two_lives.1 0 2 = true) as Hs by (vm_compute; reflexivity). unfold same_slot in Hs.
  destruct (gossip_wires two_lives.1 !! 0%nat) as [wire1|] eqn:E1; [|done].
  destruct (gossip_wires two_lives.1 !! 2%nat) as [wire2|] eqn:E2; [|done].
  apply bool_decide_eq_true in Hs.
  assert (node_history two_lives.1 two_lives.2) as Hh.
  { eapply (lives_history no_debug); [apply history_new|apply surjective_pairing]. }
  apply (node_never_equivocates _ _ wire1 wire2 Hh); [by eapply gossip_wires_elem..|exact Hs].
Defined.

Lemma halted_node_frozen_witness :
  match started standalone_config empty_database with
  | Some s => na_ledger (command_loop no_debug [Tick; Tick] (set_halted true s)).1 = na_ledger s
  | None => False
  end.
Proof.
  destruct (known_Some _ (eq_refl true <: known (started standalone_config empty_database) = true)) as [s E].
  rewrite E.
  destruct (command_loop no_debug [Tick; Tick] (set_halted true s)) as [s' r] eqn:Hr.
  pose proof (halted_node_frozen no_debug _ (set_halted true s) s' r eq_refl Hr) as F. clear E Hr.
  exact (frozen_ledger _ _ F).
Defined.

Lemma disk_holds_the_ledger_witness :
  match started standalone_config empty_database with
  | Some self =>
      let self' := (run no_debug [Tick] self).1 in
      match started standalone_config (durable (na_store self')) with
      | Some self2 => stores_chain local_chain (durable (na_store self')) (na_ledger self') /\ na_ledger self2 = na_ledger self'
      | None => False
      end
  | None => False
  end.
Proof.
  destruct (known_Some _ (eq_refl true <: known (started standalone_config empty_database) = true)) as [self E].
  assert (known (started standalone_config disk1) = true) as K by (vm_compute; reflexivity).
  unfold disk1, produced in K. rewrite E in K |- *. change ((λ self, _) <$> Some self) with (Some (run no_debug [Tick] self).1) in K.
  cbv iota in K. cbv zeta. set (self' := (run no_debug [Tick] self).1) in *.
  destruct (known_Some _ K) as [self2 E2]. rewrite E2.
  assert (run no_debug [Tick] self = (self', (run no_debug [Tick] self).2)) as Hr by apply surjective_pairing.
  clearbody self'. clear K. unfold started in E, E2.
  destruct (start_node standalone_config true ∅ node_environment (fresh_disk empty_database)) as [s [x|]] eqn:H1; [|discriminate].
  injection E as ->.
  destruct (start_node standalone_config true ∅ node_environment (fresh_disk (durable (na_store self')))) as [s2 [x2|]] eqn:H2; [|discriminate].
  injection E2 as ->.
  destruct (disk_holds_the_ledger no_debug local_chain standalone_config standalone_config true true ∅ ∅ node_environment node_environment [] []
    empty_database (ledger_new local_chain) s s2 self self' self2 [Tick] _ (stores_chain_empty _)
    (history_slots_unique _ _ history_new) eq_refl eq_refl H1 Hr H2) as (_ & Hd & Hl).
  split; [exact Hd|exact Hl].
Defined.

Lemma consensus_event_terminates_witness :
  match started node_config0 empty_database with
  | Some s => drains no_debug [Start] s (process_events no_debug EVENT_BUDGET [Start] s)
  | None => False
  end.
Proof.
  destruct (known_Some _ (eq_refl true <: known (started node_config0 empty_database) = true)) as [s E]. rewrite E.
  apply (consensus_event_terminates no_debug Start s I). reflexivity.
Defined.

Lemma verify_store_exact_witness :
  exists history ledger, Forall2 row_of (default [] (reported (canonical_block_rows (fresh_disk disk1)).2)) history /\
    replay_finalized_blocks local_chain history dev_validators = Ok ledger /\
    reported (verify_store local_chain (fresh_disk disk1)).2 = Some (replay_report ledger).
Proof.
  assert (known (reported (canonical_block_rows (fresh_disk disk1)).2) = true) as Hrows by (vm_compute; reflexivity).
  assert (known (reported (verify_store local_chain (fresh_disk disk1)).2) = true) as Hreport by (vm_compute; reflexivity).
  destruct (canonical_block_rows (fresh_disk disk1)) as [s1 [rows|]] eqn:E1; [|discriminate Hrows].
  destruct (verify_store local_chain (fresh_disk disk1)).2 as [report|] eqn:E2; [|discriminate Hreport].
  destruct (proj1 (verify_store_exact local_chain _ _ _ report E1) E2) as (history & ledger & Hh & Hr & ->).
  exists history, ledger. split; [exact Hh|]. split; [exact Hr|reflexivity].
Defined.

Lemma certified_conflict_halts_witness :
  match produced with
  | Some s => na_halted (command_loop no_debug [ImportFinalized rival None; Tick] s).1 = true
  | None => False
  end.
Proof.
  assert (match produced with Some s => conflicts s | None => false end = true) as Hc by (vm_compute; reflexivity).
  destruct produced as [s|]; [|discriminate Hc]. unfold conflicts in Hc.
  apply andb_prop in Hc as [(((((H1 & H2)%andb_prop & H3)%andb_prop & H4)%andb_prop & H5)%andb_prop & H6)%andb_prop H7].
  apply negb_true_iff in H1. apply bool_decide_eq_true in H2, H3. apply is_ok_unit in H4, H5. apply Z.leb_le in H6.
  destruct (block_by_height (bh_height (header (fw_block rival))) (na_store s)) as [st [[row|]|]] eqn:Erow; try discriminate H7.
  simpl in H7. destruct (block_decode (br_block_bytes row)) as [existing|] eqn:Edec; [|discriminate H7].
  apply bool_decide_eq_true in H7.
  destruct (command_loop no_debug [ImportFinalized rival None; Tick] s) as [s' r] eqn:Hr.
  apply (certified_conflict_halts no_debug rival None s st row existing H1 H2 H3 H4 H5 H6 Erow Edec H7 [Tick] s' r Hr).
Defined.

Lemma recovery_refines_witness :
  exists vs validator c log,
    recover (H := node_message_validator validator) vs (for_chain (cfg_node_chain_id node_config0)) 1
      (validator_from_signing_key dev_key) log = Ok c /\
    Forall2 (decision_entry 1) (decisions_of 1 crashed) log /\ log <> [].
Proof.
  assert (known (reported crashed_recovery.2) && known (consensus_safety crashed) = true) as [K1 K2]%andb_prop by (vm_compute; reflexivity).
  unfold crashed_recovery in K1.
  destruct (initialize_consensus_recovery _ _ _ _ _ _) as [s' [r|]] eqn:E; [|discriminate K1].
  destruct (recovery_refines node_config0 (ledger_new local_chain) dev_validators dev_validators dev_key (fresh_disk crashed) s' r (eq_refl : idle (fresh_disk crashed)) E)
    as (vs & validator & c & log & _ & _ & Hrec & Hlog).
  simpl durable in Hlog. destruct (consensus_safety crashed); [|discriminate K2]. destruct Hlog as [Hlog Hne].
  exists vs, validator, c, log. split; [exact Hrec|]. split; [exact Hlog|exact Hne].
Defined.

(** The disk a standalone node leaves stores a chain. *)
Lemma standalone_stores_chain commands self :
  started standalone_config empty_database = Some self ->
  stores_chain local_chain (durable (na_store (run no_debug commands self).1)) (na_ledger (run no_debug commands self).1).
Proof.
  intros [s E]%started_start.
  destruct (start_node_Ok _ _ _ _ (mk_Store false [] empty_database None) _ _ eq_refl
    (history_slots_unique _ _ history_new) E) as (_ & _ & _ & Hh & _ & _ & Hb & _).
  destruct (start_node_chain standalone_config _ _ _ (mk_Store false [] empty_database None) _ _ local_chain _ eq_refl
    (history_slots_unique _ _ history_new) (stores_chain_empty local_chain) eq_refl E) as [_ Hi].
  destruct (run no_debug commands self) as [self' r] eqn:Hr.
  apply (steps_chain_inv _ _ _ (run_steps no_debug commands _ _ _ Hh Hb Hr) Hi).
Qed.

(** Two nodes of the local chain, one of which was given another first block. *)
Lemma node_ledgers_agree_witness :
  exists c1 c2 culprits, exposed (certificate_vote c1) (certificate_vote c2) dev_validators culprits.
Proof.
  assert (known (started standalone_config empty_database) = true) as [self E]%known_Some by (vm_compute; reflexivity).
  assert (disk_decodes disk1 && disk_decodes rival_disk &&
          bool_decide (Forall block_in_range (disk_history disk1).*1) &&
          bool_decide (Forall block_in_range (disk_history rival_disk).*1) &&
          bool_decide (collision_free (((disk_history disk1).*1 ≫= block_inputs) ++ ((disk_history rival_disk).*1 ≫= block_inputs))) &&
          match started standalone_config empty_database with
          | Some self => height (na_ledger (run no_debug [Tick] self).1) <=?
                         height (na_ledger (run no_debug [ImportFinalized rival None] self).1)
          | None => false
          end &&
          negb (bool_decide ((disk_history disk1).*1 `prefix_of` (disk_history rival_disk).*1)) = true) as K.
  { vm_compute. reflexivity. }
  rewrite E in K.
  apply andb_prop in K as [(((((D1 & D2)%andb_prop & R1)%andb_prop & R2)%andb_prop & Hcf)%andb_prop & Hle)%andb_prop Hp].
  apply negb_true_iff, bool_decide_eq_false in Hp. apply bool_decide_eq_true in R1, R2, Hcf. apply Z.leb_le in Hle.
  apply disk_decodes_history in D1, D2.
  assert (disk1 = durable (na_store (run no_debug [Tick] self).1)) as E1 by (unfold disk1, produced; by rewrite E).
  assert (rival_disk = durable (na_store (run no_debug [ImportFinalized rival None] self).1)) as E2
    by (unfold rival_disk; by rewrite E).
  pose proof (standalone_stores_chain [Tick] self E) as Hs1. rewrite <- E1 in Hs1.
  pose proof (standalone_stores_chain [ImportFinalized rival None] self E) as Hs2. rewrite <- E2 in Hs2.
  destruct (node_ledgers_agree local_chain disk1 rival_disk _ _ _ _ Hs1 Hs2 D1 D2 R1 R2 Hcf Hle)
    as [[Hpre _]|(i & b1 & c1 & b2 & c2 & culprits & _ & _ & _ & _ & He)]; [by destruct Hp|].
  exists c1, c2, culprits. exact He.
Defined.

Lemma mempool_never_blocks_witness :
  match started node_config0 empty_database with
  | Some self =>
      let self' := (run no_debug [Submit local_claim false] self).1 in
      length (na_mempool self') = 1%nat /\
      exists b, (build_consensus_proposal 0 None self').2 = Ok b /\ Block.transactions b = take 1000 (na_mempool self')
  | None => False
  end.
Proof.
  destruct (known_Some _ (eq_refl true <: known (started node_config0 empty_database) = true)) as [self E].
  assert (match started node_config0 empty_database with
          | Some self =>
              let self' := (run no_debug [Submit local_claim false] self).1 in
              bool_decide (length (na_mempool self') = 1%nat) && known (node_key self') &&
              bool_decide (Forall transaction_in_range (na_mempool self')) &&
              forallb row_in_types (map_to_list (blocks (durable (na_store self')))).*2 &&
              (height (na_ledger self') + 1 <=? u64_max)
          | None => false
          end = true) as K by (vm_compute; reflexivity).
  rewrite E in K |- *. cbv zeta in *.
  assert (run no_debug [Submit local_claim false] self =
          ((run no_debug [Submit local_claim false] self).1, (run no_debug [Submit local_claim false] self).2)) as Hr
    by apply surjective_pairing.
  set (self' := (run no_debug [Submit local_claim false] self).1) in *. clearbody self'.
  apply andb_prop in K as [(((K1 & Hk)%andb_prop & K2)%andb_prop & K3)%andb_prop K4%Z.leb_le].
  apply bool_decide_eq_true in K1, K2. apply known_Some in Hk as [key Hk]. apply started_start in E as [s E].
  destruct (mempool_never_blocks no_debug local_chain node_config0 true ∅ node_environment [] empty_database
    (ledger_new local_chain) s self self' [Submit local_claim false] _ (stores_chain_empty _)
    (history_slots_unique _ _ history_new) eq_refl E Hr (Build_in_types _ (rows_in_types _ K3) K2) K4) as (_ & Hb & _).
  split; [exact K1|]. exact (Hb key 0 Hk).
Defined.

Lemma accept_transaction_exact_witness :
  match started standalone_config empty_database with
  | Some s => exists s', accept_transaction local_claim false s = (s', Ok (mk_SubmissionReceipt (tx_id local_claim))) /\
      na_mempool s' = na_mempool s ++ [local_claim]
  | None => False
  end.
Proof.
  assert (match started standalone_config empty_database with
          | Some s => is_ok (accept_transaction local_claim false s).2 &&
              bool_decide (Forall transaction_in_range (na_mempool s)) &&
              forallb row_in_types (map_to_list (blocks (durable (na_store s)))).*2
          | None => false
          end && bool_decide (transaction_in_range local_claim) = true) as [K Ht%bool_decide_eq_true]%andb_prop
    by (vm_compute; reflexivity).
  destruct (started standalone_config empty_database) as [self|] eqn:E; [|discriminate K].
  apply andb_prop in K as [(K1 & K2%bool_decide_eq_true)%andb_prop K3]. apply started_start in E as [s E].
  destruct (start_node_chain standalone_config _ _ _ (mk_Store false [] empty_database None) _ _ local_chain _ eq_refl
    (history_slots_unique _ _ history_new) (stores_chain_empty local_chain) eq_refl E) as [_ Hi].
  destruct (start_node_mempool _ _ _ _ _ _ _ E) as [Hm Hids].
  destruct (accept_transaction_exact local_chain self local_claim false (chain_start_mempool_inv _ _ Hi Hm Hids)
    (Build_in_types _ (rows_in_types _ K3) K2) Ht) as [(_ & s' & Hr & Hmem & _)|(_ & e & Hr)].
  - exists s'. split; [exact Hr|exact Hmem].
  - rewrite Hr in K1. discriminate K1.
Defined.

(** When a proposal completes both the local prevote and the others' precommit
    quorum, one [step] asks for the prevote's storage and finalizes: the block is
    committed, the engine replaced, and the queued [Persisted] event then reaches
    an engine that has not started. The handler reports a failure although the
    height was finalized. *)
Example late_proposal_reports_error :
  late = Some (Err (WithContext "consensus state transition failed" (ConsensusFailed NotStarted)), 1).
Proof. vm_compute. reflexivity. Qed.
