(* ===== verification/ApiSpec.v ===== *)
(** * Correctness of the HTTP API

    The submission of transactions, from the wallet or the browser that signs
    them to the mempool. *)

From S2P Require Import Prelude Errors Crypto Transaction Wasm Block Commit Ledger LedgerFacts Replay ConsensusTypes Engine Sqlite Store StoreFacts NodeTypes Projection Recovery NodeState Node Api Cli NodeCommands NodeSteps NodeChain NodeStart NodeMempool Reference Fixtures ConsensusReference NodeReference ApiReference.

(** ** Transactions as JSON *)

Section submission.
Context `{Blake3, Ed25519, !SigningKeyBytes, Hex, Bech32, !Borsh UnsignedTransaction, !Borsh SignedTransaction, Base64}.
Context `{!Bech32Laws, !Base64Laws}.

Lemma decode_fixed_encode {n} (a : array n) field : decode_fixed n (base64_encode (as_bytes a)) field = Ok a.
Proof. unfold decode_fixed. rewrite base64_decode_encode. cbn. by rewrite array_try_from_as_bytes. Qed.

Lemma parse_u64_to_string n field : is_u64 n -> parse_u64 (to_string n) field = Ok n.
Proof. intros Hn. unfold parse_u64. by rewrite (parse_uint_to_string u64_max n Hn (proj2 Hn)). Qed.

Lemma action_from_to_submission a : action_in_range a -> action_from_submission (action_submission a) = Ok a.
Proof.
  destruct a as [r x|i x|name]; simpl; [|intros [Hi [Hx0 Hx1]]|done].
  - intros Hx. rewrite address_from_to_string. cbn [map_err mbind result_bind]. by rewrite parse_u64_to_string.
  - rewrite (parse_u64_to_string i) by done. cbn [mbind result_bind].
    rewrite (parse_uint_to_string u16_max x); [done| |done]. unfold u16_max, u64_max in *. split; lia.
Qed.

Lemma submission_parses (t : SignedTransaction) :
  verify_signature t = Ok () -> transaction_in_range t -> transaction_from_submission (submission_of t) = Ok t.
Proof.
  intros Hv (Hn & He & Ha). pose proof (verify_signature_Ok_inv t Hv) as (Hs & _ & _).
  apply unsigned_validate_shape_Ok_inv in Hs as (_ & Hc & _).
  destruct t as [[ver c pk n e a] sg]. unfold transaction_from_submission, submission_of; simpl in *.
  rewrite !decode_fixed_encode. cbn [mbind result_bind]. rewrite (chain_id_new_valid _ Hc). cbn [map_err mbind result_bind].
  rewrite !parse_u64_to_string by done. cbn [mbind result_bind]. rewrite (action_from_to_submission _ Ha). cbn [mbind result_bind].
  unfold from_parts. by rewrite Hv.
Qed.

Lemma parsed_verifies sub t : transaction_from_submission sub = Ok t -> verify_signature t = Ok ().
Proof.
  unfold transaction_from_submission. intros Hr.
  do 6 (apply result_bind_Ok_inv in Hr as (? & _ & Hr)). apply map_err_Ok_inv in Hr. unfold from_parts in Hr.
  apply result_bind_Ok_inv in Hr as ([] & Hv & [= <-]). done.
Qed.

(** What the wallet sends is what the API reads: the JSON of a verified
    transaction parses to that transaction, and the API lets nothing through
    that does not verify. *)
Theorem submission_roundtrip :
  (forall t, verify_signature t = Ok () -> transaction_in_range t -> transaction_from_submission (submission_of t) = Ok t) /\
  (forall sub t, transaction_from_submission sub = Ok t -> verify_signature t = Ok ()).
Proof. split; [apply submission_parses|apply parsed_verifies]. Qed.

(** ** The browser *)

(** The export for the transaction's action. *)
Definition browser_signing_bytes (u : UnsignedTransaction) : result JsValue bytes :=
  let chain := as_str (tx_chain_id u) in
  let key := as_bytes (tx_sender_public_key u) in
  match tx_action u with
  | Transfer recipient amount =>
      wasm_unsigned_transfer_signing_bytes chain key (tx_nonce u) (tx_expiry_height u) (address_to_string recipient) amount
  | ClaimReward id answer =>
      wasm_unsigned_claim_reward_signing_bytes chain key (tx_nonce u) (tx_expiry_height u) id answer
  | SetDisplayName name =>
      wasm_unsigned_set_display_name_signing_bytes chain key (tx_nonce u) (tx_expiry_height u) name
  end.

Lemma unsigned_new_shape c pk n e a :
  unsigned_validate_shape (unsigned_new c pk n e a) = (_ ← chain_id_validate c; action_validate_shape a).
Proof. unfold unsigned_validate_shape. by rewrite bool_decide_eq_false_2 by (simpl; tauto). Qed.

Lemma browser_signing_bytes_eq u :
  tx_protocol_version u = PROTOCOL_VERSION ->
  browser_signing_bytes u = map_err js_error (_ ← unsigned_validate_shape u; Ok (tx_signing_bytes u)).
Proof.
  intros Hver.
  assert (browser_signing_bytes u =
          unsigned_signing_bytes (as_str (tx_chain_id u)) (as_bytes (tx_sender_public_key u)) (tx_nonce u)
            (tx_expiry_height u) (Ok (tx_action u))) as ->.
  { unfold browser_signing_bytes. destruct (tx_action u); try done.
    unfold wasm_unsigned_transfer_signing_bytes. by rewrite address_from_to_string. }
  destruct u as [ver c pk n e a]; simpl in *. subst ver. unfold unsigned_signing_bytes, Wasm.public_key.
  rewrite array_try_from_as_bytes.
  fold (unsigned_new c pk n e a). rewrite unsigned_new_shape.
  destruct (chain_id_validate c) as [[]|err] eqn:Hc.
  - rewrite (chain_id_new_valid _ Hc). cbn [map_err mbind result_bind ok_or]. rewrite unsigned_new_shape, Hc. cbn.
    by destruct (action_validate_shape a).
  - by rewrite (chain_id_new_invalid _ _ Hc).
Qed.

(** C23. The browser signs what the wallet signs: for every transaction of this
    protocol version the export of its action returns exactly the bytes the
    Rust wallet signs, or the error it reports; so a signature made in the
    browser over them is the wallet's, and the API accepts its submission. *)
Theorem browser_signs_as_wallet `{!Ed25519Laws} (u : UnsignedTransaction) (k : SigningKey) :
  tx_protocol_version u = PROTOCOL_VERSION -> tx_sender_public_key u = verifying_key k ->
  match browser_signing_bytes u with
  | Ok b => sign u k = Ok (mk_SignedTransaction u (ed_sign k b)) /\
      (transaction_in_range (mk_SignedTransaction u (ed_sign k b)) ->
       transaction_from_submission (submission_of (mk_SignedTransaction u (ed_sign k b))) =
         Ok (mk_SignedTransaction u (ed_sign k b)))
  | Err text => exists e, sign u k = Err e /\ text = js_error e
  end.
Proof.
  intros Hver Hk. rewrite (browser_signing_bytes_eq u Hver).
  assert (sign u k = (_ ← unsigned_validate_shape u; Ok (mk_SignedTransaction u (ed_sign k (tx_signing_bytes u))))) as Hsign.
  { unfold sign. by rewrite bool_decide_eq_false_2 by tauto. }
  destruct (unsigned_validate_shape u) as [[]|e] eqn:Hs; cbn in *; [|by exists e].
  split; [done|]. intros Ht. apply submission_parses; [|done]. by eapply sign_verifies.
Qed.
End submission.

(** ** From the wallet to the mempool *)

Section node.
Context `{Blake3, Blake3Checksum, Ed25519, !SigningKeyBytes, Hex, Bech32, ChallengeJson, Libp2p,
          !Borsh UnsignedTransaction, !Borsh SignedTransaction, !Borsh BlockHeader, !Borsh Block,
          !Borsh StateCommitment, !Borsh CommitVote, !Borsh CommitCertificate,
          !Borsh SignableMessage, !Borsh SignedMessage, !Borsh SignedProposal,
          !Borsh FinalizedWireRecord, !Borsh ValidatorStatusMessage, !SerdeJson SafetyState}.
Context `{Base64, !Bech32Laws, !Base64Laws, !BorshLaws Block, !BorshLaws CommitCertificate}.

Lemma validation_error_status e : ae_status (validation_error e) ∈ [BAD_REQUEST; CONFLICT; UNPROCESSABLE_ENTITY].
Proof. destruct e; cbn; set_solver. Qed.

(** C21. A submission reaches the mempool exactly when it should. Let a wallet's
    transaction arrive while the node is [n1], and the actor take it when it has
    become [n2]. If [n1] reports itself neither halted nor catching up and the
    transaction is valid after the ledger and everything pending in [n2], the
    answer is 202 with its id and it is the last in the mempool; otherwise the
    answer is a client error or 503, and the node is left as it was. *)
Theorem wallet_submission_exact c (s s' : ApiState) (t : SignedTransaction) r :
  verify_signature t = Ok () -> transaction_in_range t -> api_running s = true ->
  let n1 := api_node (advance s) in
  let n2 := api_node (advance (advance s)) in
  mempool_inv c n2 -> in_types n2 ->
  submit_transaction (Some (submission_of t)) s = (s', r) ->
  let ready := snap_halted (na_snapshot n1) = false /\ snap_syncing (na_snapshot n1) = false in
  let valid :=
    na_halted n2 = false /\ is_syncing n2 = false /\ height (na_ledger n2) + 1 <= u64_max /\
    tx_valid (txs_post (na_ledger n2) (na_mempool n2)) t (height (na_ledger n2) + 1) in
  (ready /\ valid /\ r = Ok (ACCEPTED, mk_SubmissionResponse (hash_to_string (tx_id t)) (str "pending")) /\
     na_mempool (api_node s') = na_mempool n2 ++ [t] /\ na_ledger (api_node s') = na_ledger n2) \/
  (~ (ready /\ valid) /\ (api_node s' = n1 \/ api_node s' = n2) /\
     exists e, r = Err e /\ ae_status e ∈ [BAD_REQUEST; CONFLICT; UNPROCESSABLE_ENTITY; SERVICE_UNAVAILABLE]).
Proof.
  intros Hv Ht Hrun n1 n2 Hm Hty Hr ready valid. unfold submit_transaction in Hr.
  rewrite (bind_run_Ok snapshot _ s (advance s) (na_snapshot n1)) in Hr by done.
  unfold ensure_submission_ready in Hr.
  destruct (snap_halted (na_snapshot n1)) eqn:Hh.
  { injection Hr as <- <-. right. split; [by intros [[? _] _]|]. split; [by left|]. eexists. split; [done|]. set_solver. }
  destruct (snap_syncing (na_snapshot n1)) eqn:Hs.
  { injection Hr as <- <-. right. split; [by intros [[_ ?] _]|]. split; [by left|]. eexists. split; [done|]. set_solver. }
  rewrite (bind_run_Ok (lift (Ok ())) _ (advance s) (advance s) ()) in Hr by done.
  rewrite (bind_run_Ok (lift _) _ (advance s) (advance s) (submission_of t)) in Hr by done.
  rewrite (bind_run_Ok (lift _) _ (advance s) (advance s) t) in Hr by (by rewrite submission_parses).
  assert (api_running (advance (advance s)) = true) as Hrun2.
  { unfold advance. destruct (api_later s) as [|? [|? ?]] eqn:E; simpl; rewrite ?E; done. }
  destruct (accept_transaction_cases c n2 t true Hm Hty Ht) as [(Hval & n3 & Ha & Hmem & Hl & _)|(Hval & e & Ha)].
  - left. rewrite (bind_run_Ok (submit t) _ (advance s) (set_node n3 (advance (advance s))) (mk_SubmissionReceipt (tx_id t))) in Hr.
    + injection Hr as <- <-. by split_and!.
    + unfold submit. cbv zeta. fold n2. rewrite Hrun2. cbn [negb]. by rewrite Ha.
  - right. rewrite (bind_run_Err (submit t) _ (advance s) (set_node n2 (advance (advance s))) (validation_error e)) in Hr.
    + injection Hr as <- <-. split; [by intros [_ ?]|]. split; [by right|]. eexists. split; [done|].
      pose proof (validation_error_status e). set_solver.
    + unfold submit. cbv zeta. fold n2. rewrite Hrun2. cbn [negb]. by rewrite Ha.
Qed.
End node.

(** ** The theorems at a concrete wallet and node *)

Lemma browser_signs_as_wallet_witness :
  exists b, browser_signing_bytes (unsigned local_claim) = Ok b /\
    sign (unsigned local_claim) (alice : @SigningKey ed25519) =
      Ok (mk_SignedTransaction (unsigned local_claim) (ed_sign (alice : @SigningKey ed25519) b)).
Proof.
  assert (is_ok (browser_signing_bytes (unsigned local_claim)) = true) as K by (vm_compute; reflexivity).
  pose proof (browser_signs_as_wallet (unsigned local_claim) (alice : @SigningKey ed25519) eq_refl eq_refl) as Hx.
  destruct (browser_signing_bytes (unsigned local_claim)) as [b|]; [|discriminate K].
  exists b. split; [reflexivity|]. exact (proj1 Hx).
Defined.

Lemma wallet_submission_exact_witness :
  match started standalone_config empty_database with
  | Some s => exists s', submit_transaction (Some (submission_of local_claim)) (mk_ApiState s [] true) =
      (s', Ok (ACCEPTED, mk_SubmissionResponse (hash_to_string (tx_id local_claim)) (str "pending"))) /\
      na_mempool (api_node s') = na_mempool s ++ [local_claim]
  | None => False
  end.
Proof.
  assert (match started standalone_config empty_database with
          | Some s => is_ok (submit_transaction (Some (submission_of local_claim)) (mk_ApiState s [] true)).2 &&
              bool_decide (Forall transaction_in_range (na_mempool s)) &&
              forallb row_in_types (map_to_list (blocks (durable (na_store s)))).*2
          | None => false
          end && bool_decide (transaction_in_range local_claim) && bool_decide (verify_signature local_claim = Ok ()) = true)
    as [[K Ht%bool_decide_eq_true]%andb_prop Hv%bool_decide_eq_true]%andb_prop by (vm_compute; reflexivity).
  destruct (started standalone_config empty_database) as [self|] eqn:E; [|discriminate K].
  apply andb_prop in K as [(K1 & K2%bool_decide_eq_true)%andb_prop K3]. apply started_start in E as [s E].
  destruct (start_node_chain standalone_config _ _ _ (mk_Store false [] empty_database None) _ _ local_chain _ eq_refl
    (history_slots_unique _ _ history_new) (stores_chain_empty local_chain) eq_refl E) as [_ Hi].
  destruct (start_node_mempool _ _ _ _ _ _ _ E) as [Hm Hids].
  destruct (submit_transaction (Some (submission_of local_claim)) (mk_ApiState self [] true)) as [s' r] eqn:Hr.
  destruct (wallet_submission_exact local_chain (mk_ApiState self [] true) s' local_claim r Hv Ht eq_refl
    (chain_start_mempool_inv _ _ Hi Hm Hids) (Build_in_types _ (rows_in_types _ K3) K2) Hr)
    as [(_ & _ & -> & Hmem & _)|(_ & _ & e & -> & _)]; [|discriminate K1].
  exists s'. split; [reflexivity|exact Hmem].
Defined.
