(* ===== verification/ExplorerSpec.v ===== *)
(** * Correctness of the explorer's API

    What the read handlers answer on a node whose disk works, while the node
    goes on between their reads. *)

From S2P Require Import Prelude Errors Crypto Transaction Block Commit Ledger LedgerFacts Replay ConsensusTypes Engine Sqlite Store StoreFacts NodeTypes Projection Recovery NodeState Node Api NodeCommands NodeSteps NodeChain NodeMempool NodeExplorer ApiFacts ApiPages ApiLeaderboard Reference Fixtures ConsensusReference NodeReference ApiReference.

Section spec.
Context `{Blake3, Blake3Checksum, Ed25519, !SigningKeyBytes, Hex, Bech32, ChallengeJson, Libp2p,
          !Borsh UnsignedTransaction, !Borsh SignedTransaction, !Borsh BlockHeader, !Borsh Block,
          !Borsh StateCommitment, !Borsh CommitVote, !Borsh CommitCertificate,
          !Borsh SignableMessage, !Borsh SignedMessage, !Borsh SignedProposal,
          !Borsh FinalizedWireRecord, !Borsh ValidatorStatusMessage, !SerdeJson SafetyState}.
Context `{Base64, Chrono, ChallengeResponseJson}.
Context `{!BorshLaws Block, !BorshLaws CommitCertificate, !HexLaws, !Bech32Laws}.

Definition block_not_found : ApiError := not_found (str "BLOCK_NOT_FOUND") (str "block was not found").
Definition transaction_not_found : ApiError := not_found (str "TRANSACTION_NOT_FOUND") (str "transaction was not found").

(** C26. Every finalized block is served, and nothing else: a request for a height
    is answered with the certified block the disk holds there and all its
    transactions in order, whatever the node finalizes meanwhile, and with 404
    when there is none; a height no SQL integer can hold is answered with 500. *)
Theorem explorer_block_exact c (s : ApiState) h :
  api_serving c s -> is_u64 h ->
  match (get_block (to_string h) s).2 with
  | Ok e => exists row b cert, stored_block (disk (advance s)) h row b cert /\ serves_block b cert true e
  | Err e => (e = block_not_found /\ h <= i64_max /\ blocks (disk (advance s)) !! h = None) \/
      (ae_status e = INTERNAL_SERVER_ERROR /\ i64_max < h)
  end.
Proof.
  intros Hs Hh. unfold get_block. rewrite (parse_uint_to_string u64_max h Hh (proj2 Hh)).
  pose proof (api_serving_advance _ _ Hs) as Hs1.
  destruct (Z.le_gt_cases h i64_max) as [Hle|Hgt].
  - rewrite (bind_run_Ok _ _ s (advance s) (blocks (disk (advance s)) !! h)).
    2: { apply (block_by_height_read c); [done..|]. intros row Hr. destruct (serving_row _ _ _ _ Hs1 Hr) as (b & cert & [_ ?]). by exists b, cert. }
    destruct (blocks (disk (advance s)) !! h) as [row|] eqn:E; [|by left].
    rewrite (bind_run_Ok _ _ (advance s) (advance s) row) by done.
    destruct (serving_row _ _ _ _ Hs1 E) as (b & cert & Hb).
    destruct (explorer_block_serves _ _ _ _ _ _ true Hs1 Hb) as (s' & e & -> & He & _). by exists row, b, cert.
  - rewrite (bind_run_Err _ _ s (advance s) (internal (str "persistent explorer data is temporarily unavailable"))); [by right|].
    unfold block_by_height. rewrite (on_store_read c) by done.
    unfold to_sql_u64. by rewrite (proj2 (Z.leb_gt _ _)) by lia.
Qed.

(** C31. Every finalized transaction is served, and nothing else: the answer to an
    id is the transaction of a certified block with that id, or 404 when no
    finalized block has one. *)
Theorem explorer_transaction_exact c (s : ApiState) id :
  api_serving c s ->
  let finalized b cert := exists h row, stored_block (disk (advance s)) h row b cert in
  match (get_transaction id s).2 with
  | Ok e => exists b cert i t, finalized b cert /\ Block.transactions b !! i = Some t /\
      id = hash_to_string (tx_id t) /\ serves_transaction b i t e
  | Err e => e = transaction_not_found /\
      forall b cert t, finalized b cert -> t ∈ Block.transactions b -> hash_to_string (tx_id t) <> id
  end.
Proof.
  intros Hs finalized. pose proof (api_serving_advance _ _ Hs) as Hs1.
  destruct (serving_chain _ _ (api_serving_node _ _ Hs1)) as [history Hc].
  unfold get_transaction, Store.transaction.
  destruct (transactions (disk (advance s)) !! id) as [row|] eqn:E.
  - destruct (mirror_sound _ _ _ (chain_mirrors _ _ _ Hc) _ _ E) as (b & i & t & Hb & Ht & Hid & Hd).
    apply (chain_blocks _ _ _ Hc) in Hb as (h & brow & cert & Hb).
    destruct (stored_block_typed _ _ _ _ _ _ Hs1 Hb) as (Htyped & _).
    rewrite (bind_run_Ok _ _ s (advance s) (Some row)).
    2: { rewrite (on_store_read c) by done. rewrite E. simpl. by rewrite (transaction_row_reads _ _ _ _ Htyped Ht Hd). }
    rewrite (bind_run_Ok _ _ (advance s) (advance s) row) by done.
    destruct (explorer_transaction_serves _ _ _ _ _ _ _ _ _ Hs1 Hb Ht Hd) as (s' & e & -> & He & _).
    exists b, cert, i, t. split_and!; [by exists h, brow|done..].
  - rewrite (bind_run_Ok _ _ s (advance s) None).
    2: { rewrite (on_store_read c) by done. by rewrite E. }
    split; [done|]. intros b cert t (h & row & Hb) (i & Ht)%list_elem_of_lookup Hid.
    assert (b ∈ history) as Hin by (apply (chain_blocks _ _ _ Hc); by exists h, row, cert).
    destruct (mirror_complete _ _ _ (chain_mirrors _ _ _ Hc) b i t Hin Ht) as (row' & Hrow' & _).
    unfold disk in E. rewrite <- Hid in E. by rewrite E in Hrow'.
Qed.

(** C17. Paging loses no block and shows none twice: an explorer that follows
    [next_cursor] from the newest page to the end receives every block that was
    finalized when it began, once each and newest first, for any page size,
    whatever the node finalizes meanwhile; and it does reach the end. *)
Theorem explorer_pages_complete c (s : ApiState) (limit : option Z) (fuel : nat) :
  api_serving c s -> (length (newest (disk (advance s))) < fuel)%nat ->
  exists s' l, walk_blocks fuel limit None s = (s', Ok l) /\
    Forall2 (fun row e => exists b cert, row_of row (b, cert) /\ serves_block b cert false e)
      (newest (disk (advance s))) l /\
    StronglySorted (fun a b => br_height b < br_height a) (newest (disk (advance s))) /\
    (forall h row, blocks (disk (advance s)) !! h = Some row -> row ∈ newest (disk (advance s))).
Proof.
  intros Hs Hfuel. rewrite <- below_None in Hfuel.
  destruct (walk_from c fuel limit None s Hs) as (s' & l & Hrun & Hall); [done|done|].
  exists s', l. rewrite <- below_None. split_and!; [done..| |].
  - apply (below_sorted c). by apply api_serving_advance.
  - intros h row Hrow. rewrite below_None. apply elem_of_newest. by exists h.
Qed.

(** C30. The leaderboard is the ledger's ranking: its rows are the accounts that hold
    atoms, each once, the richest first, and the page is the asked stretch of
    them with consecutive ranks; every share and every concentration lies
    between 0 and 10000 basis points, the concentrations grow with the number of
    accounts, and the sum behind them never exceeds the cap of the supply, so
    the [u64] addition cannot overflow. *)
Theorem leaderboard_exact c (s : ApiState) (offset limit : option Z) :
  api_serving c s -> (forall o, offset = Some o -> is_u32 o) ->
  let s2 := advance (advance s) in
  let db := disk s2 in
  let richest := take 10 (ranking (disk (advance s2))) in
  let n := page_limit (query_of offset limit) 30 in
  exists s' r supply, get_leaderboard (query_of offset limit) s = (s', Ok r) /\
    lr_entries r = imap (leaderboard_entry (default 0 offset) supply)
                     (take (Z.to_nat n) (drop (Z.to_nat (default 0 offset)) (ranking db))) /\
    Forall (fun e => 0 <= le_share_bps e <= 10000) (lr_entries r) /\
    StronglySorted (fun a b => ap_balance_atoms b <= ap_balance_atoms a) (ranking db) /\
    (exists l, Forall2 projected_account l (ranking db) /\ NoDup l.*1 /\
       Forall (fun e => Ledger.accounts (na_ledger (api_node s2)) !! e.1 = Some e.2) l /\
       forall a x, Ledger.accounts (na_ledger (api_node s2)) !! a = Some x -> 0 < balance_atoms x -> (a, x) ∈ l) /\
    let k := lr_concentration r in
    0 <= top_1_bps k <= top_5_bps k /\ top_5_bps k <= top_10_bps k <= 10000 /\
    foldr Z.add 0 (ap_balance_atoms <$> richest) <= MAX_SUPPLY_ATOMS.
Proof.
  intros Hs Hoff s2 db richest n. pose proof (api_serving_advance _ _ Hs) as Hs1.
  pose proof (api_serving_advance _ _ Hs1) as Hs2. fold s2 in Hs2. pose proof (api_serving_advance _ _ Hs2) as Hs3.
  destruct (serving_chain _ _ (api_serving_node _ _ Hs2)) as [history Hc].
  destruct (serving_chain _ _ (api_serving_node _ _ Hs3)) as [history3 Hc3].
  unfold get_leaderboard. rewrite (bind_run_Ok snapshot _ s (advance s) (na_snapshot (api_node (advance s)))) by done.
  cbv zeta. set (supply := parse_supply _). assert (0 <= supply) as Hsupply by apply parse_supply_nonneg.
  rewrite (bind_run_Ok _ _ (advance s) (advance s) offset).
  2: { unfold query_of; simpl. destruct offset as [o|]; [|done]. cbn [transpose fmap option_fmap option_map lift].
       specialize (Hoff o eq_refl). rewrite parse_uint_to_string; [done|..]; unfold in_range, u32_max, u64_max in *; lia. }
  fold n. pose proof (page_limit_range (query_of offset limit) 30) as Hn. fold n in Hn.
  rewrite (bind_run_Ok _ _ _ _ _ (leaderboard_page_read c _ (n + 1) (default 0 offset) Hs1)). fold s2 db.
  unfold leaderboard. rewrite (bind_run_Ok _ _ _ _ _ (leaderboard_page_read c _ 10 0 Hs2)).
  eexists _, _, supply. split; [done|]. cbn [lr_entries lr_concentration top_1_bps top_5_bps top_10_bps].
  assert (truncate n (take (Z.to_nat (clamp 1 101 (n + 1))) (drop (Z.to_nat (default 0 offset)) (ranking db))) =
          take (Z.to_nat n) (drop (Z.to_nat (default 0 offset)) (ranking db))) as ->.
  { unfold truncate. rewrite take_take. f_equal. unfold clamp. lia. }
  change (take (Z.to_nat (clamp 1 101 10)) (drop (Z.to_nat 0) (ranking (disk (advance s2))))) with richest.
  assert (forall x, x ∈ ranking db -> 0 <= ap_balance_atoms x) as Hpos by apply ranking_nonneg.
  assert (Forall (fun x => 0 <= x) (ap_balance_atoms <$> richest)) as Hrich.
  { apply Forall_fmap, Forall_forall. intros x Hx. apply (ranking_nonneg (disk (advance s2))). by eapply elem_of_sublist, sublist_take. }
  split_and!; [done| | | |..].
  - apply Forall_lookup. intros i e He. rewrite list_lookup_imap in He. apply fmap_Some in He as (x & Hx & ->). apply basis_points_range; [|done].
    apply Hpos. apply list_elem_of_lookup_2 in Hx. eapply elem_of_sublist; [exact Hx|]. etrans; [apply sublist_take|apply sublist_drop].
  - apply ranking_sorted.
  - by eapply ranking_accounts.
  - apply basis_points_range; [|done]. by apply sum_nonneg, Forall_fmap, Forall_take, Forall_fmap.
  - unfold concentration_for. rewrite !fmap_take. apply basis_points_mono; [|done]. by apply sum_take_mono; [|lia].
  - unfold concentration_for. rewrite !fmap_take. apply basis_points_mono; [|done]. by apply sum_take_mono; [|lia].
  - apply basis_points_range; [|done]. by apply sum_nonneg, Forall_fmap, Forall_take, Forall_fmap.
  - etrans; [apply (ranking_sum _ _ _ 10 Hc3)|]. apply ledger_ok_supply_range, (chain_ledger_ok _ _ _ Hc3).
Qed.
End spec.

(** ** The theorems at a concrete node *)

Definition served (s : NodeActor) : ApiState := mk_ApiState s [] true.

(** A serving node with two blocks, and what it answers. *)
Definition busy_test (s : NodeActor) : bool :=
  serving_test s && is_ok (get_block (to_string 2) (served s)).2 &&
  is_ok (get_transaction (hash_to_string (tx_id local_claim)) (served s)).2 &&
  bool_decide (length (newest (durable (na_store s))) = 2%nat).

Lemma busy_serving : exists s, standalone_after busy_commands = Some s /\ api_serving local_chain (served s) /\ busy_test s = true.
Proof.
  assert (match standalone_after busy_commands with Some s => busy_test s | None => false end = true) as K
    by (vm_compute; reflexivity).
  destruct (standalone_after busy_commands) as [s|] eqn:E; [|discriminate K]. exists s. split; [reflexivity|].
  split; [|exact K]. split; [|done]. eapply standalone_serving; [exact E|].
  unfold busy_test in K. by apply andb_prop in K as [[[K _]%andb_prop _]%andb_prop _].
Qed.

Lemma explorer_block_exact_witness :
  exists s e row b cert, standalone_after busy_commands = Some s /\ (get_block (to_string 2) (served s)).2 = Ok e /\
    stored_block (disk (served s)) 2 row b cert /\ serves_block b cert true e.
Proof.
  destruct busy_serving as (s & E & Hs & K). apply andb_prop in K as [[[_ K]%andb_prop _]%andb_prop _].
  pose proof (explorer_block_exact local_chain (served s) 2 Hs ltac:(split; done)) as Hx.
  destruct (get_block (to_string 2) (served s)).2 as [e|] eqn:R; [|discriminate K].
  destruct Hx as (row & b & cert & Hst & Hserves). exists s, e, row, b, cert.
  split; [exact E|]. split; [exact R|]. split; [exact Hst|exact Hserves].
Defined.

Lemma explorer_transaction_exact_witness :
  exists s e, standalone_after busy_commands = Some s /\
    (get_transaction (hash_to_string (tx_id local_claim)) (served s)).2 = Ok e /\
    exists b i t, hash_to_string (tx_id local_claim) = hash_to_string (tx_id t) /\ serves_transaction b i t e.
Proof.
  destruct busy_serving as (s & E & Hs & K). apply andb_prop in K as [[_ K]%andb_prop _].
  pose proof (explorer_transaction_exact local_chain (served s) (hash_to_string (tx_id local_claim)) Hs) as Hx.
  cbv zeta in Hx. destruct (get_transaction _ (served s)).2 as [e|] eqn:R; [|discriminate K].
  destruct Hx as (b & cert & i & t & _ & _ & Hid & Ht). exists s, e. split; [exact E|]. split; [exact R|].
  exists b, i, t. split; [exact Hid|exact Ht].
Defined.

Lemma explorer_pages_complete_witness :
  exists s s' l, standalone_after busy_commands = Some s /\
    walk_blocks 10 (Some 1) None (served s) = (s', Ok l) /\ length l = 2%nat.
Proof.
  destruct busy_serving as (s & E & Hs & K). apply andb_prop in K as [_ K%bool_decide_eq_true].
  change (durable (na_store s)) with (disk (advance (served s))) in K.
  destruct (explorer_pages_complete local_chain (served s) (Some 1) 10 Hs ltac:(rewrite K; lia)) as (s' & l & Hrun & Hl & _).
  exists s, s', l. split; [exact E|]. split; [exact Hrun|]. apply Forall2_length in Hl. congruence.
Defined.

Lemma leaderboard_exact_witness :
  exists s r s', standalone_after busy_commands = Some s /\
    get_leaderboard (query_of None (Some 5)) (served s) = (s', Ok r) /\ 0 <= top_1_bps (lr_concentration r) <= 10000.
Proof.
  destruct busy_serving as (s & E & Hs & _).
  destruct (leaderboard_exact local_chain (served s) None (Some 5) Hs ltac:(discriminate)) as (s' & r & supply & Hr & _ & _ & _ & _ & H1 & H2 & _).
  exists s, r, s'. split; [exact E|]. split; [exact Hr|]. split; [apply H1|]. etrans; [apply H1|]. etrans; [apply H2|apply H2].
Defined.
