(* ===== verification/CliSpec.v ===== *)
(** * Correctness of the command line

    The database commands, the wallet file, the wait for finality and the
    percentiles of the benchmark. *)

From S2P Require Import Prelude Errors Crypto Transaction Block Commit Ledger LedgerFacts Replay ConsensusTypes Engine Sqlite Store StoreFacts NodeTypes Projection Recovery NodeState Node Api Cli NodeCommands NodeSteps NodeChain NodeStart NodeMempool NodeExplorer NodeReindex ApiFacts NodeCommit Reference Fixtures ConsensusReference NodeReference ApiReference.

(** ** The database commands *)

Section database.
Context `{Blake3, Blake3Checksum, Ed25519, !SigningKeyBytes, Hex, Bech32, ChallengeJson, Libp2p,
          !Borsh UnsignedTransaction, !Borsh SignedTransaction, !Borsh BlockHeader, !Borsh Block,
          !Borsh StateCommitment, !Borsh CommitVote, !Borsh CommitCertificate,
          !Borsh SignableMessage, !Borsh SignedMessage, !Borsh SignedProposal,
          !Borsh FinalizedWireRecord, !Borsh ValidatorStatusMessage, !SerdeJson SafetyState}.
Context `{!BorshLaws Block, !BorshLaws CommitCertificate, !HexLaws, !Bech32Laws}.

Lemma rows_decode rows history : Forall2 row_of rows history -> Forall2 decodes rows history.
Proof. intros Hrows. eapply Forall2_impl; [exact Hrows|]. by intros ?? []. Qed.

(** What [verify_database] looks for: rows that agree with their canonical bytes
    and replay to a ledger, and the summary of that ledger. *)
Definition verified (c : ChainId) (db : Database) (ledger : LedgerState) : Prop :=
  (exists history, Forall2 row_of (blocks_ascending db) history /\
     replay_finalized_blocks c history dev_validators = Ok ledger) /\
  (blocks db <> ∅ -> metadata_shows ledger (metadata db)).

Definition verification_of (c : ChainId) (db : Database) (ledger : LedgerState) : VerificationReport :=
  mk_VerificationReport (as_str c) (Z.of_nat (size (blocks db))) (applied_transaction_count ledger)
    (Z.of_nat (size (Ledger.accounts ledger))) (to_string (height ledger)) (hash_to_string (tip_hash ledger))
    (hash_to_string (state_root ledger)) (to_string (total_supply_atoms ledger)) true.

Lemma length_blocks_ascending db : length (blocks_ascending db) = size (blocks db).
Proof.
  unfold blocks_ascending, btree_values, btree_entries. rewrite length_fmap.
  rewrite (Permutation_length (sort_by_Permutation _ _)). apply length_map_to_list.
Qed.

Lemma metadata_is_settled key expected db :
  metadata_is key expected (settled db) = (settled db, Ok (bool_decide (metadata db !! key = Some expected))).
Proof. done. Qed.

Lemma and_also_settled a b x y db :
  a (settled db) = (settled db, Ok x) -> b (settled db) = (settled db, Ok y) ->
  and_also a b (settled db) = (settled db, Ok (x && y)).
Proof. intros Ha Hb. unfold and_also, mbind, stE_bind. rewrite Ha. by destruct x. Qed.

Lemma metadata_shows_test ledger db :
  and_also (and_also (and_also (metadata_is (str "tip_height") (to_string (height ledger)))
                               (metadata_is (str "tip_hash") (hash_to_string (tip_hash ledger))))
                     (metadata_is (str "state_root") (hash_to_string (state_root ledger))))
           (metadata_is (str "issued_supply_atoms") (to_string (total_supply_atoms ledger))) (settled db) =
  (settled db, Ok (bool_decide (metadata_shows ledger (metadata db)))).
Proof.
  rewrite (and_also_settled _ _ _ _ _ (and_also_settled _ _ _ _ _ (and_also_settled _ _ _ _ _
    (metadata_is_settled _ _ _) (metadata_is_settled _ _ _)) (metadata_is_settled _ _ _)) (metadata_is_settled _ _ _)).
  do 2 f_equal. unfold metadata_shows. rewrite !bool_decide_and. by rewrite !andb_assoc.
Qed.

Lemma tip_read db history :
  disk_typed db -> Forall2 row_of (blocks_ascending db) history ->
  tip (settled db) = (settled db, Ok (last (blocks_ascending db))).
Proof.
  intros Ht Hrows. unfold tip. rewrite read_settled, head_reverse.
  destruct (last (blocks_ascending db)) as [row|] eqn:E; [|done]. simpl. 
  apply last_Some_elem_of in E as (i & Hi)%list_elem_of_lookup.
  destruct (Forall2_lookup_l _ _ _ _ _ Hrows Hi) as ([b cert] & _ & Hd).
  apply list_elem_of_lookup_2, elem_of_btree_values in Hi as [h Hh].
  by destruct (block_row_reads db h row b cert Ht (conj Hh Hd)) as [_ ->].
Qed.

Lemma tip_agrees c db history ledger tip :
  disk_typed db -> Forall2 row_of (blocks_ascending db) history ->
  replay_finalized_blocks c history dev_validators = Ok ledger -> last (blocks_ascending db) = Some tip ->
  (br_height tip =? height ledger) && bool_decide (br_block_hash tip = hash_to_string (tip_hash ledger)) &&
    bool_decide (br_state_root tip = hash_to_string (state_root ledger)) = true.
Proof.
  intros Ht Hrows Hrep (rows & Hrs)%last_Some. pose proof Hrows as Hr2. rewrite Hrs in Hr2.
  apply Forall2_app_inv_l in Hr2 as (h1 & h2 & _ & Hr2 & ->).
  inversion Hr2 as [|? [b cert] ? ? Hd Hnil]; subst. inversion Hnil; subst.
  destruct (row_of_shows _ _ _ Hd) as [Eh Eb _ Er _ _ _ _].
  destruct (replayed_tip c h1 b cert ledger) as (-> & -> & ->); [|done|].
  - eapply disk_typed_history; [exact Ht|]. eapply Forall2_impl; [exact Hrows|]. by intros ?? [].
  - by rewrite Eh, Eb, Er, Z.eqb_refl, !bool_decide_eq_true_2.
Qed.

Lemma canonical_rows_settled db : exists r, canonical_block_rows (settled db) = (settled db, r).
Proof. unfold canonical_block_rows. rewrite read_settled. by eexists. Qed.

Lemma verify_store_settled c db : exists r, verify_store c (settled db) = (settled db, r).
Proof.
  destruct (canonical_rows_settled db) as [r E]. unfold verify_store, mbind, stE_bind, from_store. rewrite E.
  destruct r as [rows|e]; [|by eexists]. simpl. destruct (replay_canonical_rows _ _ _); by eexists.
Qed.

Lemma verify_store_verified c db report :
  disk_typed db ->
  verify_store c (settled db) = (settled db, Ok report) <->
  exists history ledger, Forall2 row_of (blocks_ascending db) history /\
    replay_finalized_blocks c history dev_validators = Ok ledger /\ report = replay_report ledger.
Proof.
  intros Ht. split.
  - intros Hr. by destruct (verify_store_effect _ _ _ _ (idle_settled db) Hr).
  - intros (history & ledger & Hrows & Hrep & ->). pose proof (rows_read _ _ Ht Hrows) as E.
    destruct (verify_store_settled c db) as [r Hr].
    pose proof (proj2 (verify_store_reports c _ _ _ (replay_report ledger) E)) as Hok. rewrite Hr in Hok |- *. simpl in Hok.
    rewrite Hok; [done|]. by exists history, ledger.
Qed.

Lemma blocks_ascending_nil db : blocks_ascending db = [] <-> blocks db = ∅.
Proof.
  rewrite <- length_zero_iff_nil, length_blocks_ascending. split; [by intros ?%map_size_empty_inv|]. intros ->. apply map_size_empty.
Qed.

(** [verify_database] on rows that agree and replay: the summary decides. *)
Lemma verify_database_run c db history ledger :
  chain_id_validate c = Ok () -> disk_typed db -> Forall2 row_of (blocks_ascending db) history ->
  replay_finalized_blocks c history dev_validators = Ok ledger ->
  verify_database (as_str c) (settled db) =
  (settled db, if bool_decide (blocks db = ∅) || bool_decide (metadata_shows ledger (metadata db))
               then Ok (verification_of c db ledger)
               else Err (Bail "persisted tip metadata does not match replayed history")).
Proof.
  intros Hc Ht Hrows Hrep. unfold verify_database.
  rewrite (bind_run_Ok _ _ (settled db) (settled db) c) by (by rewrite (chain_id_new_valid c Hc)).
  rewrite (bind_run_Ok _ _ (settled db) (settled db) (blocks_ascending db))
    by (unfold from_store; by rewrite (rows_read _ _ Ht Hrows)).
  rewrite (bind_run_Ok _ _ (settled db) (settled db) (replay_report ledger))
    by (apply verify_store_verified; [done|]; by exists history, ledger).
  rewrite (bind_run_Ok _ _ (settled db) (settled db) (last (blocks_ascending db)))
    by (unfold from_store; by rewrite (tip_read _ _ Ht Hrows)).
  cbv zeta. rewrite (bind_run_Ok _ _ _ _ _ (metadata_shows_test ledger db)).
  assert (match last (blocks_ascending db) with
          | Some tip =>
              (br_height tip =? rr_height (replay_report ledger)) &&
              bool_decide (br_block_hash tip = rr_block_hash (replay_report ledger)) &&
              bool_decide (br_state_root tip = rr_state_root (replay_report ledger))
          | None => true
          end = true) as ->.
  { destruct (last _) as [t|] eqn:E; [|done]. by eapply tip_agrees. }
  rewrite length_blocks_ascending, andb_true_l.
  assert ((Z.of_nat (size (blocks db)) =? 0) = bool_decide (blocks db = ∅)) as ->.
  { case_bool_decide as E; [by rewrite E, map_size_empty|]. apply Z.eqb_neq. intros E0. apply E, map_size_empty_inv. lia. }
  destruct (_ || _); done.
Qed.

(** [verify] accepts exactly the intact stores: on a readable disk it reports
    the replayed chain when every row agrees with its certified canonical bytes,
    these replay, and the summary in the metadata is the replayed tip's; any
    other disk is refused. It writes nothing. *)
Theorem verify_database_exact c db s' r :
  chain_id_validate c = Ok () -> disk_typed db -> verify_database (as_str c) (settled db) = (s', r) ->
  s' = settled db /\
  match r with
  | Ok report => exists ledger, verified c db ledger /\ report = verification_of c db ledger
  | Err _ => forall ledger, ~ verified c db ledger
  end.
Proof.
  intros Hc Ht Hr. destruct (verify_store_settled c db) as [[replay|e] E].
  - apply verify_store_verified in E as (history & ledger & Hrows & Hrep & _); [|done].
    rewrite (verify_database_run c db history ledger) in Hr by done. injection Hr as <- <-. split; [done|].
    case_bool_decide as Hb; [|case_bool_decide as Hm]; simpl.
    + exists ledger. split; [|done]. split; [by exists history|done].
    + exists ledger. split; [|done]. split; [by exists history|done].
    + intros ledger' [(history' & Hrows' & Hrep') Hmeta]. apply Hm.
      rewrite (row_of_functional _ _ _ Hrows Hrows'), Hrep' in Hrep. injection Hrep as <-. by apply Hmeta.
  - assert (forall ledger, ~ verified c db ledger) as Hn.
    { intros ledger [(history & Hrows & Hrep) _].
      rewrite (proj2 (verify_store_verified c db (replay_report ledger) Ht)) in E; [done|by exists history, ledger]. }
    unfold verify_database in Hr. rewrite (bind_run_Ok _ _ (settled db) (settled db) c) in Hr by (by rewrite (chain_id_new_valid c Hc)).
    destruct (canonical_rows_settled db) as [[rows|e'] Er].
    + rewrite (bind_run_Ok _ _ (settled db) (settled db) rows) in Hr by (unfold from_store; by rewrite Er).
      rewrite (bind_run_Err _ _ _ _ _ E) in Hr. by injection Hr as <- <-.
    + rewrite (bind_run_Err _ _ (settled db) (settled db) (StoreFailed e')) in Hr by (unfold from_store; by rewrite Er).
      by injection Hr as <- <-.
Qed.

Lemma stores_explorer_verified c db ledger : stores_explorer c db ledger -> disk_typed db -> verified c db ledger.
Proof.
  intros [Hchain Hm] Ht. destruct (stored_history _ _ _ Hchain) as (history & Hrows & Hrep).
  split; [by exists history|]. intros Hne. apply (mirror_metadata _ _ _ (Hm _ Hrows (disk_typed_history _ _ Ht (rows_decode _ _ Hrows)))).
  intros E%fmap_nil_inv. subst history. inversion Hrows as [E0|]. symmetry in E0. by apply blocks_ascending_nil in E0.
Qed.

Lemma verified_verifies c db ledger :
  chain_id_validate c = Ok () -> disk_typed db -> verified c db ledger ->
  verify_database (as_str c) (settled db) = (settled db, Ok (verification_of c db ledger)).
Proof.
  intros Hc Ht [(history & Hrows & Hrep) Hm]. rewrite (verify_database_run c db history ledger) by done.
  case_bool_decide as Hb; [done|]. by rewrite bool_decide_eq_true_2 by by apply Hm.
Qed.

Lemma disk_typed_columns db db' :
  canonical_columns <$> blocks db' = canonical_columns <$> blocks db -> disk_typed db -> disk_typed db'.
Proof.
  intros E Ht h row Hrow b cert Hd.
  assert ((canonical_columns <$> blocks db') !! h = Some (canonical_columns row)) as Hc by (rewrite lookup_fmap, Hrow; done).
  rewrite E, lookup_fmap in Hc. apply fmap_Some in Hc as (row0 & Hrow0 & Hcols).
  apply (Ht h row0 Hrow0 b cert). by rewrite <- (decode_columns _ _ Hcols).
Qed.

(** C10. The explorer's tables mirror the chain the node holds: after any run of a
    node, whatever it receives and whichever statements fail, the tables hold
    exactly the transactions of the finalized blocks, the accounts of its
    ledger and the summary of its tip; and [kcoin verify] on that disk accepts
    it and reports the node's ledger. *)
Theorem node_disk_mirrors_ledger (evidence_debug : Evidence -> bytes) c (config : NodeConfig) network peers env
    (faults : list (option SqliteError)) (db : Database) (ledger : LedgerState) (s : Store Database)
    (self self' : NodeActor) commands r :
  stores_explorer c db ledger -> slots_unique db -> chain_id_new (cfg_node_chain_id config) = Ok c ->
  start_node config network peers env (mk_Store false faults db None) = (s, Ok self) ->
  run evidence_debug commands self = (self', r) ->
  let db' := durable (na_store self') in
  disk_typed db' ->
  (exists history, Forall2 row_of (blocks_ascending db') history /\ mirrors db' (na_ledger self') history.*1) /\
  verify_database (as_str c) (settled db') = (settled db', Ok (verification_of c db' (na_ledger self'))).
Proof.
  intros Hx Hu Hc Hstart Hrun db' Ht.
  destruct (start_node_explorer _ _ _ _ _ _ _ _ _ _ Hx Hu Hc Hstart) as (Hi0 & Hh & Hb).
  pose proof (run_steps evidence_debug commands _ _ _ Hh Hb Hrun) as Hsteps.
  destruct (steps_explorer_inv _ _ _ Hsteps Hi0) as [_ Hx'].
  split.
  - destruct (stored_history _ _ _ (proj1 Hx')) as (history & Hrows & _). exists history. split; [done|].
    apply (proj2 Hx'); [done|]. by apply (disk_typed_history _ _ Ht (rows_decode _ _ Hrows)).
  - apply verified_verifies; [|done|by apply stores_explorer_verified]. apply (chain_id_new_Ok_inv _ _ Hc).
Qed.

(** Re-indexing restores the explorer from the canonical blocks alone: whatever
    the tables and the derived columns held, a re-index that succeeds leaves the
    blocks and certificates as they were, tables that mirror their replay, and a
    disk that [verify] accepts; on blocks that do not replay it stops before the
    tables are cleared, with nothing changed. *)
Theorem reindex_rebuilds_explorer c (s s' : Store Database) r :
  chain_id_validate c = Ok () -> idle s -> well_keyed (durable s) -> disk_typed (durable s) ->
  reindex_store c s = (s', r) ->
  (~ replays c (durable s) -> durable s' = durable s /\ exists e, r = Err e) /\
  forall report, r = Ok report ->
    canonical_columns <$> blocks (durable s') = canonical_columns <$> blocks (durable s) /\
    exists ledger, report = replay_report ledger /\ stores_explorer c (durable s') ledger /\
      verify_database (as_str c) (settled (durable s')) =
        (settled (durable s'), Ok (verification_of c (durable s') ledger)).
Proof.
  intros Hc Hi Hk Ht Hr. split; [intros Hn; by eapply reindex_store_refuses|].
  intros report ->. destruct (reindex_store_effect _ _ _ _ Hi Hk Ht Hr) as (Hcols & ledger & Hx & ->).
  pose proof (disk_typed_columns _ _ Hcols Ht) as Ht'.
  split; [done|]. exists ledger. split_and!; [done..|]. apply verified_verifies; [done..|]. by apply stores_explorer_verified.
Qed.
End database.

(** ** The wallet file *)

Section wallet.
Context `{Blake3, Ed25519, !SigningKeyBytes, Hex, Bech32, Base64, !WalletJson, !SigningKeySeed}.
Context `{!Base64Laws, !WalletJsonLaws, !SigningKeySeedLaws}.

Lemma file_operation_inv f s s' r :
  file_operation f s = (s', r) ->
  match r with Ok _ => cli_files s' = f (cli_files s) | Err _ => cli_files s' = cli_files s end /\
  cli_keys s' = cli_keys s.
Proof. unfold file_operation. destruct (default true _); intros [= <- <-]; done. Qed.

(** It touches no other file. *)
Lemma write_secret_file_inv path contents force s s' r :
  write_secret_file path contents force s = (s', r) ->
  (forall p, p <> path -> cli_files s' !! p = cli_files s !! p) /\
  match r with
  | Ok _ => cli_files s' !! path = Some (contents ++ [x0a])
  | Err _ => force = false -> is_Some (cli_files s !! path) -> cli_files s' !! path = cli_files s !! path
  end.
Proof.
  unfold write_secret_file, mbind, stE_bind. cbn.
  destruct (negb force && bool_decide (is_Some (cli_files s !! path))) eqn:Hex; [by intros [= <- <-]|].
  assert (force = false -> is_Some (cli_files s !! path) -> False) as Hno.
  { intros -> Hs. by rewrite bool_decide_eq_true_2 in Hex. }
  destruct (file_operation <[path:=[]]> s) as [s1 r1] eqn:E1. apply file_operation_inv in E1 as [E1 _].
  destruct r1 as [[]|e]; [|intros [= <- <-]; by rewrite E1].
  destruct (file_operation <[path:=contents]> s1) as [s2 r2] eqn:E2. apply file_operation_inv in E2 as [E2 _].
  destruct r2 as [[]|e]; [|intros [= <- <-]; rewrite E2, E1; split; [by intros p ?; rewrite lookup_insert_ne|naive_solver]].
  destruct (file_operation <[path:=contents ++ [x0a]]> s2) as [s3 r3] eqn:E3. apply file_operation_inv in E3 as [E3 _].
  destruct r3 as [[]|e]; [|intros [= <- <-]; rewrite E3, E2, E1; split; [by intros p ?; rewrite !lookup_insert_ne|naive_solver]].
  intros E4%file_operation_inv. destruct r as [[]|e], E4 as [-> _]; rewrite ?E3, ?E2, ?E1; simpl;
    (split; [by intros p ?; rewrite !lookup_insert_ne|]); [by rewrite lookup_insert_eq|naive_solver].
Qed.

(** A wallet file that decodes to [wallet_file key] gives [key] back. *)
Lemma load_wallet_file path key b (s : CliState) :
  default true (head (cli_io s)) = true -> cli_files s !! path = Some b ->
  wallet_from_json b = Some (wallet_file key) -> (load_wallet path s).2 = Ok key.
Proof.
  intros Hio Hb Hw. unfold load_wallet, mbind, stE_bind. cbn. unfold file_operation. rewrite Hio. cbn. rewrite Hb. cbn.
  rewrite Hw. cbn. rewrite bool_decide_eq_false_2 by tauto.
  unfold wallet_file; cbn. rewrite base64_decode_encode. cbn. rewrite array_try_from_as_bytes. cbn.
  rewrite signing_key_from_to. by rewrite !bool_decide_eq_false_2 by tauto.
Qed.

(** C29. A wallet is not lost and not mixed up: a wallet that was generated loads
    back to the generated key under the printed address; no other file is
    touched; and without [--force] a failing or repeated run leaves an existing
    wallet as it was. *)
Theorem wallet_roundtrip (output : ustring) (force create_parent : bool) (s s' : CliState) r :
  generate_wallet output force create_parent s = (s', r) ->
  (forall p, p <> output -> cli_files s' !! p = cli_files s !! p) /\
  (force = false -> is_Some (cli_files s !! output) -> (exists e, r = Err e) /\ cli_files s' = cli_files s) /\
  forall address, r = Ok address ->
    exists key, head (cli_keys s) = Some key /\
      address = address_to_string (address_from_public_key (verifying_key key)) /\
      forall s2, cli_files s2 !! output = cli_files s' !! output -> default true (head (cli_io s2)) = true ->
        (load_wallet output s2).2 = Ok key /\ (show_wallet_address output s2).2 = Ok address.
Proof.
  intros Hr. unfold generate_wallet, mbind, stE_bind in Hr. cbn in Hr.
  destruct (bool_decide (is_Some (cli_files s !! output)) && negb force) eqn:Hex.
  { injection Hr as <- <-. split_and!; [done|by eauto|done]. }
  assert (force = false -> is_Some (cli_files s !! output) -> False) as Hno.
  { intros -> Hs. by rewrite bool_decide_eq_true_2 in Hex. }
  destruct ((if create_parent then file_operation id else mret ()) s) as [s1 r1] eqn:E1.
  assert (cli_files s1 = cli_files s /\ cli_keys s1 = cli_keys s) as [F1 K1].
  { destruct create_parent; [apply file_operation_inv in E1 as [E1 ?]; by destruct r1|by injection E1 as <- _]. }
  destruct r1 as [[]|e]; [|injection Hr as <- <-; rewrite F1; split_and!; [done|intros ? ?; exfalso; eauto|done]].
  unfold generate_key in Hr. rewrite K1 in Hr. destruct (head (cli_keys s)) as [key|] eqn:Ek; cbn in Hr.
  2: { injection Hr as <- <-. cbn. rewrite F1. split_and!; [done|intros ? ?; exfalso; eauto|done]. }
  destruct (wallet_to_json (wallet_file key)) as [b|] eqn:Ej; cbn in Hr.
  2: { injection Hr as <- <-. cbn. rewrite F1. split_and!; [done|intros ? ?; exfalso; eauto|done]. }
  destruct (write_secret_file output b force _) as [s2 r2] eqn:E2. apply write_secret_file_inv in E2 as [F2 R2]. cbn in F2.
  rewrite F1 in F2. destruct r2 as [[]|e]; injection Hr as <- <-; (split_and!; [done|intros ? ?; exfalso; eauto|]); [|done].
  intros address [= <-]. exists key. split_and!; [done|done|]. intros s3 Hs3 Hio. rewrite R2 in Hs3.
  pose proof (load_wallet_file output key _ s3 Hio Hs3 (wallet_from_to _ _ Ej)) as Hl. split; [done|].
  unfold show_wallet_address, mbind, stE_bind. destruct (load_wallet output s3) as [s4 r4]. simpl in Hl. by subst r4.
Qed.
End wallet.

(** ** The percentiles *)

(** How many samples are at most [v]. *)
Definition at_most (v : Z) (l : list Z) : nat := length (filter (fun x => x <= v) l).

#[export] Instance at_most_Permutation v : Proper ((≡ₚ) ==> eq) (at_most v).
Proof. intros l k E. unfold at_most. by rewrite E. Qed.

Lemma at_most_app v l k : at_most v (l ++ k) = (at_most v l + at_most v k)%nat.
Proof. unfold at_most. by rewrite filter_app, length_app. Qed.

Lemma at_most_all v l : Forall (fun x => x <= v) l -> at_most v l = length l.
Proof.
  unfold at_most. induction 1 as [|x l Hx _ IH]; [done|]. rewrite filter_cons_True by done. simpl. by rewrite IH.
Qed.

Lemma at_most_none v l : Forall (fun x => v < x) l -> at_most v l = 0%nat.
Proof.
  unfold at_most. induction 1 as [|x l Hx _ IH]; [done|]. by rewrite filter_cons_False by lia.
Qed.

Lemma sorted_split (l : list Z) i v :
  StronglySorted Z.le l -> l !! i = Some v ->
  Forall (fun x => x <= v) (take (S i) l) /\ Forall (fun x => v <= x) (drop i l).
Proof.
  intros Hs. revert i. induction Hs as [|x l Hs IH Hx]; intros [|i]; simpl; try done.
  - intros [= ->]. split; [by repeat constructor|]. constructor; [done|exact Hx].
  - intros Hi. destruct (IH i Hi) as [Ha Hb]. split; [|done]. constructor; [|done].
    apply (proj1 (Forall_forall _ _) Hx). by eapply list_elem_of_lookup_2.
Qed.

Lemma sort_by_Z_sorted l : StronglySorted Z.le (sort_by Z.leb l).
Proof.
  assert (StronglySorted (fun x y => Z.leb x y = true) (sort_by Z.leb l)) as Hs
    by (apply sort_by_StronglySorted; intros *; rewrite ?Z.leb_le; lia).
  induction Hs as [|x k _ IH Hx]; constructor; [done|]. eapply Forall_impl; [exact Hx|]. by intros y Hy%Z.leb_le.
Qed.

(** The percentiles of the benchmark are nearest ranks: of at least one sample
    the [p]-th percentile is defined, is a sample, and is the least value that
    [p] percent of the samples do not exceed. *)
Theorem percentile_nearest_rank (raw : list Z) (p : Z) :
  raw <> [] -> 0 < p <= 100 ->
  exists v, percentile raw p = Some v /\ v ∈ raw /\
    p * Z.of_nat (length raw) <= 100 * Z.of_nat (at_most v raw) /\
    forall w, w < v -> 100 * Z.of_nat (at_most w raw) < p * Z.of_nat (length raw).
Proof.
  intros Hne Hp. unfold percentile. cbv zeta. pose proof (sort_by_Permutation Z.leb raw) as Hperm.
  pose proof (sort_by_Z_sorted raw) as Hs. set (l := sort_by Z.leb raw) in *.
  assert (length l = length raw) as Hlen by by rewrite Hperm.
  assert (0 < Z.of_nat (length raw)) as Hpos by (destruct raw; [done|simpl; lia]).
  rewrite Hlen. set (n := Z.of_nat (length raw)) in *. set (q := (p * n + 99) / 100).
  assert (100 * q <= p * n + 99 < 100 * q + 100) as Hq.
  { pose proof (Z.div_mod (p * n + 99) 100). pose proof (Z.mod_pos_bound (p * n + 99) 100). lia. }
  assert (1 <= q <= n) as Hqn by nia.
  unfold saturating_sub. rewrite Z.max_l by lia. assert (exists i, Z.to_nat (q - 1) = i /\ Z.of_nat i = q - 1) as (i & -> & Hi) by (exists (Z.to_nat (q - 1)); lia).
  destruct (lookup_lt_is_Some_2 l i) as [v Hv]; [lia|]. exists v.
  destruct (sorted_split l i v Hs Hv) as [Hle Hge].
  split_and!; [done| | |].
  - rewrite <- Hperm. by eapply list_elem_of_lookup_2.
  - rewrite <- Hperm, <- (take_drop (S i) l), at_most_app, (at_most_all _ _ Hle), length_take. lia.
  - intros w Hw. rewrite <- Hperm, <- (take_drop i l), at_most_app.
    rewrite (at_most_none w (drop i l)) by (eapply Forall_impl; [exact Hge|]; simpl; lia).
    assert (at_most w (take i l) <= i)%nat; [|nia].
    unfold at_most. etrans; [apply length_filter|]. rewrite length_take. lia.
Qed.

(** ** The wait for finality *)

Section wait.
Context `{Ed25519, JsonValue}.

(** The node answers 404 to every turn that ends before [deadline], and then
    with a success. *)
Definition turns_final (responses : list (option (Z * bytes))) (instants : list Z) (deadline : Z) : Prop :=
  exists pending status body rest,
    responses = ((fun b => Some (NOT_FOUND, b)) <$> pending) ++ Some (status, body) :: rest /\
    is_success status = true /\
    forall i, (i < length pending)%nat -> default 0 (instants !! i) < deadline.

Lemma turns_final_now status body rest instants deadline :
  is_success status = true -> turns_final (Some (status, body) :: rest) instants deadline.
Proof. intros Hs. exists [], status, body, rest. split_and!; [done..|]. simpl. lia. Qed.

Lemma turns_final_later body responses instants deadline :
  turns_final (Some (NOT_FOUND, body) :: responses) instants deadline <->
  default 0 (head instants) < deadline /\ turns_final responses (tail instants) deadline.
Proof.
  split.
  - intros ([|b pending] & status & body' & rest & E & Hs & Hi).
    { injection E as <- <- _. done. }
    injection E as _ ->. split; [specialize (Hi 0%nat); destruct instants; apply Hi; simpl; lia|].
    exists pending, status, body', rest. split_and!; [done..|]. intros i Hl. specialize (Hi (S i)).
    destruct instants as [|t ts]; simpl in *; apply Hi; lia.
  - intros (Hfirst & pending & status & body' & rest & -> & Hs & Hi).
    exists (body :: pending), status, body', rest. split_and!; [done..|]. intros [|i] Hl.
    + by destruct instants.
    + specialize (Hi i). destruct instants as [|t ts]; simpl in *; apply Hi; lia.
Qed.

Lemma wait_loop_exact fuel url deadline (s : CliState) :
  (length (cli_responses s) < fuel)%nat ->
  let '(s', r) := wait_loop fuel url deadline s in
  r <> Err BudgetExhausted /\ (r = Ok () <-> turns_final (cli_responses s) (cli_instants s) deadline).
Proof.
  revert s. induction fuel as [|fuel IH]; intros s Hl; [lia|]. cbn [wait_loop]. unfold mbind, stE_bind, send. cbn.
  destruct (cli_responses s) as [|[[status body]|] rest] eqn:E; cbn.
  - split; [done|]. split; [done|]. intros (pending & ? & ? & ? & Hx & _). by destruct pending.
  - destruct (is_success status) eqn:Hs.
    { split; [done|]. split; [|done]. intros _. by apply turns_final_now. }
    destruct (Z.eqb_spec status NOT_FOUND) as [->|Hne]; cbn.
    + pose proof (turns_final_later body rest (cli_instants s) deadline) as Hlater.
      destruct (Z.leb_spec deadline (default 0 (head (cli_instants s)))) as [Hd|Hd]; cbn.
      * rewrite Hlater. split; [done|]. split; [done|]. intros [? _]. lia.
      * match goal with |- context [wait_loop fuel url deadline ?s1] => specialize (IH s1) end.
        destruct (wait_loop _ _ _ _) as [s' r]. cbn in IH. destruct IH as [Hb Hiff]; [simpl in Hl; lia|].
        split; [done|]. rewrite Hiff, Hlater. tauto.
    + unfold parse_response. cbn. rewrite Hs. cbn. split; [done|]. split; [done|].
      intros ([|b pending] & ? & ? & ? & Hx & Hs' & _); injection Hx as -> ->; congruence.
  - split; [done|]. split; [done|]. intros ([|b pending] & ? & ? & ? & Hx & _); done.
Qed.

(** C32. The wait for finality ends as soon as the node's answers decide it: with
    success exactly when, after 404s read before the deadline, a success comes;
    any other answer, a lost connection or the deadline ends it with an error. *)
Theorem wait_for_finality_exact (api_url id : ustring) (timeout : Z) (s s' : CliState) r :
  wait_for_finality api_url id timeout s = (s', r) ->
  r <> Err BudgetExhausted /\
  (r = Ok () <-> turns_final (cli_responses s) (tail (cli_instants s)) (default 0 (head (cli_instants s)) + timeout)).
Proof.
  unfold wait_for_finality. rewrite (bind_run_Ok instant_now _ s _ _ eq_refl), (bind_run_Ok get _ _ _ _ eq_refl). intros Hr.
  match type of Hr with wait_loop ?f ?u ?d ?s1 = _ => pose proof (wait_loop_exact f u d s1) as Hw end.
  rewrite Hr in Hw. apply Hw. lia.
Qed.
End wait.

(** ** The theorems at concrete inputs *)

(** The disk of the node with two blocks. *)
Definition busy_disk : Database :=
  match standalone_after busy_commands with Some s => durable (na_store s) | None => empty_database end.

(** Its disk with the tables lost and the derived columns of the blocks garbled. *)
Definition garbled : Database :=
  mk_Database
    ((fun row => mk_BlockRow (br_height row) (br_block_hash row) [] [] (br_proposer row) 7 0 9 (br_block_bytes row)
        (br_certificate_bytes row)) <$> blocks busy_disk)
    ∅ ∅ {[str "tip_height" := str "99"]} (consensus_wal busy_disk) (signer_state busy_disk)
    (consensus_safety busy_disk) (consensus_proposals busy_disk).

Definition verifies (db : Database) : bool := is_ok (verify_database (as_str local_chain) (settled db)).2.

Lemma busy_disk_checks :
  verifies busy_disk && disk_typed_test busy_disk && negb (verifies garbled) && disk_typed_test garbled &&
  bool_decide (map_Forall (fun h row => br_height row = h /\ h <= i64_max) (blocks garbled)) &&
  is_ok (reindex_store local_chain (settled garbled)).2 = true.
Proof. vm_compute. reflexivity. Qed.

Lemma local_chain_valid : chain_id_validate local_chain = Ok ().
Proof. vm_compute. reflexivity. Qed.

Lemma verify_database_exact_witness :
  exists report ledger, verify_database (as_str local_chain) (settled busy_disk) = (settled busy_disk, Ok report) /\
    verified local_chain busy_disk ledger /\ report = verification_of local_chain busy_disk ledger.
Proof.
  destruct (andb_prop _ _ busy_disk_checks) as [[[[[K Ht]%andb_prop _]%andb_prop _]%andb_prop _]%andb_prop _].
  unfold verifies in K. destruct (verify_database (as_str local_chain) (settled busy_disk)) as [s' r] eqn:Hr.
  pose proof (verify_database_exact local_chain busy_disk s' r local_chain_valid (disk_typed_tested _ Ht) Hr) as [Hs Hx].
  destruct r as [report|e]; [|discriminate K]. destruct Hx as (ledger & Hv & Hrep).
  exists report, ledger. split; [rewrite Hs; reflexivity|]. split; [exact Hv|exact Hrep].
Defined.

Lemma node_disk_mirrors_ledger_witness :
  match started standalone_config empty_database with
  | Some self =>
      let self' := (run no_debug [Submit local_claim false; Tick] self).1 in
      let db := durable (na_store self') in
      size (transactions db) = 1%nat /\ exists history, mirrors db (na_ledger self') history
  | None => False
  end.
Proof.
  assert (known (started standalone_config empty_database) = true) as [self E]%known_Some by (vm_compute; reflexivity).
  assert (match started standalone_config empty_database with
          | Some self => let db := durable (na_store (run no_debug [Submit local_claim false; Tick] self).1) in
              bool_decide (size (transactions db) = 1%nat) && disk_typed_test db
          | None => false
          end = true) as K by (vm_compute; reflexivity).
  rewrite E in K |- *. cbv zeta in *. apply andb_prop in K as [K1%bool_decide_eq_true K2].
  split; [exact K1|]. apply started_start in E as [st E].
  destruct (node_disk_mirrors_ledger no_debug local_chain standalone_config true ∅ node_environment [] empty_database
    (ledger_new local_chain) st self _ [Submit local_claim false; Tick] _ (stores_explorer_empty _) (history_slots_unique _ _ history_new)
    eq_refl E (surjective_pairing _) (disk_typed_tested _ K2)) as [(history & _ & Hm) _].
  exists history.*1. exact Hm.
Defined.

Lemma reindex_rebuilds_explorer_witness :
  verifies garbled = false /\
  exists s' report ledger, reindex_store local_chain (settled garbled) = (s', Ok report) /\
    stores_explorer local_chain (durable s') ledger.
Proof.
  destruct (andb_prop _ _ busy_disk_checks)
    as [[[[_ Hbad%negb_true_iff]%andb_prop Ht]%andb_prop Hk%bool_decide_eq_true]%andb_prop K].
  split; [exact Hbad|]. destruct (reindex_store local_chain (settled garbled)) as [s' r] eqn:Hr.
  destruct (reindex_rebuilds_explorer local_chain (settled garbled) s' r local_chain_valid (idle_settled garbled) Hk
    (disk_typed_tested _ Ht) Hr) as [_ Hx].
  destruct r as [report|e]; [|discriminate K].
  destruct (Hx report eq_refl) as (_ & ledger & _ & Hs & _). exists s', report, ledger. split; [reflexivity|exact Hs].
Defined.

Definition new_shell : CliState := mk_CliState ∅ [] [] [] [alice : @SigningKey ed25519] [].

Lemma wallet_roundtrip_witness :
  exists s' address, generate_wallet (str "w.json") false false new_shell = (s', Ok address) /\
    (load_wallet (str "w.json") s').2 = Ok (alice : @SigningKey ed25519).
Proof.
  assert (is_ok (generate_wallet (str "w.json") false false new_shell).2 &&
    default true (head (cli_io (generate_wallet (str "w.json") false false new_shell).1)) = true) as [K Hio]%andb_prop
    by (vm_compute; reflexivity).
  destruct (generate_wallet (str "w.json") false false new_shell) as [s' r] eqn:Hr.
  destruct (wallet_roundtrip (str "w.json") false false new_shell s' r Hr) as (_ & _ & Hx).
  destruct r as [address|e]; [|discriminate K]. destruct (Hx address eq_refl) as (key & Hkey & _ & Hload).
  exists s', address. split; [reflexivity|]. injection Hkey as <-. exact (proj1 (Hload s' eq_refl Hio)).
Defined.

Lemma percentile_nearest_rank_witness :
  exists v, percentile [5000; 1000; 4000; 2000; 3000] 50 = Some v /\ v ∈ [5000; 1000; 4000; 2000; 3000] /\ v = 3000.
Proof.
  destruct (percentile_nearest_rank [5000; 1000; 4000; 2000; 3000] 50 ltac:(discriminate) ltac:(lia)) as (v & Hv & Hin & _).
  exists v. split; [exact Hv|]. split; [exact Hin|]. vm_compute in Hv. congruence.
Defined.

Lemma wait_for_finality_exact_witness :
  let s := mk_CliState ∅ [] [Some (404, []); Some (404, []); Some (200, [])] [5; 6; 7] ([] : list (@SigningKey ed25519)) [] in
  (wait_for_finality (str "http://localhost/") (str "id") 10 s).2 = Ok () /\
  turns_final (cli_responses s) [6; 7] 15.
Proof.
  intros s. assert ((wait_for_finality (str "http://localhost/") (str "id") 10 s).2 = Ok ()) as K by (vm_compute; reflexivity).
  split; [exact K|].
  destruct (wait_for_finality (str "http://localhost/") (str "id") 10 s) as [s' r] eqn:Hr.
  exact (proj1 (proj2 (wait_for_finality_exact _ _ _ _ _ _ Hr)) K).
Defined.
