(* ===== verification/CliDatabaseSpec.v ===== *)
(** * Properties of the database commands *)

From S2P Require Import Prelude Errors Crypto Transaction Block Commit Ledger LedgerFacts Replay ConsensusTypes Engine Sqlite Store StoreFacts NodeTypes Config Schema Projection Recovery NodeState Node Api Cli CliDatabase NodeCommands NodeSteps NodeChain NodeStart NodeMempool NodeExplorer NodeReindex ApiFacts NodeCommit Reference Fixtures ConsensusReference NodeReference ApiReference CliSpec.

Section database.
Context `{Blake3, Blake3Checksum, Ed25519, !SigningKeyBytes, Hex, Bech32, ChallengeJson, Libp2p,
          !Borsh UnsignedTransaction, !Borsh SignedTransaction, !Borsh BlockHeader, !Borsh Block,
          !Borsh StateCommitment, !Borsh CommitVote, !Borsh CommitCertificate,
          !Borsh SignableMessage, !Borsh SignedMessage, !Borsh SignedProposal,
          !Borsh FinalizedWireRecord, !Borsh ValidatorStatusMessage, !SerdeJson SafetyState}.
Context `{!BorshLaws Block, !BorshLaws CommitCertificate, !HexLaws, !Bech32Laws}.

(** An environment in which a database can be opened and read. *)
Definition working_answers (a : OpenAnswers) : Prop :=
  oa_exists a = true /\ (forall p, fs_create_dir_all (oa_fs a) p = true) /\ oa_refused a = None /\ oa_faults a = [].

Lemma set_rows_same db f : file_rows f = db -> set_rows db f = f.
Proof. destruct f. simpl. by intros ->. Qed.

Lemma upgraded_set_rows db f : complete f -> upgraded (set_rows db f) = db.
Proof. intros Hc. apply (complete_upgraded (set_rows db f) Hc). Qed.

Lemma existing_opens a args f c :
  supported f -> working_answers a -> chain_id_new (dva_chain_id args) = Ok c ->
  exists f', existing_database a args f = (f', Ok (c, settled (upgraded f))) /\ complete f' /\ file_rows f' = upgraded f.
Proof.
  intros Hs (He & Hdir & Hr & Hf) Hc. destruct (open_settled (oa_fs a) (dva_db args) f Hs Hdir) as (f' & Ho & Hf').
  exists f'. split; [|done]. unfold existing_database. rewrite He. cbn [negb].
  rewrite (bind_run_Ok _ _ f f c) by (unfold lift; by rewrite Hc).
  rewrite (bind_run_Ok _ _ f f' (settled (upgraded f))) by (unfold open_database; by rewrite Hr, Hf, Ho). done.
Qed.

(** What both commands find, whatever the environment answers. *)
Lemma existing_keeps a args f f' r :
  supported f -> existing_database a args f = (f', r) ->
  supported f' /\ upgraded f' = upgraded f /\
  forall c s, r = Ok (c, s) -> chain_id_new (dva_chain_id args) = Ok c /\ complete f' /\ durable s = upgraded f /\ idle s.
Proof.
  intros Hs Hr. unfold existing_database in Hr. destruct (oa_exists a); [|by injection Hr as <- <-]. cbn [negb] in Hr.
  destruct (chain_id_new (dva_chain_id args)) as [c|e] eqn:Hc; [|by injection Hr as <- <-].
  rewrite (bind_run_Ok _ _ f f c) in Hr by (unfold lift; done). unfold open_database in Hr.
  run_get Hr. destruct (open _ _ _ _ f) as [f1 r1] eqn:E. destruct (open_upgrades _ _ _ _ _ _ _ Hs E) as (Hs1 & Hu & Hok).
  destruct r1 as [s|e]; injection Hr as <- <-; [|done]. split_and!; [done|done|].
  intros c' s' [= <- <-]. destruct (Hok s eq_refl) as (? & ? & ? & _). done.
Qed.

Lemma verify_file_run a args f c :
  supported f -> working_answers a -> chain_id_new (dva_chain_id args) = Ok c -> disk_typed (upgraded f) ->
  exists f' r, verify_database_file a args f = (f', r) /\ complete f' /\ file_rows f' = upgraded f /\
    verify_database (as_str c) (settled (upgraded f)) = (settled (upgraded f), r).
Proof.
  intros Hs Ha Hc Ht. destruct (existing_opens a args f c Hs Ha Hc) as (f' & E & Hf' & Hrows).
  destruct (chain_id_new_Ok_inv _ _ Hc) as [Hstr Hv].
  destruct (verify_database (as_str c) (settled (upgraded f))) as [s r] eqn:Er.
  destruct (verify_database_exact _ _ _ _ Hv Ht Er) as [-> _].
  exists f', r. split_and!; try done. unfold verify_database_file. rewrite (bind_run_Ok _ _ _ _ _ E). unfold on_store.
  rewrite Hstr in Er. simpl in Er. rewrite Er. cbn [durable settled]. by rewrite set_rows_same.
Qed.

(** Opening and verifying loses no certified block either. *)
Lemma reading_verify_database chain_id s : preserves reading s (verify_database chain_id).
Proof.
  assert (forall key value s, preserves reading s (metadata_is key value)) as Hm.
  { intros key value s0. apply (preserves_bind _); [apply reading_from_store, reading_read|].
    intros s1 x _. apply (preserves_ret _). }
  assert (forall a b s, (forall s, preserves reading s a) -> (forall s, preserves reading s b) ->
            preserves reading s (and_also a b)) as Ha.
  { intros a b s0 Ha Hb. apply (preserves_bind _); [apply Ha|]. intros s1 [] _; [apply Hb|apply (preserves_ret _)]. }
  apply (preserves_check _). intros c _. apply (preserves_bind _); [apply reading_from_store, reading_read|].
  intros s1 rows _. cbv zeta. apply (preserves_bind _); [apply reading_verify_store|]. intros s2 replay _.
  apply (preserves_bind _); [apply reading_from_store, reading_read|]. intros s3 tip _.
  apply (preserves_bind _); [|intros s4 m _; repeat walk_step].
  repeat (apply Ha; [intros ?|intros ?; apply Hm]). apply Hm.
Qed.

Lemma on_store_keeps {A} (m : storeA A) s f f' r :
  preserves keeps_blocks s m -> durable s = upgraded f -> complete f -> on_store m s f = (f', r) ->
  complete f' /\ forall h bb cb, holds_block h bb cb (upgraded f) -> holds_block h bb cb (upgraded f').
Proof.
  intros Hm Hd Hc. unfold on_store. destruct (m s) as [s1 r1] eqn:E. intros [= <- _]. split; [done|].
  intros h bb cb. rewrite upgraded_set_rows, <- Hd by done. by apply (Hm _ _ E).
Qed.

Lemma verify_file_keeps a args f f' r h bb cb :
  supported f -> verify_database_file a args f = (f', r) -> holds_block h bb cb (upgraded f) -> holds_block h bb cb (upgraded f').
Proof.
  intros Hs Hr. unfold verify_database_file in Hr. destruct (existing_database a args f) as [f1 [[c s]|e]] eqn:E;
    destruct (existing_keeps _ _ _ _ _ Hs E) as (_ & Hu & Hok).
  - destruct (Hok c s eq_refl) as (_ & Hcomp & Hd & _). rewrite (bind_run_Ok _ _ _ _ _ E) in Hr. rewrite <- Hu in Hd.
    rewrite <- Hu. eapply on_store_keeps; [|exact Hd|exact Hcomp|exact Hr].
    eapply preserves_mono; [apply keeps_reading|apply reading_verify_database].
  - rewrite (bind_run_Err _ _ _ _ _ E) in Hr. injection Hr as <- _. by rewrite Hu.
Qed.

Lemma keeps_rebuild c s : preserves keeps_blocks s (rebuild_projections c).
Proof.
  intros s' r Hr. unfold rebuild_projections in Hr. destruct (reindex_store c s) as [s1 r1] eqn:E. injection Hr as <- _.
  exact (keeps_reindex_store _ _ _ _ E).
Qed.

(** Whatever fails during a re-index. *)
Lemma reindex_keeps first second args f f' r h bb cb :
  supported f -> reindex_database first second args f = (f', r) ->
  holds_block h bb cb (upgraded f) -> holds_block h bb cb (upgraded f').
Proof.
  intros Hs Hr Hb. unfold reindex_database in Hr. destruct (existing_database first args f) as [f1 [[c s]|e]] eqn:E;
    destruct (existing_keeps _ _ _ _ _ Hs E) as (_ & Hu & Hok).
  2:{ rewrite (bind_run_Err _ _ _ _ _ E) in Hr. injection Hr as <- _. by rewrite Hu. }
  destruct (Hok c s eq_refl) as (_ & Hcomp & Hd & _). rewrite (bind_run_Ok _ _ _ _ _ E) in Hr. rewrite <- Hu in Hd, Hb.
  destruct (on_store (rebuild_projections c) s f1) as [f2 r2] eqn:E2.
  destruct (on_store_keeps _ _ _ _ _ (keeps_rebuild c s) Hd Hcomp E2) as [Hcomp2 Hk].
  destruct r2 as [report|e].
  - rewrite (bind_run_Ok _ _ _ _ _ E2) in Hr. eapply verify_file_keeps; [by apply supported_complete|exact Hr|by apply Hk].
  - rewrite (bind_run_Err _ _ _ _ _ E2) in Hr. injection Hr as <- _. by apply Hk.
Qed.

(** C25. [kcoin db verify] and [replay], from the file to the report: on a database
    of this or an earlier version, when it can be opened and read, they upgrade
    the file without changing what it stands for, and accept exactly the intact
    chains: those whose rows agree with certified bytes that replay to the
    summarized tip. The report is that ledger's. *)
Theorem verify_command_exact (c : ChainId) (first second : OpenAnswers) (args : DatabaseVerifyArgs)
    (command : DatabaseCommand) (f f' : DiskFile) (r : result AnyError VerificationReport) :
  command = DbVerify args \/ command = DbReplay args ->
  supported f -> disk_typed (upgraded f) -> chain_id_new (dva_chain_id args) = Ok c -> working_answers first ->
  database first second command f = (f', r) ->
  complete f' /\ file_rows f' = upgraded f /\
  match r with
  | Ok report => exists ledger, verified c (upgraded f) ledger /\ report = verification_of c (upgraded f) ledger
  | Err _ => forall ledger, ~ verified c (upgraded f) ledger
  end.
Proof.
  intros Hcommand Hs Ht Hc Ha Hr.
  assert (verify_database_file first args f = (f', r)) as Hv by (destruct Hcommand; by subst). clear Hr Hcommand.
  destruct (verify_file_run _ _ _ _ Hs Ha Hc Ht) as (f1 & r1 & E & Hcomp & Hrows & Hrun).
  rewrite Hv in E. injection E as <- <-. split_and!; try done.
  destruct (chain_id_new_Ok_inv _ _ Hc) as [_ Hvalid].
  by destruct (verify_database_exact _ _ _ _ Hvalid Ht Hrun) as [_ Hx].
Qed.

(** C22. [kcoin db reindex], from the file to the report, whatever the environment
    answers while it works: no certified block is lost or changed, wherever it
    stops; blocks that do not replay are refused, and the file still stands for
    what it did; a re-index whose verification can open and
    read the file leaves the canonical bytes of every block, explorer tables
    that mirror their replay, and the report of that ledger. *)
Theorem reindex_command_rebuilds (c : ChainId) (first second : OpenAnswers) (args : DatabaseVerifyArgs)
    (f f' : DiskFile) (r : result AnyError VerificationReport) :
  supported f -> well_keyed (upgraded f) -> disk_typed (upgraded f) -> chain_id_new (dva_chain_id args) = Ok c ->
  database first second (DbReindex args) f = (f', r) ->
  (forall h bb cb, holds_block h bb cb (upgraded f) -> holds_block h bb cb (upgraded f')) /\
  (~ replays c (upgraded f) -> upgraded f' = upgraded f /\ exists e, r = Err e) /\
  (working_answers second -> forall report, r = Ok report ->
     complete f' /\ canonical_columns <$> blocks (file_rows f') = canonical_columns <$> blocks (upgraded f) /\
     exists ledger, stores_explorer c (file_rows f') ledger /\ report = verification_of c (file_rows f') ledger).
Proof.
  intros Hs Hk Ht Hc Hr. split; [intros h bb cb; by eapply reindex_keeps|]. simpl in Hr. unfold reindex_database in Hr.
  destruct (existing_database first args f) as [f1 [[c' s]|e]] eqn:E; destruct (existing_keeps _ _ _ _ _ Hs E) as (_ & Hu & Hok).
  2:{ rewrite (bind_run_Err _ _ _ _ _ E) in Hr. injection Hr as <- <-. split; [|done]. split; [done|by eexists]. }
  destruct (Hok c' s eq_refl) as (Hc' & Hcomp & Hd & Hi). rewrite Hc in Hc'. injection Hc' as <-.
  rewrite (bind_run_Ok _ _ _ _ _ E) in Hr. rewrite <- Hd in Hk, Ht.
  destruct (reindex_store c s) as [s1 r1] eqn:Er. unfold on_store, rebuild_projections in Hr. run_get Hr. rewrite Er in Hr.
  destruct r1 as [report1|e1]; cbn [with_context map_err] in Hr.
  - split.
    + intros Hn. rewrite <- Hd in Hn. by destruct (reindex_store_refuses _ _ _ _ Hi Hn Er) as [_ [e ?]].
    + intros Ha report ->. destruct (reindex_store_effect _ _ _ _ Hi Hk Ht Er) as (Hcols & ledger & Hx & _).
      pose proof (disk_typed_columns _ _ Hcols Ht) as Ht1. rewrite <- (upgraded_set_rows (durable s1) f1 Hcomp) in Ht1.
      destruct (verify_file_run second args (set_rows (durable s1) f1) c) as (f2 & r2 & Ev & Hcomp2 & Hrows2 & Hrun);
        [by apply supported_complete|done|done|done|].
      rewrite Hr in Ev. injection Ev as <- <-. rewrite upgraded_set_rows in * by done.
      split; [done|]. rewrite Hrows2, <- Hd. split; [done|]. exists ledger. split; [done|].
      destruct (chain_id_new_Ok_inv _ _ Hc) as [_ Hvalid].
      rewrite (verified_verifies c _ ledger) in Hrun; [by injection Hrun as <-|done|done|by apply stores_explorer_verified].
  - injection Hr as <- <-. split; [|done]. intros Hn. rewrite <- Hd in Hn.
    destruct (reindex_store_refuses _ _ _ _ Hi Hn Er) as [Hsame _].
    split; [|by eexists]. by rewrite upgraded_set_rows, Hsame, Hd.
Qed.
End database.

(** ** Witnesses *)

Definition database_args : DatabaseVerifyArgs := mk_DatabaseVerifyArgs (mk_Path false [str "node.db"]) (str "kcoin-local").
Definition calm_answers : OpenAnswers := mk_OpenAnswers true (mk_Filesystem (fun _ => None) (fun _ => true)) None [].

(** The files of the busy node, and of its disk with garbled tables. *)
Definition busy_file : DiskFile := file_of (fun _ columns => columns) busy_disk.
Definition garbled_file : DiskFile := file_of (fun _ columns => columns) garbled.

Lemma files_checked :
  supported_test busy_file && disk_typed_test (upgraded busy_file) &&
  is_ok (database calm_answers calm_answers (DbReplay database_args) busy_file).2 &&
  (supported_test garbled_file && disk_typed_test (upgraded garbled_file) &&
   bool_decide (map_Forall (fun h row => br_height row = h /\ h <= i64_max) (blocks (upgraded garbled_file))) &&
   negb (is_ok (database calm_answers calm_answers (DbVerify database_args) garbled_file).2) &&
   is_ok (database calm_answers calm_answers (DbReindex database_args) garbled_file).2) = true.
Proof. vm_compute. reflexivity. Qed.

Lemma calm_works : working_answers calm_answers.
Proof. done. Qed.

Lemma verify_command_exact_witness :
  exists f' report ledger, database calm_answers calm_answers (DbReplay database_args) busy_file = (f', Ok report) /\
    verified local_chain (file_rows f') ledger /\ report = verification_of local_chain (file_rows f') ledger.
Proof.
  destruct (andb_prop _ _ files_checked) as [[[Hs Ht]%andb_prop K]%andb_prop _].
  destruct (database calm_answers calm_answers (DbReplay database_args) busy_file) as [f' r] eqn:E.
  destruct (verify_command_exact local_chain calm_answers calm_answers database_args (DbReplay database_args) busy_file f' r
    (or_intror eq_refl) (supported_tested _ Hs) (disk_typed_tested _ Ht) eq_refl calm_works E) as (_ & Hrows & Hx).
  destruct r as [report|e]; [|discriminate K]. destruct Hx as (ledger & Hv & Hrep).
  exists f', report, ledger. split; [reflexivity|]. rewrite Hrows. split; [exact Hv|exact Hrep].
Defined.

Lemma reindex_command_rebuilds_witness :
  is_ok (database calm_answers calm_answers (DbVerify database_args) garbled_file).2 = false /\
  exists f' report ledger, database calm_answers calm_answers (DbReindex database_args) garbled_file = (f', Ok report) /\
    stores_explorer local_chain (file_rows f') ledger.
Proof.
  destruct (andb_prop _ _ files_checked)
    as [_ [[[[Hs Ht]%andb_prop Hk%bool_decide_eq_true]%andb_prop Hbad%negb_true_iff]%andb_prop K]%andb_prop].
  split; [exact Hbad|].
  destruct (database calm_answers calm_answers (DbReindex database_args) garbled_file) as [f' r] eqn:E.
  destruct (reindex_command_rebuilds local_chain calm_answers calm_answers database_args garbled_file f' r
    (supported_tested _ Hs) Hk (disk_typed_tested _ Ht) eq_refl E) as (_ & _ & Hx).
  destruct r as [report|e]; [|discriminate K]. destruct (Hx calm_works report eq_refl) as (_ & _ & ledger & Hl & _).
  exists f', report, ledger. split; [reflexivity|exact Hl].
Defined.
