(* ===== verification/NetworkSpec.v ===== *)
(** * Correctness of the network task

    The redialing of bootstrap peers, the bookkeeping of requests and responses,
    and gossip from one node's actor to another's. *)

From S2P Require Import Prelude Errors Crypto Transaction Block Commit Ledger LedgerFacts ConsensusTypes Engine Sqlite Store NodeTypes Projection NodeState Node NodeCommands NodeMain Network Reference Fixtures ConsensusReference NodeReference ApiReference.

(** ** Redialing *)

Section redial.
Context `{Libp2p, Swarm, !Borsh GossipEnvelope}.

(** The dials of one tick that started. *)
Definition started_dials (answers : SwarmAnswers) (calls n : nat) : nat :=
  length (filter (fun k => (answer_dial answers k).2 = true) (seq calls n)).

Record redialed (answers : SwarmAnswers) (C : gset PeerId) (start remaining scanned attempts calls : nat)
    (ts ts' : list StaticBootstrap) (scanned' : nat) (dialed : list Multiaddr) : Prop := {
  redialed_scanned : (scanned <= scanned' <= scanned + remaining)%nat;
  redialed_stops : (scanned' < scanned + remaining)%nat -> (4 <= attempts + (scanned' - scanned))%nat;
  redialed_addresses : sb_address <$> ts' = sb_address <$> ts;
  redialed_bound : (attempts <= 4 -> attempts + started_dials answers calls (length dialed) <= 4)%nat;
  redialed_sound address : address ∈ dialed ->
    exists target, target ∈ ts /\ should_dial C target = true /\ address = sb_address target;
  redialed_due off target : (scanned <= off < scanned')%nat ->
    ts !! ((start + off) mod length ts)%nat = Some target -> should_dial C target = true -> sb_address target ∈ dialed
}.

Lemma mod_window (len start i j : nat) :
  (i < j)%nat -> (j < i + len)%nat -> ((start + i) mod len <> (start + j) mod len)%nat.
Proof.
  intros Hij Hj E. assert (len <> 0)%nat as Hlen by lia.
  pose proof (Nat.div_mod (start + i) len Hlen) as Ei. pose proof (Nat.div_mod (start + j) len Hlen) as Ej.
  rewrite E in Ei. assert (len * ((start + j) / len - (start + i) / len) = j - i)%nat as Hd by (rewrite Nat.mul_sub_distr_l; lia).
  destruct ((start + j) / len - (start + i) / len)%nat as [|q]; [lia|]. nia.
Qed.

Lemma redial_loop_redialed answers C start remaining scanned attempts calls ts :
  (scanned + remaining <= length ts)%nat ->
  let '(ts', scanned', dialed) := redial_loop answers C start remaining scanned attempts calls ts in
  redialed answers C start remaining scanned attempts calls ts ts' scanned' dialed.
Proof.
  revert scanned attempts calls ts. induction remaining as [|remaining IH]; intros scanned attempts calls ts Hlen; cbn [redial_loop].
  { split; [lia..|done|unfold started_dials; simpl; lia|by intros ? ?%elem_of_nil|intros off target; lia]. }
  unfold MAX_BOOTSTRAP_DIALS_PER_TICK. destruct (Nat.ltb_spec attempts 4) as [Ha|Ha].
  2: { split; [lia..|done|unfold started_dials; simpl; lia|by intros ? ?%elem_of_nil|intros off target; lia]. }
  destruct (lookup_lt_is_Some_2 ts ((start + scanned) mod length ts)) as [target Ht]; [apply Nat.mod_upper_bound; lia|].
  rewrite Ht. destruct (should_dial C target) eqn:Hdue.
  - destruct (answer_dial answers calls) as [connection started] eqn:Hans.
    set (ts1 := if started then _ else ts).
    assert (length ts1 = length ts) as Hl1 by (subst ts1; destruct started; [apply length_insert|done]).
    specialize (IH (S scanned) (if started then S attempts else attempts) (S calls) ts1). rewrite Hl1 in IH.
    destruct (redial_loop _ _ _ _ _ _ _ ts1) as [[ts' scanned'] dialed]. destruct IH as [H1 H2 H3 H4 Hsound H5]; [lia|].
    split.
    + lia.
    + intros Hs. specialize (H2 ltac:(lia)). destruct started; lia.
    + rewrite H3. subst ts1. destruct started; [|done]. apply list_eq. intros k. rewrite !list_lookup_fmap.
      destruct (decide (k = (start + scanned) mod length ts)%nat) as [->|Hk];
        [rewrite list_lookup_insert_eq by (by eapply lookup_lt_Some); by rewrite Ht|by rewrite list_lookup_insert_ne].
    + intros _. unfold started_dials in *. cbn [length seq]. destruct started;
        [rewrite filter_cons_True by (by rewrite Hans)|rewrite filter_cons_False by (by rewrite Hans)]; simpl in *; lia.
    + intros address [->|Hin]%elem_of_cons; [exists target; split_and!; [by eapply list_elem_of_lookup_2|done..]|].
      destruct (Hsound _ Hin) as (t' & Ht' & Hdue' & ->). exists t'. split_and!; [|done..]. subst ts1. destruct started; [|done].
      apply list_elem_of_lookup in Ht' as [k Hk]. apply list_lookup_insert_Some in Hk as [(_ & <- & _)|[_ Hk]]; [done|].
      by eapply list_elem_of_lookup_2.
    + intros off t' [Hlo Hhi] Hoff Hdue'. destruct (decide (off = scanned)) as [->|Hne].
      { rewrite Ht in Hoff. injection Hoff as <-. left. }
      right. apply (H5 off); [lia| |done]. rewrite Hl1. subst ts1. destruct started; [|done].
      rewrite list_lookup_insert_ne; [done|]. apply mod_window; lia.
  - specialize (IH (S scanned) attempts calls ts). destruct (redial_loop _ _ _ _ _ _ _ ts) as [[ts' scanned'] dialed].
    destruct IH as [H1 H2 H3 H4 Hsound H5]; [lia|]. split; [lia| |done|done|done|].
    + intros Hs. specialize (H2 ltac:(lia)). lia.
    + intros off t' [Hlo Hhi] Hoff Hdue'. destruct (decide (off = scanned)) as [->|Hne]; [congruence|]. apply (H5 off); [lia|done..].
Qed.

Lemma redial_due_redialed answers C b b' dialed :
  redial_due answers C b = (b', dialed) -> targets b <> [] ->
  exists scanned,
    redialed answers C (cursor b) (length (targets b)) 0 0 0 (targets b) (targets b') scanned dialed /\
    cursor b' = ((cursor b + scanned) mod length (targets b))%nat.
Proof.
  unfold redial_due. intros Hr Hne. destruct (Nat.eqb_spec (length (targets b)) 0) as [E|_]; [by apply nil_length_inv in E|].
  pose proof (redial_loop_redialed answers C (cursor b) (length (targets b)) 0 0 0 (targets b) ltac:(lia)) as Hl.
  destruct (redial_loop _ _ _ _ _ _ _ _) as [[ts scanned] ds]. injection Hr as <- <-. by exists scanned.
Qed.

(** ** Along a run *)

Definition is_redial (input : NetworkInput) : bool := match input with InRedial _ => true | _ => false end.

Definition ticks (inputs : list (SwarmAnswers * NetworkInput)) : nat :=
  length (filter (fun input => is_redial input.2 = true) inputs).

Lemma ticks_cons input inputs : ticks (input :: inputs) = if is_redial input.2 then S (ticks inputs) else ticks inputs.
Proof.
  unfold ticks. destruct (is_redial input.2) eqn:E; [by rewrite filter_cons_True|by rewrite filter_cons_False by congruence].
Qed.

(** The [i]-th target is due at every tick: it has no dial under way and its
    peer is not connected. *)
Fixpoint always_due (i : nat) (inputs : list (SwarmAnswers * NetworkInput)) (s : NetworkState) : Prop :=
  match inputs with
  | [] => True
  | input :: inputs =>
      match input.2, targets (ns_bootstrap s) !! i with
      | InRedial C, Some target => should_dial C target = true
      | InRedial _, None => False
      | _, _ => True
      end /\ always_due i inputs (network_turn input s)
  end.

Lemma update_pending_addresses connection f ts :
  (forall t, sb_address (f t) = sb_address t) -> sb_address <$> update_pending connection f ts = sb_address <$> ts.
Proof. intros Hf. induction ts as [|t ts IH]; [done|]. simpl. case_bool_decide; csimpl; by rewrite ?Hf, ?IH. Qed.

Lemma send_event_bootstrap answers event s : ns_bootstrap (send_event answers event s) = ns_bootstrap s.
Proof. unfold send_event. by destruct (answer_receivers answers). Qed.

Lemma send_event_outputs answers event s s0 :
  ns_outputs s0 = ns_outputs s -> exists l, ns_outputs (send_event answers event s0) = ns_outputs s ++ l.
Proof. intros <-. unfold send_event. destruct (answer_receivers answers); [by eexists|]. exists []. by rewrite app_nil_r. Qed.

(** What a turn does to the bootstrap set, and that outputs are only added. *)
Lemma turn_bootstrap input s :
  is_redial input.2 = false ->
  cursor (ns_bootstrap (network_turn input s)) = cursor (ns_bootstrap s) /\
  sb_address <$> targets (ns_bootstrap (network_turn input s)) = sb_address <$> targets (ns_bootstrap s).
Proof.
  destruct input as [answers [command|C|event]]; simpl; [|done|]; intros _.
  - destruct command; simpl; try done. by destruct (_ !! _).
  - destruct event; simpl; repeat case_match; rewrite ?send_event_bootstrap; simpl;
      rewrite ?update_pending_addresses by done; done.
Qed.

Lemma dialed_outputs dialed s :
  let s' := foldl (fun s address => output (Dialed address) s) s dialed in
  ns_outputs s' = ns_outputs s ++ (Dialed <$> dialed) /\ ns_bootstrap s' = ns_bootstrap s /\
  ns_pending_requests s' = ns_pending_requests s /\ ns_pending_responses s' = ns_pending_responses s.
Proof.
  revert s. induction dialed as [|a dialed IH]; intros s; simpl; [by rewrite app_nil_r|].
  destruct (IH (output (Dialed a) s)) as (-> & -> & -> & ->). simpl. by rewrite <- app_assoc.
Qed.

Lemma turn_outputs input s : exists l, ns_outputs (network_turn input s) = ns_outputs s ++ l.
Proof.
  assert (exists l, ns_outputs s = ns_outputs s ++ l) as Hnil by (exists []; by rewrite app_nil_r).
  destruct input as [answers [command|C|event]]; simpl.
  - destruct command; simpl; repeat case_match; first [done|by eexists].
  - destruct (redial_due _ _ _) as [b dialed]. rewrite (proj1 (dialed_outputs _ _)). by eexists.
  - destruct event; simpl; repeat case_match; first [done|by apply send_event_outputs|by eexists].
Qed.

Lemma run_outputs inputs s : exists l, ns_outputs (run_network inputs s) = ns_outputs s ++ l.
Proof.
  revert s. induction inputs as [|input inputs IH]; intros s; simpl; [exists []; by rewrite app_nil_r|].
  destruct (IH (network_turn input s)) as [l ->], (turn_outputs input s) as [l' ->]. exists (l' ++ l). by rewrite app_assoc.
Qed.

Lemma address_lookup (ts ts' : list StaticBootstrap) i a :
  sb_address <$> ts' = sb_address <$> ts -> (sb_address <$> ts !! i) = Some a ->
  exists t, ts' !! i = Some t /\ sb_address t = a.
Proof.
  intros E Ha. rewrite <- list_lookup_fmap, <- E, list_lookup_fmap in Ha. apply fmap_Some in Ha as (t & Ht & ->). by exists t.
Qed.

Lemma redial_reaches inputs s i target off :
  let n := length (targets (ns_bootstrap s)) in
  targets (ns_bootstrap s) !! i = Some target -> always_due i inputs s ->
  ((cursor (ns_bootstrap s) + off) mod n = i)%nat -> (off < n)%nat -> (off < 4 * ticks inputs)%nat ->
  exists l, ns_outputs (run_network inputs s) = ns_outputs s ++ l /\ Dialed (sb_address target) ∈ l.
Proof.
  revert s target off. induction inputs as [|input inputs IH]; intros s target off n Ht Hdue Hi Hn Hoff; [simpl in Hoff; lia|].
  destruct Hdue as [Hnow Hdue]. cbn [run_network]. destruct (is_redial input.2) eqn:Hre.
  - destruct input as [answers [|C|]]; try done. simpl in Hnow. rewrite Ht in Hnow.
    destruct (redial_due answers C (ns_bootstrap s)) as [b dialed] eqn:Hr.
    destruct (redial_due_redialed _ _ _ _ _ Hr) as (scanned & [H1 H2 H3 _ _ H5] & Hc); [intros E; by rewrite E in Ht|].
    destruct (dialed_outputs dialed (set_bootstrap b s)) as (Ho & Hb & _). simpl in Ho, Hb.
    assert (ns_outputs (network_turn (answers, InRedial C) s) = ns_outputs s ++ (Dialed <$> dialed)) as Ho' by (simpl; by rewrite Hr).
    assert (ns_bootstrap (network_turn (answers, InRedial C) s) = b) as Hb' by (simpl; by rewrite Hr).
    destruct (decide (off < scanned)%nat) as [Hlt|Hge].
    + destruct (run_outputs inputs (network_turn (answers, InRedial C) s)) as [l ->]. rewrite Ho', <- app_assoc.
      eexists. split; [done|]. apply elem_of_app. left. apply list_elem_of_fmap. eexists. split; [done|].
      apply (H5 off); [lia| |done]. fold n. by rewrite Hi.
    + assert (length (targets b) = n) as Hlen by (apply (f_equal length) in H3; by rewrite !length_fmap in H3).
      destruct (address_lookup _ (targets b) i (sb_address target) H3) as (t' & Ht' & Ha); [by rewrite Ht|].
      specialize (H2 ltac:(lia)).
      destruct (IH (network_turn (answers, InRedial C) s) t' (off - scanned)%nat) as (l & -> & Hl).
      * by rewrite Hb'.
      * done.
      * rewrite Hb', Hlen, Hc. fold n. rewrite Nat.Div0.add_mod_idemp_l. rewrite <- Hi. f_equal. lia.
      * rewrite Hb'. lia.
      * rewrite ticks_cons in Hoff. simpl in Hoff. lia.
      * rewrite Ho', <- app_assoc. eexists. split; [done|]. apply elem_of_app. right. by rewrite <- Ha.
  - destruct (turn_bootstrap input s Hre) as [Hc Ha]. destruct (turn_outputs input s) as [l0 Ho].
    destruct (address_lookup _ _ i (sb_address target) Ha) as (t' & Ht' & Ha'); [by rewrite Ht|].
    assert (length (targets (ns_bootstrap (network_turn input s))) = n) as Hlen
      by (apply (f_equal length) in Ha; by rewrite !length_fmap in Ha).
    destruct (IH (network_turn input s) t' off) as (l & -> & Hl); [done|done|by rewrite Hc, Hlen|by rewrite Hlen| |].
    + by rewrite ticks_cons, Hre in Hoff.
    + rewrite Ho, <- app_assoc. eexists. split; [done|]. apply elem_of_app. right. by rewrite <- Ha'.
Qed.

Lemma window_offset (n c i : nat) : (i < n)%nat -> exists off, (off < n)%nat /\ ((c + off) mod n = i)%nat.
Proof.
  intros Hi. exists ((i + (n - c mod n)) mod n)%nat. assert (n <> 0)%nat by lia. split; [by apply Nat.mod_upper_bound|].
  rewrite Nat.Div0.add_mod_idemp_r. pose proof (Nat.mod_upper_bound c n ltac:(done)). pose proof (Nat.div_mod c n ltac:(done)) as E.
  replace (c + (i + (n - c mod n)))%nat with (i + (1 + c / n) * n)%nat by nia.
  rewrite Nat.Div0.mod_add. by apply Nat.mod_small.
Qed.

(** C24. Redialing is bounded and fair: a tick starts at most four dials and dials
    only bootstrap addresses that are due; and a target that stays due is
    dialed after at most a quarter of as many ticks as there are targets,
    whatever the other targets, the swarm and the commands do in between. *)
Theorem redial_bounded_and_fair :
  (forall answers C b b' dialed, redial_due answers C b = (b', dialed) ->
     (started_dials answers 0 (length dialed) <= MAX_BOOTSTRAP_DIALS_PER_TICK)%nat /\
     forall a, a ∈ dialed -> exists target, target ∈ targets b /\ should_dial C target = true /\ a = sb_address target) /\
  (forall inputs (s : NetworkState) i target,
     targets (ns_bootstrap s) !! i = Some target -> always_due i inputs s ->
     (length (targets (ns_bootstrap s)) <= 4 * ticks inputs)%nat ->
     exists l, ns_outputs (run_network inputs s) = ns_outputs s ++ l /\ Dialed (sb_address target) ∈ l).
Proof.
  split.
  - intros answers C b b' dialed Hr. destruct (decide (targets b = [])) as [E|Hne].
    + unfold redial_due in Hr. rewrite E in Hr. injection Hr as _ <-. split; [unfold started_dials, MAX_BOOTSTRAP_DIALS_PER_TICK; simpl; lia|].
      by intros a ?%elem_of_nil.
    + destruct (redial_due_redialed _ _ _ _ _ Hr Hne) as (scanned & [_ _ _ Hb Hs _] & _).
      split; [unfold MAX_BOOTSTRAP_DIALS_PER_TICK; lia|done].
  - intros inputs s i target Ht Hdue Hlen. pose proof (lookup_lt_Some _ _ _ Ht) as Hi.
    destruct (window_offset (length (targets (ns_bootstrap s))) (cursor (ns_bootstrap s)) i Hi) as (off & Hoff & E).
    apply (redial_reaches inputs s i target off); [done..|lia].
Qed.
End redial.

(** ** Requests and responses *)

Lemma values_insert {K V} `{Countable K} (m : gmap K V) k v :
  (map_to_list (<[k := v]> m)).*2 ⊆+ v :: (map_to_list m).*2.
Proof.
  rewrite <- insert_delete_eq, map_to_list_insert by apply lookup_delete_eq. csimpl. apply submseteq_skip.
  destruct (m !! k) as [x|] eqn:E; [|by rewrite delete_id].
  rewrite <- (map_to_list_delete m k x E). csimpl. by apply submseteq_cons.
Qed.

Lemma values_delete {K V} `{Countable K} (m : gmap K V) k v :
  m !! k = Some v -> v :: (map_to_list (delete k m)).*2 ≡ₚ (map_to_list m).*2.
Proof. intros E. by rewrite <- (map_to_list_delete m k v E). Qed.

Section requests.
Context `{Libp2p, Swarm, !Borsh GossipEnvelope}.

(** The intents of the requests the actor made, and of the replies it got. *)
Definition requested (inputs : list (SwarmAnswers * NetworkInput)) : list OutboundSyncIntent :=
  omap (fun input => match input.2 with InCommand (Request intent) => Some intent | _ => None end) inputs.
Definition replied (outputs : list NetworkOutput) : list OutboundSyncIntent :=
  omap (fun o => match o with
                 | Sent (EventSyncResponse _ intent _) | Sent (EventSyncFailure _ intent) => Some intent
                 | _ => None
                 end) outputs.

(** The channels of the requests of peers, and those that were answered. *)
Definition received (inputs : list (SwarmAnswers * NetworkInput)) : list ResponseChannel :=
  omap (fun input => match input.2 with InSwarm (RequestMessage _ channel _) => Some channel | _ => None end) inputs.
Definition answered (outputs : list NetworkOutput) : list ResponseChannel :=
  omap (fun o => match o with ResponseSent channel _ => Some channel | _ => None end) outputs.

Definition open_requests (s : NetworkState) : list OutboundSyncIntent := (map_to_list (ns_pending_requests s)).*2.
Definition open_responses (s : NetworkState) : list ResponseChannel := (map_to_list (ns_pending_responses s)).*2.

Lemma asked_app l k : requested (l ++ k) = requested l ++ requested k.
Proof. apply omap_app. Qed.
Lemma channels_app l k : received (l ++ k) = received l ++ received k.
Proof. apply omap_app. Qed.

(** What a turn may do to the books. *)
Record kept (input : SwarmAnswers * NetworkInput) (s s' : NetworkState) : Prop := {
  kept_requests : replied (ns_outputs s') ++ open_requests s' ⊆+ replied (ns_outputs s) ++ open_requests s ++ requested [input];
  kept_responses : answered (ns_outputs s') ++ open_responses s' ⊆+ answered (ns_outputs s) ++ open_responses s ++ received [input]
}.

Lemma replied_app l k : replied (l ++ k) = replied l ++ replied k.
Proof. apply omap_app. Qed.
Lemma answered_app l k : answered (l ++ k) = answered l ++ answered k.
Proof. apply omap_app. Qed.

(** Outputs that settle nothing. *)
Lemma kept_quiet input s s' l :
  ns_outputs s' = ns_outputs s ++ l -> replied l = [] -> answered l = [] ->
  ns_pending_requests s' = ns_pending_requests s -> ns_pending_responses s' = ns_pending_responses s -> kept input s s'.
Proof.
  intros Ho Hr Ha Eq Er.
  split; unfold open_requests, open_responses; rewrite Ho, ?replied_app, ?answered_app, ?Hr, ?Ha, app_nil_r, ?Eq, ?Er;
    (apply submseteq_app; [done|by apply submseteq_inserts_r]).
Qed.

Lemma send_event_sent answers event s :
  exists l, ns_outputs (send_event answers event s) = ns_outputs s ++ l /\ (l = [] \/ l = [Sent event]) /\
    ns_pending_requests (send_event answers event s) = ns_pending_requests s /\
    ns_pending_responses (send_event answers event s) = ns_pending_responses s.
Proof.
  unfold send_event. destruct (answer_receivers answers); [exists [Sent event]; auto|]. exists []. rewrite app_nil_r. auto.
Qed.

(** An event that is not a reply. *)
Lemma kept_send input answers event s s0 :
  ns_outputs s0 = ns_outputs s -> ns_pending_requests s0 = ns_pending_requests s ->
  ns_pending_responses s0 = ns_pending_responses s -> replied [Sent event] = [] ->
  kept input s (send_event answers event s0).
Proof.
  intros Ho Eq Er Hev. destruct (send_event_sent answers event s0) as (l & Hl & Hc & Eq' & Er').
  apply (kept_quiet _ _ _ l); [congruence| | |congruence..]; by destruct Hc as [->| ->].
Qed.

(** The reply to a request: it leaves the open ones. *)
Lemma kept_reply input answers event intent id s :
  ns_pending_requests s !! id = Some intent -> replied [Sent event] = [intent] ->
  kept input s (send_event answers event (set_requests (delete id (ns_pending_requests s)) s)).
Proof.
  intros Hid Hev. destruct (send_event_sent answers event (set_requests (delete id (ns_pending_requests s)) s)) as (l & Hl & Hc & Eq & Er).
  simpl in Hl, Eq, Er. assert (answered l = []) as Ha by by destruct Hc as [->| ->].
  split; unfold open_requests, open_responses; rewrite Hl, ?Eq, ?Er, ?replied_app, ?answered_app, ?Ha.
  - rewrite <- (values_delete _ _ _ Hid), <- app_assoc. apply submseteq_app; [done|].
    destruct Hc as [->| ->]; [apply submseteq_cons|rewrite Hev; apply submseteq_skip]; by apply submseteq_inserts_r.
  - rewrite app_nil_r. apply submseteq_app; [done|]. by apply submseteq_inserts_r.
Qed.

Lemma kept_command answers command s : kept (answers, InCommand command) s (handle_command answers command s).
Proof.
  destruct command as [topic envelope|intent|token response|address]; simpl.
  - by eapply kept_quiet.
  - split; unfold open_requests, open_responses; simpl; rewrite ?replied_app, ?answered_app, ?app_nil_r; simpl; [|done].
    apply submseteq_app; [done|]. etrans; [apply values_insert|]. by rewrite Permutation_app_comm.
  - destruct (ns_pending_responses s !! token) as [channel|] eqn:E.
    + split; unfold open_requests, open_responses; simpl; rewrite ?replied_app, ?answered_app, ?app_nil_r; simpl; [done|].
      rewrite <- app_assoc. apply submseteq_app; [done|]. simpl. by rewrite (values_delete _ _ _ E).
    + apply (kept_quiet _ _ _ []); by rewrite ?app_nil_r.
  - by eapply kept_quiet.
Qed.

Lemma kept_same input s : kept input s s.
Proof. apply (kept_quiet _ _ _ []); by rewrite ?app_nil_r. Qed.

Lemma kept_swarm answers event s : kept (answers, InSwarm event) s (handle_swarm_event answers event s).
Proof.
  destruct event as [peer source data|peer channel rq|peer id response|peer id|peer id|peer n|id|]; simpl.
  - destruct (_ && _); [apply kept_same|]. destruct (envelope_decode data); [by apply kept_send|apply kept_same].
  - set (token := wrap _ _).
    pose proof (values_insert (ns_pending_responses s) token channel) as Hv.
    destruct (answer_receivers answers); (split; unfold open_requests, open_responses; simpl;
      rewrite ?replied_app, ?answered_app, ?app_nil_r; simpl; rewrite ?app_nil_r; [done|]).
    + apply submseteq_app; [done|]. etrans; [exact Hv|]. by rewrite Permutation_app_comm.
    + rewrite <- app_assoc. apply submseteq_app; [done|]. simpl. rewrite delete_insert_eq.
      trans (channel :: (map_to_list (ns_pending_responses s)).*2); [|by rewrite Permutation_app_comm]. apply submseteq_skip.
      destruct (ns_pending_responses s !! token) as [x|] eqn:E; [|by rewrite delete_id].
      rewrite <- (values_delete _ _ _ E). by apply submseteq_cons.
  - destruct (ns_pending_requests s !! id) eqn:E; [by eapply kept_reply|apply kept_same].
  - destruct (ns_pending_requests s !! id) eqn:E; [by eapply kept_reply|apply kept_same].
  - by apply kept_send.
  - destruct (_ =? _); [by apply kept_send|apply kept_same].
  - by eapply (kept_quiet _ _ _ []); rewrite ?app_nil_r.
  - apply kept_same.
Qed.

Lemma dialed_settles dialed : replied (Dialed <$> dialed) = [] /\ answered (Dialed <$> dialed) = [].
Proof. by induction dialed. Qed.

Lemma turn_kept input s : kept input s (network_turn input s).
Proof.
  destruct input as [answers [command|C|event]]; [apply kept_command| |apply kept_swarm].
  simpl. destruct (redial_due _ _ _) as [b dialed].
  destruct (dialed_outputs dialed (set_bootstrap b s)) as (Ho & _ & Eq & Er).
  apply (kept_quiet _ _ _ (Dialed <$> dialed)); [exact Ho|apply dialed_settles|apply dialed_settles|exact Eq|exact Er].
Qed.

(** C28. Every request is answered at most once, and never out of the blue: the
    intents the actor is given back with responses and failures, with those
    still open, are among the intents it asked for, each as often; and the
    channels of peers that are answered, with those still open, are among the
    channels that were received. *)
Theorem replies_match_requests bootstrap allowlist (inputs : list (SwarmAnswers * NetworkInput)) :
  let s := run_network inputs (network_new bootstrap allowlist) in
  replied (ns_outputs s) ++ open_requests s ⊆+ requested inputs /\
  answered (ns_outputs s) ++ open_responses s ⊆+ received inputs.
Proof.
  assert (forall s0 asked channels,
    replied (ns_outputs s0) ++ open_requests s0 ⊆+ asked -> answered (ns_outputs s0) ++ open_responses s0 ⊆+ channels ->
    let s := run_network inputs s0 in
    replied (ns_outputs s) ++ open_requests s ⊆+ asked ++ requested inputs /\
    answered (ns_outputs s) ++ open_responses s ⊆+ channels ++ received inputs) as Hrun.
  { induction inputs as [|input inputs IH]; intros s0 asked channels Hq Hr; simpl run_network; cbv zeta.
    { simpl. by rewrite !app_nil_r. }
    destruct (turn_kept input s0) as [Kq Kr].
    destruct (IH (network_turn input s0) (asked ++ requested [input]) (channels ++ received [input])) as [Hq' Hr'].
    - etrans; [exact Kq|]. rewrite app_assoc. by apply submseteq_app.
    - etrans; [exact Kr|]. rewrite app_assoc. by apply submseteq_app.
    - rewrite <- app_assoc in Hq', Hr'. change (input :: inputs) with ([input] ++ inputs).
      by rewrite asked_app, channels_app. }
  by apply (Hrun (network_new bootstrap allowlist) [] []).
Qed.
End requests.

(** ** Gossip *)

Section gossip.
Context `{Ed25519, Libp2p, Swarm, !Borsh UnsignedTransaction, !Borsh SignedTransaction, !Borsh FinalizedWireRecord,
          !Borsh ConsensusWireMessage, !Borsh SignedValidatorStatus, !Borsh GossipEnvelope}.
Context `{!BorshLaws SignedTransaction, !BorshLaws FinalizedWireRecord, !BorshLaws ConsensusWireMessage,
          !BorshLaws SignedValidatorStatus, !BorshLaws GossipEnvelope}.

(** The command another node's actor is to receive for an output. *)
Inductive delivers (source : option PeerId) : Output -> Command -> Prop :=
| delivers_transaction t :
    verify_signature t = Ok () -> Z.of_nat (length (tx_canonical_bytes t)) <= MAX_TRANSACTION_BYTES ->
    delivers source (GossipTransaction (tx_canonical_bytes t)) (Submit t false)
| delivers_consensus wire : delivers source (GossipConsensus wire) (ConsensusMessage source wire)
| delivers_finalized record : delivers source (GossipFinalized record) (ImportFinalized record source)
| delivers_status status : delivers source (GossipStatus status) (ValidatorStatus status).

Lemma envelope_decode_encode envelope :
  ge_version envelope = 1 -> envelope_decode (envelope_encode envelope) = Ok envelope.
Proof.
  intros Hv. unfold envelope_decode, envelope_encode. rewrite try_from_slice_to_vec. simpl.
  by rewrite bool_decide_eq_false_2 by (rewrite Hv; tauto).
Qed.

Lemma tx_decode_canonical t :
  verify_signature t = Ok () -> Z.of_nat (length (tx_canonical_bytes t)) <= MAX_TRANSACTION_BYTES ->
  tx_decode (tx_canonical_bytes t) = Ok t.
Proof.
  intros Hv Hl. unfold tx_decode. rewrite (proj2 (Z.ltb_ge _ _)) by done. unfold tx_canonical_bytes.
  rewrite try_from_slice_to_vec. simpl. by rewrite Hv.
Qed.

(** [o] leaves a node of [chain_id] on a topic to which the nodes of the chain
    subscribe, as bytes that reach the actor of another node of the chain as
    [command], and no other actor. *)
Definition carried (chain_id : ustring) (source : option PeerId) (o : Output) (command : Command) : Prop :=
  exists publication topic data,
    announce chain_id o = Some publication /\
    topic_of chain_id topic ∈ subscriptions chain_id /\
    (forall answers s, exists accepted,
       ns_outputs (handle_command answers publication s) = ns_outputs s ++ [Published (topic_of chain_id topic) data accepted]) /\
    (forall answers relay s, ns_allowlist s = ∅ \/ relay ∈ ns_allowlist s -> answer_receivers answers = true ->
       exists event, ns_outputs (handle_swarm_event answers (GossipMessage relay source data) s) = ns_outputs s ++ [Sent event] /\
         network_bridge chain_id event = Some command /\
         forall other, other <> chain_id -> network_bridge other event = None) /\
    (forall answers relay s, ns_allowlist s <> ∅ -> relay ∉ ns_allowlist s ->
       handle_swarm_event answers (GossipMessage relay source data) s = s).

Lemma publish_carried chain_id source o command topic kind payload :
  announce chain_id o = Some (publish topic chain_id kind payload) ->
  topic ∈ TOPICS ->
  (forall chain, network_bridge chain (EventGossip source (mk_GossipEnvelope 1 chain_id kind payload)) =
     if bool_decide (chain_id = chain) then Some command else None) ->
  carried chain_id source o command.
Proof.
  intros Ha Ht Hb. set (envelope := mk_GossipEnvelope 1 chain_id kind payload) in *.
  exists (publish topic chain_id kind payload), topic, (envelope_encode envelope). split_and!; [done|by apply list_elem_of_fmap_2| | |].
  - intros answers s. by exists (answer_publish answers).
  - intros answers relay s Hallow Hrecv. exists (EventGossip source envelope). split_and!.
    + simpl. assert (negb (bool_decide (ns_allowlist s = ∅)) && negb (bool_decide (relay ∈ ns_allowlist s)) = false) as ->
        by (repeat case_bool_decide; naive_solver).
      rewrite envelope_decode_encode by done. unfold send_event. by rewrite Hrecv.
    + by rewrite Hb, bool_decide_eq_true_2.
    + intros other Hne. by rewrite Hb, bool_decide_eq_false_2 by congruence.
  - intros answers relay s Hne Hrelay. simpl. by rewrite !bool_decide_eq_false_2.
Qed.

(** C20. What one node's actor gossips the other's receives: a transaction, a
    consensus message, a finalized block or a status leaves as the bytes of one
    envelope on a topic of its chain; a node of the same chain that receives
    these bytes hands its actor exactly the command for it, with the author as
    its source, and a node of another chain hands it nothing. From a relay
    outside a node's allow-list nothing passes. *)
Theorem gossip_roundtrip (chain_id : ustring) (o : Output) (source : option PeerId) (command : Command) :
  delivers source o command -> carried chain_id source o command.
Proof.
  intros [t Hv Hl|wire|record|status]; (eapply publish_carried; [done|vm_compute; set_solver|]); intros chain; simpl; case_bool_decide; try done.
  - by rewrite tx_decode_canonical.
  - by rewrite try_from_slice_to_vec.
  - by rewrite try_from_slice_to_vec.
  - by rewrite try_from_slice_to_vec.
Qed.
End gossip.

(** ** The theorems at concrete inputs *)

(** Six targets that cannot be reached: after the second tick all were dialed. *)
Definition unreachable : SwarmAnswers := mk_SwarmAnswers true (0 : @OutboundRequestId swarm) (fun k => (Z.of_nat k : @ConnectionId swarm, true)) true.
Definition six_targets : NetworkState := network_new ([10; 11; 12; 13; 14; 15] : list (@Multiaddr swarm)) ∅.

Lemma redial_bounded_and_fair_witness :
  exists l, ns_outputs (run_network [(unreachable, InRedial ∅); (unreachable, InRedial ∅)] six_targets) = l /\ Dialed (15 : @Multiaddr swarm) ∈ l.
Proof.
  destruct (proj2 redial_bounded_and_fair [(unreachable, InRedial ∅); (unreachable, InRedial ∅)] six_targets 5%nat
    (static_bootstrap_new (15 : @Multiaddr swarm)) eq_refl) as (l & Hl & Hin).
  - vm_compute. split; [reflexivity|]. split; [reflexivity|exact I].
  - vm_compute. lia.
  - exists l. split; [exact Hl|exact Hin].
Defined.

Lemma gossip_roundtrip_witness :
  carried (str "kcoin-local") (Some (7 : @PeerId libp2p)) (GossipTransaction (tx_canonical_bytes local_claim)) (Submit local_claim false).
Proof.
  apply gossip_roundtrip. apply delivers_transaction.
  - vm_compute. reflexivity.
  - vm_compute. discriminate.
Defined.
