(* ===== verification/NodeMainSpec.v ===== *)
(** * Properties of the binary and of the database file *)

From S2P Require Import Prelude Errors Crypto Transaction Block Commit Ledger LedgerFacts Replay ConsensusTypes Engine Sqlite Store StoreFacts NodeTypes Config Schema Projection Recovery NodeState Node NodeCommands Network NodeSteps NodeChain NodeStart NodeMempool NodeExplorer NodeReindex ApiFacts NodeMain Reference Fixtures ConsensusReference NodeReference ApiReference.

(** ** An old database

    Before the columns of the signing decisions and of the safety row were
    added; one decision and a safety row are stored. *)

Definition old_columns (table : string) (columns : list string) : list string :=
  filter (fun column => (table, column) ∉ added_columns) columns.

Definition old_rows : Database :=
  mk_Database ∅ ∅ ∅ ∅ [] [mk_PersistedConsensusDecision (str "1/0/prevote") [x01] [x02] [x03] [x04]]
    (Some (1, [x05])) ∅.

Definition old_file : DiskFile := file_of old_columns old_rows.

(** The disk fails after the first column was added. *)
Definition full_disk : list (option SqliteError) := replicate 18 None ++ [Some DatabaseFull].

Definition stopped_full (r : result StorageError (Sqlite.Store Database)) : bool :=
  match r with Err (Sqlite DatabaseFull) => true | _ => false end.

Lemma stopped_full_Err r : stopped_full r = true -> r = Err (Sqlite DatabaseFull).
Proof. by destruct r as [|[[]| | | | | | |]]. Qed.

Lemma old_file_facts :
  supported_test old_file = true /\ stopped_full (connect None full_disk old_file).2 = true /\
  has_column "signer_state" "safety_state" (connect None full_disk old_file).1 = true /\
  has_column "signer_state" "signed_message" (connect None full_disk old_file).1 = false.
Proof. vm_compute. done. Qed.

(** C18. Opening a database file of this or an earlier version, whatever answers
    the environment gives and at whichever statement it stops, never changes
    what the file stands for: the stored rows, with the defaults in the columns
    added since. An opening that succeeds has created every table and column the
    statements name, holds exactly these rows and no open transaction; one that
    failed is completed by the next on a disk that works. *)
Theorem database_upgrade_exact (refused : option SqliteError) (script : list (option SqliteError))
    (f f' : DiskFile) (r : result StorageError (Sqlite.Store Database)) :
  supported f -> connect refused script f = (f', r) ->
  upgraded f' = upgraded f /\
  match r with
  | Ok s => complete f' /\ file_rows f' = upgraded f /\ durable s = upgraded f /\ idle s /\ poisoned s = false
  | Err _ => exists f'', connect None [] f' = (f'', Ok (settled (upgraded f))) /\
                         complete f'' /\ file_rows f'' = upgraded f
  end.
Proof.
  intros Hs Hr. destruct (connect_upgrades _ _ _ _ _ Hs Hr) as (Hs' & Hu & Hok). split; [done|].
  destruct r as [s|e].
  - destruct (Hok s eq_refl) as (Hc & Hd & Hi & Hp). split_and!; try done. by rewrite <- (complete_upgraded _ Hc).
  - destruct (connect_settled f' Hs') as (f'' & Hr'' & Hc & Hrows). exists f''. by rewrite <- Hu.
Qed.

Lemma database_upgrade_exact_witness :
  exists f', connect None full_disk old_file = (f', Err (Sqlite DatabaseFull)) /\ upgraded f' = upgraded old_file.
Proof.
  destruct old_file_facts as (Hs & Hr%stopped_full_Err & _).
  destruct (connect None full_disk old_file) as [f' r] eqn:E. simpl in Hr. subst r. exists f'. split; [done|].
  apply (database_upgrade_exact None full_disk old_file f' (Err (Sqlite DatabaseFull)) (supported_tested _ Hs) E).
Defined.

(** ** The binary *)

Section binary.
Context `{Blake3, Blake3Checksum, Ed25519, !SigningKeyBytes, Hex, Bech32, ChallengeJson, Libp2p, !Swarm, !MultiaddrParse,
          !Borsh UnsignedTransaction, !Borsh SignedTransaction, !Borsh BlockHeader, !Borsh Block,
          !Borsh StateCommitment, !Borsh CommitVote, !Borsh CommitCertificate,
          !Borsh SignableMessage, !Borsh SignedMessage, !Borsh SignedProposal,
          !Borsh FinalizedWireRecord, !Borsh ValidatorStatusMessage, !Borsh GossipEnvelope, !SerdeJson SafetyState}.
Context `{!BorshLaws Block, !BorshLaws CommitCertificate}.

(** C19. A node that comes up, whatever the environment answered, runs with
    exactly its arguments, which were accepted: a chain id of 1 to 50 bytes, a
    validator with an index (below 4 on the default network), the canonical path
    of its database, ticks no faster than 250 ms, everything else as given. Its
    actor has that configuration, and the key of that validator when it is one;
    its network, when there is one, has subscribed to the topics of that chain,
    listens on the given port and is to dial exactly the given peers, and
    without one only a demonstration node comes up; its API is bound to the given
    address. Its database file has the schema and the rows it stood for; the
    ledger is the replay of the blocks stored there; nothing was written or sent,
    and what is to be sent again is recorded on the disk. *)
Theorem main_starts_node (answers : MainAnswers) (args : NodeArgs) (f f' : DiskFile) (running : Running)
    (c : ChainId) (ledger : LedgerState) :
  supported f -> slots_unique (upgraded f) -> stores_chain c (upgraded f) ledger ->
  chain_id_new (arg_chain_id args) = Ok c ->
  main answers args f = (f', Ok running) ->
  (1 <= Z.of_nat (length (utf8 (arg_chain_id args))) <= 50) /\
  (arg_role args = RoleValidator -> is_Some (arg_validator_index args)) /\
  (arg_chain_id args = str "kcoin-local-1" -> forall i, arg_validator_index args = Some i -> i < 4) /\
  (exists db_path,
     default (arg_db_path args) (fs_canonicalize (main_config_fs answers) (arg_db_path args)) = db_path /\
     run_config running =
       mk_NodeConfig (arg_chain_id args) (arg_role args) (arg_validator_index args) (arg_api_addr args)
         (arg_p2p_port args) db_path (arg_peers args) (Z.max (arg_heartbeat_ms args) 250) (arg_demo args)) /\
  node_config (run_actor running) = run_config running /\
  local_key (run_config running) (node_key (run_actor running)) /\
  id_network (na_identity (run_actor running)) = bool_decide (is_Some (run_network running)) /\
  (exists bootstrap, Forall2 (fun peer address => multiaddr_parse peer = Some address) (arg_peers args) bootstrap /\
     match run_network running with
     | Some n => n = network_new bootstrap ∅ /\
         listening (main_spawn answers) (arg_chain_id args) (arg_p2p_port args)
     | None => arg_demo args = true
     end) /\
  main_bind answers (arg_api_addr args) = true /\
  complete f' /\ file_rows f' = upgraded f /\
  na_ledger (run_actor running) = ledger /\ durable (na_store (run_actor running)) = upgraded f /\
  na_halted (run_actor running) = false /\ na_outbox (run_actor running) = [] /\
  broadcasts_recorded (run_actor running).
Proof.
  intros Hs Hu Hchain Hc Hr.
  destruct (main_Ok _ _ _ _ _ Hs Hr)
    as (config & store & s' & bootstrap & Hconf & -> & Hcomp & Hrows & Hi & Hd & Hstart & Hpeers & Hnet & Hbind).
  destruct (node_config_try_from_Ok _ _ _ Hconf) as (Hne & Hlen & Hidx & Hlocal & path & Hpath & Hcfg).
  rewrite <- Hd in Hu, Hchain.
  assert (chain_id_new (cfg_node_chain_id config) = Ok c) as Hc' by by rewrite Hcfg.
  destruct (start_node_chain _ _ _ _ _ _ _ c ledger Hi Hu Hchain Hc' Hstart) as [Hledger _].
  destruct (start_node_Ok _ _ _ _ _ _ _ Hi Hu Hstart) as (Hst & _ & Hd' & Hh & Ho & _ & Hb & _).
  destruct (start_identity _ _ _ _ _ _ _ Hstart) as (Hnc & Hnn & Hkey).
  assert (cfg_peers config = arg_peers args /\ cfg_demo config = arg_demo args /\ cfg_api_addr config = arg_api_addr args /\
      cfg_node_chain_id config = arg_chain_id args /\ cfg_p2p_port config = arg_p2p_port args)
    as (Ep & Edemo & Eapi & Echain & Eport) by by rewrite Hcfg.
  rewrite Ep in Hpeers. rewrite Edemo, Echain, Eport in Hnet. rewrite Eapi in Hbind.
  split_and!; try done; [by apply (chain_id_nonempty _ _ Hc)| | |congruence].
  - exists path. split; [|exact Hcfg]. destruct (prepare_db_path_Ok _ _ _ Hpath) as [->|[-> ->]]; done.
  - exists bootstrap. split; [by apply parse_peers_Ok|done].
Qed.

(** An observer or a standalone node, on a file that stores a chain and a
    disk, addresses and a port that work, comes up with the ledger of that
    chain; a demonstration node does even when its network cannot start. *)
Theorem main_runs (answers : MainAnswers) (args : NodeArgs) (f : DiskFile) (c : ChainId) (ledger : LedgerState)
    (config : NodeConfig) (bootstrap : list Multiaddr) :
  supported f -> disk_typed (upgraded f) -> stores_chain c (upgraded f) ledger ->
  node_config_try_from (main_config_fs answers) args = Ok config -> may_start config ->
  chain_id_new (cfg_node_chain_id config) = Ok c ->
  (forall p, fs_create_dir_all (main_open_fs answers) p = true) ->
  main_refused answers = None -> main_faults answers = [] ->
  try_collect parse_peer (cfg_peers config) = Ok bootstrap ->
  cfg_demo config = true \/
    is_ok (spawn_network (main_spawn answers) (cfg_node_chain_id config) (cfg_p2p_port config) bootstrap ∅) = true ->
  main_bind answers (cfg_api_addr config) = true ->
  exists f' running, main answers args f = (f', Ok running) /\
    na_ledger (run_actor running) = ledger /\ na_store (run_actor running) = settled (upgraded f) /\
    (run_network running = None <->
       is_ok (spawn_network (main_spawn answers) (cfg_node_chain_id config) (cfg_p2p_port config) bootstrap ∅) = false).
Proof. apply main_succeeds. Qed.

(** C38. A validator whose database still has a safety row of the version that
    did not record its height refuses to start, whatever the environment
    answers, and the file keeps what it stood for: the upgrade gives the row
    height 0, which is no height to decide. *)
Theorem upgraded_validator_refuses (answers : MainAnswers) (args : NodeArgs) (f f' : DiskFile)
    (r : result AnyError Running) (row : Z * bytes) :
  supported f -> has_table "consensus_safety" f = true -> has_column "consensus_safety" "height" f = false ->
  consensus_safety (file_rows f) = Some row -> arg_role args = RoleValidator ->
  main answers args f = (f', r) -> (exists e, r = Err e) /\ upgraded f' = upgraded f.
Proof.
  intros Hs Ht Hcol Hrow Hrole Hr. split.
  - destruct r as [running|e]; [|by eexists]. exfalso.
    destruct (main_Ok _ _ _ _ _ Hs Hr) as (config & store & s' & _ & Hconf & _ & _ & _ & Hi & Hd & Hstart & _).
    destruct (node_config_try_from_Ok _ _ _ Hconf) as (_ & _ & _ & _ & path & _ & Hcfg).
    assert (consensus_safety (durable store) = Some (0, row.2)) as Hz.
    { rewrite Hd. unfold upgraded, stored, filled. by rewrite Ht, Hcol, Hrow. }
    assert (cfg_role config = RoleValidator) as Hrole' by by rewrite Hcfg.
    destruct (start_validator _ _ _ _ _ _ _ _ _ Hi Hrole' Hstart Hz). lia.
  - unfold main in Hr. destruct (node_config_try_from _ _); [|by injection Hr as <- _].
    destruct (open _ _ _ _ f) as [f1 r1] eqn:E. destruct (open_upgrades _ _ _ _ _ _ _ Hs E) as (_ & Hu & _).
    destruct r1; by injection Hr as <- _.
Qed.
End binary.

(** ** Witnesses *)

(** Addresses of a peer are their length. *)
Definition length_parse : @MultiaddrParse ApiRef.swarm := fun s => Some (Z.of_nat (length s)).
#[local] Existing Instance length_parse.

Definition calm (dns : bool) : MainAnswers :=
  mk_MainAnswers (mk_Filesystem (fun _ => None) (fun _ => true)) (mk_Filesystem (fun _ => None) (fun _ => true))
    None [] (mk_SpawnAnswers dns (fun _ => true) (fun _ => true)) ∅ node_environment (fun _ => true).

(** An observer of the demonstration chain with a peer, and the first validator. *)
Definition binary_args (role : NodeRole) (index : option Z) (demo : bool) : NodeArgs :=
  mk_NodeArgs (str "kcoin-local") role index (mk_SocketAddr (IpV4 0x7F000001) 4100) 5100
    (mk_Path false [str ".kcoin"; str "node.db"]) [str "/dns4/validator-1"] 10 demo.

Definition observer_config : NodeConfig :=
  mk_NodeConfig (str "kcoin-local") RoleObserver None (mk_SocketAddr (IpV4 0x7F000001) 4100) 5100
    (mk_Path false [str ".kcoin"; str "node.db"]) [str "/dns4/validator-1"] 250 true.

Lemma upgraded_new : upgraded new_file = empty_database.
Proof. reflexivity. Qed.

Lemma main_runs_witness :
  exists f' running, main (calm false) (binary_args RoleObserver None true) new_file = (f', Ok running) /\
    na_ledger (run_actor running) = ledger_new local_chain /\ run_network running = None.
Proof.
  edestruct (main_runs (calm false) (binary_args RoleObserver None true) new_file local_chain (ledger_new local_chain)
    observer_config [17]) as (f' & running & Hr & Hl & _ & Hn).
  - apply supported_new.
  - rewrite upgraded_new. apply map_Forall_empty.
  - rewrite upgraded_new. apply stores_chain_empty.
  - reflexivity.
  - split; [done|]. right. by left.
  - reflexivity.
  - done.
  - done.
  - done.
  - reflexivity.
  - by left.
  - done.
  - exists f', running. split; [exact Hr|]. split; [exact Hl|]. by apply Hn.
Defined.

Lemma upgraded_validator_refuses_witness :
  exists f' e, main (calm true) (binary_args RoleValidator (Some 0) false) old_file = (f', Err e) /\
    upgraded f' = upgraded old_file.
Proof.
  destruct (main (calm true) (binary_args RoleValidator (Some 0) false) old_file) as [f' r] eqn:E.
  destruct (upgraded_validator_refuses (calm true) (binary_args RoleValidator (Some 0) false) old_file f' r (1, [x05]))
    as [[e ->] Hu].
  - apply supported_tested. apply old_file_facts.
  - vm_compute. reflexivity.
  - vm_compute. reflexivity.
  - reflexivity.
  - reflexivity.
  - exact E.
  - exists f', e. split; [reflexivity|exact Hu].
Defined.

(** A demonstration observer on a new file. *)
Lemma fresh_observer_runs :
  exists f' running, main (calm false) (binary_args RoleObserver None true) new_file = (f', Ok running) /\
    na_ledger (run_actor running) = ledger_new local_chain /\ run_network running = None.
Proof.
  edestruct (main_succeeds (calm false) (binary_args RoleObserver None true) new_file local_chain (ledger_new local_chain)
    observer_config [17]) as (f' & running & Hr & Hl & _ & Hn).
  - apply supported_new.
  - rewrite upgraded_new. apply map_Forall_empty.
  - rewrite upgraded_new. apply stores_chain_empty.
  - reflexivity.
  - split; [done|]. right. by left.
  - reflexivity.
  - done.
  - done.
  - done.
  - reflexivity.
  - by left.
  - done.
  - exists f', running. split; [exact Hr|]. split; [exact Hl|]. by apply Hn.
Qed.

Lemma main_starts_node_witness :
  exists f' running, main (calm false) (binary_args RoleObserver None true) new_file = (f', Ok running) /\
    complete f' /\ durable (na_store (run_actor running)) = empty_database /\
    cfg_heartbeat_ms (run_config running) = Z.max (arg_heartbeat_ms (binary_args RoleObserver None true)) 250 /\
    cfg_peers (run_config running) = arg_peers (binary_args RoleObserver None true) /\
    node_config (run_actor running) = run_config running.
Proof.
  destruct fresh_observer_runs as (f' & running & E & _).
  destruct (main_starts_node (calm false) (binary_args RoleObserver None true) new_file f' running local_chain
    (ledger_new local_chain)) as (_ & _ & _ & (path & _ & Hconfig) & Hnode & _ & _ & _ & _ & Hc & _ & _ & Hd & _).
  - apply supported_new.
  - rewrite upgraded_new. exact (history_slots_unique _ _ history_new).
  - rewrite upgraded_new. apply stores_chain_empty.
  - reflexivity.
  - exact E.
  - rewrite upgraded_new in Hd. exists f', running. split; [exact E|]. split; [exact Hc|]. split; [exact Hd|].
    split; [exact (f_equal cfg_heartbeat_ms Hconfig)|]. split; [exact (f_equal cfg_peers Hconfig)|exact Hnode].
Defined.
