(* ===== verification/NodeSyncSpec.v ===== *)
(** * Catching up, as a property of two nodes *)

From S2P Require Import Prelude Errors Crypto Transaction Block Commit Ledger LedgerFacts Replay ConsensusTypes Engine Sqlite Store StoreFacts NodeTypes Projection Recovery NodeState Node NodeCommands NodeSteps NodeChain NodeStart NodeMempool NodeExplorer NodeReindex ApiFacts NodeCommit NodeSync Reference Fixtures ConsensusReference NodeReference ApiReference.

Section catch_up.
Context `{Blake3, Blake3Checksum, Ed25519, !SigningKeyBytes, Hex, Bech32, ChallengeJson, Libp2p,
          !Borsh UnsignedTransaction, !Borsh SignedTransaction, !Borsh BlockHeader, !Borsh Block,
          !Borsh StateCommitment, !Borsh CommitVote, !Borsh CommitCertificate,
          !Borsh SignableMessage, !Borsh SignedMessage, !Borsh SignedProposal,
          !Borsh FinalizedWireRecord, !Borsh ValidatorStatusMessage, !SerdeJson SafetyState}.
Context `{!BorshLaws Block, !BorshLaws CommitCertificate, !BorshLaws FinalizedWireRecord, !FinalizedRecordLaws,
          !HexLaws, !Bech32Laws}.
Context (evidence_debug : Evidence -> bytes).

(** C16. A node without a validator key whose chain is a proper prefix of a
    peer's learns the peer's tip from its status and, request after request,
    ends with the peer's ledger, the peer's blocks on its disk and its
    synchronization over, after at most as many answers as blocks were missing.
    This holds when both disks and the network work, and when the blocks of the
    peer hash differently and are fewer, with their transactions, than SQL's
    integers can count. *)
Theorem synchronization_catches_up (c : ChainId) (known missing : list (Block * CommitCertificate)) (db db' : Database)
    (peer : PeerId) (id : OutboundSyncRequestId) (token : Z) (server_ client_ : NodeActor) :
  missing <> [] -> server c (known ++ missing) db server_ -> client c known db' client_ ->
  sync_state client_ = (None, None, None) -> NoDup (block_hash <$> (known ++ missing).*1) ->
  height (na_ledger server_) <= i64_max -> executed_count (na_ledger server_) <= i64_max ->
  responds (S (length missing)) server_ -> requests (S (length missing)) client_ ->
  exists rounds server' client' db'', (rounds <= length missing)%nat /\
    resynchronize evidence_debug rounds token peer id (server_, client_) = (server', client') /\
    na_ledger server' = na_ledger server_ /\ na_ledger client' = na_ledger server_ /\
    client c (known ++ missing) db'' client' /\ is_syncing client' = false.
Proof.
  intros Hne Hs Hc Hst Hnd Hh Hx Hresp Hreq.
  destruct (resynchronize_starts evidence_debug c known missing db db' peer id token server_ client_)
    as (server1 & client1 & id' & E1 & Hl1 & Hcatch); try done.
  destruct (exchanges_reach_target evidence_debug (length missing) _ _ _ _ _ _ _ _ _ _ (token + 1) (Nat.le_refl _) Hcatch)
    as (rounds & server2 & client2 & k & db'' & Hrounds & E2 & Hl2 & Hc2 & Hsync & Htarget).
  pose proof (replayed_height _ _ _ _ (server_replay _ _ _ _ Hs)) as Hsl.
  pose proof (replayed_height _ _ _ _ (holds_replay _ _ _ _ (client_holds _ _ _ _ Hc2))) as Hcl.
  rewrite length_app in Hsl. rewrite length_app, length_take in Hcl.
  assert (take k missing = missing) as Hall by (apply take_ge; lia). rewrite Hall in Hc2.
  exists rounds, server2, client2, db''. split_and!; try done.
  - unfold resynchronize. by rewrite E1.
  - congruence.
  - pose proof (holds_replay _ _ _ _ (client_holds _ _ _ _ Hc2)) as Hr. rewrite (server_replay _ _ _ _ Hs) in Hr.
    by injection Hr.
Qed.
End catch_up.

(** ** A witness *)

#[local] Instance finalized_record_concat : FinalizedRecordLaws.
Proof. by intros []. Qed.

Definition plenty : nat := 20.
Definition generous (self : NodeActor) : NodeActor :=
  set_env (mk_Environment [] [] ((fun n => Some (Z.of_nat n)) <$> seq 1 plenty) (replicate plenty true)) self.

(** An observer that starts on an empty disk. *)
Definition observer : option NodeActor := generous <$> started (demo_config RoleObserver None) empty_database.

Definition hashes_test (db : Database) : bool := bool_decide (NoDup (br_block_hash <$> blocks_ascending db)).

Lemma hashes_tested db history :
  Forall2 row_of (blocks_ascending db) history -> hashes_test db = true -> NoDup (block_hash <$> history.*1).
Proof.
  intros Hrows Hnd%bool_decide_eq_true. apply (NoDup_fmap_1 hash_to_string).
  assert (br_block_hash <$> blocks_ascending db = hash_to_string <$> (block_hash <$> history.*1)) as <-; [|done].
  clear Hnd. induction Hrows as [|row [b cert] rows history Hof _ IH]; [done|]. rewrite !fmap_cons. simpl. f_equal; [|exact IH].
  apply (row_hash _ _ (row_of_shows _ _ _ Hof)).
Qed.

Definition observer_test (b : NodeActor) : bool :=
  serving_test b && id_network (na_identity b) && bool_decide (id_chain_id (na_identity b) = local_chain) &&
  match node_key b with None => true | Some _ => false end && bool_decide (sync_state b = (None, None, None)).

(** The busy node of [ApiReference] has two blocks the observer lacks. *)
Definition busy_test (a : NodeActor) : bool :=
  serving_test a && id_network (na_identity a) && hashes_test (durable (na_store a)) &&
  bool_decide (height (na_ledger a) = 2 /\ executed_count (na_ledger a) <= i64_max).

Lemma busy_and_observer :
  exists a b, standalone_after busy_commands = Some a /\ observer = Some b /\ busy_test a = true /\ observer_test b = true.
Proof.
  assert (match standalone_after busy_commands, observer with
          | Some a, Some b => busy_test a && observer_test b
          | _, _ => false
          end = true) as K by (vm_compute; reflexivity).
  destruct (standalone_after busy_commands) as [a|]; [|discriminate K]. destruct observer as [b|]; [|discriminate K].
  apply andb_prop in K as [K1 K2]. exists a, b. split; [reflexivity|]. split; [reflexivity|]. by split.
Qed.

Lemma serving_settled s : serving_test s = true -> na_store s = settled (durable (na_store s)) /\ disk_typed (durable (na_store s)).
Proof.
  intros [[[Hp Hf]%andb_prop Hw]%andb_prop Ht%disk_typed_tested]%andb_prop. split; [|done].
  apply negb_true_iff in Hp. destruct (na_store s) as [p f d w]. simpl in *. by destruct f, w; subst.
Qed.

(** What the busy node holds. *)
Lemma busy_server a :
  standalone_after busy_commands = Some a -> busy_test a = true ->
  height (na_ledger a) = 2 /\ executed_count (na_ledger a) <= i64_max /\
  exists history, server local_chain history (durable (na_store a)) (generous a) /\ NoDup (block_hash <$> history.*1).
Proof.
  intros Ha [[[Ht Hn]%andb_prop Hnd]%andb_prop [Hh Hx]%bool_decide_eq_true]%andb_prop. split; [done|]. split; [done|].
  destruct (serving_settled _ Ht) as [Hst Htyped]. destruct (standalone_explorer _ _ Ha) as [_ [Hchain _]].
  destruct (stored_history _ _ _ Hchain) as (history & Hrows & _). exists history. split; [|by eapply hashes_tested].
  split; [exact Hst|exact Hrows| |exact Hchain|exact Hn].
  eapply disk_typed_history; [exact Htyped|]. eapply Forall2_impl; [exact Hrows|]. by intros ?? [].
Qed.

Lemma holds_nothing c : holds c [] empty_database (ledger_new c).
Proof.
  split; [apply stores_explorer_empty|constructor|constructor|].
  split; [done|]. apply map_Forall_empty.
Qed.

(** The observer knows nothing yet. *)
Lemma observer_client b :
  observer = Some b -> observer_test b = true ->
  client local_chain [] empty_database b /\ sync_state b = (None, None, None) /\
  env_requests (na_env b) = (fun n => Some (Z.of_nat n)) <$> seq 1 plenty.
Proof.
  intros (self & [st E]%started_start & ->)%fmap_Some
    [[[[[Hst _]%serving_settled Hn]%andb_prop Hc%bool_decide_eq_true]%andb_prop Hk]%andb_prop Hs%bool_decide_eq_true]%andb_prop.
  split; [|done].
  destruct (start_node_Ok _ _ _ _ (fresh_disk empty_database) _ _ eq_refl (history_slots_unique _ _ history_new) E)
    as (Hst' & _ & Hd & Hh & _ & Hv & _). rewrite <- Hst' in Hd.
  destruct (start_node_chain (demo_config RoleObserver None) _ _ _ (fresh_disk empty_database) _ _ local_chain _ eq_refl
    (history_slots_unique _ _ history_new) (stores_chain_empty _) eq_refl E) as [Hl _].
  split; [| exact Hv | exact Hc | | exact Hh | | exact Hn].
  - etrans; [exact Hst|]. f_equal. exact Hd.
  - cbn [na_ledger generous set_env]. rewrite Hl. apply holds_nothing.
  - by destruct (node_key _).
Qed.

Lemma seq_lookup_given i : (i < plenty)%nat -> ((fun n => Some (Z.of_nat n)) <$> seq 1 plenty) !! i = Some (Some (Z.of_nat (1 + i))).
Proof. intros Hi. rewrite list_lookup_fmap, lookup_seq_lt by done. done. Qed.

Definition busy_peer : PeerId := (7 : Z).

(** The observer ends with the two blocks of the busy node. *)
Lemma synchronization_catches_up_witness :
  exists a b rounds server' client', standalone_after busy_commands = Some a /\ observer = Some b /\
    height (na_ledger b) = 0 /\ (rounds <= 2)%nat /\
    resynchronize no_debug rounds 0 busy_peer 0 (generous a, b) = (server', client') /\
    height (na_ledger client') = 2 /\ is_syncing client' = false.
Proof.
  destruct busy_and_observer as (a & b & Ha & Hb & Ta & Tb).
  destruct (busy_server a Ha Ta) as (Hh & Hx & history & Hserver & Hnd).
  destruct (observer_client b Hb Tb) as (Hclient & Hst & Hreq).
  pose proof (replayed_height _ _ _ _ (server_replay _ _ _ _ Hserver)) as Hlen.
  cbn [na_ledger generous set_env] in Hlen. rewrite Hh in Hlen.
  destruct (synchronization_catches_up no_debug local_chain [] history (durable (na_store a)) empty_database busy_peer 0 0 (generous a) b)
    as (rounds & server' & client' & db'' & Hr & E & _ & Hl & _ & Hs).
  - intros ->. discriminate Hlen.
  - exact Hserver.
  - exact Hclient.
  - exact Hst.
  - exact Hnd.
  - cbn [na_ledger generous set_env]. rewrite Hh. done.
  - exact Hx.
  - intros i Hi. apply lookup_replicate_2. cbn [length app] in *. unfold plenty. lia.
  - intros i Hi. rewrite Hreq. eexists. apply seq_lookup_given. cbn [length app] in *. unfold plenty. lia.
  - pose proof (replayed_height _ _ _ _ (holds_replay _ _ _ _ (client_holds _ _ _ _ Hclient))) as Hz.
    exists a, b, rounds, server', client'. split; [exact Ha|]. split; [exact Hb|]. split; [exact Hz|].
    split; [lia|]. split; [exact E|]. split; [|exact Hs]. rewrite Hl. exact Hh.
Defined.
